(* ===== verification/_CoqProject ===== *)
-Q . S2P
Prelude.v
HeadersCache.v
TreeRoute.v
BlockListener.v
BlockListenerFacts.v
ToyChain.v
ListenerProps.v
Scale.v
ScaleLE.v
RpcTypes.v
RpcTypesProps.v
Types.v
Events.v
Chain.v
Db.v
IndexerError.v
DbPool.v
ToyIndexer.v
ChainProps.v
SharePrice.v
DbXdm.v
DbXdmProps.v
DbStakingProps.v
Staking.v
StakingFacts.v
StakingProps.v
DbTypes.v
Xdm.v
XdmFacts.v
Processor.v
Processors.v
ProcessorProps.v
StatusRace.v
Follow.v
NodeChains.v
Canonical.v
XdmCanonical.v
System.v
SystemTransfers.v
LostReorgs.v
EndToEnd.v
XdmProps.v
Api.v
ApiProps.v
Served.v
ServedTransfers.v
Alerts.v
Slots.v
SlotsProps.v
StallReorg.v
StallReorgProps.v
AlertEvents.v
AlertEventsProps.v
MdFormat.v
MdFormatProps.v
Slack.v
SlackProps.v
AlertPath.v
P2p.v
P2pProps.v
Network.v
Startup.v
StartupProps.v
TestUtils.v
StorageTests.v
NodeTests.v
