(* ===== verification/Prelude.v ===== *)
(** * Chain Pulse: a verification library

    Chain Pulse watches the Autonomys (Subspace) chains. Three crates are
    modelled: [shared] follows the best chain of a node and broadcasts it;
    [indexer] reads the broadcast blocks, stores transfers between chains and the
    staking of operators and nominators in a database and serves them over
    HTTP; [alerter] turns blocks, slots and events into Slack messages.

    ** How the parts interact

    A [Subspace] (per chain) runs [listen_for_all_blocks]: it loads a cache of
    headers, follows the subscription of all blocks, computes the route from the
    old best block to the new one and sends a [BlocksExt] over a broadcast channel.
    The channel's receivers are the processors of the indexer ([run_processor]:
    one for the transfers of each chain, one for staking) and two monitors of
    the alerter. A processor reads the events of each block ([BlockExt]), runs SQL
    statements and writes a checkpoint in the same database; the HTTP handlers
    read the tables. The monitors send [Alert]s over an unbounded channel to the
    Slack loop.

    ** Files, and the code they model

    Generic
    - [Prelude]: results that may also panic ([outcome]), code over a mutable
      state ([SE]), machine integers, and the lemmas all files share.

    [shared]
    - [HeadersCache]: the headers cache and the errors ([shared/src/subspace.rs],
      [shared/src/error.rs]).
    - [TreeRoute]: the contract of [sp_blockchain::tree_route] as a class, and a
      reference implementation that shows it can hold.
    - [BlockListener]: the listener, its reconnections and what it broadcasts;
      [BlockListenerFacts] its invariant, [ListenerProps] its theorems on
      [ToyChain], a chain with a fork.
    - [Scale], [ScaleLE]: the primitive decoders as an interface with laws, and
      a little-endian implementation of it.
    - [Chain], [ChainProps]: reads of storage, balances, timestamps, events and
      segmented events at a block.
    - [Network]: connecting under the start-up timeout, and the details of the
      network a node describes.

    [indexer]
    - [RpcTypes], [RpcTypesProps]: the hand-written decoders ([rpc_types.rs]).
    - [Types], [Events], [IndexerError]: [types.rs], [events.rs], [error.rs].
    - [Db]: the tables of the migrations and every statement and query of
      [storage.rs]; [DbXdm] gives each transfer statement as an update of a row,
      [DbXdmProps] and [DbStakingProps] are the theorems on the tables; [DbPool] connects
      to the database and logs the pool.
    - [SharePrice]: when a text denotes a price, and that no conversion rounds;
      [DbTypes]: the types of the columns, and that every statement respects
      them.
    - [Staking] ([staking.rs]) with [StakingFacts] (handlers as traces of
      statements) and [StakingProps]; [Xdm] ([xdm.rs]) with [XdmFacts] (what a block is
      observed to hold) and [XdmProps].
    - [Processor] ([processor.rs]): blocks in flight as a step relation and the
      executable loop; [Processors] the two instances, [ProcessorProps] the theorems;
      [StatusRace] a schedule on which the status of an operator depends.
    - [Follow]: a processor behind a node that moves and among other writers, with the
      interface ([Indexing]) of what a processor must satisfy to follow the node;
      [NodeChains]: the chains behind the listener's messages; [Canonical] and [XdmCanonical]:
      the staking and the transfer processors keep to the interface.
    - [System], [SystemTransfers]: the three processors on one database, from the listener
      to the rows; [LostReorgs]: runs in which rows of abandoned blocks stay; [EndToEnd]
      the listener and a processor composed over the broadcast channel.
    - [Api], [ApiProps]: the HTTP handlers ([api.rs]); [Served], [ServedTransfers]: from the
      chains to what they answer.
    - [ToyIndexer]: concrete instances of the third-party interfaces.
    - [TestUtils] ([test_utils.rs]), [StorageTests], [NodeTests]: the tests of the indexer as
      code over the model, which pass on it.

    [alerter]
    - [Alerts]: alerts, events and errors ([slack.rs], [event_types.rs],
      [error.rs]).
    - [Slots], [SlotsProps] ([slots.rs]); [StallReorg], [StallReorgProps]
      ([stall_and_reorg.rs]); [AlertEvents], [AlertEventsProps] ([events.rs]).
    - [MdFormat], [MdFormatProps] ([md_format.rs]): the message of an alert; [Slack],
      [SlackProps] ([slack.rs]): the secret and the posting loop; [AlertPath]: from a
      reorganisation of the node to the post in Slack.
    - [P2p], [P2pProps] ([p2p_network.rs]): the peers by role, the proofs of time
      and the calls to the swarm.

    Programs
    - [Startup], [StartupProps]: [main] of both programs ([alerter/src/main.rs],
      [cli.rs], [uptime.rs], [indexer/src/main.rs]) as the tasks they spawn.

    ** Conventions

    A function of the source keeps its name. Its state is an explicit record:
    the cache and best block ([Listener]), the tables ([Db]), the local variables
    of a loop ([SlotMonitor], [Watch], [PState]). [Result] and panics are
    [outcome]; writes before a failure stay ([SE]). Integers are [Z] with their
    width written at every cast and checked operation; text is [string], bytes
    are [list byte]. Third-party code is a class of functions with the laws the
    code relies on (hashing, SCALE, tree routes, field decoding, SS58 and
    hexadecimal text, decimals, times, bounded vectors, the texts in messages,
    timeouts, JSON values, peers), and every theorem that uses laws has a witness on
    an instance. Files, nodes and servers are records of what they answer.

    Loops without a structural argument have fuel that theorems show to be enough:
    the retries of [recursive_tree_route] are bounded by the headers the node has
    ([recursive_tree_route_returns]), pruning by the heights in the cache
    ([remove_header_until_correct]). Streams are lists of what they give.

    ** What the theorems show

    - The whole indexer: with its processors interleaved on one database and the node
      moving on meanwhile, the rows of deposits and withdrawals, and the rows of transfers for
      the events of the chain, end as those of the canonical chain ([System.indexer_canonical],
      [SystemTransfers.transfers_canonical]), and this is what the API serves
      ([Served.history_canonical], [ServedTransfers.transfers_told]). This is within one
      subscription of the listener of which the processor receives every message and which never
      switches to a branch with a single new block; [LostReorgs] shows runs without
      these conditions in which rows of abandoned blocks stay. Under the same kind of
      conditions a deep reorganisation ends in Slack ([AlertPath.reorgs_reach_slack]).
    - Listener: a subscriber that replays the broadcast of a subscription has the full
      ancestry of the best block; errors of the node do not end it; pruning is exact, up
      to gaps.
    - Processing: a checkpoint never passes a block that has not run all its
      statements, in any interleaving and at any failure; the loop ends, with the
      checkpoint at the listener's best block.
    - Tables: transfers are assembled in any order; deposits and withdrawals of
      a block survive interrupted runs; nominator updates commute; the
      materialized counts are right; every number fits its column, and no number of
      the chain is rejected. The status of an operator alone depends on the
      scheduling.
    - Decoders and reads: round trips, errors and bounds.
    - API: legal queries and right pages for every input, right errors.
    - Monitors: alerts as a function of the history of the stream.
    - Messages: which alerts have one, and what it names; every alert is posted once,
      in order, with a secret that nobody else can read.
    - Programs: connecting ends, start-up is all or nothing, checkpoints are not
      shared, peers are known by what was last heard of them.

    ** Not modelled

    The wire: connecting, subscribing and metadata updates (subxt), the work of the connection
    pool and the migrations (sqlx), HTTP routing and JSON (actix, serde), building and driving
    the swarm (libp2p), the HTTP calls to Slack and the uptime server, parsing of
    arguments and TOML. Wiping the secret from memory, and logging. A [Client] answers as a
    function of the block and the query: a read of the same data that fails once and works
    later is not modelled. *)

From Stdlib Require Import ZArith Lia.
From stdpp Require Export base tactics option list gmap sets strings pretty sorting.

#[global] Open Scope Z_scope.
#[global] Set Default Goal Selector "!".

(** ** Fallible code

    [outcome E A] is a Rust [Result<A, E>] of code that may also panic
    (a failed [expect] or [assert_eq!], an arithmetic overflow: the workspace
    builds its release profile with [overflow-checks = true]). [Diverge] is the
    result of a loop of the model that used up its fuel: a call that would not
    return. Every loop that can give it has a theorem that it does not. *)
Inductive outcome (E A : Type) : Type :=
  | Ok (a : A)
  | Err (e : E)
  | Panic
  | Diverge.
Arguments Ok {E A} _.
Arguments Err {E A} _.
Arguments Panic {E A}.
Arguments Diverge {E A}.

#[export] Instance outcome_ret {E} : MRet (outcome E) := fun A a => Ok a.
#[export] Instance outcome_bind {E} : MBind (outcome E) := fun A B f m =>
  match m with
  | Ok a => f a
  | Err e => Err e
  | Panic => Panic
  | Diverge => Diverge
  end.
#[export] Instance outcome_fmap {E} : FMap (outcome E) := fun A B f m =>
  match m with
  | Ok a => Ok (f a)
  | Err e => Err e
  | Panic => Panic
  | Diverge => Diverge
  end.

(** [Option::ok_or]. *)
Definition ok_or {E A} (o : option A) (e : E) : outcome E A :=
  match o with Some a => Ok a | None => Err e end.

(** [Option::expect]. *)
Definition expect {E A} (o : option A) : outcome E A :=
  match o with Some a => Ok a | None => Panic end.

(** [Result::map_err]; the [?] operator converts errors with it. *)
Definition map_err {E E' A} (f : E -> E') (m : outcome E A) : outcome E' A :=
  match m with
  | Ok a => Ok a
  | Err e => Err (f e)
  | Panic => Panic
  | Diverge => Diverge
  end.

Definition is_ok {E A} (m : outcome E A) : bool :=
  match m with Ok _ => true | _ => false end.

(** ** Stateful fallible code

    [SE S E A] is code over a mutable state [S] that may fail: the writes made
    before a failure stay, as they do for a [&mut] argument or a database. *)
Definition SE (S E A : Type) : Type := S -> S * outcome E A.

#[export] Instance SE_ret {S E} : MRet (SE S E) := fun A a s => (s, Ok a).
#[export] Instance SE_bind {S E} : MBind (SE S E) := fun A B f m s =>
  match m s with
  | (s', Ok a) => f a s'
  | (s', Err e) => (s', Err e)
  | (s', Panic) => (s', Panic)
  | (s', Diverge) => (s', Diverge)
  end.

Definition lift {S E A} (m : outcome E A) : SE S E A := fun s => (s, m).
Definition gets {S E A} (f : S -> A) : SE S E A := fun s => (s, Ok (f s)).
Definition modify {S E} (f : S -> S) : SE S E unit := fun s => (f s, Ok tt).
Definition throw {S E A} (e : E) : SE S E A := fun s => (s, Err e).
Definition panic {S E A} : SE S E A := fun s => (s, Panic).
Definition diverge {S E A} : SE S E A := fun s => (s, Diverge).

(** Code that works on a part of the state. *)
Definition zoom {S T E A} (get : S -> T) (set : T -> S -> S) (m : SE T E A) : SE S E A :=
  fun s => let '(t, r) := m (get s) in (set t s, r).

(** A [for] loop whose body may leave the function early with an error. *)
Fixpoint for_each {S E A} (l : list A) (body : A -> SE S E unit) : SE S E unit :=
  match l with
  | [] => mret tt
  | x :: l' => body x ≫= fun _ => for_each l' body
  end.

(** ** Machine integers

    A [w]-bit unsigned integer is a [Z] in [0, 2^w). *)
Definition in_u (w z : Z) : Prop := 0 <= z < 2 ^ w.

(** [as uN]: truncation to the low bits. *)
Definition as_u (w z : Z) : Z := z mod 2 ^ w.

(** [as iN]: truncation and reinterpretation in two's complement. *)
Definition as_i (w z : Z) : Z :=
  let r := z mod 2 ^ w in if r <? 2 ^ (w - 1) then r else r - 2 ^ w.

(** [a + b] and [a * b] on [uN], with overflow checks. *)
Definition add_u {E} (w a b : Z) : outcome E Z :=
  if a + b <? 2 ^ w then Ok (a + b) else Panic.
Definition mul_u {E} (w a b : Z) : outcome E Z :=
  if a * b <? 2 ^ w then Ok (a * b) else Panic.

(** [10uN.pow(e)], with overflow checks. *)
Definition pow10_u {E} (w e : Z) : outcome E Z :=
  if 10 ^ e <? 2 ^ w then Ok (10 ^ e) else Panic.

(** [uN::saturating_sub] and [uN::saturating_add]. *)
Definition saturating_sub (a b : Z) : Z := Z.max 0 (a - b).
Definition saturating_add (limit a b : Z) : Z := Z.min limit (a + b).

(** [Ord::clamp]. *)
Definition clamp (lo hi z : Z) : Z := Z.max lo (Z.min hi z).

(** [Duration::from_secs], in nanoseconds. *)
Definition from_secs (s : Z) : Z := s * 10 ^ 9.

(** The integers [from..=to], in order. *)
Definition range_incl (from to : Z) : list Z := seqZ from (to - from + 1).

(** ** Lemmas on outcomes *)

Lemma bind_Ok {E A B} (m : outcome E A) (f : A -> outcome E B) b :
  m ≫= f = Ok b <-> exists a, m = Ok a /\ f a = Ok b.
Proof. destruct m; cbn; naive_solver. Qed.

Lemma bind_Err {E A B} (m : outcome E A) (f : A -> outcome E B) e :
  m ≫= f = Err e <-> m = Err e \/ exists a, m = Ok a /\ f a = Err e.
Proof. destruct m; cbn; naive_solver. Qed.

Lemma bind_Panic {E A B} (m : outcome E A) (f : A -> outcome E B) :
  m ≫= f = Panic <-> m = Panic \/ exists a, m = Ok a /\ f a = Panic.
Proof. destruct m; cbn; naive_solver. Qed.

Lemma bind_Diverge {E A B} (m : outcome E A) (f : A -> outcome E B) :
  m ≫= f = Diverge <-> m = Diverge \/ exists a, m = Ok a /\ f a = Diverge.
Proof. destruct m; cbn; naive_solver. Qed.

Lemma mapM_Ok {E A B} (f : A -> outcome E B) l k :
  mapM f l = Ok k <-> Forall2 (fun x y => f x = Ok y) l k.
Proof.
  split.
  - revert k. induction l as [|x l IH]; cbn; intros k Hk.
    + injection Hk as <-. constructor.
    + apply bind_Ok in Hk as (y & Hy & Hk).
      apply bind_Ok in Hk as (k' & Hk' & [= <-]). eauto.
  - induction 1 as [|x y l k Hy _ IH]; cbn; [done|]. by rewrite Hy; cbn; rewrite IH.
Qed.

Lemma fmap_Ok_inj {E A} (l k : list A) :
  (Ok <$> l : list (outcome E A)) = Ok <$> k -> l = k.
Proof.
  revert k. induction l as [|x l IH]; intros [|y k] Hlk; cbn in Hlk; try done.
  injection Hlk as -> Hlk. f_equal. by apply IH.
Qed.

Lemma mapM_Err {E A B} (f : A -> outcome E B) l e :
  mapM f l = Err e -> exists x, x ∈ l /\ f x = Err e.
Proof.
  induction l as [|x l IH]; cbn; [done|].
  rewrite bind_Err. intros [He | (y & Hy & He)].
  - exists x. split; [left | done].
  - apply bind_Err in He as [He | (k & _ & [=])].
    destruct (IH He) as (z & Hz & Hfz). exists z. split; [by right | done].
Qed.

Lemma mapM_Panic {E A B} (f : A -> outcome E B) l :
  mapM f l = Panic -> exists x, x ∈ l /\ f x = Panic.
Proof.
  induction l as [|x l IH]; cbn; [done|].
  rewrite bind_Panic. intros [He | (y & Hy & He)].
  - exists x. split; [left | done].
  - apply bind_Panic in He as [He | (k & _ & [=])].
    destruct (IH He) as (z & Hz & Hfz). exists z. split; [by right | done].
Qed.

Lemma mapM_Diverge {E A B} (f : A -> outcome E B) l :
  mapM f l = Diverge -> exists x, x ∈ l /\ f x = Diverge.
Proof.
  induction l as [|x l IH]; cbn; [done|].
  rewrite bind_Diverge. intros [He | (y & Hy & He)].
  - exists x. split; [left | done].
  - apply bind_Diverge in He as [He | (k & _ & [=])].
    destruct (IH He) as (z & Hz & Hfz). exists z. split; [by right | done].
Qed.

(** ** Lemmas on stateful code *)

Lemma SE_bind_unfold {S E A B} (m : SE S E A) (f : A -> SE S E B) s :
  (m ≫= f) s =
    match m s with
    | (s', Ok a) => f a s'
    | (s', Err e) => (s', Err e)
    | (s', Panic) => (s', Panic)
    | (s', Diverge) => (s', Diverge)
    end.
Proof. reflexivity. Qed.

(** Code that ended well went well at each step. *)
Lemma SE_bind_Ok {S E A B} (m : SE S E A) (f : A -> SE S E B) s s' b :
  (m ≫= f) s = (s', Ok b) -> exists s1 a, m s = (s1, Ok a) /\ f a s1 = (s', Ok b).
Proof.
  rewrite SE_bind_unfold. destruct (m s) as [s1 [a| | |]]; try done. eauto.
Qed.

(** An invariant of the state that the body of a loop preserves, whatever its
    result, is preserved by the loop. *)
Lemma for_each_inv {S E A} (P : S -> Prop) (l : list A) (body : A -> SE S E unit) :
  (forall x s, x ∈ l -> P s -> P (body x s).1) ->
  forall s, P s -> P (for_each l body s).1.
Proof.
  induction l as [|x l IH]; intros Hbody s Hs; cbn; [done|].
  rewrite SE_bind_unfold.
  assert (Hx : P (body x s).1) by (apply Hbody; [left | done]).
  destruct (body x s) as [s' [[]| e | |]]; cbn in *; [| done..].
  apply IH; [|done]. intros y t Hy. apply Hbody. by right.
Qed.

Lemma for_each_app {S E A} (l1 l2 : list A) (body : A -> SE S E unit) s :
  for_each (l1 ++ l2) body s = (for_each l1 body ≫= fun _ => for_each l2 body) s.
Proof.
  revert s. induction l1 as [|x l1 IH]; intros s; [done|].
  cbn [app for_each]. rewrite !SE_bind_unfold.
  destruct (body x s) as [s' [[]| | |]]; [apply IH | done..].
Qed.

(** ** Lemmas on machine integers *)

Lemma in_u_as_u w z : in_u w z -> as_u w z = z.
Proof. intros. by apply Z.mod_small. Qed.

Lemma as_u_range w z : 0 <= w -> in_u w (as_u w z).
Proof. intros. apply Z.mod_pos_bound. lia. Qed.

Lemma as_i_small w z : 0 < w -> 0 <= z < 2 ^ (w - 1) -> as_i w z = z.
Proof.
  intros Hw Hz. unfold as_i.
  assert (2 ^ w = 2 * 2 ^ (w - 1)) by (rewrite <- Z.pow_succ_r by lia; f_equal; lia).
  rewrite Z.mod_small by lia. destruct (Z.ltb_spec z (2 ^ (w - 1))); lia.
Qed.

(** Reinterpreting as signed and back is the identity on unsigned values. *)
Lemma as_u_as_i w z : 0 < w -> in_u w z -> as_u w (as_i w z) = z.
Proof.
  intros Hw Hz. unfold as_u, as_i.
  rewrite (Z.mod_small z) by done.
  destruct (z <? 2 ^ (w - 1)).
  - by apply Z.mod_small.
  - replace (z - 2 ^ w) with (z + (-1) * 2 ^ w) by lia.
    rewrite Z.mod_add by lia. by apply Z.mod_small.
Qed.

Lemma as_i_inj w a b : 0 < w -> in_u w a -> in_u w b -> as_i w a = as_i w b -> a = b.
Proof.
  intros Hw Ha Hb Hab. rewrite <- (as_u_as_i w a), <- (as_u_as_i w b) by done.
  by rewrite Hab.
Qed.

Lemma clamp_range lo hi z : lo <= hi -> lo <= clamp lo hi z <= hi.
Proof. unfold clamp. lia. Qed.

Lemma range_incl_elem_of from to z : z ∈ range_incl from to <-> from <= z <= to.
Proof. unfold range_incl. rewrite elem_of_seqZ. lia. Qed.

Lemma range_incl_empty from to : to < from -> range_incl from to = [].
Proof. intros. unfold range_incl. apply seqZ_nil. lia. Qed.

Lemma range_incl_cons from to :
  from <= to -> range_incl from to = from :: range_incl (from + 1) to.
Proof.
  intros. unfold range_incl. rewrite seqZ_cons by lia. f_equal. f_equal; lia.
Qed.

(** ** Lemmas on lists *)

Lemma Forall2_elem_l {A B} (P : A -> B -> Prop) l k x :
  Forall2 P l k -> x ∈ l -> exists y, y ∈ k /\ P x y.
Proof.
  induction 1 as [|x' y l k Hxy _ IH]; intros Hx; [by apply not_elem_of_nil in Hx|].
  apply elem_of_cons in Hx as [->|Hx]; [exists y; split; [left | done]|].
  destruct (IH Hx) as (z & Hz & Hxz). exists z. split; [by right | done].
Qed.

Lemma Forall2_elem_r {A B} (P : A -> B -> Prop) l k y :
  Forall2 P l k -> y ∈ k -> exists x, x ∈ l /\ P x y.
Proof.
  intros Hlk. apply Forall2_flip in Hlk. intros Hy. by eapply (Forall2_elem_l (flip P)).
Qed.

Lemma fmap_rev {A B} (f : A -> B) l : f <$> rev l = rev (f <$> l).
Proof. induction l as [|x l IH]; cbn; [done|]. by rewrite fmap_app, IH. Qed.

Lemma fmap_removelast {A B} (f : A -> B) l : f <$> removelast l = removelast (f <$> l).
Proof. induction l as [|x [|y l] IH]; cbn in *; [done..|]. by rewrite IH. Qed.

Lemma last_rev_head {A} (l : list A) x : last l = Some x -> head (rev l) = Some x.
Proof. intros Hl. apply last_Some in Hl as [l' ->]. by rewrite rev_unit. Qed.

(** Updates that commute and are idempotent: applying a list of them depends on
    its elements only, not on their order or multiplicity. *)
Section CommutingUpdates.
Context {A S : Type} `{!EqDecision A} (f : A -> S -> S).

Definition commuting (l : list A) : Prop :=
  (forall x y s, x ∈ l -> y ∈ l -> f x (f y s) = f y (f x s)) /\
  (forall x s, x ∈ l -> f x (f x s) = f x s).

Lemma commuting_weaken l l' : (forall x, x ∈ l' -> x ∈ l) -> commuting l -> commuting l'.
Proof. intros Hsub [Hc Hi]. split; eauto. Qed.

Lemma foldr_commuting_absorb l x s :
  commuting l -> x ∈ l -> f x (foldr f s l) = foldr f s l.
Proof.
  intros Hl Hx. induction l as [|y l IH]; [by apply not_elem_of_nil in Hx|]. cbn.
  destruct (decide (x = y)) as [->|Hne].
  - apply Hl. left.
  - assert (x ∈ l) by (apply elem_of_cons in Hx as [|]; [done|done]).
    rewrite (proj1 Hl x y) by (by constructor). f_equal. apply IH; [|done].
    eapply commuting_weaken; [|exact Hl]. intros. by right.
Qed.

Lemma foldr_remove_dups l s : commuting l -> foldr f s (remove_dups l) = foldr f s l.
Proof.
  induction l as [|x l IH]; intros Hl; [done|]. cbn.
  assert (Hl' : commuting l) by (eapply commuting_weaken; [|exact Hl]; intros; by right).
  destruct (decide_rel _ x l) as [Hx|Hx].
  - by rewrite IH, foldr_commuting_absorb.
  - cbn. by rewrite IH.
Qed.

Lemma foldr_commuting_perm l l' s : commuting l -> l ≡ₚ l' -> foldr f s l = foldr f s l'.
Proof.
  intros Hl Hp. revert Hl. induction Hp as [|x l l' Hp IH|x y l|l1 l2 l3 H12 IH1 H23 IH2]; intros Hl.
  - done.
  - cbn. rewrite IH; [done|]. eapply commuting_weaken; [|exact Hl]. intros. by right.
  - cbn. apply Hl; [left | right; left].
  - rewrite IH1 by done. apply IH2. eapply commuting_weaken; [|exact Hl].
    intros z Hz. by rewrite H12.
Qed.

Lemma foldr_commuting_set l l' s :
  commuting l -> (forall x, x ∈ l <-> x ∈ l') -> foldr f s l = foldr f s l'.
Proof.
  intros Hl Hset.
  assert (Hl' : commuting l') by (eapply commuting_weaken; [|exact Hl]; intros; by apply Hset).
  rewrite <- (foldr_remove_dups l), <- (foldr_remove_dups l') by done.
  apply foldr_commuting_perm.
  - eapply commuting_weaken; [|exact Hl]. intros x. by rewrite elem_of_remove_dups.
  - apply NoDup_Permutation; [apply NoDup_remove_dups..|].
    intros x. by rewrite !elem_of_remove_dups.
Qed.
End CommutingUpdates.

(** ** Automation *)

Create HintDb pulse.
#[export] Hint Resolve as_u_range clamp_range as_i_small : pulse.

(** Takes apart hypotheses that say how a chain of [?] ended. *)
Ltac inv_outcome :=
  repeat match goal with
  | H : Ok _ = Ok _ |- _ => injection H as H; subst
  | H : Err _ = Err _ |- _ => injection H as H; subst
  | H : Ok _ = Err _ |- _ => discriminate H
  | H : Err _ = Ok _ |- _ => discriminate H
  | H : Ok _ = Panic |- _ => discriminate H
  | H : Panic = Ok _ |- _ => discriminate H
  | H : Err _ = Panic |- _ => discriminate H
  | H : Panic = Err _ |- _ => discriminate H
  | H : mret _ = _ |- _ => unfold mret, outcome_ret in H
  | H : mbind _ _ = Ok _ |- _ => apply bind_Ok in H as (? & ? & H)
  end.
