(* ===== verification/HeadersCache.v ===== *)
(** * The header cache of the block listener

    Models [HeadersMetadataCache] of [shared/src/subspace.rs] and the error type of
    [shared/src/error.rs].

    The hash of a header ([Header::hash], BLAKE2-256 of the SCALE encoding)
    and the re-encoding of its digest are code of [sp_runtime] and [subxt]:
    they are the fields of the class [HeaderHashing]. *)

From S2P Require Import Prelude.

(** [shared::error::Error]. The payloads of third-party errors are kept as
    their message. *)
Inductive Error (Hash : Type) : Type :=
  | Subxt (msg : string)
  | SubscriptionClosed
  | Rpc (msg : string)
  | ConnectTimeout
  | MissingBlockHashFromCache (hash : Hash)
  | MissingBlockBody (hash : Hash)
  | MissingBlockHeaderForNumber (number : Z)
  | MissingBlockHeaderForHash (hash : Hash)
  | Storage (what : string)
  | Scale (msg : string)
  | Config (msg : string).
Arguments Subxt {Hash} _.
Arguments SubscriptionClosed {Hash}.
Arguments Rpc {Hash} _.
Arguments ConnectTimeout {Hash}.
Arguments MissingBlockHashFromCache {Hash} _.
Arguments MissingBlockBody {Hash} _.
Arguments MissingBlockHeaderForNumber {Hash} _.
Arguments MissingBlockHeaderForHash {Hash} _.
Arguments Storage {Hash} _.
Arguments Scale {Hash} _.
Arguments Config {Hash} _.

(** The third-party types of a Substrate chain: hashes, the digest of a
    [SubstrateHeader] (subxt) and the digest of a [Header] (sp_runtime). *)
Class ChainTypes : Type := {
  Hash : Type;
  Hash_eq :: EqDecision Hash;
  Hash_countable :: Countable Hash;
  SubxtDigest : Type;
  Digest : Type;
}.

Section Headers.
Context `{ChainTypes}.

(** [subxt]'s [SubstrateHeader]. *)
Record SubstrateHeader : Type := {
  s_parent_hash : Hash;
  s_number : Z;
  s_state_root : Hash;
  s_extrinsics_root : Hash;
  s_digest : SubxtDigest;
}.

(** [sp_runtime]'s [generic::Header<u32, BlakeTwo256>]. *)
Record Header : Type := {
  parent_hash : Hash;
  number : Z;
  state_root : Hash;
  extrinsics_root : Hash;
  digest : Digest;
}.

(** [sp_blockchain::CachedHeaderMetadata]: the fields [tree_route] reads. *)
Record CachedHeaderMetadata : Type := {
  md_hash : Hash;
  md_number : Z;
  md_parent : Hash;
}.

(** [sp_blockchain::HashAndNumber]. *)
Record HashAndNumber : Type := {
  hn_number : Z;
  hn_hash : Hash;
}.

(** [HeadersMetadataCache]. *)
Record HeadersMetadataCache : Type := {
  block_header_data : gmap Hash Header;
  block_number_hashes : gmap Z (gset Hash);
}.

Definition default_cache : HeadersMetadataCache :=
  {| block_header_data := ∅; block_number_hashes := ∅ |}.

End Headers.
Arguments HashAndNumber {_}.
Arguments SubstrateHeader {_}.
Arguments Header {_}.
Arguments CachedHeaderMetadata {_}.
Arguments HeadersMetadataCache {_}.

(** What the code takes from [subxt] and [sp_runtime] to hash a header. *)
Class HeaderHashing `{ChainTypes} : Type := {
  (** [Digest::decode(digest.encode())] *)
  redecode_digest : SubxtDigest -> option Digest;
  (** [Header::hash] *)
  header_hash : Header -> Hash;
}.

(** BLAKE2-256 is collision resistant: two headers in use do not share a hash. *)
Class CollisionFree `{HeaderHashing} : Prop :=
  header_hash_inj : forall h1 h2 : Header, header_hash h1 = header_hash h2 -> h1 = h2.

Section Cache.
Context `{HeaderHashing}.
Implicit Types (c : HeadersMetadataCache) (h : Hash).

(** The [Header] that [add_header] builds from a [SubstrateHeader]. *)
Definition convert_header (sh : SubstrateHeader) : option Header :=
  d ← redecode_digest (s_digest sh);
  Some {| parent_hash := s_parent_hash sh;
          number := s_number sh;
          state_root := s_state_root sh;
          extrinsics_root := s_extrinsics_root sh;
          digest := d |}.

Definition insert_header c (hdr : Header) : HeadersMetadataCache :=
  let hash := header_hash hdr in
  let number := number hdr in
  {| block_header_data := <[hash := hdr]> (block_header_data c);
     block_number_hashes :=
       <[number := {[hash]} ∪ default ∅ (block_number_hashes c !! number)]>
         (block_number_hashes c) |}.

Definition add_header (sh : SubstrateHeader) : SE HeadersMetadataCache (Error Hash) Hash :=
  header ← lift (expect (convert_header sh));
  _ ← modify (fun c => insert_header c header);
  mret (header_hash header).

(** One turn of the [while let] of [remove_header_until]: the hashes of one
    height leave both maps. *)
Definition remove_number c (n : Z) (hashes : gset Hash) : HeadersMetadataCache :=
  {| block_header_data :=
       set_fold (fun h m => delete h m) (block_header_data c) hashes;
     block_number_hashes := delete n (block_number_hashes c) |}.

Fixpoint remove_loop (fuel : nat) (to_remove : Z) c : option HeadersMetadataCache :=
  match fuel with
  | O => None
  | S fuel =>
      match block_number_hashes c !! to_remove with
      | None => Some c
      | Some hashes =>
          remove_loop fuel (saturating_sub to_remove 1) (remove_number c to_remove hashes)
      end
  end.

(** Every turn takes a height out of [block_number_hashes], so its size plus
    one is fuel enough ([remove_header_until_total]). *)
Definition remove_header_until c (n : Z) : option HeadersMetadataCache :=
  remove_loop (S (size (block_number_hashes c))) n c.

Definition get_header c h : outcome (Error Hash) Header :=
  ok_or (block_header_data c !! h) (MissingBlockHashFromCache h).

(** [HeaderMetadata::header_metadata], with [CachedHeaderMetadata::from]. *)
Definition header_metadata c h : outcome (Error Hash) CachedHeaderMetadata :=
  ok_or ((fun hdr => {| md_hash := header_hash hdr;
                        md_number := number hdr;
                        md_parent := parent_hash hdr |}) <$> block_header_data c !! h)
        (MissingBlockHashFromCache h).

(** ** Well-formedness

    The two maps index the same headers: a hash is filed under a height
    exactly when the header stored for that hash has that height, a header is
    stored under its own hash, and no height is filed with no hash. *)
Record cache_wf c : Prop := {
  wf_hash : forall h hdr, block_header_data c !! h = Some hdr -> header_hash hdr = h;
  wf_index : forall n h,
    h ∈ default ∅ (block_number_hashes c !! n) <->
    exists hdr, block_header_data c !! h = Some hdr /\ number hdr = n;
  wf_nonempty : forall n hs, block_number_hashes c !! n = Some hs -> hs <> ∅;
}.

(** The heights [remove_header_until c n] visits: those from which every
    height up to [n] is in the index. *)
Definition pruned c (n k : Z) : Prop :=
  0 <= k <= n /\ forall j, k <= j <= n -> is_Some (block_number_hashes c !! j).

(** ** Lemmas *)

Lemma lookup_delete_all (hashes : gset Hash) (m : gmap Hash Header) h :
  set_fold (fun x m => delete x m) m hashes !! h =
    if decide (h ∈ hashes) then None else m !! h.
Proof.
  set (P := fun (r : gmap Hash Header) (X : gset Hash) =>
              (h ∈ X -> r !! h = None) /\ (h ∉ X -> r !! h = m !! h)).
  assert (HP : P (set_fold (fun x m => delete x m) m hashes) hashes).
  { apply (set_fold_ind_L P); unfold P; [set_solver|].
    intros x X r Hx [Hin Hout].
    destruct (decide (h = x)) as [->|Hne]; simplify_map_eq; set_solver. }
  destruct HP. case_decide; auto.
Qed.

Lemma default_cache_wf : cache_wf default_cache.
Proof.
  split; cbn.
  - intros h hdr. by rewrite lookup_empty.
  - intros n h. rewrite lookup_empty. cbn. split; [set_solver|].
    intros (hdr & Hh & _). by rewrite lookup_empty in Hh.
  - intros n hs. by rewrite lookup_empty.
Qed.

Lemma insert_header_wf `{!CollisionFree} c hdr : cache_wf c -> cache_wf (insert_header c hdr).
Proof.
  intros [Hhash Hindex Hne]. split; cbn.
  - intros h hdr' Hl. destruct (decide (header_hash hdr = h)) as [<-|]; simplify_map_eq; eauto.
  - intros n h.
    assert (Hold : h <> header_hash hdr ->
                   (exists hdr0, <[header_hash hdr := hdr]> (block_header_data c) !! h = Some hdr0
                                 /\ number hdr0 = n) <->
                   h ∈ default ∅ (block_number_hashes c !! n)).
    { intros Hh. rewrite Hindex. by rewrite lookup_insert_ne by done. }
    destruct (decide (number hdr = n)) as [<-|Hn].
    + rewrite lookup_insert_eq; cbn. rewrite elem_of_union, elem_of_singleton.
      destruct (decide (h = header_hash hdr)) as [->|Hh].
      * split; [|by left]. intros _. exists hdr. by simplify_map_eq.
      * rewrite Hold by done. naive_solver.
    + rewrite lookup_insert_ne by done.
      destruct (decide (h = header_hash hdr)) as [->|Hh]; [|by rewrite Hold].
      rewrite Hindex. split.
      * intros (hdr' & Hh & Hnum). apply Hhash, header_hash_inj in Hh as Heq. congruence.
      * intros (hdr' & Hh & Hnum). simplify_map_eq.
  - intros n hs Hl. destruct (decide (number hdr = n)) as [<-|]; simplify_map_eq; [|eauto].
    set_solver.
Qed.

Lemma remove_number_wf c n hashes :
  cache_wf c -> block_number_hashes c !! n = Some hashes -> cache_wf (remove_number c n hashes).
Proof.
  intros [Hhash Hindex Hne] Hn.
  assert (Hin : forall h, h ∈ hashes <->
                exists hdr, block_header_data c !! h = Some hdr /\ number hdr = n).
  { intros h. rewrite <- Hindex, Hn. done. }
  split; cbn.
  - intros h hdr. rewrite lookup_delete_all. case_decide; [done | eauto].
  - intros k h. setoid_rewrite lookup_delete_all.
    destruct (decide (n = k)) as [<-|Hk]; simplify_map_eq.
    + split; [set_solver|]. intros (hdr & Hh & Hnum). case_decide as Hd; [done|].
      destruct Hd. apply Hin. eauto.
    + rewrite Hindex. split.
      * intros (hdr & Hh & Hnum). exists hdr. split; [|done].
        rewrite decide_False; [done|]. rewrite Hin. naive_solver.
      * intros (hdr & Hh & Hnum). case_decide; [done | eauto].
  - intros k hs Hl. destruct (decide (n = k)) as [<-|]; simplify_map_eq; eauto.
Qed.

Lemma remove_number_headers c n hashes h :
  cache_wf c -> block_number_hashes c !! n = Some hashes ->
  block_header_data (remove_number c n hashes) !! h =
    match block_header_data c !! h with
    | Some hdr => if decide (number hdr = n) then None else Some hdr
    | None => None
    end.
Proof.
  intros [_ Hindex _] Hn. cbn. rewrite lookup_delete_all.
  assert (Hin : h ∈ hashes <->
                exists hdr, block_header_data c !! h = Some hdr /\ number hdr = n).
  { rewrite <- Hindex, Hn. done. }
  destruct (block_header_data c !! h) as [hdr|] eqn:E.
  - destruct (decide (number hdr = n)) as [Heq|Hneq].
    + rewrite decide_True; [done|]. apply Hin. eauto.
    + rewrite decide_False; [done|]. rewrite Hin. naive_solver.
  - by case_decide.
Qed.

(** With fuel for every height of the index, the loop ends. *)
Lemma remove_loop_total fuel n c :
  (size (block_number_hashes c) < fuel)%nat -> is_Some (remove_loop fuel n c).
Proof.
  revert n c. induction fuel as [|fuel IH]; intros n c Hsize; cbn; [lia|].
  destruct (block_number_hashes c !! n) as [hashes|] eqn:Hn; [|eauto].
  apply IH. cbn.
  assert (Hs : is_Some (block_number_hashes c !! n)) by eauto.
  rewrite map_size_delete_Some by done.
  apply map_size_ne_0_lookup_2 in Hs. lia.
Qed.

Lemma remove_header_until_total c n : is_Some (remove_header_until c n).
Proof. apply remove_loop_total. lia. Qed.

Lemma pruned_step c n hashes k :
  0 <= n -> block_number_hashes c !! n = Some hashes ->
  pruned c n k <->
  k = n \/ pruned (remove_number c n hashes) (saturating_sub n 1) k.
Proof.
  intros Hn0 Hn. unfold pruned, saturating_sub, remove_number; cbn.
  split.
  - intros (Hk & Hall). destruct (decide (k = n)) as [|Hne]; [by left | right].
    split; [lia|]. intros j Hj. rewrite lookup_delete_ne by lia. apply Hall. lia.
  - intros [-> | (Hk & Hall)].
    + split; [lia|]. intros j Hj. replace j with n by lia. eauto.
    + assert (Hlt : k < n).
      { destruct (decide (k = n)) as [->|]; [|lia].
        destruct (Hall n) as [? Hl]; [lia|]. by rewrite lookup_delete_eq in Hl. }
      split; [lia|]. intros j Hj. destruct (decide (j = n)) as [->|]; [eauto|].
      specialize (Hall j). rewrite lookup_delete_ne in Hall by done. apply Hall. lia.
Qed.

(** What the loop computes: exactly the headers of the visited heights leave. *)
Lemma remove_loop_spec fuel n c c' :
  0 <= n -> cache_wf c -> remove_loop fuel n c = Some c' ->
  cache_wf c' /\
  (forall h hdr, block_header_data c' !! h = Some hdr <->
                 block_header_data c !! h = Some hdr /\ ~ pruned c n (number hdr)).
Proof.
  revert n c. induction fuel as [|fuel IH]; intros n c Hn0 Hwf; cbn; [done|].
  destruct (block_number_hashes c !! n) as [hashes|] eqn:Hn.
  - intros Hloop. apply IH in Hloop as (Hwf' & Hh);
      [| unfold saturating_sub; lia | by apply remove_number_wf].
    split; [done|]. intros h hdr. rewrite Hh, remove_number_headers by done.
    setoid_rewrite (pruned_step c n hashes); [|done..].
    destruct (block_header_data c !! h) as [hdr0|]; [|naive_solver].
    destruct (decide (number hdr0 = n)); naive_solver.
  - intros [= <-]. split; [done|]. intros h hdr. split; [|naive_solver].
    intros Hh. split; [done|]. intros [Hle Hall].
    destruct (Hall n) as [? Hl]; [lia|]. congruence.
Qed.

Lemma get_header_Ok c h hdr : get_header c h = Ok hdr <-> block_header_data c !! h = Some hdr.
Proof. unfold get_header. destruct (block_header_data c !! h); cbn; naive_solver. Qed.

Lemma header_metadata_Ok c h md :
  header_metadata c h = Ok md <->
  exists hdr, block_header_data c !! h = Some hdr /\
              md = {| md_hash := header_hash hdr; md_number := number hdr;
                      md_parent := parent_hash hdr |}.
Proof. unfold header_metadata. destruct (block_header_data c !! h); cbn; naive_solver. Qed.

Lemma header_metadata_Err c h e :
  header_metadata c h = Err e <->
  block_header_data c !! h = None /\ e = MissingBlockHashFromCache h.
Proof. unfold header_metadata. destruct (block_header_data c !! h); cbn; naive_solver. Qed.

Lemma convert_header_fields sh hdr :
  convert_header sh = Some hdr ->
  parent_hash hdr = s_parent_hash sh /\ number hdr = s_number sh.
Proof.
  unfold convert_header. destruct (redecode_digest (s_digest sh)); cbn; [|done].
  by intros [= <-].
Qed.

Lemma add_header_run sh c :
  add_header sh c =
    match convert_header sh with
    | Some hdr => (insert_header c hdr, Ok (header_hash hdr))
    | None => (c, Panic)
    end.
Proof. unfold add_header. rewrite SE_bind_unfold. by destruct (convert_header sh). Qed.
End Cache.
