(* ===== verification/TreeRoute.v ===== *)
(** * The interface of [sp_blockchain::tree_route]

    The listener computes the route between two blocks with
    [sp_blockchain::tree_route], which is not code of this repository: it is the
    field of the class [TreeRouteAlgo], and [TreeRouteLaws] states what its
    documentation promises of it. The client's theorems are proved against
    the class; [RefRoute.ref_tree_route] is an implementation
    for which the laws are proved. *)

From S2P Require Import Prelude HeadersCache.

Section Interface.
Context `{ChainTypes}.

(** [sp_blockchain::TreeRoute], by its accessors. [retracted] is listed from
    the old best block towards the common block, [enacted] from the common
    block to the new best block. *)
Record TreeRoute : Type := {
  enacted : list HashAndNumber;
  retracted : list HashAndNumber;
  common_block : HashAndNumber;
}.

(** A [HeaderMetadata] backend, by its one reading operation. *)
Definition Backend : Type := Hash -> outcome (Error Hash) CachedHeaderMetadata.

(** [ancestry md h l c]: from block [h], the parent links of [md] lead through
    the blocks [l] (which [h] heads) to block [c], which is not in [l]. *)
Inductive ancestry (md : Backend) : Hash -> list HashAndNumber -> HashAndNumber -> Prop :=
  | ancestry_here h m :
      md h = Ok m -> ancestry md h [] {| hn_number := md_number m; hn_hash := h |}
  | ancestry_up h m l c :
      md h = Ok m -> ancestry md (md_parent m) l c ->
      ancestry md h ({| hn_number := md_number m; hn_hash := h |} :: l) c.

(** The blocks that the search for a route between two blocks can look up. *)
Inductive reaches (md : Backend) (from to : Hash) : Hash -> Prop :=
  | reaches_from : reaches md from to from
  | reaches_to : reaches md from to to
  | reaches_parent h m :
      reaches md from to h -> md h = Ok m -> reaches md from to (md_parent m).

(** A backend over blocks of one chain: metadata is filed under its own hash,
    and a block is one higher than its parent. *)
Record backend_ok (md : Backend) : Prop := {
  bo_hash : forall h m, md h = Ok m -> md_hash m = h;
  bo_number : forall h m, md h = Ok m -> 0 <= md_number m;
  bo_height : forall h m p,
    md h = Ok m -> md (md_parent m) = Ok p -> md_number m = md_number p + 1;
  bo_total : forall h, (exists m, md h = Ok m) \/ (exists e, md h = Err e);
}.

Class TreeRouteAlgo : Type :=
  tree_route : Backend -> Hash -> Hash -> outcome (Error Hash) TreeRoute.

Class TreeRouteLaws `{TreeRouteAlgo} : Prop := {
  tr_Ok : forall md from to r,
    backend_ok md -> tree_route md from to = Ok r ->
    ancestry md from (retracted r) (common_block r) /\
    ancestry md to (rev (enacted r)) (common_block r);
  (** Its errors are the backend's, on a block of one of the two ancestries. *)
  tr_Err : forall md from to e,
    backend_ok md -> tree_route md from to = Err e ->
    exists h, reaches md from to h /\ md h = Err e;
  tr_returns : forall md from to,
    backend_ok md ->
    (exists r, tree_route md from to = Ok r) \/ (exists e, tree_route md from to = Err e);
}.

Lemma ancestry_common md h l c : ancestry md h l c -> exists m, md (hn_hash c) = Ok m.
Proof. induction 1; cbn; eauto. Qed.

Lemma ancestry_elem md h l c x :
  ancestry md h l c -> x ∈ l ->
  exists m, md (hn_hash x) = Ok m /\ hn_number x = md_number m.
Proof.
  induction 1 as [|h m l c Hm _ IH]; intros Hx; [by apply not_elem_of_nil in Hx|].
  apply elem_of_cons in Hx as [->|Hx]; [cbn; eauto | auto].
Qed.

Lemma ancestry_head md h l c x :
  ancestry md h l c -> head l = Some x -> hn_hash x = h.
Proof. destruct 1; cbn; [done|]. by intros [= <-]. Qed.
End Interface.

Arguments TreeRouteAlgo {_}.
Arguments TreeRoute {_}.
Arguments Backend {_}.

(** ** A reference implementation

    Walks up from the higher of the two blocks until the walks meet. It gives
    the interface an instance with concrete parameters. *)
Module RefRoute.
Section Ref.
Context `{ChainTypes}.

Definition hn (m : CachedHeaderMetadata) : HashAndNumber :=
  {| hn_number := md_number m; hn_hash := md_hash m |}.

Fixpoint walk (md : Backend) (fuel : nat) (f t : CachedHeaderMetadata)
    (ret ena : list HashAndNumber) : outcome (Error Hash) TreeRoute :=
  match fuel with
  | O => Diverge
  | S fuel =>
      if md_number f <? md_number t then
        p ← md (md_parent t); walk md fuel f p ret (hn t :: ena)
      else if md_number t <? md_number f then
        q ← md (md_parent f); walk md fuel q t (hn f :: ret) ena
      else if decide (md_hash f = md_hash t) then
        Ok {| enacted := ena; retracted := rev ret; common_block := hn f |}
      else
        p ← md (md_parent t); q ← md (md_parent f);
        walk md fuel q p (hn f :: ret) (hn t :: ena)
  end.

Definition ref_tree_route (md : Backend) (from to : Hash) : outcome (Error Hash) TreeRoute :=
  f ← md from;
  t ← md to;
  walk md (S (Z.to_nat (md_number f + md_number t))) f t [] [].

#[export] Instance ref_algo : TreeRouteAlgo := ref_tree_route.

Lemma walk_returns md fuel f t ret ena :
  backend_ok md -> md (md_hash f) = Ok f -> md (md_hash t) = Ok t ->
  (Z.to_nat (md_number f + md_number t) < fuel)%nat ->
  (exists r, walk md fuel f t ret ena = Ok r) \/ (exists e, walk md fuel f t ret ena = Err e).
Proof.
  intros Hmd. revert f t ret ena.
  induction fuel as [|fuel IH]; intros f t ret ena Hf Ht Hfuel; [lia|].
  pose proof (bo_number _ Hmd _ _ Hf). pose proof (bo_number _ Hmd _ _ Ht).
  assert (Hup : forall x, md (md_hash x) = Ok x ->
    (exists p, md (md_parent x) = Ok p /\ md (md_hash p) = Ok p /\
               md_number x = md_number p + 1 /\ 0 <= md_number p) \/
    (exists e, md (md_parent x) = Err e)).
  { intros x Hx. destruct (bo_total _ Hmd (md_parent x)) as [[p Hp]|]; [left | by right].
    exists p. split_and!; [done | by rewrite (bo_hash _ Hmd _ _ Hp) |
                           by eapply bo_height | by eapply bo_number]. }
  destruct (Hup f Hf) as [(q & Hq & Hqq & Hqn & Hq0) | [ef Hef]],
           (Hup t Ht) as [(p & Hp & Hpp & Hpn & Hp0) | [et Het]];
    cbn; destruct (Z.ltb_spec (md_number f) (md_number t));
    try destruct (Z.ltb_spec (md_number t) (md_number f));
    try destruct (decide _); rewrite ?Hq, ?Hef, ?Hp, ?Het; cbn; eauto;
    apply IH; auto; lia.
Qed.

Lemma walk_Ok md fuel f t ret ena r :
  backend_ok md -> md (md_hash f) = Ok f -> md (md_hash t) = Ok t ->
  walk md fuel f t ret ena = Ok r ->
  exists l k, retracted r = rev ret ++ l /\ enacted r = rev k ++ ena /\
    ancestry md (md_hash f) l (common_block r) /\ ancestry md (md_hash t) k (common_block r).
Proof.
  intros Hmd. revert f t ret ena.
  induction fuel as [|fuel IH]; intros f t ret ena Hf Ht; cbn; [done|].
  assert (Hown : forall x p, md x = Ok p -> md (md_hash p) = Ok p /\ md_hash p = x).
  { intros x p Hp. split; [|by eapply bo_hash]. by rewrite (bo_hash _ Hmd _ _ Hp). }
  destruct (_ <? _); [|destruct (_ <? _); [|destruct (decide _) as [E|_]]]; intros Hw.
  - apply bind_Ok in Hw as (p & Hp & Hw). destruct (Hown _ _ Hp) as [Hpp Heq].
    apply IH in Hw as (l & k & Hl & Hk & Hal & Hak); [|done..].
    exists l, (hn t :: k). split_and!; [done | | done |].
    + rewrite Hk. cbn. by rewrite <- app_assoc.
    + econstructor; [done|]. by rewrite <- Heq.
  - apply bind_Ok in Hw as (q & Hq & Hw). destruct (Hown _ _ Hq) as [Hqq Heq].
    apply IH in Hw as (l & k & Hl & Hk & Hal & Hak); [|done..].
    exists (hn f :: l), k. split_and!; [| done | | done].
    + rewrite Hl. cbn. by rewrite <- app_assoc.
    + econstructor; [done|]. by rewrite <- Heq.
  - injection Hw as <-. exists [], []. cbn. split_and!.
    + by rewrite app_nil_r.
    + done.
    + by constructor.
    + assert (f = t) as -> by congruence. by constructor.
  - apply bind_Ok in Hw as (p & Hp & Hw). apply bind_Ok in Hw as (q & Hq & Hw).
    destruct (Hown _ _ Hp) as [Hpp Hpe], (Hown _ _ Hq) as [Hqq Hqe].
    apply IH in Hw as (l & k & Hl & Hk & Hal & Hak); [|done..].
    exists (hn f :: l), (hn t :: k). split_and!.
    + rewrite Hl. cbn. by rewrite <- app_assoc.
    + rewrite Hk. cbn. by rewrite <- app_assoc.
    + econstructor; [done|]. by rewrite <- Hqe.
    + econstructor; [done|]. by rewrite <- Hpe.
Qed.

Lemma walk_Err md fuel f t ret ena from to e :
  backend_ok md -> md (md_hash f) = Ok f -> md (md_hash t) = Ok t ->
  reaches md from to (md_hash f) -> reaches md from to (md_hash t) ->
  walk md fuel f t ret ena = Err e ->
  exists h, reaches md from to h /\ md h = Err e.
Proof.
  intros Hmd. revert f t ret ena.
  induction fuel as [|fuel IH]; intros f t ret ena Hf Ht Hrf Hrt; cbn; [done|].
  assert (Hown : forall x p, reaches md from to x -> md x = Ok p ->
                 md (md_hash p) = Ok p /\ reaches md from to (md_hash p)).
  { intros x p Hx Hp. by rewrite (bo_hash _ Hmd _ _ Hp). }
  assert (Hpf : reaches md from to (md_parent f)).
  { by apply (reaches_parent _ _ _ (md_hash f)). }
  assert (Hpt : reaches md from to (md_parent t)).
  { by apply (reaches_parent _ _ _ (md_hash t)). }
  destruct (_ <? _); [|destruct (_ <? _); [|destruct (decide (md_hash f = md_hash t)); [by intros [=]|]]];
    intros [Hw | (p & Hp & Hw)]%bind_Err; eauto.
  - destruct (Hown _ _ Hpt Hp). eauto.
  - destruct (Hown _ _ Hpf Hp). eauto.
  - destruct (Hown _ _ Hpt Hp). apply bind_Err in Hw as [Hw | (q & Hq & Hw)]; eauto.
    destruct (Hown _ _ Hpf Hq). eauto.
Qed.

#[export] Instance ref_laws : TreeRouteLaws.
Proof.
  split; unfold tree_route, ref_algo, ref_tree_route; intros md from to.
  - intros r Hmd (f & Hf & (t & Ht & Hw)%bind_Ok)%bind_Ok.
    pose proof (bo_hash _ Hmd _ _ Hf) as <-. pose proof (bo_hash _ Hmd _ _ Ht) as <-.
    apply walk_Ok in Hw as (l & k & Hl & Hk & Hal & Hak); [|done..].
    rewrite Hl, Hk, app_nil_r, rev_involutive. done.
  - intros e Hmd [He | (f & Hf & He)]%bind_Err; [eauto using reaches|].
    apply bind_Err in He as [He | (t & Ht & He)]; [eauto using reaches|].
    pose proof (bo_hash _ Hmd _ _ Hf) as <-. pose proof (bo_hash _ Hmd _ _ Ht) as <-.
    eapply walk_Err in He; [done | done | done | done | constructor | constructor].
  - intros Hmd.
    destruct (bo_total _ Hmd from) as [[f Hf]|[e He]]; [|right; exists e; by rewrite He].
    rewrite Hf. cbn -[walk].
    destruct (bo_total _ Hmd to) as [[t Ht]|[e He]]; [|right; exists e; by rewrite He].
    rewrite Ht. cbn -[walk].
    apply walk_returns; [done | | | lia].
    + by rewrite (bo_hash _ Hmd _ _ Hf).
    + by rewrite (bo_hash _ Hmd _ _ Ht).
Qed.
End Ref.
End RefRoute.
