(* ===== verification/BlockListener.v ===== *)
(** * The block listener

    Models the rest of [Subspace] in [shared/src/subspace.rs] that follows the
    chain: [is_canonical_block], [get_block_ext], [recursive_tree_route],
    [load_header_metadata_cache], [listen_for_blocks] and
    [listen_for_all_blocks].

    The node is an environment: what its RPC endpoint answers while one
    notification is handled is an [RpcNode], and a notification carries the
    node that answers for it, so the canonical chain may change from one
    notification to the next. The headers a node can serve are a finite map. *)

From S2P Require Import Prelude HeadersCache TreeRoute.

Section Types.
Context `{ChainTypes}.

(** What the node answers: the canonical hash of a height, and a header by
    its hash, unless the transport fails. *)
Record RpcNode : Type := {
  rpc_block_hash : Z -> outcome string (option Hash);
  rpc_headers : gmap Hash SubstrateHeader;
  rpc_header_failure : Hash -> option string;
}.

(** [BlockExt], without its client handle. *)
Record BlockExt : Type := {
  be_number : Z;
  be_hash : Hash;
  be_parent_hash : Hash;
  be_state_root : Hash;
  be_extrinsics_root : Hash;
}.

Record ReorgData : Type := {
  rd_enacted : list HashAndNumber;
  rd_retracted : list HashAndNumber;
  rd_common_block : HashAndNumber;
}.

Record BlocksExt : Type := {
  blocks : list BlockExt;
  maybe_reorg_data : option ReorgData;
}.

(** One item of the block subscription. *)
Inductive SubItem : Type :=
  | SubBlock (header : SubstrateHeader) (hash : Hash)
  | SubError (msg : string).

(** The state of [listen_for_blocks]: the header cache and the best block it
    is given by reference, and what was sent to the broadcast channel. *)
Record Listener : Type := {
  cache : HeadersMetadataCache;
  current_best_block : HashAndNumber;
  sent : list BlocksExt;
}.

(** One subscription: whether [subscribe_all] succeeded, the node that answers
    while the cache is loaded, and the notifications. *)
Record Session : Type := {
  subscribe_all : outcome string unit;
  load_node : RpcNode;
  items : list (RpcNode * SubItem);
}.
End Types.

Arguments RpcNode {_}.
Arguments BlockExt {_}.
Arguments ReorgData {_}.
Arguments BlocksExt {_}.
Arguments SubItem {_}.
Arguments Listener {_}.
Arguments Session {_}.

(** Maximum number of headers to load in the cache. *)
Definition CACHE_HEADER_DEPTH : Z := 100.

Section Listener.
Context `{HeaderHashing, !TreeRouteAlgo}.

Definition chain_get_block_hash (node : RpcNode) (n : Z) : outcome (Error Hash) (option Hash) :=
  map_err Rpc (rpc_block_hash node n).

Definition chain_get_header (node : RpcNode) (h : Hash)
    : outcome (Error Hash) (option SubstrateHeader) :=
  match rpc_header_failure node h with
  | Some msg => Err (Rpc msg)
  | None => Ok (rpc_headers node !! h)
  end.

Definition is_canonical_block (node : RpcNode) (block_number : Z) (block_hash : Hash)
    : outcome (Error Hash) bool :=
  found ← chain_get_block_hash node block_number;
  hash ← ok_or found (MissingBlockHeaderForNumber block_number);
  mret (bool_decide (block_hash = hash)).

Definition get_block_ext (c : HeadersMetadataCache) (hash : Hash)
    : outcome (Error Hash) BlockExt :=
  header ← get_header c hash;
  mret {| be_number := number header;
          be_hash := hash;
          be_parent_hash := parent_hash header;
          be_state_root := state_root header;
          be_extrinsics_root := extrinsics_root header |}.

(** The retries of [recursive_tree_route]. *)
Fixpoint tree_route_retry (fuel : nat) (node : RpcNode) (from to : Hash)
    : SE HeadersMetadataCache (Error Hash) TreeRoute :=
  match fuel with
  | O => diverge
  | S fuel => fun c =>
      match tree_route (header_metadata c) from to with
      | Ok route => (c, Ok route)
      | Err (MissingBlockHashFromCache hash) =>
          (found ← lift (chain_get_header node hash);
           header ← lift (ok_or found (MissingBlockHeaderForHash hash));
           _ ← add_header header;
           tree_route_retry fuel node from to) c
      | Err err => (c, Err err)
      | Panic => (c, Panic)
      | Diverge => (c, Diverge)
      end
  end.

(** A retry follows the download of a header the cache does not have, and the
    node has finitely many ([listener_never_stuck]). *)
Definition recursive_tree_route (node : RpcNode) (from to : Hash)
    : SE HeadersMetadataCache (Error Hash) TreeRoute :=
  tree_route_retry (S (size (rpc_headers node))) node from to.

Definition with_cache {A} (m : SE HeadersMetadataCache (Error Hash) A)
    : SE Listener (Error Hash) A :=
  zoom cache (fun c s => {| cache := c;
                            current_best_block := current_best_block s;
                            sent := sent s |}) m.

Definition set_best (best : HashAndNumber) : SE Listener (Error Hash) unit :=
  modify (fun s => {| cache := cache s; current_best_block := best; sent := sent s |}).

Definition send (msg : BlocksExt) : SE Listener (Error Hash) unit :=
  modify (fun s => {| cache := cache s;
                      current_best_block := current_best_block s;
                      sent := sent s ++ [msg] |}).

Definition prune_cache (n : Z) : SE HeadersMetadataCache (Error Hash) unit := fun c =>
  match remove_header_until c n with
  | Some c' => (c', Ok tt)
  | None => (c, Diverge)
  end.

(** [listen_for_blocks] from the tree route to the end of the loop body.
    [enacted.pop()] takes the new best block off the list that goes into the
    [ReorgData]. *)
Definition announce (route : TreeRoute) (block_number : Z) : SE Listener (Error Hash) unit :=
  let enacted := enacted route in
  let retracted := retracted route in
  if bool_decide (enacted = []) && bool_decide (retracted = []) then mret tt
  else if bool_decide (enacted = []) then mret tt
  else
    c ← gets cache;
    block_exts ← lift (mapM (fun hash_and_number => get_block_ext c (hn_hash hash_and_number))
                            enacted);
    best ← lift (expect (last enacted));
    let enacted := removelast enacted in
    _ ← set_best best;
    let reorg :=
      if negb (bool_decide (retracted = [])) then
        Some {| rd_enacted := enacted;
                rd_retracted := rev retracted;
                rd_common_block := common_block route |}
      else None in
    _ ← send {| blocks := block_exts; maybe_reorg_data := reorg |};
    with_cache (prune_cache (saturating_sub block_number CACHE_HEADER_DEPTH)).

(** The loop body of [listen_for_blocks], after the notification is received. *)
Definition on_block (node : RpcNode) (header : SubstrateHeader) (block_hash : Hash)
    : SE Listener (Error Hash) unit :=
  let block_number := s_number header in
  hash ← with_cache (add_header header);
  if negb (bool_decide (hash = block_hash)) then panic else
  canonical ← lift (is_canonical_block node block_number block_hash);
  if negb canonical then mret tt else
  best ← gets current_best_block;
  route ← with_cache (recursive_tree_route node (hn_hash best) block_hash);
  announce route block_number.

Fixpoint listen_for_blocks (sub : list (RpcNode * SubItem)) : SE Listener (Error Hash) unit :=
  match sub with
  | [] => throw SubscriptionClosed
  | (_, SubError msg) :: _ => throw (Subxt msg)
  | (node, SubBlock header hash) :: sub =>
      on_block node header hash ≫= fun _ => listen_for_blocks sub
  end.

(** The first loop of [load_header_metadata_cache]: reads notifications until
    a canonical block, and gives back the rest of the subscription. *)
Fixpoint await_canonical (sub : list (RpcNode * SubItem))
    : outcome (Error Hash) (Hash * list (RpcNode * SubItem)) :=
  match sub with
  | [] => Err SubscriptionClosed
  | (_, SubError msg) :: _ => Err (Subxt msg)
  | (node, SubBlock header hash) :: sub =>
      canonical ← is_canonical_block node (s_number header) hash;
      if (canonical : bool) then Ok (hash, sub) else await_canonical sub
  end.

Definition fetch_canonical_header (node : RpcNode) (n : Z)
    : outcome (Error Hash) SubstrateHeader :=
  found ← chain_get_block_hash node n;
  block_hash ← ok_or found (MissingBlockHeaderForNumber n);
  header ← chain_get_header node block_hash;
  ok_or header (MissingBlockHeaderForHash block_hash).

Definition load_header_metadata_cache (node : RpcNode) (sub : list (RpcNode * SubItem))
    : SE HeadersMetadataCache (Error Hash) (HashAndNumber * list (RpcNode * SubItem)) :=
  awaited ← lift (await_canonical sub);
  let '(latest_hash, sub) := awaited in
  found ← lift (chain_get_header node latest_hash);
  latest_head ← lift (ok_or found (MissingBlockHeaderForHash latest_hash));
  let cache_start_number := saturating_sub (s_number latest_head) CACHE_HEADER_DEPTH in
  headers ← lift (mapM (fetch_canonical_header node)
                       (range_incl cache_start_number (s_number latest_head)));
  _ ← for_each headers (fun header => add_header header ≫= fun _ => mret tt);
  mret ({| hn_number := s_number latest_head; hn_hash := latest_hash |}, sub).

(** Which ends of a subscription [listen_for_all_blocks] answers by
    subscribing again. *)
Definition reconnects (res : outcome (Error Hash) unit) : bool :=
  match res with
  | Err (Subxt _) | Err (Rpc _) => true
  | Err SubscriptionClosed => true
  | Err (MissingBlockHeaderForNumber _) | Err (MissingBlockHeaderForHash _) => true
  | _ => false
  end.

(** One turn of [listen_for_all_blocks]: the cache and the broadcast channel
    outlive the subscription, the best block does not. *)
Definition run_session (s : Session) (c : HeadersMetadataCache) (out : list BlocksExt)
    : HeadersMetadataCache * list BlocksExt * outcome (Error Hash) unit :=
  match load_header_metadata_cache (load_node s) (items s) c with
  | (c, Ok (best, sub)) =>
      let '(l, res) := listen_for_blocks sub
                         {| cache := c; current_best_block := best; sent := out |} in
      (cache l, sent l, res)
  | (c, Err err) => (c, out, Err err)
  | (c, Panic) => (c, out, Panic)
  | (c, Diverge) => (c, out, Diverge)
  end.

(** [listen_for_all_blocks] over a sequence of subscriptions. [None]: it is
    still in its loop when the sequence ends. *)
Fixpoint listen_for_all_blocks (sessions : list Session)
    (c : HeadersMetadataCache) (out : list BlocksExt)
    : HeadersMetadataCache * list BlocksExt * option (outcome (Error Hash) unit) :=
  match sessions with
  | [] => (c, out, None)
  | s :: sessions =>
      match map_err Subxt (subscribe_all s) with
      | Ok _ =>
          let '(c, out, res) := run_session s c out in
          if reconnects res then listen_for_all_blocks sessions c out
          else (c, out, Some res)
      | failed => (c, out, Some failed)
      end
  end.

End Listener.
