(* ===== verification/BlockListenerFacts.v ===== *)
(** * What the block listener promises

    The abstract view of the listener is a subscriber that replays the
    broadcast messages on a list of block hashes; the theorems state that the
    listener's messages keep that list the ancestry of the node's best block, and that
    the listener survives every failure of an honest node.

    [valid] is the set of headers the network can present: what is assumed of
    it ([ChainOk]) and of the node ([node_honest]) are the section's
    hypotheses. *)

From S2P Require Import Prelude HeadersCache TreeRoute BlockListener.

Section Specification.
Context `{HeaderHashing}.

(** A block of the chain is one higher than its parent. *)
Record ChainOk (valid : Header -> Prop) : Prop := {
  co_number : forall x, valid x -> 0 <= number x;
  co_height : forall x p, valid x -> valid p -> parent_hash x = header_hash p ->
                          number x = number p + 1;
}.

Context (valid : Header -> Prop).

(** A header the node serves under a hash is a valid header with that hash. *)
Definition served (sh : SubstrateHeader) (h : Hash) : Prop :=
  exists hdr, convert_header sh = Some hdr /\ header_hash hdr = h /\ valid hdr.

Record node_honest (node : RpcNode) : Prop := {
  nh_header : forall h sh, rpc_headers node !! h = Some sh -> served sh h;
  nh_hash : forall n, (exists o, rpc_block_hash node n = Ok o) \/
                      (exists e, rpc_block_hash node n = Err e);
}.

Definition item_honest (it : RpcNode * SubItem) : Prop :=
  node_honest it.1 /\
  match it.2 with
  | SubBlock sh h => served sh h
  | SubError _ => True
  end.

Record session_honest (s : Session) : Prop := {
  sh_subscribe : subscribe_all s = Ok tt \/ exists e, subscribe_all s = Err e;
  sh_load : node_honest (load_node s);
  sh_items : Forall item_honest (items s);
}.

Definition cache_inv (c : HeadersMetadataCache) : Prop :=
  cache_wf c /\ forall h hdr, block_header_data c !! h = Some hdr -> valid hdr.

(** [p] is the parent of [h]. *)
Definition parent_of (h p : Hash) : Prop :=
  exists hdr, valid hdr /\ header_hash hdr = h /\ parent_hash hdr = p.

(** [path h l c]: the blocks [l], newest first, lead from [h] up to [c],
    which is not one of them. *)
Inductive path : Hash -> list Hash -> Hash -> Prop :=
  | path_nil h : path h [] h
  | path_cons h p l c : parent_of h p -> path p l c -> path h (h :: l) c.

(** A broadcast block has the number, and the hash, of a valid header. *)
Definition described (b : BlockExt) : Prop :=
  exists hdr, valid hdr /\ header_hash hdr = be_hash b /\ number hdr = be_number b.

(** A message of the broadcast channel takes the best block from [best] to
    [best']: its blocks are the new branch, and the retracted ones of its
    reorganisation data are the old branch, oldest first. *)
Definition announces (best : Hash) (msg : BlocksExt) (best' : Hash) : Prop :=
  exists ret common,
    path best ret common /\
    path best' (rev (be_hash <$> blocks msg)) common /\
    blocks msg <> [] /\ Forall described (blocks msg) /\
    (exists hdr, valid hdr /\ header_hash hdr = common) /\
    match maybe_reorg_data msg with
    | None => ret = []
    | Some d => ret <> [] /\
                hn_hash <$> rd_retracted d = rev ret /\
                hn_hash (rd_common_block d) = common /\
                hn_hash <$> rd_enacted d = removelast (be_hash <$> blocks msg)
    end.

(** A subscriber: the chain it believes in, newest block first. *)
Definition apply_msg (view : list Hash) (msg : BlocksExt) : list Hash :=
  rev (be_hash <$> blocks msg) ++
  drop (match maybe_reorg_data msg with
        | None => 0
        | Some d => length (rd_retracted d)
        end) view.

Definition replay (view : list Hash) (msgs : list BlocksExt) : list Hash :=
  fold_left apply_msg msgs view.

(** A sequence of messages, each from where the one before it ended. *)
Fixpoint announced (best : Hash) (msgs : list BlocksExt) (best' : Hash) : Prop :=
  match msgs with
  | [] => best' = best
  | msg :: msgs => exists mid, announces best msg mid /\ announced mid msgs best'
  end.

(** Headers the node has and the cache has not. *)
Definition missing (node : RpcNode) (c : HeadersMetadataCache) : nat :=
  size (filter (fun h => block_header_data c !! h = None) (dom (rpc_headers node))).
End Specification.

Section Facts.
Context `{HeaderHashing, !CollisionFree, !TreeRouteAlgo, !TreeRouteLaws}.
Context (valid : Header -> Prop) (Hchain : ChainOk valid).

Lemma path_app h l m k c : path valid h l m -> path valid m k c -> path valid h (l ++ k) c.
Proof. induction 1; cbn; intros; [done | econstructor; eauto]. Qed.

Lemma parent_of_functional h p q : parent_of valid h p -> parent_of valid h q -> p = q.
Proof.
  intros (x & _ & Hx & <-) (y & _ & Hy & <-). f_equal. apply header_hash_inj. congruence.
Qed.

(** The branch to retract is the top of every chain of the same best block
    that ends on a block without a header. *)
Lemma path_prefix h l c k root :
  path valid h l c -> path valid h k root ->
  (exists hdr, valid hdr /\ header_hash hdr = c) ->
  (~ exists hdr, valid hdr /\ header_hash hdr = root) ->
  exists k', k = l ++ k' /\ path valid c k' root.
Proof.
  intros Hl Hk Hc Hroot. revert k Hk.
  induction Hl as [h | h p l c Hp _ IH]; intros k Hk; [by exists k|].
  inversion Hk as [h' | h' q k' c' Hq Hk']; subst.
  - destruct Hroot. destruct Hp as (hdr & ? & ? & _). eauto.
  - assert (q = p) as -> by (by eapply parent_of_functional).
    destruct (IH Hc _ Hk') as (k'' & -> & Hpath). by exists k''.
Qed.

(** ** The cache *)

Lemma cache_backend_ok c : cache_inv valid c -> backend_ok (header_metadata c).
Proof.
  intros [[Hhash _ _] Hvalid]. split.
  - intros h m (hdr & Hh & ->)%header_metadata_Ok. cbn. eauto.
  - intros h m (hdr & Hh & ->)%header_metadata_Ok. cbn. eapply co_number; eauto.
  - intros h m p (hdr & Hh & ->)%header_metadata_Ok. cbn.
    intros (par & Hpar & ->)%header_metadata_Ok. cbn.
    apply (co_height _ Hchain); [by eapply Hvalid.. |]. symmetry. by eapply Hhash.
  - intros h. unfold header_metadata. destruct (block_header_data c !! h); cbn; eauto.
Qed.

Lemma ancestry_path c h l x :
  cache_inv valid c -> ancestry (header_metadata c) h l x ->
  path valid h (hn_hash <$> l) (hn_hash x) /\
  exists hdr, valid hdr /\ header_hash hdr = hn_hash x.
Proof.
  intros [[Hhash _ _] Hvalid].
  induction 1 as [h m Hm | h m l x Hm _ [IH Hx]]; cbn.
  - apply header_metadata_Ok in Hm as (hdr & Hh & ->).
    split; [constructor|]. exists hdr. eauto.
  - split; [|done]. econstructor; [|done].
    apply header_metadata_Ok in Hm as (hdr & Hh & ->). exists hdr. cbn. eauto.
Qed.

Lemma insert_header_inv c hdr :
  cache_inv valid c -> valid hdr -> cache_inv valid (insert_header c hdr).
Proof.
  intros [Hwf Hvalid] Hhdr. split; [by apply insert_header_wf|].
  intros h hdr' Hl. cbn in Hl.
  destruct (decide (header_hash hdr = h)) as [<-|]; simplify_map_eq; eauto.
Qed.

Lemma add_header_served sh h c :
  served valid sh h -> cache_inv valid c ->
  exists hdr, add_header sh c = (insert_header c hdr, Ok h) /\ header_hash hdr = h /\
              cache_inv valid (insert_header c hdr).
Proof.
  intros (hdr & Hconv & Hhash & Hvalid) Hc. exists hdr.
  rewrite add_header_run, Hconv, Hhash. auto using insert_header_inv.
Qed.

Lemma missing_insert node c hdr :
  header_hash hdr ∈ dom (rpc_headers node) ->
  block_header_data c !! header_hash hdr = None ->
  (missing node (insert_header c hdr) < missing node c)%nat.
Proof.
  intros Hdom Hnone. unfold missing. apply subset_size. split.
  - intros h [Hl Hd]%elem_of_filter. apply elem_of_filter. split; [|done].
    cbn in Hl. destruct (decide (header_hash hdr = h)) as [<-|]; by simplify_map_eq.
  - intros Hsub. assert (Hin : header_hash hdr ∈
      filter (fun h => block_header_data c !! h = None) (dom (rpc_headers node)))
      by (by apply elem_of_filter).
    apply Hsub, elem_of_filter in Hin as [Hl _]. cbn in Hl. by simplify_map_eq.
Qed.

Lemma missing_bound node c : (missing node c < S (size (rpc_headers node)))%nat.
Proof.
  unfold missing. rewrite <- size_dom.
  apply Nat.lt_succ_r, subseteq_size. intros h [_ Hh]%elem_of_filter. done.
Qed.

(** What [recursive_tree_route] returns, and that its retries end. *)
Lemma tree_route_retry_spec fuel node from to c :
  cache_inv valid c -> node_honest valid node -> (missing node c < fuel)%nat ->
  let '(c', r) := tree_route_retry fuel node from to c in
  cache_inv valid c' /\
  match r with
  | Ok route =>
      ancestry (header_metadata c') from (retracted route) (common_block route) /\
      ancestry (header_metadata c') to (rev (enacted route)) (common_block route)
  | Err e => reconnects (Err e) = true
  | _ => False
  end.
Proof.
  intros Hc Hnode. revert c Hc.
  induction fuel as [|fuel IH]; intros c Hc Hfuel; [lia|]. cbn [tree_route_retry].
  pose proof (cache_backend_ok c Hc) as Hmd.
  destruct (tr_returns _ from to Hmd) as [[r Hr] | [e He]].
  { rewrite Hr. split; [done|]. by apply tr_Ok. }
  rewrite He.
  destruct (tr_Err _ _ _ _ Hmd He) as (h & _ & [Hnone ->]%header_metadata_Err).
  rewrite SE_bind_unfold. unfold lift, chain_get_header at 1.
  destruct (rpc_header_failure node h); [done|].
  rewrite SE_bind_unfold. destruct (rpc_headers node !! h) as [sh|] eqn:Hsh; [|done]. cbn.
  rewrite SE_bind_unfold.
  destruct (add_header_served sh h c) as (hdr & -> & <- & Hinv);
    [by eapply nh_header | done |].
  apply IH; [done|].
  assert (missing node (insert_header c hdr) < missing node c)%nat; [|lia].
  apply missing_insert; [by eapply elem_of_dom_2 | done].
Qed.

Lemma remove_header_until_inv c n :
  0 <= n -> cache_inv valid c ->
  exists c', remove_header_until c n = Some c' /\ cache_inv valid c'.
Proof.
  intros Hn [Hwf Hvalid]. destruct (remove_header_until_total c n) as [c' Hc'].
  exists c'. split; [done|].
  apply remove_loop_spec in Hc' as (Hwf' & Hh); [|done..].
  split; [done|]. intros h hdr [Hl _]%Hh. eauto.
Qed.

(** ** One notification *)

Definition best_hash (s : Listener) : Hash := hn_hash (current_best_block s).

(** What every run of the listener leaves behind: a well-formed cache, messages
    that go from the old best block to the new one, and a result that is a
    success or an error [listen_for_all_blocks] reconnects on. *)
Definition listener_post (s s' : Listener) (r : outcome (Error Hash) unit) : Prop :=
  cache_inv valid (cache s') /\
  (exists msgs, sent s' = sent s ++ msgs /\ announced valid (best_hash s) msgs (best_hash s')) /\
  (r = Ok tt \/ exists e, r = Err e /\ reconnects (Err e) = true).

Lemma listener_post_same s s' r :
  cache_inv valid (cache s') -> sent s' = sent s -> best_hash s' = best_hash s ->
  (r = Ok tt \/ exists e, r = Err e /\ reconnects (Err e) = true) ->
  listener_post s s' r.
Proof.
  intros Hc Hsent Hbest Hr. split_and!; [done | | done].
  exists []. by rewrite app_nil_r, Hbest.
Qed.

Lemma announced_app best l1 l2 mid best' :
  announced valid best l1 mid -> announced valid mid l2 best' ->
  announced valid best (l1 ++ l2) best'.
Proof.
  revert best. induction l1 as [|m l1 IH]; cbn; [by intros best -> |].
  intros best (x & Hx & Hl) Hl2. eauto.
Qed.

Lemma listener_post_trans s1 s2 s3 r1 r :
  listener_post s1 s2 r1 -> listener_post s2 s3 r -> listener_post s1 s3 r.
Proof.
  intros (_ & (m1 & Hs1 & Ha1) & _) (Hc & (m2 & Hs2 & Ha2) & Hr).
  split_and!; [done | | done]. exists (m1 ++ m2).
  rewrite Hs2, Hs1, <- app_assoc. eauto using announced_app.
Qed.

Lemma mapM_total {E A B} (f : A -> outcome E B) l :
  (forall x, x ∈ l -> exists y, f x = Ok y) -> exists k, mapM f l = Ok k.
Proof.
  induction l as [|x l IH]; intros Hf; cbn; [by eexists|].
  destruct (Hf x) as [y ->]; [left|]. cbn.
  destruct IH as [k ->]; [|by eexists]. intros z Hz. apply Hf. by right.
Qed.

Lemma get_block_exts c l h x :
  cache_inv valid c -> ancestry (header_metadata c) h (rev l) x ->
  exists bs, mapM (fun b => get_block_ext c (hn_hash b)) l = Ok bs /\
             be_hash <$> bs = hn_hash <$> l /\ Forall (described valid) bs.
Proof.
  intros [Hwf Hvalid] Hanc.
  destruct (mapM_total (fun b => get_block_ext c (hn_hash b)) l) as [bs Hbs].
  - intros b Hb. destruct (ancestry_elem _ _ _ _ b Hanc) as (m & Hm & _).
    { by rewrite list_elem_of_In, <- in_rev, <- list_elem_of_In. }
    apply header_metadata_Ok in Hm as (hdr & Hh & _).
    unfold get_block_ext. apply get_header_Ok in Hh as ->. by eexists.
  - exists bs. split; [done|]. apply mapM_Ok in Hbs. clear Hanc.
    induction Hbs as [|b be l bs Hb _ [IH1 IH2]]; [done|]. cbn.
    unfold get_block_ext in Hb. apply bind_Ok in Hb as (hdr & Hg & [= <-]).
    apply get_header_Ok in Hg. split; [by f_equal|]. constructor; [|done].
    exists hdr. cbn. split_and!; [by eapply Hvalid | by eapply wf_hash | done].
Qed.

Lemma announce_post route n s h :
  cache_inv valid (cache s) ->
  ancestry (header_metadata (cache s)) (best_hash s) (retracted route) (common_block route) ->
  ancestry (header_metadata (cache s)) h (rev (enacted route)) (common_block route) ->
  let '(s', r) := announce route n s in listener_post s s' r.
Proof.
  intros Hinv Hret Hena.
  destruct (enacted route) as [|b0 l0] eqn:Henacted.
  { unfold announce. rewrite Henacted.
    destruct (bool_decide _ && bool_decide _); apply listener_post_same; eauto. }
  unfold announce. rewrite Henacted.
  destruct (get_block_exts _ _ _ _ Hinv Hena) as (bs & Hbs & Hhash & Hdesc).
  destruct (last (b0 :: l0)) as [best|] eqn:Hlast; [|by apply last_None in Hlast].
  rewrite (bool_decide_eq_false_2 (b0 :: l0 = [])) by done. cbn [andb].
  rewrite SE_bind_unfold. cbn [gets]. rewrite SE_bind_unfold. unfold lift at 1.
  rewrite Hbs, SE_bind_unfold. unfold lift. cbn [expect].
  rewrite !SE_bind_unfold. unfold with_cache, zoom, prune_cache.
  cbn -[removelast remove_header_until].
  rewrite SE_bind_unfold. cbn -[removelast remove_header_until].
  destruct (remove_header_until_inv (cache s) (saturating_sub n CACHE_HEADER_DEPTH))
    as (c' & -> & Hinv'); [unfold saturating_sub; lia | done |].
  destruct (ancestry_path _ _ _ _ Hinv Hret) as [Hpr Hcommon].
  destruct (ancestry_path _ _ _ _ Hinv Hena) as [Hpe _].
  pose proof (ancestry_head _ _ _ _ _ Hena (last_rev_head _ _ Hlast)) as Hbest.
  assert (Hpb : path valid (hn_hash best) (rev (be_hash <$> bs)) (hn_hash (common_block route))).
  { rewrite Hhash, Hbest, <- fmap_rev. done. }
  split_and!; cbn -[removelast]; [done | | by left].
  eexists. split; [done|]. exists (hn_hash best). split; [|done].
  exists (hn_hash <$> retracted route), (hn_hash (common_block route)).
  cbn -[removelast]. split_and!; [done | done | | done | done |].
  { intros ->. done. }
  destruct (retracted route) as [|x l]; [done|].
  rewrite bool_decide_eq_false_2 by done.
  cbn [negb rd_retracted rd_common_block rd_enacted].
  split_and!; [done | apply fmap_rev | done |].
  by rewrite fmap_removelast, Hhash.
Qed.

Lemma canonical_errors node n h :
  node_honest valid node ->
  (exists b, is_canonical_block node n h = Ok b) \/
  (exists e, is_canonical_block node n h = Err e /\ reconnects (Err e) = true).
Proof.
  intros Hnode. unfold is_canonical_block, chain_get_block_hash.
  destruct (nh_hash _ _ Hnode n) as [[[x|] ->] | [e ->]]; cbn; eauto.
Qed.

Lemma on_block_post node sh h s :
  item_honest valid (node, SubBlock sh h) -> cache_inv valid (cache s) ->
  let '(s', r) := on_block node sh h s in listener_post s s' r.
Proof.
  intros [Hnode Hserved] Hinv. cbn in *. unfold on_block.
  rewrite SE_bind_unfold. unfold with_cache at 1, zoom.
  destruct (add_header_served sh h (cache s) Hserved Hinv) as (hdr & -> & Hh & Hinv1).
  rewrite bool_decide_eq_true_2 by done. cbn [negb].
  rewrite SE_bind_unfold. unfold lift at 1.
  destruct (canonical_errors node (s_number sh) h Hnode) as [[[] ->] | (e & -> & He)];
    [| apply listener_post_same; eauto..].
  cbn [negb]. rewrite SE_bind_unfold. cbn [gets].
  rewrite SE_bind_unfold. unfold with_cache at 1, zoom. cbn [cache].
  unfold recursive_tree_route.
  pose proof (tree_route_retry_spec (S (size (rpc_headers node))) node
                (hn_hash (current_best_block s)) h (insert_header (cache s) hdr)
                Hinv1 Hnode (missing_bound _ _)) as Hroute. cbn [current_best_block].
  destruct (tree_route_retry _ _ _ _ _) as [c' r]. destruct Hroute as [Hinv' Hr].
  destruct r as [route | e | |]; [| apply listener_post_same; eauto | done..].
  destruct Hr as [Hret Hena].
  set (s1 := {| cache := c'; current_best_block := _; sent := _ |}).
  pose proof (announce_post route (s_number sh) s1 h Hinv' Hret Hena) as Hann.
  destruct (announce route (s_number sh) s1) as [s' r].
  apply (listener_post_trans s s1 _ (Ok tt)); [apply listener_post_same; eauto | done].
Qed.

(** ** A subscription *)

Lemma listen_for_blocks_post sub s :
  Forall (item_honest valid) sub -> cache_inv valid (cache s) ->
  let '(s', r) := listen_for_blocks sub s in
  listener_post s s' r /\ exists e, r = Err e.
Proof.
  revert s. induction sub as [|[node [sh h | msg]] sub IH]; intros s Hsub Hinv.
  - split; [apply listener_post_same|]; eauto.
  - apply Forall_cons in Hsub as [Hit Hsub].
    pose proof (on_block_post node sh h s Hit Hinv) as Hblock.
    cbn [listen_for_blocks]. rewrite SE_bind_unfold.
    destruct (on_block node sh h s) as [s1 r1].
    destruct Hblock as (Hinv1 & Hmsgs & [-> | (e & -> & He)]).
    + specialize (IH s1 Hsub Hinv1).
      destruct (listen_for_blocks sub s1) as [s' r]. destruct IH as [Hpost Hr].
      split; [|done]. apply (listener_post_trans s s1 s' (Ok tt) r); [|done].
      split_and!; auto.
    + split; [split_and!|]; eauto.
  - split; [apply listener_post_same|]; eauto.
Qed.

Lemma await_canonical_post sub :
  Forall (item_honest valid) sub ->
  match await_canonical sub with
  | Ok (h, rest) => exists node sh, (node, SubBlock sh h) ∈ sub /\ Forall (item_honest valid) rest
  | Err e => reconnects (Err e) = true
  | _ => False
  end.
Proof.
  induction sub as [|[node [sh h | msg]] sub IH]; intros Hsub; [done | | done].
  apply Forall_cons in Hsub as [[Hnode _] Hsub]. cbn.
  destruct (canonical_errors node (s_number sh) h Hnode) as [[[] ->] | (e & -> & He)]; cbn.
  - exists node, sh. split; [left | done].
  - specialize (IH Hsub). destruct (await_canonical sub) as [[h' rest]| | |]; [|done..].
    destruct IH as (n & x & Hin & Hrest). exists n, x. split; [by right | done].
  - done.
Qed.

Lemma fetch_canonical_header_post node n :
  node_honest valid node ->
  match fetch_canonical_header node n with
  | Ok sh => exists h, served valid sh h
  | Err e => reconnects (Err e) = true
  | _ => False
  end.
Proof.
  intros Hnode. unfold fetch_canonical_header, chain_get_block_hash, chain_get_header.
  destruct (nh_hash _ _ Hnode n) as [[[h|] ->] | [e ->]]; cbn; [|done..].
  destruct (rpc_header_failure node h); cbn; [done|].
  destruct (rpc_headers node !! h) eqn:Hsh; cbn; [|done]. eauto using nh_header.
Qed.

Lemma add_headers_inv headers c :
  Forall (fun sh => exists h, served valid sh h) headers -> cache_inv valid c ->
  exists c', for_each headers (fun sh => add_header sh ≫= fun _ => mret tt) c = (c', Ok tt) /\
             cache_inv valid c'.
Proof.
  intros Hh. revert c. induction Hh as [|sh l [h Hs] _ IH]; intros c Hc; [by exists c|].
  cbn [for_each]. rewrite SE_bind_unfold, SE_bind_unfold.
  destruct (add_header_served sh h c Hs Hc) as (hdr & -> & _ & Hinv). cbn. by apply IH.
Qed.

Lemma load_cache_post node sub c :
  node_honest valid node -> Forall (item_honest valid) sub -> cache_inv valid c ->
  let '(c', r) := load_header_metadata_cache node sub c in
  cache_inv valid c' /\
  match r with
  | Ok (best, rest) => Forall (item_honest valid) rest
  | Err e => reconnects (Err e) = true
  | _ => False
  end.
Proof.
  intros Hnode Hsub Hc. unfold load_header_metadata_cache.
  rewrite SE_bind_unfold. unfold lift at 1.
  pose proof (await_canonical_post sub Hsub) as Hw.
  destruct (await_canonical sub) as [[h rest] | e | |]; [| done..].
  destruct Hw as (_ & _ & _ & Hrest).
  rewrite SE_bind_unfold. unfold lift at 1, chain_get_header.
  destruct (rpc_header_failure node h); [done|].
  rewrite SE_bind_unfold. destruct (rpc_headers node !! h) as [head|]; [|done]. cbn [ok_or lift].
  rewrite SE_bind_unfold. unfold lift at 1.
  set (numbers := range_incl _ _).
  destruct (mapM (fetch_canonical_header node) numbers) as [hs | e | |] eqn:Hm.
  - rewrite SE_bind_unfold. apply mapM_Ok in Hm.
    destruct (add_headers_inv hs c) as (c' & -> & Hinv); [|done|done].
    clear -Hm Hnode. induction Hm as [|n sh l hs Hn _ IH]; constructor; [|done].
    pose proof (fetch_canonical_header_post node n Hnode) as Hp. by rewrite Hn in Hp.
  - apply mapM_Err in Hm as (n & _ & Hn).
    pose proof (fetch_canonical_header_post node n Hnode) as Hp. by rewrite Hn in Hp.
  - apply mapM_Panic in Hm as (n & _ & Hn).
    pose proof (fetch_canonical_header_post node n Hnode) as Hp. by rewrite Hn in Hp.
  - apply mapM_Diverge in Hm as (n & _ & Hn).
    pose proof (fetch_canonical_header_post node n Hnode) as Hp. by rewrite Hn in Hp.
Qed.

Lemma run_session_post s c out :
  session_honest valid s -> cache_inv valid c ->
  let '(c', out', r) := run_session s c out in
  cache_inv valid c' /\ reconnects r = true.
Proof.
  intros [_ Hload Hitems] Hc. unfold run_session.
  pose proof (load_cache_post (load_node s) (items s) c Hload Hitems Hc) as Hl.
  destruct (load_header_metadata_cache _ _ c) as [c1 [[best rest] | e | |]];
    destruct Hl as [Hinv Hr]; [| done..].
  pose proof (listen_for_blocks_post rest
    {| cache := c1; current_best_block := best; sent := out |} Hr Hinv) as Hpost.
  destruct (listen_for_blocks _ _) as [l r].
  destruct Hpost as ((Hinv' & _ & [-> | (e & -> & He)]) & [e' Hr']); [done | by split].
Qed.

(** ** A subscriber *)

Lemma apply_msg_path best msg best' view root :
  announces valid best msg best' -> path valid best view root ->
  (~ exists hdr, valid hdr /\ header_hash hdr = root) ->
  path valid best' (apply_msg view msg) root.
Proof.
  intros (ret & common & Hret & Hnew & _ & _ & Hcommon & Hreorg) Hview Hroot.
  destruct (path_prefix _ _ _ _ _ Hret Hview Hcommon Hroot) as (view' & -> & Hview').
  unfold apply_msg. destruct (maybe_reorg_data msg) as [d|].
  - destruct Hreorg as (_ & Hd & _ & _).
    assert (length (rd_retracted d) = length ret) as ->.
    { apply (f_equal length) in Hd. by rewrite length_fmap, length_rev in Hd. }
    rewrite drop_app_length. by eapply path_app.
  - subst ret. rewrite drop_0. by eapply path_app.
Qed.

Lemma replay_path msgs best best' view root :
  announced valid best msgs best' -> path valid best view root ->
  (~ exists hdr, valid hdr /\ header_hash hdr = root) ->
  path valid best' (replay view msgs) root.
Proof.
  revert best view. induction msgs as [|msg msgs IH]; cbn; intros best view.
  - by intros ->.
  - intros (mid & Hmsg & Hmsgs) Hview Hroot.
    eapply IH; [done | by eapply apply_msg_path | done].
Qed.
End Facts.
