(* ===== verification/ToyChain.v ===== *)
(** * A concrete chain

    An instance of the listener's parameters to run its definitions on: the
    hash of a header is an injective listing of its fields, a digest is
    re-encoded to itself, and the route between two blocks is computed by the
    reference implementation of [TreeRoute]. The chain has two branches over
    its genesis block: [a1 - a2] and [b1 - b2 - b3]. *)

From S2P Require Import Prelude HeadersCache TreeRoute BlockListener BlockListenerFacts.
Export RefRoute.

#[export] Instance toy_types : ChainTypes := {|
  Hash := list Z;
  SubxtDigest := unit;
  Digest := unit;
|}.

Definition toy_hash (x : Header) : list Z :=
  Z.of_nat (length (state_root x)) :: Z.of_nat (length (extrinsics_root x)) ::
  number x :: state_root x ++ extrinsics_root x ++ parent_hash x.

#[export] Instance toy_hashing : HeaderHashing := {|
  redecode_digest := fun d => Some d;
  header_hash := toy_hash;
|}.

#[export] Instance toy_collision_free : CollisionFree.
Proof.
  intros [p n s e []] [p' n' s' e' []]. unfold header_hash, toy_hashing, toy_hash; cbn.
  intros [= Hs He -> Happ]. apply Nat2Z.inj in Hs, He.
  apply app_inj_1 in Happ as [-> Happ]; [|done].
  apply app_inj_1 in Happ as [-> ->]; [|done]. done.
Qed.

(** A block as the node serves it. [branch] tells the two branches apart. *)
Definition toy_block (parent : list Z) (n : Z) (branch : list Z) : SubstrateHeader :=
  {| s_parent_hash := parent; s_number := n; s_state_root := branch;
     s_extrinsics_root := []; s_digest := tt |}.

Definition toy_header (sh : SubstrateHeader) : Header :=
  {| parent_hash := s_parent_hash sh; number := s_number sh;
     state_root := s_state_root sh; extrinsics_root := s_extrinsics_root sh;
     digest := s_digest sh |}.

Definition toy_id (sh : SubstrateHeader) : Hash := toy_hash (toy_header sh).

Definition root : Hash := [].
Definition genesis := toy_block root 0 [].
Definition a1 := toy_block (toy_id genesis) 1 [7].
Definition a2 := toy_block (toy_id a1) 2 [7].
Definition b1 := toy_block (toy_id genesis) 1 [8].
Definition b2 := toy_block (toy_id b1) 2 [8].
Definition b3 := toy_block (toy_id b2) 3 [8].

Definition toy_blocks : list SubstrateHeader := [genesis; a1; a2; b1; b2; b3].

Definition toy_valid (x : Header) : Prop := x ∈ toy_header <$> toy_blocks.

(** A node whose canonical chain is [canonical], listed from the genesis block. *)
Definition toy_node (canonical : list SubstrateHeader) : RpcNode :=
  {| rpc_block_hash := fun n => Ok (toy_id <$> canonical !! Z.to_nat n);
     rpc_headers := list_to_map ((fun sh => (toy_id sh, sh)) <$> toy_blocks);
     rpc_header_failure := fun _ => None |}.

Definition on_a := toy_node [genesis; a1; a2].
Definition on_b := toy_node [genesis; b1; b2; b3].

Definition toy_item (node : RpcNode) (sh : SubstrateHeader) : RpcNode * SubItem :=
  (node, SubBlock sh (toy_id sh)).

Lemma toy_chain_ok : ChainOk toy_valid.
Proof.
  split.
  - assert (Hall : Forall (fun x => 0 <= number x) (toy_header <$> toy_blocks)).
    { repeat (constructor; [cbn; lia|]). constructor. }
    intros x Hx. by apply (proj1 (Forall_forall _ _) Hall).
  - assert (Hall : Forall (fun x => Forall (fun p =>
        bool_decide (parent_hash x = header_hash p) = true -> number x = number p + 1)
        (toy_header <$> toy_blocks)) (toy_header <$> toy_blocks)).
    { repeat (constructor; [repeat (constructor; [by vm_compute|]); constructor|]).
      constructor. }
    intros x p Hx Hp Heq.
    pose proof (proj1 (Forall_forall _ _) Hall x Hx) as Hxp. cbn beta in Hxp.
    apply (proj1 (Forall_forall _ _) Hxp p Hp). by apply bool_decide_eq_true.
Qed.

Lemma toy_served sh : sh ∈ toy_blocks -> served toy_valid sh (toy_id sh).
Proof.
  intros Hsh. exists (toy_header sh). split_and!; [done | done |].
  by apply list_elem_of_fmap_2.
Qed.

Lemma toy_node_honest canonical : node_honest toy_valid (toy_node canonical).
Proof.
  split.
  - intros h sh Hsh. cbn [rpc_headers toy_node] in Hsh.
    apply elem_of_list_to_map_2, list_elem_of_fmap in Hsh as (x & [= -> ->] & Hx).
    by apply toy_served.
  - intros n. left. by eexists.
Qed.

Lemma toy_item_honest canonical sh :
  sh ∈ toy_blocks -> item_honest toy_valid (toy_item (toy_node canonical) sh).
Proof. intros Hsh. split; [apply toy_node_honest | by apply toy_served]. Qed.

(** The listener on branch [a], with its headers in the cache. *)
Definition toy_cache : HeadersMetadataCache :=
  fold_left (fun c sh => insert_header c (toy_header sh)) [genesis; a1; a2] default_cache.

Definition toy_listener : Listener :=
  {| cache := toy_cache;
     current_best_block := {| hn_number := 2; hn_hash := toy_id a2 |};
     sent := [] |}.

Lemma toy_cache_inv : cache_inv toy_valid toy_cache.
Proof.
  unfold toy_cache. cbn [fold_left].
  repeat apply insert_header_inv.
  - split; [apply default_cache_wf|]. intros h hdr. cbn. by rewrite lookup_empty.
  - apply list_elem_of_fmap_2. repeat constructor.
  - apply list_elem_of_fmap_2. repeat constructor.
  - apply list_elem_of_fmap_2. repeat constructor.
Qed.

Lemma toy_root_unserved : ~ exists hdr, toy_valid hdr /\ header_hash hdr = root.
Proof. by intros (hdr & _ & [=]). Qed.

Lemma toy_parent sh :
  sh ∈ toy_blocks -> parent_of toy_valid (toy_id sh) (s_parent_hash sh).
Proof.
  intros Hsh. exists (toy_header sh). split_and!; [|done|done]. by apply list_elem_of_fmap_2.
Qed.

Lemma toy_path : path toy_valid (toy_id a2) [toy_id a2; toy_id a1; toy_id genesis] root.
Proof.
  eapply (path_cons toy_valid); [apply (toy_parent a2); repeat constructor|].
  eapply (path_cons toy_valid); [apply (toy_parent a1); repeat constructor|].
  eapply (path_cons toy_valid); [apply (toy_parent genesis); repeat constructor|].
  apply (path_nil toy_valid).
Qed.
