(* ===== verification/ListenerProps.v ===== *)
(** * Correctness of the block listener

    The properties of the header cache and of the listener, each with an
    instance on the concrete chain of [ToyChain] where it has hypotheses. *)

From S2P Require Import Prelude HeadersCache TreeRoute BlockListener BlockListenerFacts.
From S2P Require Import ToyChain.

Section Properties.
Context `{HeaderHashing, !CollisionFree}.

(** [add_header] on a well-formed cache returns the hash of the header it
    was given, which [get_header] then finds, keeps the two maps of the cache
    in agreement, and changes no other entry. *)
Lemma add_header_correct c sh hdr :
  cache_wf c -> convert_header sh = Some hdr ->
  exists c', add_header sh c = (c', Ok (header_hash hdr)) /\
    cache_wf c' /\
    get_header c' (header_hash hdr) = Ok hdr /\
    header_hash hdr ∈ default ∅ (block_number_hashes c' !! s_number sh) /\
    forall h, h <> header_hash hdr -> get_header c' h = get_header c h.
Proof.
  intros Hwf Hconv. exists (insert_header c hdr).
  pose proof (convert_header_fields _ _ Hconv) as [_ Hn].
  rewrite add_header_run, Hconv. split_and!; [done | by apply insert_header_wf | | |].
  - apply get_header_Ok. cbn. by rewrite lookup_insert_eq.
  - rewrite <- Hn. cbn. rewrite lookup_insert_eq. cbn. set_solver.
  - intros h Hh. unfold get_header. cbn. by rewrite lookup_insert_ne by done.
Qed.

(** C29: pruning. [remove_header_until] ends on every cache, keeps it well formed, and removes
    exactly the headers of the heights its loop visits: those from which every height up
    to [n] is in the index. So on a cache of consecutive heights it leaves exactly the
    headers above [n]: after the message of block [b] the cache holds the headers higher
    than [b - CACHE_HEADER_DEPTH]. And it does not get past a height that is not in
    the index: every header below such a gap stays, and so does the gap, however far
    above it pruning starts; headers cached before an outage longer than the cache
    depth are never removed. *)
Theorem pruning_exact c n :
  0 <= n -> cache_wf c ->
  exists c', remove_header_until c n = Some c' /\ cache_wf c' /\
    (forall h hdr, get_header c' h = Ok hdr <->
                   get_header c h = Ok hdr /\ ~ pruned c n (number hdr)) /\
    (forall lo, 0 <= lo <= n -> (forall h hdr, get_header c h = Ok hdr -> lo <= number hdr) ->
       (forall k, lo <= k <= n -> is_Some (block_number_hashes c !! k)) ->
       forall h hdr, get_header c' h = Ok hdr <-> get_header c h = Ok hdr /\ n < number hdr) /\
    (forall gap, 0 <= gap <= n -> block_number_hashes c !! gap = None ->
       block_number_hashes c' !! gap = None /\
       forall h hdr, number hdr < gap -> (get_header c' h = Ok hdr <-> get_header c h = Ok hdr)).
Proof.
  intros Hn Hwf. destruct (remove_header_until_total c n) as [c' Hc'].
  exists c'. split; [done|]. apply remove_loop_spec in Hc' as [Hwf' Hl]; [|done..].
  assert (Hh : forall h hdr, get_header c' h = Ok hdr <->
                             get_header c h = Ok hdr /\ ~ pruned c n (number hdr)).
  { intros h hdr. rewrite !get_header_Ok. apply Hl. }
  split_and!; [done..| |].
  - intros lo Hlo Hlow Hdense h hdr. rewrite Hh. split; intros [Hc Hk]; split; try done.
    + apply Znot_ge_lt. intros Hle. apply Hk. specialize (Hlow h hdr Hc).
      split; [lia|]. intros j Hj. apply Hdense. lia.
    + intros [[_ Hle] _]. lia.
  - intros gap Hgap Hnone. split.
    + destruct (block_number_hashes c' !! gap) as [hs|] eqn:E; [exfalso|done].
      destruct (set_choose_L hs) as [h Hin]; [by eapply wf_nonempty|].
      destruct (proj1 (wf_index _ Hwf' gap h)) as (hdr & Hg & Hnum); [by rewrite E|].
      apply Hl in Hg as [Hg _].
      assert (Hidx : h ∈ default ∅ (block_number_hashes c !! gap)) by (apply (wf_index _ Hwf); eauto).
      rewrite Hnone in Hidx. set_solver.
    + intros h hdr Hlt. rewrite Hh. split; [naive_solver|]. intros Hg. split; [done|].
      intros [_ Hall]. destruct (Hall gap) as [? Hg']; [lia|]. congruence.
Qed.
End Properties.

Section Listening.
Context `{HeaderHashing, !CollisionFree, !TreeRouteAlgo, !TreeRouteLaws}.
Context (valid : Header -> Prop).

(** C28: the retries of [recursive_tree_route] end. With an honest node they
    give the route between the two blocks, over the headers downloaded on the
    way, or an error on which the listener reconnects. *)
Theorem recursive_tree_route_returns node from to c :
  ChainOk valid -> node_honest valid node -> cache_inv valid c ->
  exists c' r, recursive_tree_route node from to c = (c', r) /\ cache_inv valid c' /\
    ((exists route, r = Ok route /\
        ancestry (header_metadata c') from (retracted route) (common_block route) /\
        ancestry (header_metadata c') to (rev (enacted route)) (common_block route)) \/
     exists e, r = Err e /\ reconnects (Err e) = true).
Proof.
  intros Hchain Hnode Hc.
  pose proof (tree_route_retry_spec valid Hchain (S (size (rpc_headers node))) node from to c
                Hc Hnode (missing_bound node c)) as Hspec.
  unfold recursive_tree_route.
  destruct (tree_route_retry _ _ _ _ c) as [c' r]. exists c', r. split; [done|].
  destruct Hspec as [Hinv Hr]. split; [done|]. destruct r; naive_solver.
Qed.

(** C6: the messages [listen_for_blocks] broadcasts keep every subscriber on
    the canonical chain. A subscriber that starts with the whole ancestry of
    the listener's best block, and replays each message by dropping the
    retracted blocks and adding the new ones, ends with the whole ancestry of
    the new best block. *)
Theorem broadcast_replay sub s view root :
  ChainOk valid -> Forall (item_honest valid) sub -> cache_inv valid (cache s) ->
  (~ exists hdr, valid hdr /\ header_hash hdr = root) ->
  path valid (best_hash s) view root ->
  exists s' e msgs, listen_for_blocks sub s = (s', Err e) /\
    sent s' = sent s ++ msgs /\
    path valid (best_hash s') (replay view msgs) root.
Proof.
  intros Hchain Hsub Hc Hroot Hview.
  pose proof (listen_for_blocks_post valid Hchain sub s Hsub Hc) as Hpost.
  destruct (listen_for_blocks sub s) as [s' r].
  destruct Hpost as ((_ & (msgs & Hsent & Hann) & _) & [e ->]).
  exists s', e, msgs. split_and!; [done | done |].
  by apply (replay_path valid msgs (best_hash s)).
Qed.

(** C11: [listen_for_all_blocks] over honest sessions never panics, never hangs
    in a retry and never gives up on an error of its own: it leaves its loop
    only when [subscribe_all] itself fails. *)
Theorem listener_survives sessions c out :
  ChainOk valid -> Forall (session_honest valid) sessions -> cache_inv valid c ->
  exists c' out' res, listen_for_all_blocks sessions c out = (c', out', res) /\
    (res = None \/
     exists s e, s ∈ sessions /\ subscribe_all s = Err e /\ res = Some (Err (Subxt e))).
Proof.
  intros Hchain Hs. revert c out. induction Hs as [|s l Hs _ IH]; intros c out Hc; cbn.
  - by exists c, out, None; split; [|left].
  - destruct (sh_subscribe _ _ Hs) as [-> | [e He]].
    + cbn. pose proof (run_session_post valid Hchain s c out Hs Hc) as Hrun.
      destruct (run_session s c out) as [[c1 out1] r]. destruct Hrun as [Hc1 ->].
      destruct (IH c1 out1 Hc1) as (c' & out' & res & -> & [-> | (s' & e & Hin & He & ->)]).
      * by exists c', out', None; split; [|left].
      * exists c', out', (Some (Err (Subxt e))). split; [done|]. right.
        exists s', e. split_and!; [by right | done | done].
    + rewrite He. exists c, out, (Some (Err (Subxt e))). split; [done|]. right.
      exists s, e. split_and!; [left | done | done].
Qed.

(** The reorganisation data of a message names the retracted branch in
    full, oldest block first, and of the new branch every block except the new
    best one, which [announce] takes off the list before it builds the data. *)
Lemma reorg_data_omits_best route n s best l b :
  ChainOk valid -> cache_inv valid (cache s) ->
  ancestry (header_metadata (cache s)) (best_hash s) (retracted route) (common_block route) ->
  ancestry (header_metadata (cache s)) best (rev (enacted route)) (common_block route) ->
  retracted route <> [] -> enacted route = l ++ [b] ->
  exists s' bs, announce route n s = (s', Ok tt) /\ current_best_block s' = b /\
    be_hash <$> bs = hn_hash <$> (l ++ [b]) /\
    sent s' = sent s ++
      [{| blocks := bs;
          maybe_reorg_data := Some {| rd_enacted := l;
                                      rd_retracted := rev (retracted route);
                                      rd_common_block := common_block route |} |}].
Proof.
  intros Hchain Hinv _ Hena Hret Hl.
  destruct (get_block_exts _ _ _ _ _ Hinv Hena) as (bs & Hbs & Hhash & _).
  destruct (remove_header_until_inv valid (cache s) (saturating_sub n CACHE_HEADER_DEPTH))
    as (c' & Hc' & _); [unfold saturating_sub; lia | done |].
  eexists _, bs. rewrite Hhash, Hl. split; [|split; [|split]]; [| |done|].
  - unfold announce.
    rewrite (bool_decide_eq_false_2 (enacted route = [])) by (rewrite Hl; by destruct l).
    rewrite (bool_decide_eq_false_2 (retracted route = [])) by done. cbn [andb negb].
    rewrite SE_bind_unfold. cbn [gets]. rewrite SE_bind_unfold. unfold lift at 1.
    rewrite Hbs, SE_bind_unfold. rewrite Hl, last_snoc. unfold lift. cbn [expect].
    rewrite SE_bind_unfold. cbn [set_best modify]. rewrite SE_bind_unfold.
    cbn [send modify]. unfold with_cache, zoom, prune_cache. cbn [cache].
    rewrite Hc', removelast_last. reflexivity.
  - done.
  - done.
Qed.
End Listening.

(** ** Instances *)

Lemma add_header_correct_witness :
  convert_header b1 = Some (toy_header b1) /\
  exists c', add_header b1 toy_cache = (c', Ok (toy_id b1)) /\
             get_header c' (toy_id b1) = Ok (toy_header b1).
Proof.
  split; [done|].
  destruct (add_header_correct toy_cache b1 (toy_header b1) (proj1 toy_cache_inv) eq_refl)
    as (c' & Hadd & _ & Hget & _). by exists c'.
Defined.

Lemma pruning_exact_witness :
  (exists c', remove_header_until toy_cache 1 = Some c' /\
     get_header c' (toy_id a2) = Ok (toy_header a2) /\
     get_header c' (toy_id a1) <> Ok (toy_header a1)) /\
  (exists c', remove_header_until toy_cache 150 = Some c' /\
     get_header c' (toy_id a1) = Ok (toy_header a1)).
Proof.
  split.
  - destruct (pruning_exact toy_cache 1 ltac:(lia) (proj1 toy_cache_inv))
      as (c' & Hc' & _ & Hh & Hwindow & _). exists c'. split; [done|]. split.
    + apply (Hwindow 0); [lia | | | split; [by vm_compute | cbn; lia]].
      * intros h hdr Hg. apply (co_number _ toy_chain_ok).
        apply get_header_Ok in Hg. by eapply (proj2 toy_cache_inv).
      * intros k Hk. assert (k = 0 \/ k = 1) as [-> | ->] by lia; by eexists.
    + intros [_ Hp]%Hh. apply Hp. split; [cbn; lia|]. intros j Hj. cbn in Hj.
      replace j with 1 by lia. by eexists.
  - destruct (pruning_exact toy_cache 150 ltac:(lia) (proj1 toy_cache_inv))
      as (c' & Hc' & _ & _ & _ & Hgap). exists c'. split; [done|].
    apply (Hgap 50); [lia | reflexivity | cbn; lia | by vm_compute].
Defined.

(** The cache lacks the whole branch [b]: its three headers are downloaded. *)
Lemma recursive_tree_route_returns_witness :
  exists c' route,
    recursive_tree_route on_b (toy_id a2) (toy_id b3) toy_cache = (c', Ok route) /\
    ancestry (header_metadata c') (toy_id a2) (retracted route) (common_block route).
Proof.
  destruct (recursive_tree_route_returns toy_valid on_b (toy_id a2) (toy_id b3) toy_cache
              toy_chain_ok (toy_node_honest _) toy_cache_inv)
    as (c' & r & Hrun & _ & [(route & -> & Hret & _) | (e & -> & _)]).
  - exists c', route. split; [exact Hrun | exact Hret].
  - exfalso. apply (f_equal (fun x => is_ok x.2)) in Hrun. vm_compute in Hrun. discriminate.
Defined.

(** The subscriber is on branch [a] when the node switches to branch [b]. *)
Definition toy_sub : list (RpcNode * SubItem) := [toy_item on_b b3].

Lemma toy_sub_honest : Forall (item_honest toy_valid) toy_sub.
Proof. constructor; [apply toy_item_honest; repeat constructor | constructor]. Qed.

Lemma broadcast_replay_witness :
  exists s' e msgs, listen_for_blocks toy_sub toy_listener = (s', Err e) /\ sent s' = msgs /\
    path toy_valid (best_hash s')
         (replay [toy_id a2; toy_id a1; toy_id genesis] msgs) root.
Proof.
  destruct (broadcast_replay toy_valid toy_sub toy_listener
              [toy_id a2; toy_id a1; toy_id genesis] root
              toy_chain_ok toy_sub_honest toy_cache_inv toy_root_unserved toy_path)
    as (s' & e & msgs & Hrun & Hsent & Hpath).
  exists s', e, msgs. split_and!; [exact Hrun | exact Hsent | exact Hpath].
Defined.

Definition toy_sessions : list Session :=
  [{| subscribe_all := Ok tt; load_node := on_a;
      items := [toy_item on_a a2; toy_item on_b b3] |};
   {| subscribe_all := Err "refused"%string; load_node := on_b; items := [] |}].

Lemma toy_sessions_honest : Forall (session_honest toy_valid) toy_sessions.
Proof.
  constructor; [|constructor; [|constructor]]; split; cbn.
  - by left.
  - apply toy_node_honest.
  - do 2 (constructor; [apply toy_item_honest; repeat constructor|]). constructor.
  - right. by eexists.
  - apply toy_node_honest.
  - constructor.
Qed.

Lemma listener_survives_witness :
  exists c' out' res, listen_for_all_blocks toy_sessions default_cache [] = (c', out', res) /\
    (res = None \/ exists s e, s ∈ toy_sessions /\ subscribe_all s = Err e /\
                              res = Some (Err (Subxt e))).
Proof.
  apply (listener_survives toy_valid toy_sessions default_cache []).
  - apply toy_chain_ok.
  - apply toy_sessions_honest.
  - split; [apply default_cache_wf|]. intros h hdr. cbn. by rewrite lookup_empty.
Defined.

(** A reorganisation from [a2 - a1] to the branch [b1 - b2 - b3]. *)
Definition toy_cache_b : HeadersMetadataCache :=
  fold_left (fun c sh => insert_header c (toy_header sh)) [b1; b2; b3] toy_cache.

Definition toy_listener_b : Listener :=
  {| cache := toy_cache_b; current_best_block := current_best_block toy_listener; sent := [] |}.

Definition toy_route : TreeRoute :=
  match tree_route (header_metadata toy_cache_b) (toy_id a2) (toy_id b3) with
  | Ok route => route
  | _ => {| enacted := []; retracted := []; common_block := {| hn_number := 0; hn_hash := [] |} |}
  end.

Lemma toy_cache_b_inv : cache_inv toy_valid toy_cache_b.
Proof.
  unfold toy_cache_b. cbn [fold_left].
  do 3 (apply insert_header_inv; [| apply list_elem_of_fmap_2; repeat constructor]).
  apply toy_cache_inv.
Qed.

Lemma reorg_data_omits_best_witness :
  exists s' bs, announce toy_route 3 toy_listener_b = (s', Ok tt) /\
    sent s' =
      [{| blocks := bs;
          maybe_reorg_data := Some
            {| rd_enacted := [{| hn_number := 1; hn_hash := toy_id b1 |};
                              {| hn_number := 2; hn_hash := toy_id b2 |}];
               rd_retracted := [{| hn_number := 1; hn_hash := toy_id a1 |};
                                {| hn_number := 2; hn_hash := toy_id a2 |}];
               rd_common_block := {| hn_number := 0; hn_hash := toy_id genesis |} |} |}].
Proof.
  assert (Hroute : tree_route (header_metadata toy_cache_b) (toy_id a2) (toy_id b3) =
                   Ok toy_route) by (vm_compute; reflexivity).
  destruct (tr_Ok _ _ _ _ (cache_backend_ok toy_valid toy_chain_ok _ toy_cache_b_inv) Hroute)
    as [Hret Hena].
  destruct (reorg_data_omits_best toy_valid toy_route 3 toy_listener_b (toy_id b3)
              [{| hn_number := 1; hn_hash := toy_id b1 |};
               {| hn_number := 2; hn_hash := toy_id b2 |}]
              {| hn_number := 3; hn_hash := toy_id b3 |}
              toy_chain_ok toy_cache_b_inv Hret Hena)
    as (s' & bs & Hrun & _ & _ & Hsent).
  - by vm_compute.
  - vm_compute. reflexivity.
  - exists s', bs. split; [exact Hrun|]. rewrite Hsent. vm_compute. reflexivity.
Defined.
