(* ===== verification/Scale.v ===== *)
(** * The interface of the SCALE codec

    The decoders of the repository are written over the primitive decoders of
    [parity-scale-codec], which is not code of this repository: they are the fields of the
    class [ScaleCodec], together with the encoders the runtime uses to write
    storage, and [ScaleLaws] states what the SCALE specification says of them.
    [ScaleLE] is an implementation for which the laws are proved. *)

From Stdlib Require Import Strings.Byte.
From S2P Require Import Prelude.

(** [parity_scale_codec::Error]: a message, or a message chained over a cause. *)
Inductive CodecError : Type :=
  | CodecMessage (desc : string)
  | CodecChain (cause : CodecError) (desc : string).

(** A decoder reads from the front of its input, which it takes by reference. *)
Abbreviation Decoder := (SE (list byte) CodecError).

Class ScaleCodec : Type := {
  decode_u8 : Decoder Z;
  decode_u32 : Decoder Z;
  decode_u64 : Decoder Z;
  decode_u128 : Decoder Z;
  (** [<[u8; 32]>::decode] *)
  decode_bytes32 : Decoder (list byte);
  (** [Compact::<u32>::decode] *)
  decode_compact_u32 : Decoder Z;
  (** [BTreeMap::<u64, u128>::decode] *)
  decode_map_u64_u128 : Decoder (gmap Z Z);
  encode_u8 : Z -> list byte;
  encode_u32 : Z -> list byte;
  encode_u64 : Z -> list byte;
  encode_u128 : Z -> list byte;
  encode_compact_u32 : Z -> list byte;
  encode_map_u64_u128 : gmap Z Z -> list byte;
}.

(** [d] reads back what [e] wrote, and leaves what follows. *)
Definition reads {A} (d : Decoder A) (P : A -> Prop) (e : A -> list byte) : Prop :=
  forall a rest, P a -> d (e a ++ rest) = (rest, Ok a).

(** Every value [d] gives satisfies [P]; on bad input it fails, and it never
    panics. *)
Definition safe {A} (d : Decoder A) (P : A -> Prop) : Prop :=
  forall input, (exists a, (d input).2 = Ok a /\ P a) \/ (exists e, (d input).2 = Err e).

Definition map_in_range (m : gmap Z Z) : Prop :=
  map_Forall (fun k v => in_u 64 k /\ in_u 128 v) m /\ Z.of_nat (size m) < 2 ^ 32.

Class ScaleLaws `{ScaleCodec} : Prop := {
  read_u8 : reads decode_u8 (in_u 8) encode_u8;
  read_u32 : reads decode_u32 (in_u 32) encode_u32;
  read_u64 : reads decode_u64 (in_u 64) encode_u64;
  read_u128 : reads decode_u128 (in_u 128) encode_u128;
  read_bytes32 : reads decode_bytes32 (fun l => length l = 32%nat) id;
  read_compact_u32 : reads decode_compact_u32 (in_u 32) encode_compact_u32;
  read_map : reads decode_map_u64_u128 map_in_range encode_map_u64_u128;
  safe_u8 : safe decode_u8 (in_u 8);
  safe_u32 : safe decode_u32 (in_u 32);
  safe_u64 : safe decode_u64 (in_u 64);
  safe_u128 : safe decode_u128 (in_u 128);
  safe_bytes32 : safe decode_bytes32 (fun l => length l = 32%nat);
  safe_compact_u32 : safe decode_compact_u32 (in_u 32);
  safe_map : safe decode_map_u64_u128 map_in_range;
  (** The encoding of [segment: u32] in a storage key has four bytes, and
      fixed-width encodings are injective. *)
  length_encode_u32 : forall v, length (encode_u32 v) = 4%nat;
}.

Section Combinators.
Context {A B : Type}.

Lemma reads_bind (d : Decoder A) P e (k : A -> Decoder B) a rest :
  reads d P e -> P a -> (d ≫= k) (e a ++ rest) = k a rest.
Proof. intros Hd Ha. by rewrite SE_bind_unfold, Hd. Qed.

Lemma safe_bind (d : Decoder A) P (k : A -> Decoder B) Q :
  safe d P -> (forall a, P a -> safe (k a) Q) -> safe (d ≫= k) Q.
Proof.
  intros Hd Hk input. rewrite SE_bind_unfold.
  destruct (Hd input) as [(a & Ha & HP) | [e He]];
    destruct (d input) as [rest r]; cbn in *; subst r; [by apply Hk | eauto].
Qed.

Lemma safe_ret (a : A) (Q : A -> Prop) : Q a -> safe (mret a : Decoder A) Q.
Proof. intros Ha input. left. cbn. eauto. Qed.

Lemma safe_throw e (Q : A -> Prop) : safe (throw e : Decoder A) Q.
Proof. intros input. right. cbn. eauto. Qed.

Lemma safe_weaken (d : Decoder A) P Q : safe d P -> (forall a, P a -> Q a) -> safe d Q.
Proof. intros Hd HPQ input. destruct (Hd input) as [(a & ? & ?)|]; eauto. Qed.
End Combinators.

Create HintDb scale.
#[export] Hint Resolve read_u8 read_u32 read_u64 read_u128 read_bytes32 read_compact_u32
  read_map safe_u8 safe_u32 safe_u64 safe_u128 safe_bytes32 safe_compact_u32 safe_map
  safe_ret safe_throw : scale.

(** One field of a record: reads it off the front of an input that is the
    encoding of its fields. *)
Ltac read_field :=
  rewrite <- ?app_assoc;
  first
    [ erewrite (reads_bind decode_u8) by (eauto with scale)
    | erewrite (reads_bind decode_u32) by (eauto with scale)
    | erewrite (reads_bind decode_u64) by (eauto with scale)
    | erewrite (reads_bind decode_u128) by (eauto with scale)
    | erewrite (reads_bind decode_compact_u32) by (eauto with scale)
    | erewrite (reads_bind decode_map_u64_u128) by (eauto with scale) ].

(** One field of a record, for the totality of its decoder. *)
Ltac safe_field := eapply safe_bind; [by eauto with scale | intros; cbn beta in *].
