(* ===== verification/ScaleLE.v ===== *)
(** * A SCALE codec

    [ScaleLE] implements the interface of [Scale] as the SCALE specification
    describes it: little-endian integers of a fixed width, compact lengths in
    one, two, four or five bytes with the canonical form checked, and maps as a
    length and the pairs in some order. It shows that [ScaleLaws] can hold, and the
    concrete runs of the development decode with it. *)

From Stdlib Require Import Strings.Byte.
From coqutil Require Import Byte Word.LittleEndianList.
From S2P Require Import Prelude Scale.

Definition not_enough : CodecError := CodecMessage "Not enough data to fill buffer".
Definition out_of_range : CodecError := CodecMessage "out of range".

(** Takes [n] bytes off the input. *)
Definition take_bytes (n : nat) : Decoder (list byte) := fun input =>
  if (n <=? length input)%nat then (drop n input, Ok (take n input))
  else ([], Err not_enough).

Definition le_decode (n : nat) : Decoder Z :=
  bs ← take_bytes n; mret (le_combine bs).

Definition compact_encode (v : Z) : list byte :=
  if v <? 2 ^ 6 then le_split 1 (4 * v)
  else if v <? 2 ^ 14 then le_split 2 (4 * v + 1)
  else if v <? 2 ^ 30 then le_split 4 (4 * v + 2)
  else le_split 1 3 ++ le_split 4 v.

(** The next bytes of a compact integer, little-endian above its first. *)
Definition compact_rest (b : Z) (n : nat) (lo hi : Z) : Decoder Z :=
  r ← le_decode n;
  let v := (b + 256 * r) / 4 in
  if (lo <=? v) && (v <? hi) then mret v else throw out_of_range.

Definition compact_decode : Decoder Z :=
  b ← le_decode 1;
  if b mod 4 =? 0 then mret (b / 4)
  else if b mod 4 =? 1 then compact_rest b 1 (2 ^ 6) (2 ^ 14)
  else if b mod 4 =? 2 then compact_rest b 3 (2 ^ 14) (2 ^ 30)
  else if b =? 3 then
    v ← le_decode 4; if 2 ^ 30 <=? v then mret v else throw out_of_range
  else throw out_of_range.

Fixpoint pairs_decode (n : nat) (acc : gmap Z Z) : Decoder (gmap Z Z) :=
  match n with
  | O => mret acc
  | S n => k ← le_decode 8; v ← le_decode 16; pairs_decode n (<[k := v]> acc)
  end.

Definition pairs_encode (l : list (Z * Z)) : list byte :=
  concat ((fun p => le_split 8 p.1 ++ le_split 16 p.2) <$> l).

Definition map_decode : Decoder (gmap Z Z) :=
  n ← compact_decode; pairs_decode (Z.to_nat n) ∅.

Definition map_encode (m : gmap Z Z) : list byte :=
  compact_encode (Z.of_nat (size m)) ++ pairs_encode (rev (map_to_list m)).

Definition scale_le : ScaleCodec := {|
  decode_u8 := le_decode 1;
  decode_u32 := le_decode 4;
  decode_u64 := le_decode 8;
  decode_u128 := le_decode 16;
  decode_bytes32 := take_bytes 32;
  decode_compact_u32 := compact_decode;
  decode_map_u64_u128 := map_decode;
  encode_u8 := le_split 1;
  encode_u32 := le_split 4;
  encode_u64 := le_split 8;
  encode_u128 := le_split 16;
  encode_compact_u32 := compact_encode;
  encode_map_u64_u128 := map_encode;
|}.

Lemma take_bytes_app n bs rest :
  length bs = n -> take_bytes n (bs ++ rest) = (rest, Ok bs).
Proof.
  intros <-. unfold take_bytes. rewrite length_app.
  destruct (Nat.leb_spec (length bs) (length bs + length rest)); [|lia].
  by rewrite drop_app_length, take_app_length.
Qed.

Lemma reads_le n w : w = 8 * Z.of_nat n -> reads (le_decode n) (in_u w) (le_split n).
Proof.
  intros -> v rest Hv. unfold le_decode.
  rewrite SE_bind_unfold, take_bytes_app by apply length_le_split. cbn.
  rewrite le_combine_split, Z.mod_small; [done|].
  unfold in_u in Hv. by rewrite Z.mul_comm in Hv.
Qed.

Lemma safe_take n : safe (take_bytes n) (fun l => length l = n).
Proof.
  intros input. unfold take_bytes. destruct (Nat.leb_spec n (length input)); cbn.
  - left. eexists; split; [done|]. rewrite length_take. lia.
  - right. eauto.
Qed.

Lemma safe_le n w : w = 8 * Z.of_nat n -> safe (le_decode n) (in_u w).
Proof.
  intros ->. unfold le_decode. eapply safe_bind; [apply safe_take|]. intros bs Hbs.
  apply safe_ret. unfold in_u. pose proof (le_combine_bound bs) as Hb. by rewrite Hbs in Hb.
Qed.

Lemma le_bind {B} n w v (k : Z -> Decoder B) rest :
  w = 8 * Z.of_nat n -> in_u w v -> (le_decode n ≫= k) (le_split n v ++ rest) = k v rest.
Proof. intros Hw Hv. by apply (reads_bind _ (in_u w)); [apply reads_le|]. Qed.

(** The first byte of a little-endian integer carries its value modulo 256. *)
Lemma le_split_cons n v :
  le_split (S n) v = le_split 1 (v mod 256) ++ le_split n (v / 256).
Proof.
  change (byte.of_Z v :: le_split n (Z.shiftr v 8) =
          byte.of_Z (v mod 256) :: le_split n (v / 256)).
  rewrite Z.shiftr_div_pow2 by lia. f_equal.
  apply byte.unsigned_inj. rewrite !byte.unsigned_of_Z. unfold byte.wrap.
  by rewrite Z.mod_mod.
Qed.

Lemma compact_rest_read b n v lo hi m rest :
  0 <= b < 256 -> 4 * v + m = b + 256 * ((4 * v + m) / 256) -> 0 <= m < 4 ->
  lo <= v < hi -> in_u (8 * Z.of_nat n) ((4 * v + m) / 256) ->
  compact_rest b n lo hi (le_split n ((4 * v + m) / 256) ++ rest) = (rest, Ok v).
Proof.
  intros Hb Hv Hm Hr Hu. unfold compact_rest. erewrite le_bind by done. cbn zeta.
  rewrite <- Hv. replace ((4 * v + m) / 4) with v by (Z.to_euclidean_division_equations; lia).
  rewrite (proj2 (Z.leb_le lo v)), (proj2 (Z.ltb_lt v hi)) by lia. done.
Qed.

Lemma reads_compact : reads compact_decode (in_u 32) compact_encode.
Proof.
  intros v rest [Hlo Hhi]. unfold compact_decode, compact_encode.
  destruct (Z.ltb_spec v (2 ^ 6)); [|destruct (Z.ltb_spec v (2 ^ 14));
    [|destruct (Z.ltb_spec v (2 ^ 30))]].
  - erewrite le_bind; [|done|split; lia].
    replace ((4 * v) mod 4) with 0 by (Z.to_euclidean_division_equations; lia).
    cbn [Z.eqb]. by replace (4 * v / 4) with v by (Z.to_euclidean_division_equations; lia).
  - rewrite le_split_cons, <- app_assoc.
    erewrite le_bind; [|done|split; Z.to_euclidean_division_equations; lia].
    replace ((4 * v + 1) mod 256 mod 4) with 1 by (Z.to_euclidean_division_equations; lia).
    cbn [Z.eqb]. apply compact_rest_read;
      try (split; cbn; Z.to_euclidean_division_equations; lia);
      Z.to_euclidean_division_equations; lia.
  - rewrite le_split_cons, <- app_assoc.
    erewrite le_bind; [|done|split; Z.to_euclidean_division_equations; lia].
    replace ((4 * v + 2) mod 256 mod 4) with 2 by (Z.to_euclidean_division_equations; lia).
    cbn [Z.eqb Pos.eqb]. apply compact_rest_read;
      try (split; cbn; Z.to_euclidean_division_equations; lia);
      Z.to_euclidean_division_equations; lia.
  - rewrite <- app_assoc. erewrite le_bind; [|done|split; lia]. cbn [Z.eqb Pos.eqb Z.modulo].
    change (3 mod 4) with 3. cbn [Z.eqb Pos.eqb].
    erewrite le_bind; [|done|split; lia].
    by rewrite (proj2 (Z.leb_le _ _)) by lia.
Qed.

Lemma safe_compact : safe compact_decode (in_u 32).
Proof.
  assert (Hrest : forall b n lo hi, 0 <= lo -> hi <= 2 ^ 32 ->
    safe (compact_rest b n lo hi) (in_u 32)).
  { intros b n lo hi Hlo Hhi. unfold compact_rest. eapply safe_bind; [by apply safe_le|].
    intros r _. cbn zeta. destruct (Z.leb_spec lo ((b + 256 * r) / 4)); [|apply safe_throw].
    destruct (Z.ltb_spec ((b + 256 * r) / 4) hi); [|apply safe_throw].
    apply safe_ret. split; lia. }
  unfold compact_decode. eapply safe_bind; [by apply (safe_le 1 8)|]. intros b Hb.
  destruct (_ =? 0).
  { apply safe_ret. destruct Hb. split; Z.to_euclidean_division_equations; lia. }
  destruct (_ =? 1); [apply Hrest; lia|].
  destruct (_ =? 2); [apply Hrest; lia|].
  destruct (_ =? 3); [|apply safe_throw].
  eapply safe_bind; [by apply (safe_le 4 32)|]. intros v Hv.
  destruct (_ <=? v); [by apply safe_ret | apply safe_throw].
Qed.

Lemma pairs_read l acc rest :
  Forall (fun p => in_u 64 p.1 /\ in_u 128 p.2) l ->
  pairs_decode (length l) acc (pairs_encode l ++ rest) =
    (rest, Ok (list_to_map (rev l) ∪ acc)).
Proof.
  intros Hl. revert acc. induction Hl as [|[k v] l [Hk Hv] _ IH]; intros acc; cbn.
  - by rewrite (left_id_L ∅ (∪)).
  - rewrite <- !app_assoc. erewrite le_bind by done. erewrite le_bind by done.
    etransitivity; [exact (IH _)|]. do 2 f_equal.
    rewrite list_to_map_app, <- (assoc_L (∪)). f_equal. cbn.
    by rewrite insert_empty, insert_union_singleton_l.
Qed.

Lemma reads_map : reads map_decode map_in_range map_encode.
Proof.
  intros m rest [Hm Hs]. unfold map_decode, map_encode. rewrite <- app_assoc.
  rewrite (reads_bind _ (in_u 32)); [|apply reads_compact|split; lia].
  rewrite Nat2Z.id, <- length_map_to_list.
  rewrite <- length_rev, pairs_read.
  - by rewrite rev_involutive, list_to_map_to_list, (right_id_L ∅ (∪)).
  - apply Forall_rev, Forall_forall. intros [k v] Hkv.
    apply elem_of_map_to_list in Hkv. exact (Hm k v Hkv).
Qed.

Lemma safe_pairs n acc :
  map_Forall (fun k v => in_u 64 k /\ in_u 128 v) acc ->
  safe (pairs_decode n acc) (fun m =>
    map_Forall (fun k v => in_u 64 k /\ in_u 128 v) m /\ (size m <= size acc + n)%nat).
Proof.
  revert acc. induction n as [|n IH]; intros acc Hacc; cbn [pairs_decode].
  - apply safe_ret. split; [done | lia].
  - eapply safe_bind; [by apply (safe_le 8 64)|]. intros k Hk.
    eapply safe_bind; [by apply (safe_le 16 128)|]. intros v Hv.
    eapply safe_weaken; [apply IH; by apply map_Forall_insert_2|].
    cbn. intros m [Hm Hs]. split; [done|].
    assert (size (<[k:=v]> acc) <= S (size acc))%nat; [|lia].
    rewrite map_size_insert. destruct (acc !! k); unfold id; lia.
Qed.

Lemma safe_map_decode : safe map_decode map_in_range.
Proof.
  unfold map_decode. eapply safe_bind; [apply safe_compact|]. intros n Hn.
  eapply safe_weaken; [by apply safe_pairs, map_Forall_empty|].
  cbn. intros m [Hm Hs]. split; [done|]. rewrite map_size_empty in Hs.
  destruct Hn. lia.
Qed.

Lemma scale_le_laws : @ScaleLaws scale_le.
Proof.
  constructor; cbn; try (by apply reads_le); try (by apply safe_le).
  - intros l rest Hl. by apply take_bytes_app.
  - apply reads_compact.
  - apply reads_map.
  - apply safe_take.
  - apply safe_compact.
  - apply safe_map_decode.
  - intros v. apply length_le_split.
Qed.
