(* ===== verification/RpcTypes.v ===== *)
(** * Storage decoders of the indexer and of the balance check

    Models the hand-written [Decode] implementations of
    [indexer/src/rpc_types.rs], [indexer/src/types.rs] ([StakingSummary]) and
    [shared/src/subspace.rs] ([StorageAccountInfo]). Each is compared with
    the encoding of the whole on-chain record, whose layout the source gives
    in its comments: the [OnChain] records and their [encode_] functions. *)

From Stdlib Require Import Strings.Byte.
From S2P Require Import Prelude Scale.

(** ** The decoded types *)

Inductive OperatorStatusCompact : Type :=
  | Registered
  | Deregistered
  | Slashed
  | PendingSlash
  | InvalidBundle
  | Deactivated.

Definition as_str (s : OperatorStatusCompact) : string :=
  match s with
  | Registered => "registered"
  | Deregistered => "deregistered"
  | Slashed => "slashed"
  | PendingSlash => "pending_slash"
  | InvalidBundle => "invalid_bundle"
  | Deactivated => "deactivated"
  end.

Record NominatorWithdrawal : Type := {
  nw_shares : Z;
  nw_amount : Z;
  nw_storage_fee_refund : Z;
}.

Record FullOperator : Type := {
  fo_signing_key : list byte;
  fo_current_domain_id : Z;
  fo_minimum_nominator_stake : Z;
  fo_nomination_tax : Z;
  fo_current_total_stake : Z;
  fo_current_total_shares : Z;
  fo_status : OperatorStatusCompact;
  fo_total_storage_fee_deposit : Z;
}.

(** [StakingSummary]: its [current_operators]. *)
Record StakingSummary : Type := { current_operators : gmap Z Z }.

(** [StorageAccountData] and [StorageAccountInfo]. *)
Record StorageAccountData : Type := { free : Z }.
Record StorageAccountInfo : Type := { account_data : StorageAccountData }.

(** ** The decoders *)

Section Decoders.
Context `{ScaleCodec}.

(** [DomainEpochHelper::skip]. *)
Definition skip_domain_epoch : Decoder unit :=
  _ ← decode_u32; _ ← decode_u32; mret tt.

Definition unknown_variant (n : Z) : CodecError :=
  CodecChain (CodecMessage "Unknown OperatorStatus variant") ("variant index: " +:+ pretty n).

Definition decode_status : Decoder OperatorStatusCompact :=
  variant ← decode_u8;
  if variant =? 0 then mret Registered
  else if variant =? 1 then
    _ ← skip_domain_epoch; _ ← decode_u32; mret Deregistered
  else if variant =? 2 then mret Slashed
  else if variant =? 3 then mret PendingSlash
  else if variant =? 4 then _ ← decode_bytes32; mret InvalidBundle
  else if variant =? 5 then _ ← decode_u32; mret Deactivated
  else throw (unknown_variant variant).

(** The [for] loop over the [VecDeque] of withdrawals, with its two running
    variables. *)
Fixpoint decode_withdrawals (len : nat) (last_amount last_refund : Z) : Decoder (Z * Z) :=
  match len with
  | O => mret (last_amount, last_refund)
  | S len =>
      _ ← decode_u32;
      last_amount ← decode_u128;
      last_refund ← decode_u128;
      decode_withdrawals len last_amount last_refund
  end.

Definition decode_withdrawal : Decoder NominatorWithdrawal :=
  _ ← decode_u128;
  _ ← decode_u128;
  len ← decode_compact_u32;
  last ← decode_withdrawals (Z.to_nat len) 0 0;
  variant ← decode_u8;
  if variant =? 0 then
    mret {| nw_shares := 0; nw_amount := last.1; nw_storage_fee_refund := last.2 |}
  else
    _ ← decode_u32;
    _ ← decode_u32;
    _ ← decode_u32;
    shares ← decode_u128;
    storage_fee_refund ← decode_u128;
    mret {| nw_shares := shares; nw_amount := 0; nw_storage_fee_refund := storage_fee_refund |}.

Definition decode_operator : Decoder FullOperator :=
  signing_key ← decode_bytes32;
  current_domain_id ← decode_u32;
  _ ← decode_u32;
  minimum_nominator_stake ← decode_u128;
  nomination_tax ← decode_u8;
  current_total_stake ← decode_u128;
  current_total_shares ← decode_u128;
  status ← decode_status;
  _ ← decode_u128;
  _ ← decode_u128;
  total_storage_fee_deposit ← decode_u128;
  mret {| fo_signing_key := signing_key;
          fo_current_domain_id := current_domain_id;
          fo_minimum_nominator_stake := minimum_nominator_stake;
          fo_nomination_tax := nomination_tax;
          fo_current_total_stake := current_total_stake;
          fo_current_total_shares := current_total_shares;
          fo_status := status;
          fo_total_storage_fee_deposit := total_storage_fee_deposit |}.

Definition decode_staking_summary : Decoder StakingSummary :=
  _ ← decode_u32;
  _ ← decode_u128;
  current_operators ← decode_map_u64_u128;
  mret {| current_operators := current_operators |}.

Definition decode_account_data : Decoder StorageAccountData :=
  free ← decode_u128;
  _ ← decode_u128;
  _ ← decode_u128;
  _ ← decode_u128;
  mret {| free := free |}.

Definition decode_account_info : Decoder StorageAccountInfo :=
  _ ← decode_u32;
  _ ← decode_u32;
  _ ← decode_u32;
  _ ← decode_u32;
  data ← decode_account_data;
  mret {| account_data := data |}.
End Decoders.

(** ** The on-chain records

    The specification side: the whole records, as the layout comments of the
    source give them. *)

Inductive OnChainStatus : Type :=
  | OcRegistered
  | OcDeregistered (domain_id epoch_index unlock_at_block : Z)
  | OcSlashed
  | OcPendingSlash
  | OcInvalidBundle (bad_receipt_hash : list byte)
  | OcDeactivated (at_epoch_index : Z).

Record OnChainWithdrawal : Type := {
  ow_unlock_at : Z;
  ow_amount_to_unlock : Z;
  ow_storage_fee_refund : Z;
}.

Record OnChainSharesWithdrawal : Type := {
  os_domain_id : Z;
  os_epoch_index : Z;
  os_unlock_at : Z;
  os_shares : Z;
  os_storage_fee_refund : Z;
}.

Record OnChainWithdrawals : Type := {
  ow_total_withdrawal_amount : Z;
  ow_total_storage_fee_withdrawal : Z;
  ow_withdrawals : list OnChainWithdrawal;
  ow_withdrawal_in_shares : option OnChainSharesWithdrawal;
}.

Record OnChainOperator : Type := {
  oo_signing_key : list byte;
  oo_current_domain_id : Z;
  oo_next_domain_id : Z;
  oo_minimum_nominator_stake : Z;
  oo_nomination_tax : Z;
  oo_current_total_stake : Z;
  oo_current_total_shares : Z;
  oo_status : OnChainStatus;
  oo_deposits_in_epoch : Z;
  oo_withdrawals_in_epoch : Z;
  oo_total_storage_fee_deposit : Z;
}.

Definition wf_status (s : OnChainStatus) : Prop :=
  match s with
  | OcDeregistered d e u => in_u 32 d /\ in_u 32 e /\ in_u 32 u
  | OcInvalidBundle h => length h = 32%nat
  | OcDeactivated e => in_u 32 e
  | _ => True
  end.

Definition wf_withdrawal (w : OnChainWithdrawal) : Prop :=
  in_u 32 (ow_unlock_at w) /\ in_u 128 (ow_amount_to_unlock w) /\
  in_u 128 (ow_storage_fee_refund w).

Definition wf_shares (s : OnChainSharesWithdrawal) : Prop :=
  in_u 32 (os_domain_id s) /\ in_u 32 (os_epoch_index s) /\ in_u 32 (os_unlock_at s) /\
  in_u 128 (os_shares s) /\ in_u 128 (os_storage_fee_refund s).

Definition wf_withdrawals (w : OnChainWithdrawals) : Prop :=
  in_u 128 (ow_total_withdrawal_amount w) /\ in_u 128 (ow_total_storage_fee_withdrawal w) /\
  Forall wf_withdrawal (ow_withdrawals w) /\ Z.of_nat (length (ow_withdrawals w)) < 2 ^ 32 /\
  match ow_withdrawal_in_shares w with None => True | Some s => wf_shares s end.

Definition wf_operator (o : OnChainOperator) : Prop :=
  length (oo_signing_key o) = 32%nat /\ in_u 32 (oo_current_domain_id o) /\
  in_u 32 (oo_next_domain_id o) /\ in_u 128 (oo_minimum_nominator_stake o) /\
  in_u 8 (oo_nomination_tax o) /\ in_u 128 (oo_current_total_stake o) /\
  in_u 128 (oo_current_total_shares o) /\ wf_status (oo_status o) /\
  in_u 128 (oo_deposits_in_epoch o) /\ in_u 128 (oo_withdrawals_in_epoch o) /\
  in_u 128 (oo_total_storage_fee_deposit o).

Section Encodings.
Context `{ScaleCodec}.

Definition encode_status (s : OnChainStatus) : list byte :=
  match s with
  | OcRegistered => encode_u8 0
  | OcDeregistered d e u => encode_u8 1 ++ encode_u32 d ++ encode_u32 e ++ encode_u32 u
  | OcSlashed => encode_u8 2
  | OcPendingSlash => encode_u8 3
  | OcInvalidBundle h => encode_u8 4 ++ h
  | OcDeactivated e => encode_u8 5 ++ encode_u32 e
  end.

Definition encode_one_withdrawal (w : OnChainWithdrawal) : list byte :=
  encode_u32 (ow_unlock_at w) ++ encode_u128 (ow_amount_to_unlock w) ++
  encode_u128 (ow_storage_fee_refund w).

Definition encode_shares (s : option OnChainSharesWithdrawal) : list byte :=
  match s with
  | None => encode_u8 0
  | Some s =>
      encode_u8 1 ++ encode_u32 (os_domain_id s) ++ encode_u32 (os_epoch_index s) ++
      encode_u32 (os_unlock_at s) ++ encode_u128 (os_shares s) ++
      encode_u128 (os_storage_fee_refund s)
  end.

Definition encode_withdrawals (w : OnChainWithdrawals) : list byte :=
  encode_u128 (ow_total_withdrawal_amount w) ++
  encode_u128 (ow_total_storage_fee_withdrawal w) ++
  encode_compact_u32 (Z.of_nat (length (ow_withdrawals w))) ++
  concat (encode_one_withdrawal <$> ow_withdrawals w) ++
  encode_shares (ow_withdrawal_in_shares w).

Definition encode_operator (o : OnChainOperator) : list byte :=
  oo_signing_key o ++ encode_u32 (oo_current_domain_id o) ++ encode_u32 (oo_next_domain_id o) ++
  encode_u128 (oo_minimum_nominator_stake o) ++ encode_u8 (oo_nomination_tax o) ++
  encode_u128 (oo_current_total_stake o) ++ encode_u128 (oo_current_total_shares o) ++
  encode_status (oo_status o) ++ encode_u128 (oo_deposits_in_epoch o) ++
  encode_u128 (oo_withdrawals_in_epoch o) ++ encode_u128 (oo_total_storage_fee_deposit o).
End Encodings.

(** What the decoders keep of the on-chain records. *)
Definition status_of (s : OnChainStatus) : OperatorStatusCompact :=
  match s with
  | OcRegistered => Registered
  | OcDeregistered _ _ _ => Deregistered
  | OcSlashed => Slashed
  | OcPendingSlash => PendingSlash
  | OcInvalidBundle _ => InvalidBundle
  | OcDeactivated _ => Deactivated
  end.

Definition withdrawal_of (w : OnChainWithdrawals) : NominatorWithdrawal :=
  match ow_withdrawal_in_shares w, last (ow_withdrawals w) with
  | Some s, _ =>
      {| nw_shares := os_shares s; nw_amount := 0;
         nw_storage_fee_refund := os_storage_fee_refund s |}
  | None, Some l =>
      {| nw_shares := 0; nw_amount := ow_amount_to_unlock l;
         nw_storage_fee_refund := ow_storage_fee_refund l |}
  | None, None => {| nw_shares := 0; nw_amount := 0; nw_storage_fee_refund := 0 |}
  end.

Definition operator_of (o : OnChainOperator) : FullOperator :=
  {| fo_signing_key := oo_signing_key o;
     fo_current_domain_id := oo_current_domain_id o;
     fo_minimum_nominator_stake := oo_minimum_nominator_stake o;
     fo_nomination_tax := oo_nomination_tax o;
     fo_current_total_stake := oo_current_total_stake o;
     fo_current_total_shares := oo_current_total_shares o;
     fo_status := status_of (oo_status o);
     fo_total_storage_fee_deposit := oo_total_storage_fee_deposit o |}.
