(* ===== verification/RpcTypesProps.v ===== *)
(** * Correctness of the storage decoders

    Each decoder, on the encoding of a whole on-chain record followed by any
    bytes, gives what the program keeps of the record; on any input
    whatever it returns a value in range or an error. *)

From Stdlib Require Import Strings.Byte.
From S2P Require Import Prelude Scale ScaleLE RpcTypes.

Section Decoding.
Context `{ScaleCodec, !ScaleLaws}.

Lemma read_bytes32_bind {B} (l : list byte) (k : list byte -> Decoder B) rest :
  length l = 32%nat -> (decode_bytes32 ≫= k) (l ++ rest) = k l rest.
Proof. intros Hl. exact (reads_bind _ _ id k l rest read_bytes32 Hl). Qed.

Lemma in_u_small w z : 0 <= z < 6 -> 8 <= w -> in_u w z.
Proof.
  intros Hz Hw. split; [lia|].
  assert (2 ^ 8 <= 2 ^ w) by (apply Z.pow_le_mono_r; lia). lia.
Qed.

Hint Resolve in_u_small : scale.
Hint Extern 1 (_ <= _ < _) => lia : scale.
Hint Extern 1 (_ <= _) => lia : scale.

Lemma skip_domain_epoch_read d e rest :
  in_u 32 d -> in_u 32 e ->
  skip_domain_epoch (encode_u32 d ++ encode_u32 e ++ rest) = (rest, Ok tt).
Proof. intros. unfold skip_domain_epoch. by do 2 read_field. Qed.

Lemma status_read o rest :
  wf_status o -> decode_status (encode_status o ++ rest) = (rest, Ok (status_of o)).
Proof.
  intros Hwf. unfold decode_status. destruct o as [|d e u| | |h|e]; cbn [encode_status wf_status] in *;
    read_field; cbn [Z.eqb Pos.eqb]; try reflexivity.
  - destruct Hwf as (Hd & He & Hu). rewrite SE_bind_unfold, (skip_domain_epoch_read d e _ Hd He).
    by read_field.
  - by rewrite read_bytes32_bind.
  - by read_field.
Qed.

Lemma withdrawals_read ws a r rest :
  Forall wf_withdrawal ws ->
  decode_withdrawals (length ws) a r (concat (encode_one_withdrawal <$> ws) ++ rest) =
    (rest, Ok (match last ws with
               | None => (a, r)
               | Some w => (ow_amount_to_unlock w, ow_storage_fee_refund w)
               end)).
Proof.
  intros Hws. revert a r.
  induction Hws as [|w ws (Hu & Ha & Hr) _ IH]; intros a r; [done|].
  cbn [length decode_withdrawals fmap list_fmap concat]. unfold encode_one_withdrawal at 1.
  do 3 read_field. rewrite IH. destruct ws as [|w' ws]; [done|].
  destruct (last (w' :: ws)) eqn:E; [by rewrite last_cons_cons, E|]. by apply last_None in E.
Qed.

Lemma safe_skip : safe skip_domain_epoch (fun _ => True).
Proof. unfold skip_domain_epoch. do 2 safe_field. by apply safe_ret. Qed.

Lemma safe_status : safe decode_status (fun _ => True).
Proof.
  unfold decode_status. safe_field.
  repeat (destruct (_ =? _);
    [repeat (first [by apply safe_ret | eapply safe_bind; [apply safe_skip | intros _ _]
                   | safe_field])|]).
  apply safe_throw.
Qed.

Lemma safe_withdrawals len a r :
  in_u 128 a -> in_u 128 r ->
  safe (decode_withdrawals len a r) (fun p => in_u 128 p.1 /\ in_u 128 p.2).
Proof.
  revert a r. induction len as [|len IH]; intros a r Ha Hr; cbn [decode_withdrawals].
  - by apply safe_ret.
  - do 3 safe_field. by apply IH.
Qed.

Lemma shares_read w a r rest :
  match w with None => True | Some s => wf_shares s end ->
  (variant ← decode_u8;
   if variant =? 0 then
     mret {| nw_shares := 0; nw_amount := a; nw_storage_fee_refund := r |}
   else
     _ ← decode_u32; _ ← decode_u32; _ ← decode_u32;
     shares ← decode_u128;
     storage_fee_refund ← decode_u128;
     mret {| nw_shares := shares; nw_amount := 0; nw_storage_fee_refund := storage_fee_refund |})
    (encode_shares w ++ rest) =
  (rest, Ok (match w with
             | Some s => {| nw_shares := os_shares s; nw_amount := 0;
                            nw_storage_fee_refund := os_storage_fee_refund s |}
             | None => {| nw_shares := 0; nw_amount := a; nw_storage_fee_refund := r |}
             end)).
Proof.
  destruct w as [s|]; cbn [encode_shares].
  - intros (Hd & He & Hu & Hs & Hr). read_field. cbn [Z.eqb]. by do 5 read_field.
  - intros _. by read_field.
Qed.

Lemma safe_operator : safe decode_operator (fun o =>
  length (fo_signing_key o) = 32%nat /\ in_u 32 (fo_current_domain_id o) /\
  in_u 128 (fo_minimum_nominator_stake o) /\ in_u 8 (fo_nomination_tax o) /\
  in_u 128 (fo_current_total_stake o) /\ in_u 128 (fo_current_total_shares o) /\
  in_u 128 (fo_total_storage_fee_deposit o)).
Proof.
  unfold decode_operator. do 7 safe_field.
  eapply safe_bind; [apply safe_status | intros ? _]. do 3 safe_field.
  by apply safe_ret.
Qed.

Lemma safe_withdrawal : safe decode_withdrawal (fun w =>
  in_u 128 (nw_shares w) /\ in_u 128 (nw_amount w) /\ in_u 128 (nw_storage_fee_refund w) /\
  (nw_shares w = 0 \/ nw_amount w = 0)).
Proof.
  assert (Hzero : in_u 128 0) by (split; lia).
  unfold decode_withdrawal. do 3 safe_field.
  eapply safe_bind; [by apply safe_withdrawals | intros [a' r'] [Ha Hr]].
  safe_field. destruct (_ =? 0).
  - apply safe_ret. cbn in *. naive_solver.
  - do 5 safe_field. apply safe_ret. cbn. naive_solver.
Qed.

Lemma safe_staking_summary :
  safe decode_staking_summary (fun s => map_in_range (current_operators s)).
Proof. unfold decode_staking_summary. do 3 safe_field. by apply safe_ret. Qed.

Lemma safe_account_info :
  safe decode_account_info (fun i => in_u 128 (free (account_data i))).
Proof.
  unfold decode_account_info, decode_account_data. do 4 safe_field.
  eapply safe_bind; [do 4 safe_field; by apply safe_ret with (Q := fun d => in_u 128 (free d))|].
  intros d Hd. by apply safe_ret.
Qed.

(** ** Properties *)

(** [FullOperator::decode] reads the fields the indexer stores out of the
    whole on-chain record: on the encoding of any operator, whatever its status
    and whatever follows, it skips the next domain, the epoch's deposits and
    withdrawals and the data of the status variants, and stops after the
    record. *)
Lemma operator_decodes o rest :
  wf_operator o ->
  decode_operator (encode_operator o ++ rest) = (rest, Ok (operator_of o)).
Proof.
  intros (Hk & Hd & Hn & Hm & Ht & Hs & Hsh & Hst & Hdep & Hw & Hf).
  unfold decode_operator, encode_operator. rewrite <- !app_assoc.
  rewrite read_bytes32_bind by done. do 6 read_field.
  rewrite <- ?app_assoc, SE_bind_unfold, status_read by done. by do 3 read_field.
Qed.

(** [NominatorWithdrawal::decode]: on the encoding of any [Withdrawals]
    entry, a pending withdrawal in shares gives its shares and its refund; when
    there is none, the last entry of the queue gives the converted amount and
    its refund, and an empty queue gives zeros. *)
Lemma withdrawal_decodes w rest :
  wf_withdrawals w ->
  decode_withdrawal (encode_withdrawals w ++ rest) = (rest, Ok (withdrawal_of w)).
Proof.
  intros (Ha & Hf & Hws & Hlen & Hs). unfold decode_withdrawal, encode_withdrawals.
  assert (in_u 32 (Z.of_nat (length (ow_withdrawals w)))) by (split; lia).
  do 3 read_field. rewrite Nat2Z.id, <- ?app_assoc, SE_bind_unfold, withdrawals_read by done.
  cbn beta iota. etransitivity; [by apply shares_read|].
  unfold withdrawal_of. destruct (ow_withdrawal_in_shares w), (last (ow_withdrawals w)); done.
Qed.

(** C26: the hand-written decoders read what the chain writes. On the encoding of any
    operator, whatever its status, [FullOperator::decode] gives the fields the indexer stores;
    on any [Withdrawals] entry [NominatorWithdrawal::decode] gives a pending withdrawal in
    shares with its refund, or else the amount of the last entry of the queue, or
    zeros; a balance check reads the free balance, and the staking summary gives the current
    operators. Each stops where its record does and leaves what follows. *)
Theorem records_decode :
  (forall o rest, wf_operator o ->
     decode_operator (encode_operator o ++ rest) = (rest, Ok (operator_of o))) /\
  (forall w rest, wf_withdrawals w ->
     decode_withdrawal (encode_withdrawals w ++ rest) = (rest, Ok (withdrawal_of w))) /\
  (forall nonce consumers providers sufficients free_ reserved frozen flags rest,
     Forall (in_u 32) [nonce; consumers; providers; sufficients] ->
     Forall (in_u 128) [free_; reserved; frozen; flags] ->
     decode_account_info
       (encode_u32 nonce ++ encode_u32 consumers ++ encode_u32 providers ++
        encode_u32 sufficients ++ encode_u128 free_ ++ encode_u128 reserved ++
        encode_u128 frozen ++ encode_u128 flags ++ rest) =
       (rest, Ok {| account_data := {| free := free_ |} |})) /\
  (forall epoch stake operators rest,
     in_u 32 epoch -> in_u 128 stake -> map_in_range operators ->
     decode_staking_summary
       (encode_u32 epoch ++ encode_u128 stake ++ encode_map_u64_u128 operators ++ rest) =
       (rest, Ok {| current_operators := operators |})).
Proof.
  split; [exact operator_decodes|]. split; [exact withdrawal_decodes|]. split.
  - intros * H32 H128. decompose_Forall. unfold decode_account_info. do 4 read_field.
    rewrite SE_bind_unfold. unfold decode_account_data. by do 4 read_field.
  - intros * He Hs Hops. unfold decode_staking_summary. by do 3 read_field.
Qed.

(** C27: the decoders are total: on any bytes each of them gives a value, whose
    integers are in the range of their types, or a decoding error, and never
    panics; a withdrawal has shares or an amount, never both; and a status byte
    that is none of the six known variants is the error that names it. *)
Theorem decoders_total input :
  ((exists o, (decode_operator input).2 = Ok o /\
      length (fo_signing_key o) = 32%nat /\ in_u 32 (fo_current_domain_id o) /\
      in_u 128 (fo_minimum_nominator_stake o) /\ in_u 8 (fo_nomination_tax o) /\
      in_u 128 (fo_current_total_stake o) /\ in_u 128 (fo_current_total_shares o) /\
      in_u 128 (fo_total_storage_fee_deposit o)) \/
   exists e, (decode_operator input).2 = Err e) /\
  ((exists w, (decode_withdrawal input).2 = Ok w /\
      in_u 128 (nw_shares w) /\ in_u 128 (nw_amount w) /\ in_u 128 (nw_storage_fee_refund w) /\
      (nw_shares w = 0 \/ nw_amount w = 0)) \/
   exists e, (decode_withdrawal input).2 = Err e) /\
  ((exists s, (decode_staking_summary input).2 = Ok s /\ map_in_range (current_operators s)) \/
   exists e, (decode_staking_summary input).2 = Err e) /\
  ((exists i, (decode_account_info input).2 = Ok i /\ in_u 128 (free (account_data i))) \/
   exists e, (decode_account_info input).2 = Err e) /\
  forall n, 6 <= n < 256 ->
    decode_status (encode_u8 n ++ input) = (input, Err (unknown_variant n)).
Proof.
  split; [exact (safe_operator input)|].
  split; [exact (safe_withdrawal input)|].
  split; [exact (safe_staking_summary input)|].
  split; [exact (safe_account_info input)|].
  intros n Hn. unfold decode_status. erewrite reads_bind; [|apply read_u8|split; lia].
  do 6 (rewrite (proj2 (Z.eqb_neq n _)) by lia). done.
Qed.
End Decoding.

(** ** Witnesses *)

Section Witnesses.
Existing Instance scale_le.
Existing Instance scale_le_laws.

Definition sample_key : list byte := repeat "007"%byte 32.

Definition sample_operator : OnChainOperator := {|
  oo_signing_key := sample_key; oo_current_domain_id := 0; oo_next_domain_id := 0;
  oo_minimum_nominator_stake := 10 ^ 18; oo_nomination_tax := 5;
  oo_current_total_stake := 10 ^ 20; oo_current_total_shares := 10 ^ 20;
  oo_status := OcDeregistered 0 4211 70000; oo_deposits_in_epoch := 3;
  oo_withdrawals_in_epoch := 9; oo_total_storage_fee_deposit := 25 * 10 ^ 17 |}.

Definition sample_withdrawals : OnChainWithdrawals := {|
  ow_total_withdrawal_amount := 30; ow_total_storage_fee_withdrawal := 3;
  ow_withdrawals :=
    [ {| ow_unlock_at := 5; ow_amount_to_unlock := 10; ow_storage_fee_refund := 1 |};
      {| ow_unlock_at := 7; ow_amount_to_unlock := 20; ow_storage_fee_refund := 2 |} ];
  ow_withdrawal_in_shares := None |}.

Lemma records_decode_witness :
  decode_operator (encode_operator sample_operator ++ [x01]) =
    ([x01], Ok (operator_of sample_operator)) /\
  decode_withdrawal (encode_withdrawals sample_withdrawals ++ []) =
    ([], Ok {| nw_shares := 0; nw_amount := 20; nw_storage_fee_refund := 2 |}) /\
  decode_staking_summary
    (encode_u32 4211 ++ encode_u128 50 ++ encode_map_u64_u128 {[1 := 20; 4 := 30]} ++ [x01]) =
    ([x01], Ok {| current_operators := {[1 := 20; 4 := 30]} |}).
Proof.
  split; [|split].
  - apply (proj1 records_decode). cbv. repeat split; discriminate.
  - apply (proj1 (proj2 records_decode)). repeat (split || constructor); cbn; try lia; done.
  - apply (proj2 (proj2 (proj2 records_decode))); [split; lia | split; lia |].
    split; [|done].
    repeat (apply map_Forall_insert_2; [split; split; lia|]). apply map_Forall_empty.
Defined.

Lemma decoders_total_witness :
  decode_status (encode_u8 9 ++ []) = ([], Err (unknown_variant 9)).
Proof.
  exact (proj2 (proj2 (proj2 (proj2 (decoders_total [])))) 9 ltac:(lia)).
Defined.
End Witnesses.
