(* ===== verification/Types.v ===== *)
(** * The indexer's types

    Models [indexer/src/types.rs] (chain and account identifiers, transfers,
    256-bit message numbers, [U128Compat]) and the checkpoint keys of
    [indexer/src/xdm.rs] and [indexer/src/staking.rs], with the decimal text
    the database stores of integers.

    [HashAndNumber], [Location] and the like keep the source's field names
    behind a short prefix. The text of an account ([sp_core]'s SS58 [Display])
    and hexadecimal text ([to_hex] of subxt, [hex::encode]) are third-party
    functions: the fields of the class [TextCodecs]. *)

From Stdlib Require Import Strings.Byte Strings.Ascii.
From S2P Require Import Prelude.

Class TextCodecs : Type := {
  (** [sp_core::crypto::AccountId32::to_string], the SS58 address. *)
  ss58 : list byte -> string;
  (** [subxt::utils::to_hex]. *)
  to_hex : list byte -> string;
  (** [hex::encode]. *)
  hex_encode : list byte -> string;
}.

(** ** Decimal text

    [Display] of an integer is [pretty]; [parse_u] is [str::parse] for an
    unsigned integer of [w] bits. *)

Inductive IntErrorKind : Type := Empty | InvalidDigit | PosOverflow.

Definition digit (c : ascii) : option Z :=
  let n := Z.of_nat (nat_of_ascii c) - 48 in
  if (0 <=? n) && (n <? 10) then Some n else None.

(** The digit loop of [from_str_radix]: the multiplication is checked before
    the digit is read, the addition after it. *)
Fixpoint parse_digits (w acc : Z) (s : string) : outcome IntErrorKind Z :=
  match s with
  | EmptyString => Ok acc
  | String c s' =>
      let mul := acc * 10 in
      x ← ok_or (digit c) InvalidDigit;
      if 2 ^ w <=? mul then Err PosOverflow
      else if 2 ^ w <=? mul + x then Err PosOverflow
      else parse_digits w (mul + x) s'
  end.

Definition parse_u (w : Z) (s : string) : outcome IntErrorKind Z :=
  match s with
  | EmptyString => Err Empty
  | String c s' =>
      if bool_decide (c = "+"%char) then
        match s' with EmptyString => Err InvalidDigit | _ => parse_digits w 0 s' end
      else parse_digits w 0 s
  end.

(** [U128Compat]'s [Decode]: the database gives [amount::text]. *)
Definition decode_u128_compat (text : string) : outcome IntErrorKind Z := parse_u 128 text.

(** ** Message numbers *)

(** [U256Compat([u64; 4])], least significant limb first. *)
Record U256Compat : Type := { limb0 : Z; limb1 : Z; limb2 : Z; limb3 : Z }.

Definition u256_wf (v : U256Compat) : Prop :=
  in_u 64 (limb0 v) /\ in_u 64 (limb1 v) /\ in_u 64 (limb2 v) /\ in_u 64 (limb3 v).

Definition u256_value (v : U256Compat) : Z :=
  limb0 v + 2 ^ 64 * (limb1 v + 2 ^ 64 * (limb2 v + 2 ^ 64 * limb3 v)).

Definition u256_to_string (v : U256Compat) : string := pretty (u256_value v).

Definition XdmChannelId : Type := U256Compat.
Definition XdmNonce : Type := U256Compat.
Definition XdmMessageId : Type := XdmChannelId * XdmNonce.

(** ** Chains and accounts *)

Record DomainId : Type := { domain_id : Z }.

Inductive ChainId : Type :=
  | Consensus
  | Domain (d : DomainId).

Definition domain_to_string (d : DomainId) : string := pretty (domain_id d).

Definition chain_to_string (c : ChainId) : string :=
  match c with
  | Consensus => "Consensus"
  | Domain d => "Domain(" +:+ domain_to_string d +:+ ")"
  end.

Inductive MultiAccountId : Type :=
  | AccountId32 (data : list byte)
  | AccountId20 (data : list byte)
  | Raw (data : list byte).

Definition account_to_string `{TextCodecs} (a : MultiAccountId) : string :=
  match a with
  | AccountId32 data => ss58 data
  | AccountId20 data => to_hex data
  | Raw data => to_hex data
  end.

Record Location : Type := {
  chain_id : ChainId;
  account_id : MultiAccountId;
}.

Record Transfer : Type := {
  tr_amount : Z;
  tr_sender : Location;
  tr_receiver : Location;
}.

Record DomainEpoch : Type := { de_domain : DomainId; de_epoch : Z }.

#[export] Instance DomainId_eq : EqDecision DomainId.
Proof. solve_decision. Defined.
#[export] Instance ChainId_eq : EqDecision ChainId.
Proof. solve_decision. Defined.
#[export] Instance U256_eq : EqDecision U256Compat.
Proof. solve_decision. Defined.

#[export] Instance byte_eq : EqDecision byte := Byte.byte_eq_dec.
#[export] Instance MultiAccountId_eq : EqDecision MultiAccountId.
Proof. solve_decision. Defined.
#[export] Instance Location_eq : EqDecision Location.
Proof. solve_decision. Defined.
#[export] Instance Transfer_eq : EqDecision Transfer.
Proof. solve_decision. Defined.
#[export] Instance DomainEpoch_eq : EqDecision DomainEpoch.
Proof. solve_decision. Defined.

(** ** Checkpoint keys *)

Definition get_xdm_processor_key (c : ChainId) : string :=
  "xdm_processor_" +:+ chain_to_string c.

Definition CHECKPOINT_KEY : string := "staking_processor_Consensus".

(** ** Lemmas *)

Lemma string_app_inv_r (s1 s2 : string) (c : ascii) :
  s1 +:+ String c "" = s2 +:+ String c "" -> s1 = s2.
Proof.
  revert s2. induction s1 as [|a s1 IH]; intros [|b s2] Heq; cbn in *; simplify_eq; try done.
  - by destruct s2.
  - by destruct s1.
  - f_equal. by apply IH.
Qed.

#[export] Instance chain_to_string_inj : Inj (=) (=) chain_to_string.
Proof.
  intros [|[d]] [|[d']] Heq; unfold chain_to_string, domain_to_string in Heq; cbn in Heq;
    try discriminate Heq; [done|].
  simplify_eq. apply string_app_inv_r in Heq. by apply (inj pretty) in Heq as ->.
Qed.

Lemma u256_bound v : u256_wf v -> 0 <= u256_value v < 2 ^ 256.
Proof. unfold u256_wf, in_u, u256_value. lia. Qed.

Lemma u256_value_inj v v' : u256_wf v -> u256_wf v' -> u256_value v = u256_value v' -> v = v'.
Proof.
  destruct v, v'. unfold u256_wf, in_u, u256_value. cbn. intros. f_equal; lia.
Qed.

Lemma digit_pretty n : (n < 10)%N -> digit (pretty_N_char n) = Some (Z.of_N n).
Proof.
  intros Hn. destruct n as [|p]; [done|].
  do 4 (destruct p as [p|p|]; try done; try lia).
Qed.

Lemma pretty_digit_not_plus n : pretty_N_char n <> "+"%char.
Proof. destruct n as [|p]; [done|]. by do 4 (destruct p as [p|p|]; try done). Qed.

(** Reading the digits of [n] in front of [s] continues with [s] from [n]. *)
Lemma parse_digits_go w n s :
  Z.of_N n < 2 ^ w -> parse_digits w 0 (pretty_N_go n s) = parse_digits w (Z.of_N n) s.
Proof.
  revert s. induction n as [n IH] using (well_founded_induction N.lt_wf_0).
  intros s Hn. destruct (decide (0 < n)%N) as [Hpos|Hz].
  - rewrite pretty_N_go_step by done.
    assert (n / 10 < n)%N by (apply N.div_lt; lia).
    rewrite IH by lia. cbn [parse_digits].
    rewrite digit_pretty by (apply N.mod_lt; lia). cbn.
    assert (Hdiv : Z.of_N (n / 10) * 10 + Z.of_N (n `mod` 10) = Z.of_N n).
    { pose proof (N.div_mod n 10). lia. }
    pose proof (N2Z.is_nonneg (n `mod` 10)) as Hmod. rewrite Hdiv.
    rewrite (proj2 (Z.leb_gt (2 ^ w) (Z.of_N (n / 10) * 10)))
      by (rewrite <- Hdiv in Hn; clear -Hn Hmod; lia).
    by rewrite (proj2 (Z.leb_gt (2 ^ w) (Z.of_N n))) by lia.
  - assert (n = 0%N) as -> by lia. by rewrite pretty_N_go_0.
Qed.

Lemma pretty_go_head n s :
  (0 < n)%N -> exists c s', pretty_N_go n s = String c s' /\ c <> "+"%char.
Proof.
  revert s. induction n as [n IH] using (well_founded_induction N.lt_wf_0).
  intros s Hn. rewrite pretty_N_go_step by done.
  destruct (decide (0 < n / 10)%N) as [Hpos|Hz].
  - apply IH; [apply N.div_lt; lia | done].
  - apply N.le_ngt, N.le_0_r in Hz. rewrite Hz, pretty_N_go_0.
    eauto using pretty_digit_not_plus.
Qed.

(** Printing an integer and parsing it back. *)
Lemma parse_pretty w z : 0 < w -> in_u w z -> parse_u w (pretty z) = Ok z.
Proof.
  intros Hw [Hlo Hhi]. destruct z as [|p|p]; [| |lia].
  - change (parse_u w (pretty 0)) with
      (if 2 ^ w <=? 0 then Err PosOverflow
       else if 2 ^ w <=? 0 then Err PosOverflow else Ok 0 : outcome IntErrorKind Z).
    by rewrite (proj2 (Z.leb_gt (2 ^ w) 0)) by lia.
  - change (pretty (Z.pos p)) with (pretty_N_go (N.pos p) "").
    destruct (pretty_go_head (N.pos p) "") as (c & s & Heq & Hc); [lia|].
    unfold parse_u. rewrite Heq, bool_decide_eq_false_2 by done. rewrite <- Heq.
    by rewrite parse_digits_go by (cbn; lia).
Qed.
