(* ===== verification/Events.v ===== *)
(** * Runtime events

    Models [indexer/src/events.rs]: the event structs with their [StaticEvent]
    names, and the ways the indexer looks for them in the events of a block,
    [Events::find] and [EventDetails::as_event] of subxt.

    The bytes of an event's fields and their decoding against the runtime
    metadata ([DecodeAsType]) are subxt's: the class [EventCodec]. *)

From Stdlib Require Import Strings.Byte.
From S2P Require Import Prelude Types.

(** ** Transporter events *)

Record OutgoingTransferInitiated : Type := {
  oti_chain_id : ChainId;
  oti_message_id : XdmMessageId;
  oti_amount : Z;
}.

Record OutgoingTransferFailed : Type := {
  otf_chain_id : ChainId;
  otf_message_id : XdmMessageId;
}.

Record OutgoingTransferSuccessful : Type := {
  ots_chain_id : ChainId;
  ots_message_id : XdmMessageId;
}.

Record IncomingTransferSuccessful : Type := {
  its_chain_id : ChainId;
  its_message_id : XdmMessageId;
  its_amount : Z;
}.

Record OutgoingTransferInitiatedWithTransfer : Type := {
  otw_message_id : XdmMessageId;
  otw_transfer : Transfer;
}.

(** The overarching event type of the XDM indexer. *)
Inductive Event : Type :=
  | EvOutgoingTransferInitiated (e : OutgoingTransferInitiatedWithTransfer)
  | EvOutgoingTransferFailed (e : OutgoingTransferFailed)
  | EvOutgoingTransferSuccessful (e : OutgoingTransferSuccessful)
  | EvIncomingTransferSuccessful (e : IncomingTransferSuccessful).

#[export] Instance Event_eq : EqDecision Event.
Proof.
  assert (EqDecision OutgoingTransferFailed) by solve_decision.
  assert (EqDecision OutgoingTransferSuccessful) by solve_decision.
  assert (EqDecision IncomingTransferSuccessful) by solve_decision.
  assert (EqDecision OutgoingTransferInitiatedWithTransfer) by solve_decision.
  solve_decision.
Defined.

(** ** Domains events *)

Record DomainEpochCompleted : Type := {
  dec_domain_id : DomainId;
  dec_completed_epoch_index : Z;
}.

Record StorageFeeDeposited : Type := {
  sfd_operator_id : Z;
  sfd_nominator_id : list byte;
  sfd_amount : Z;
}.

Record OperatorNominated : Type := {
  on_operator_id : Z;
  on_nominator_id : list byte;
  on_amount : Z;
}.

(** [NominatorUnlocked], [WithdrewStake] and [NominatedStakedUnlocked] have
    the same two fields. *)
Record NominatorEvent : Type := {
  ne_operator_id : Z;
  ne_nominator_id : list byte;
}.

(** [OperatorRegistered], [OperatorDeregistered], [OperatorSlashed],
    [OperatorDeactivated] and [OperatorReactivated] have one field. *)
Record OperatorEvent : Type := { oe_operator_id : Z }.

(** ** Static events *)

(** The types with a [StaticEvent] implementation. *)
Inductive EventKind : Type :=
  | KOutgoingTransferInitiated
  | KOutgoingTransferFailed
  | KOutgoingTransferSuccessful
  | KIncomingTransferSuccessful
  | KDomainEpochCompleted
  | KStorageFeeDeposited
  | KOperatorNominated
  | KNominatorUnlocked
  | KWithdrewStake
  | KNominatedStakedUnlocked
  | KOperatorRegistered
  | KOperatorDeregistered
  | KOperatorSlashed
  | KOperatorDeactivated
  | KOperatorReactivated.

#[export] Instance EventKind_eq : EqDecision EventKind.
Proof. solve_decision. Defined.

Definition event_of (k : EventKind) : Type :=
  match k with
  | KOutgoingTransferInitiated => OutgoingTransferInitiated
  | KOutgoingTransferFailed => OutgoingTransferFailed
  | KOutgoingTransferSuccessful => OutgoingTransferSuccessful
  | KIncomingTransferSuccessful => IncomingTransferSuccessful
  | KDomainEpochCompleted => DomainEpochCompleted
  | KStorageFeeDeposited => StorageFeeDeposited
  | KOperatorNominated => OperatorNominated
  | KNominatorUnlocked | KWithdrewStake | KNominatedStakedUnlocked => NominatorEvent
  | KOperatorRegistered | KOperatorDeregistered | KOperatorSlashed
  | KOperatorDeactivated | KOperatorReactivated => OperatorEvent
  end.

Definition PALLET (k : EventKind) : string :=
  match k with
  | KOutgoingTransferInitiated | KOutgoingTransferFailed
  | KOutgoingTransferSuccessful | KIncomingTransferSuccessful => "Transporter"
  | _ => "Domains"
  end.

Definition EVENT (k : EventKind) : string :=
  match k with
  | KOutgoingTransferInitiated => "OutgoingTransferInitiated"
  | KOutgoingTransferFailed => "OutgoingTransferFailed"
  | KOutgoingTransferSuccessful => "OutgoingTransferSuccessful"
  | KIncomingTransferSuccessful => "IncomingTransferSuccessful"
  | KDomainEpochCompleted => "DomainEpochCompleted"
  | KStorageFeeDeposited => "StorageFeeDeposited"
  | KOperatorNominated => "OperatorNominated"
  | KNominatorUnlocked => "NominatorUnlocked"
  | KWithdrewStake => "WithdrewStake"
  | KNominatedStakedUnlocked => "NominatedStakedUnlocked"
  | KOperatorRegistered => "OperatorRegistered"
  | KOperatorDeregistered => "OperatorDeregistered"
  | KOperatorSlashed => "OperatorSlashed"
  | KOperatorDeactivated => "OperatorDeactivated"
  | KOperatorReactivated => "OperatorReactivated"
  end.

Class EventCodec : Type := {
  Fields : Type;
  decode_as_type : forall k, Fields -> outcome string (event_of k);
}.

Section Find.
Context `{EventCodec}.

(** [subxt]'s [EventDetails]: its pallet and variant names from the
    metadata, and its fields. *)
Record EventDetails : Type := {
  ed_pallet : string;
  ed_variant : string;
  ed_fields : Fields;
}.

(** [EventDetails::as_event::<E>] for a static event [E] with the given names
    and decoder: [None] on an event of another type. *)
Definition as_static {E} (pallet variant : string) (decode : Fields -> outcome string E)
    (e : EventDetails) : outcome string (option E) :=
  if bool_decide (ed_pallet e = pallet /\ ed_variant e = variant) then
    Some <$> decode (ed_fields e)
  else mret None.

(** [Events::find::<E>]: the events of the type, with the decoding errors. The
    items of [events] are what iterating over the block's events gives. *)
Definition find_static {E} (pallet variant : string) (decode : Fields -> outcome string E)
    (events : list (outcome string EventDetails)) : list (outcome string E) :=
  omap (fun ev =>
    match e ← ev; as_static pallet variant decode e with
    | Ok None => None
    | Ok (Some e) => Some (Ok e)
    | Err msg => Some (Err msg)
    | Panic => Some Panic
    | Diverge => Some Diverge
    end) events.

Definition as_event (k : EventKind) : EventDetails -> outcome string (option (event_of k)) :=
  as_static (PALLET k) (EVENT k) (decode_as_type k).

(** [e.as_event::<E>().ok().flatten()]. *)
Definition as_event_ok (k : EventKind) (e : EventDetails) : option (event_of k) :=
  match as_event k e with Ok o => o | _ => None end.

Definition find (k : EventKind) (events : list (outcome string EventDetails))
    : list (outcome string (event_of k)) :=
  find_static (PALLET k) (EVENT k) (decode_as_type k) events.

(** [events.iter().filter_map(|event| event.ok())]. *)
Definition oks (events : list (outcome string EventDetails)) : list EventDetails :=
  omap (fun ev => match ev with Ok e => Some e | _ => None end) events.
End Find.

Arguments EventDetails {_}.

(** An event is looked for under the name of one type only. *)
Lemma static_event_names k k' : PALLET k = PALLET k' -> EVENT k = EVENT k' -> k = k'.
Proof. by destruct k, k'. Qed.
