(* ===== verification/Chain.v ===== *)
(** * Reading the chain

    Models the reads of [BlockExt] and [SubspaceBlockProvider] in
    [shared/src/subspace.rs]: blocks by number or hash, storage entries,
    the timestamp, balances and the events of a block, whole or in segments
    ([shared/src/types.rs]).

    The subxt client is a record of the answers it gives at a block hash. *)

From Stdlib Require Import Strings.Byte.
From S2P Require Import Prelude HeadersCache TreeRoute BlockListener Scale RpcTypes Types.
From S2P Require Import Events.

(** The keys the source builds for a storage entry ([StaticStorageKey]). *)
Inductive StorageArg : Type :=
  | ArgU64 (n : Z)
  | ArgAccount (account : list byte)
  | ArgDomain (d : DomainId)
  | ArgDomainEpoch (de : DomainEpoch)
  | ArgChain (c : ChainId)
  | ArgMessage (m : XdmMessageId).

(** [subxt::dynamic::storage(pallet, entry, args)]. *)
Record StorageQuery : Type := {
  q_pallet : string;
  q_storage : string;
  q_args : list StorageArg;
}.

#[export] Instance StorageArg_eq : EqDecision StorageArg.
Proof. solve_decision. Defined.
#[export] Instance StorageQuery_eq : EqDecision StorageQuery.
Proof. solve_decision. Defined.

Class Twox : Type := {
  (** [sp_crypto_hashing::twox_128] *)
  twox_128 : list byte -> list byte;
}.

(** [H256::as_ref]. *)
Class HashBytes `{ChainTypes} : Type := { hash_bytes : Hash -> list byte }.

Section Chain.
Context `{ChainTypes, ScaleCodec, EventCodec, Twox}.

(** [OnlineClient]: what its calls answer. *)
Record Client : Type := {
  (** [storage().at(hash).fetch(&query)]: the encoded value *)
  cl_fetch : Hash -> StorageQuery -> outcome string (option (list byte));
  (** [storage().at(hash).iter(query)]: the key bytes and the encoded values *)
  cl_iter : Hash -> StorageQuery -> outcome string (list (outcome string (list byte * list byte)));
  (** [events().at(hash)], and what iterating over it gives *)
  cl_events : Hash -> outcome string (list (outcome string EventDetails));
  (** [constants().at(&EventSegmentSize)] *)
  cl_segment_size : outcome string Z;
  (** [backend().storage_fetch_value(key, hash)] *)
  cl_fetch_value : list byte -> Hash -> outcome string (option (list byte));
  (** [Events::decode_from(bytes, metadata)], and what iterating over it gives *)
  cl_decode_events : list byte -> list (outcome string EventDetails);
}.

Definition scale_error (e : CodecError) : Error Hash :=
  Scale (match e with CodecMessage d => d | CodecChain _ d => d end).

(** ** Storage entries *)

Definition try_read_storage {T} (decode : Decoder T) (client : Client) (hash : Hash)
    (pallet storage : string) (args : list StorageArg) : outcome (Error Hash) (option T) :=
  let query := {| q_pallet := pallet; q_storage := storage; q_args := args |} in
  encoded ← map_err Subxt (cl_fetch client hash query);
  match encoded with
  | None => mret None
  | Some bytes => Some <$> map_err scale_error (decode bytes).2
  end.

Definition read_storage {T} (decode : Decoder T) (client : Client) (hash : Hash)
    (pallet storage : string) (args : list StorageArg) : outcome (Error Hash) T :=
  value ← try_read_storage decode client hash pallet storage args;
  ok_or value (Storage (pallet +:+ "." +:+ storage)).

Definition has_storage (client : Client) (hash : Hash) (pallet storage : string)
    (args : list StorageArg) : outcome (Error Hash) bool :=
  let query := {| q_pallet := pallet; q_storage := storage; q_args := args |} in
  encoded ← map_err Subxt (cl_fetch client hash query);
  mret (bool_decide (is_Some encoded)).

Definition iter_storage {T} (decode : Decoder T) (client : Client) (hash : Hash)
    (pallet storage : string) : outcome (Error Hash) (list (list byte * T)) :=
  let query := {| q_pallet := pallet; q_storage := storage; q_args := [] |} in
  stream ← map_err Subxt (cl_iter client hash query);
  mapM (fun kv =>
    kv ← map_err Subxt kv;
    value ← map_err scale_error (decode kv.2).2;
    mret (kv.1, value)) stream.

Definition timestamp (client : Client) (hash : Hash) : outcome (Error Hash) Z :=
  read_storage decode_u64 client hash "Timestamp" "Now" [].

Definition free_balance (client : Client) (hash : Hash) (account : list byte)
    : outcome (Error Hash) (option Z) :=
  info ← try_read_storage decode_account_info client hash "System" "Account" [ArgAccount account];
  mret (option_map (fun i => free (account_data i)) info).

(** ** Events *)

Definition events (client : Client) (hash : Hash)
    : outcome (Error Hash) (list (outcome string EventDetails)) :=
  map_err Subxt (cl_events client hash).

(** The bytes of an ASCII string literal. *)
Definition str_bytes (s : string) : list byte := String.list_byte_of_string s.

Definition system_event_segment_key (segment : Z) : list byte :=
  twox_128 (str_bytes "System") ++ twox_128 (str_bytes "EventSegments") ++ encode_u32 segment.

(** The [for] loop over the segments. *)
Definition segment_events (client : Client) (hash : Hash) (segment : Z)
    : outcome (Error Hash) (list EventDetails) :=
  data ← map_err Subxt (cl_fetch_value client (system_event_segment_key segment) hash);
  match data with
  | None => mret []
  | Some event_data => mret (oks (cl_decode_events client event_data))
  end.

(** [a / b] on integers: division by zero panics. *)
Definition div_u {E} (a b : Z) : outcome E Z := if b =? 0 then Panic else Ok (a / b).

Definition events_from_segments (client : Client) (hash : Hash)
    : outcome (Error Hash) (list EventDetails) :=
  segment_size ← map_err Subxt (cl_segment_size client);
  event_count ← read_storage decode_u32 client hash "System" "EventCount" [];
  max_segment ← div_u event_count segment_size;
  segments ← mapM (segment_events client hash) (range_incl 0 max_segment);
  mret (take (Z.to_nat event_count) (concat segments)).

(** ** Blocks *)

Definition block_ext_at_hash (node : RpcNode) (hash : Hash) : outcome (Error Hash) BlockExt :=
  found ← chain_get_header node hash;
  header ← ok_or found (MissingBlockHeaderForHash hash);
  mret {| be_number := s_number header;
          be_hash := hash;
          be_parent_hash := s_parent_hash header;
          be_state_root := s_state_root header;
          be_extrinsics_root := s_extrinsics_root header |}.

Definition block_ext_at_number (node : RpcNode) (block_number : Z)
    : outcome (Error Hash) BlockExt :=
  found ← chain_get_block_hash node block_number;
  block_hash ← ok_or found (MissingBlockHeaderForNumber block_number);
  block_ext_at_hash node block_hash.
End Chain.

Arguments Client {_ _}.
