(* ===== verification/Db.v ===== *)
(** * The database of the indexer

    Models [Db] of [indexer/src/storage.rs] over the tables of
    [indexer/migrations]: each method is the statement (or the two statements)
    it sends, with the columns a conflict updates and the [WHERE] clauses.

    A table with a primary key is a finite map from the key; the deposit and
    withdrawal tables have none and are lists of rows. Statements commit one by one, as the
    pool runs them without a transaction. A statement may fail for reasons of
    the connection: [faults] says how the next statements end. A
    [TIMESTAMPTZ] is its milliseconds since the epoch. *)

From Stdlib Require Import Strings.Byte Strings.Ascii.
From S2P Require Import Prelude HeadersCache Types Events Chain.

(** ** Tables *)

(** The three columns that say in which block a step of a transfer happened. *)
Record BlockCols : Type := {
  bc_number : option Z;
  bc_hash : option string;
  bc_at : option Z;
}.

Record XdmRow : Type := {
  x_sender : option string;
  x_receiver : option string;
  x_amount : option Z;
  x_initiated : BlockCols;
  x_executed : BlockCols;
  x_acknowledged : BlockCols;
  x_successful : option bool;
}.

(** [(src_chain, dst_chain, channel_id, nonce)] *)
Definition XdmKey : Type := string * string * Z * Z.

Record SharePrice : Type := {
  (** [NUMERIC(28,18)]: the price times [10^18] *)
  sp_share_price : Z;
  sp_total_stake : Z;
  sp_total_shares : Z;
  sp_block_height : Z;
  sp_block_time : Z;
}.

Record Nominator : Type := { nom_status : string; nom_block_height : Z }.

Record Operator : Type := {
  op_domain_id : Z;
  op_owner_account : string;
  op_signing_key : string;
  op_minimum_nominator_stake : Z;
  op_nomination_tax : Z;
  op_status : string;
  op_total_stake : Z;
  op_total_shares : Z;
  op_total_storage_fee_deposit : Z;
  op_updated_at : Z;
  op_nominator_count : Z;
}.

Record Deposit : Type := {
  d_operator_id : Z;
  d_address : string;
  d_amount : Z;
  d_storage_fee : Z;
  d_block_height : Z;
  d_block_time : Z;
}.

Record Withdrawal : Type := {
  w_operator_id : Z;
  w_address : string;
  w_shares : Z;
  w_amount : Z;
  w_storage_fee_refund : Z;
  w_block_height : Z;
  w_block_time : Z;
}.

Record Tables : Type := {
  metadata : gmap string Z;
  xdm_transfers : gmap XdmKey XdmRow;
  operator_epoch_share_prices : gmap (Z * Z * Z) SharePrice;
  nominators : gmap (Z * string) Nominator;
  operators : gmap Z Operator;
  nominator_deposits : list Deposit;
  nominator_withdrawals : list Withdrawal;
}.

Definition no_tables : Tables := {|
  metadata := ∅; xdm_transfers := ∅; operator_epoch_share_prices := ∅; nominators := ∅;
  operators := ∅; nominator_deposits := []; nominator_withdrawals := [] |}.

Definition with_metadata f t := {| metadata := f (metadata t); xdm_transfers := xdm_transfers t;
  operator_epoch_share_prices := operator_epoch_share_prices t; nominators := nominators t;
  operators := operators t; nominator_deposits := nominator_deposits t;
  nominator_withdrawals := nominator_withdrawals t |}.
Definition with_xdm f t := {| metadata := metadata t; xdm_transfers := f (xdm_transfers t);
  operator_epoch_share_prices := operator_epoch_share_prices t; nominators := nominators t;
  operators := operators t; nominator_deposits := nominator_deposits t;
  nominator_withdrawals := nominator_withdrawals t |}.
Definition with_prices f t := {| metadata := metadata t; xdm_transfers := xdm_transfers t;
  operator_epoch_share_prices := f (operator_epoch_share_prices t); nominators := nominators t;
  operators := operators t; nominator_deposits := nominator_deposits t;
  nominator_withdrawals := nominator_withdrawals t |}.
Definition with_nominators f t := {| metadata := metadata t; xdm_transfers := xdm_transfers t;
  operator_epoch_share_prices := operator_epoch_share_prices t; nominators := f (nominators t);
  operators := operators t; nominator_deposits := nominator_deposits t;
  nominator_withdrawals := nominator_withdrawals t |}.
Definition with_operators f t := {| metadata := metadata t; xdm_transfers := xdm_transfers t;
  operator_epoch_share_prices := operator_epoch_share_prices t; nominators := nominators t;
  operators := f (operators t); nominator_deposits := nominator_deposits t;
  nominator_withdrawals := nominator_withdrawals t |}.
Definition with_deposits f t := {| metadata := metadata t; xdm_transfers := xdm_transfers t;
  operator_epoch_share_prices := operator_epoch_share_prices t; nominators := nominators t;
  operators := operators t; nominator_deposits := f (nominator_deposits t);
  nominator_withdrawals := nominator_withdrawals t |}.
Definition with_withdrawals f t := {| metadata := metadata t; xdm_transfers := xdm_transfers t;
  operator_epoch_share_prices := operator_epoch_share_prices t; nominators := nominators t;
  operators := operators t; nominator_deposits := nominator_deposits t;
  nominator_withdrawals := f (nominator_withdrawals t) |}.

(** ** Statements *)

(** [sqlx::Error]. *)
Inductive SqlxError : Type :=
  | RowNotFound
  | ColumnDecode (e : IntErrorKind)
  | Database (msg : string)
  | Connection.

(** How the next statement ends: it runs, or the connection is lost before or
    after the server has committed it. *)
Inductive Fault : Type := Runs | FailsBefore | FailsAfter.

Record Db : Type := {
  tables : Tables;
  faults : list Fault;
  (** [NOW()] *)
  now : Z;
}.

Definition Stmt (A : Type) : Type := Tables -> outcome SqlxError (Tables * A).

(** [query.execute(&*self.pool)] and [fetch_*]. *)
Definition run {A} (stmt : Stmt A) : SE Db SqlxError A := fun db =>
  let rest t := {| tables := t; faults := drop 1 (faults db); now := now db |} in
  match head (faults db) with
  | Some FailsBefore => (rest (tables db), Err Connection)
  | Some FailsAfter =>
      match stmt (tables db) with
      | Ok (t, _) => (rest t, Err Connection)
      | _ => (rest (tables db), Err Connection)
      end
  | _ =>
      match stmt (tables db) with
      | Ok (t, a) => (rest t, Ok a)
      | Err e => (rest (tables db), Err e)
      | Panic => (rest (tables db), Panic)
      | Diverge => (rest (tables db), Diverge)
      end
  end.

Definition select {A} (f : Tables -> outcome SqlxError A) : SE Db SqlxError A :=
  run (fun t => a ← f t; mret (t, a)).

(** [$n::numeric(precision, 0)] of a text of decimal digits. *)
Definition cast_numeric (precision : Z) (text : string) : outcome SqlxError Z :=
  n ← map_err (fun _ => Database "invalid input syntax for type numeric") (parse_u 512 text);
  if n <? 10 ^ precision then mret n else Err (Database "numeric field overflow").

(** [INSERT ... ON CONFLICT (k) DO UPDATE]. *)
Definition upsert {K V} `{Countable K} (k : K) (new : V) (on_conflict : V -> V)
    (m : gmap K V) : gmap K V :=
  <[k := match m !! k with None => new | Some old => on_conflict old end]> m.

(** [LIMIT] and [OFFSET], which must not be negative. *)
Definition limit {A} (n : Z) (l : list A) : outcome SqlxError (list A) :=
  if n <? 0 then Err (Database "LIMIT must not be negative") else mret (take (Z.to_nat n) l).
Definition offset {A} (n : Z) (l : list A) : outcome SqlxError (list A) :=
  if n <? 0 then Err (Database "OFFSET must not be negative") else mret (drop (Z.to_nat n) l).

(** [query_as]: each row is decoded into its struct. *)
Definition as_rows {A B} (f : A -> B) (rows : list A) : outcome SqlxError (list B) :=
  Ok (f <$> rows).

(** [ORDER BY key], ascending or descending; in a descending order the nulls
    come first. Rows with equal keys come in the order of the table. *)
Definition asc {A} (key : A -> Z) : relation A := fun a b => key a <= key b.
Definition desc {A} (key : A -> Z) : relation A := fun a b => key b <= key a.
Definition nulls_first (a b : option Z) : bool :=
  match a, b with
  | None, _ => true
  | Some _, None => false
  | Some x, Some y => y <=? x
  end.
Definition desc_nullable {A} (key : A -> option Z) : relation A := fun a b =>
  Is_true (nulls_first (key a) (key b)).

#[export] Instance asc_dec {A} (key : A -> Z) : RelDecision (asc key).
Proof. intros a b. unfold asc. apply _. Defined.
#[export] Instance desc_dec {A} (key : A -> Z) : RelDecision (desc key).
Proof. intros a b. unfold desc. apply _. Defined.
#[export] Instance desc_nullable_dec {A} (key : A -> option Z) : RelDecision (desc_nullable key).
Proof. intros a b. unfold desc_nullable. apply _. Defined.

Definition order_by {A} (R : relation A) `{!RelDecision R} (l : list A) : list A :=
  merge_sort R l.

(** ** Checkpoints *)

Definition set_last_processed_block (process : string) (block_number : Z)
    : SE Db SqlxError unit :=
  run (fun t =>
    let n := as_i 64 block_number in
    mret (with_metadata (upsert process n (fun _ => n)) t, tt)).

Definition get_last_processed_block (process : string) : SE Db SqlxError Z :=
  number ← select (fun t => ok_or (metadata t !! process) RowNotFound);
  mret (as_u 32 number).

(** ** Cross-domain messages *)

Section Xdm.
Context `{ChainTypes, TextCodecs, HashBytes}.

Definition no_cols : BlockCols := {| bc_number := None; bc_hash := None; bc_at := None |}.

Definition empty_row : XdmRow := {|
  x_sender := None; x_receiver := None; x_amount := None; x_initiated := no_cols;
  x_executed := no_cols; x_acknowledged := no_cols; x_successful := None |}.

Definition block_cols (block : HashAndNumber) (block_time : Z) : BlockCols := {|
  bc_number := Some (as_i 64 (hn_number block));
  bc_hash := Some (to_hex (hash_bytes (hn_hash block)));
  bc_at := Some block_time |}.

(** The insert of [row] under the key of the message, with its casts. *)
Definition insert_transfer (src_chain dst_chain : ChainId) (message_id : XdmMessageId)
    (row : XdmRow -> outcome SqlxError XdmRow) : Stmt unit := fun t =>
  channel ← cast_numeric 78 (u256_to_string message_id.1);
  nonce ← cast_numeric 78 (u256_to_string message_id.2);
  let key := (chain_to_string src_chain, chain_to_string dst_chain, channel, nonce) in
  new ← row (default empty_row (xdm_transfers t !! key));
  mret (with_xdm (<[key := new]>) t, tt).

Definition store_incoming_transfer_execution (block : HashAndNumber) (dst_chain : ChainId)
    (block_time : Z) (transfer : IncomingTransferSuccessful) : SE Db SqlxError unit :=
  run (insert_transfer (its_chain_id transfer) dst_chain (its_message_id transfer) (fun old =>
    amount ← cast_numeric 39 (pretty (its_amount transfer));
    mret {| x_sender := x_sender old; x_receiver := x_receiver old;
            x_amount := Some amount;
            x_initiated := x_initiated old;
            x_executed := block_cols block block_time;
            x_acknowledged := x_acknowledged old;
            x_successful := Some true |})).

Definition store_outgoing_transfer_acknowledgement (block : HashAndNumber)
    (src_chain dst_chain : ChainId) (block_time : Z) (message_id : XdmMessageId)
    (transfer_status : bool) : SE Db SqlxError unit :=
  run (insert_transfer src_chain dst_chain message_id (fun old =>
    mret {| x_sender := x_sender old; x_receiver := x_receiver old;
            x_amount := x_amount old;
            x_initiated := x_initiated old;
            x_executed := x_executed old;
            x_acknowledged := block_cols block block_time;
            x_successful := Some transfer_status |})).

Definition store_outgoing_transfer_initiated (initiated_block : HashAndNumber) (block_time : Z)
    (transfer : OutgoingTransferInitiatedWithTransfer) : SE Db SqlxError unit :=
  let '{| otw_message_id := message_id; otw_transfer := transfer |} := transfer in
  let '{| chain_id := src_chain; account_id := sender |} := tr_sender transfer in
  let '{| chain_id := dst_chain; account_id := receiver |} := tr_receiver transfer in
  run (insert_transfer src_chain dst_chain message_id (fun old =>
    amount ← cast_numeric 39 (pretty (tr_amount transfer));
    mret {| x_sender := Some (account_to_string sender);
            x_receiver := Some (account_to_string receiver);
            x_amount := Some amount;
            x_initiated := block_cols initiated_block block_time;
            x_executed := x_executed old;
            x_acknowledged := x_acknowledged old;
            x_successful := x_successful old |})).

Definition store_event (src_chain : ChainId) (block : HashAndNumber) (block_time : Z)
    (event : Event) : SE Db SqlxError unit :=
  match event with
  | EvOutgoingTransferInitiated transfer =>
      store_outgoing_transfer_initiated block block_time transfer
  | EvOutgoingTransferFailed transfer =>
      store_outgoing_transfer_acknowledgement block src_chain (otf_chain_id transfer)
        block_time (otf_message_id transfer) false
  | EvOutgoingTransferSuccessful transfer =>
      store_outgoing_transfer_acknowledgement block src_chain (ots_chain_id transfer)
        block_time (ots_message_id transfer) true
  | EvIncomingTransferSuccessful transfer =>
      store_incoming_transfer_execution block src_chain block_time transfer
  end.

Definition store_events (src_chain : ChainId) (block : HashAndNumber) (block_time : Z)
    (events : list Event) : SE Db SqlxError unit :=
  for_each events (store_event src_chain block block_time).
End Xdm.

(** A row as the queries return it: the key as text, the amount parsed from its
    text, and the other columns. *)
Record XdmTransfer : Type := {
  xt_src_chain : string;
  xt_dst_chain : string;
  xt_channel_id : string;
  xt_nonce : string;
  xt_sender : option string;
  xt_receiver : option string;
  xt_amount : option Z;
  xt_initiated : BlockCols;
  xt_executed : BlockCols;
  xt_acknowledged : BlockCols;
  xt_successful : option bool;
}.

(** [amount::text] and [U128Compat::decode]. *)
Definition read_amount (amount : option Z) : outcome SqlxError (option Z) :=
  match amount with
  | None => Ok None
  | Some n => a ← map_err ColumnDecode (decode_u128_compat (pretty n)); mret (Some a)
  end.

Definition xdm_transfer (kv : XdmKey * XdmRow) : outcome SqlxError XdmTransfer :=
  let '((src, dst, channel, nonce), row) := kv in
  amount ← read_amount (x_amount row);
  mret {| xt_src_chain := src; xt_dst_chain := dst; xt_channel_id := pretty channel;
          xt_nonce := pretty nonce; xt_sender := x_sender row; xt_receiver := x_receiver row;
          xt_amount := amount; xt_initiated := x_initiated row; xt_executed := x_executed row;
          xt_acknowledged := x_acknowledged row; xt_successful := x_successful row |}.

(** The time a transfer was initiated, by which the queries order. *)
Definition initiated_at (kv : XdmKey * XdmRow) : option Z := bc_at (x_initiated kv.2).

Definition address_rows (address : string) (t : Tables) : list (XdmKey * XdmRow) :=
  filter (fun kv => x_sender kv.2 = Some address \/ x_receiver kv.2 = Some address)
    (map_to_list (xdm_transfers t)).

Definition get_xdm_transfer_for_address (address : string) : SE Db SqlxError (list XdmTransfer) :=
  select (fun t => mapM xdm_transfer (order_by (desc_nullable initiated_at) (address_rows address t))).

Definition initiated_rows (t : Tables) : list (XdmKey * XdmRow) :=
  filter (fun kv => is_Some (initiated_at kv)) (map_to_list (xdm_transfers t)).

Definition get_recent_xdm_transfers (lim : Z) : SE Db SqlxError (list XdmTransfer) :=
  select (fun t =>
    rows ← limit (as_i 64 lim) (order_by (desc_nullable initiated_at) (initiated_rows t));
    mapM xdm_transfer rows).

(** ** Share prices *)

(** [rust_decimal]. Conversions that overflow and divisions that overflow or
    divide by zero panic: they are [None]. *)
Class DecimalLib : Type := {
  Decimal : Type;
  decimal_from_u64 : Z -> Decimal;
  decimal_from_u128 : Z -> option Decimal;
  decimal_div : Decimal -> Decimal -> option Decimal;
  decimal_to_string : Decimal -> string;
}.

Fixpoint digits (acc : Z) (s : string) : option Z :=
  match s with
  | EmptyString => Some acc
  | String c s' => x ← digit c; digits (acc * 10 + x) s'
  end.

Fixpoint split_point (s : string) : string * string :=
  match s with
  | EmptyString => ("", "")
  | String c s' =>
      if bool_decide (c = "."%char) then ("", s')
      else let '(i, f) := split_point s' in (String c i, f)
  end.

(** [$n::numeric(28,18)] of an unsigned decimal text: the value times [10^18],
    rounded half away from zero. *)
Definition cast_numeric_28_18 (text : string) : outcome SqlxError Z :=
  let '(i, f) := split_point text in
  match digits 0 i, digits 0 f with
  | Some int, Some frac =>
      let unit := 10 ^ Z.of_nat (String.length f) in
      let v := int * 10 ^ 18 + (2 * frac * 10 ^ 18 + unit) / (2 * unit) in
      if v <? 10 ^ 28 then mret v else Err (Database "numeric field overflow")
  | _, _ => Err (Database "invalid input syntax for type numeric")
  end.

Fixpoint zero_padded (width : nat) (n : Z) : string :=
  match width with
  | O => ""
  | S width => zero_padded width (n / 10) +:+ pretty (n mod 10)
  end.

(** [share_price::text]. *)
Definition numeric_28_18_text (v : Z) : string :=
  pretty (v / 10 ^ 18) +:+ "." +:+ zero_padded 18 (v mod 10 ^ 18).

Record UpsertSharePrice `{DecimalLib} : Type := {
  usp_operator_id : Z;
  usp_domain_id : Z;
  usp_epoch_index : Z;
  usp_share_price : Decimal;
  usp_total_stake : Z;
  usp_total_shares : Z;
  usp_block_height : Z;
  usp_block_time : Z;
}.

Definition upsert_epoch_share_price `{DecimalLib} (p : UpsertSharePrice) : SE Db SqlxError unit :=
  run (fun t =>
    share_price ← cast_numeric_28_18 (decimal_to_string (usp_share_price p));
    total_stake ← cast_numeric 39 (pretty (usp_total_stake p));
    total_shares ← cast_numeric 39 (pretty (usp_total_shares p));
    let row := {| sp_share_price := share_price; sp_total_stake := total_stake;
                  sp_total_shares := total_shares; sp_block_height := usp_block_height p;
                  sp_block_time := usp_block_time p |} in
    mret (with_prices
      (upsert (usp_operator_id p, usp_domain_id p, usp_epoch_index p) row (fun _ => row)) t, tt)).

Record SharePriceRow : Type := {
  spr_operator_id : string;
  spr_domain_id : string;
  spr_epoch_index : Z;
  spr_share_price : string;
  spr_total_stake : string;
  spr_total_shares : string;
  spr_block_height : string;
  spr_block_time : Z;
}.

Definition share_price_row (kv : (Z * Z * Z) * SharePrice) : SharePriceRow :=
  let '((operator, domain, epoch), p) := kv in
  {| spr_operator_id := pretty operator; spr_domain_id := pretty domain;
     spr_epoch_index := epoch; spr_share_price := numeric_28_18_text (sp_share_price p);
     spr_total_stake := pretty (sp_total_stake p);
     spr_total_shares := pretty (sp_total_shares p);
     spr_block_height := pretty (sp_block_height p); spr_block_time := sp_block_time p |}.

(** The rows of an operator that satisfy the condition on [block_time]. *)
Definition operator_prices (operator_id : Z) (P : Z -> Prop) `{!forall z, Decision (P z)}
    (t : Tables) : list ((Z * Z * Z) * SharePrice) :=
  filter (fun kv => kv.1.1.1 = operator_id /\ P (sp_block_time kv.2))
    (map_to_list (operator_epoch_share_prices t)).

Definition price_time (kv : (Z * Z * Z) * SharePrice) : Z := sp_block_time kv.2.

Definition get_share_prices_latest (operator_id lim : Z) : SE Db SqlxError (list SharePriceRow) :=
  select (fun t =>
    rows ← limit lim (order_by (desc price_time) (operator_prices operator_id (fun _ => True) t));
    as_rows share_price_row rows).

Definition get_share_prices_since (operator_id since lim : Z)
    : SE Db SqlxError (list SharePriceRow) :=
  select (fun t =>
    rows ← limit lim
      (order_by (asc price_time) (operator_prices operator_id (fun time => since <= time) t));
    as_rows share_price_row rows).

Definition get_share_prices_until (operator_id until lim : Z)
    : SE Db SqlxError (list SharePriceRow) :=
  select (fun t =>
    rows ← limit lim
      (order_by (desc price_time) (operator_prices operator_id (fun time => time <= until) t));
    as_rows share_price_row rows).

(** ** Nominators *)

Definition insert_nominator (operator_id : Z) (address status : string) (block_height : Z)
    : Stmt unit := fun t =>
  let new := {| nom_status := status; nom_block_height := block_height |} in
  mret (with_nominators (upsert (operator_id, address) new (fun old =>
    if nom_block_height old <=? block_height then new else old)) t, tt).

(** [SELECT COUNT] of the active nominators of an operator. *)
Definition active_nominators (operator_id : Z) (t : Tables) : Z :=
  Z.of_nat (length (filter
    (fun kv => kv.1.1 = operator_id /\ nom_status kv.2 = "active") (map_to_list (nominators t)))).

Definition set_nominator_count (n : Z) (o : Operator) : Operator := {|
  op_domain_id := op_domain_id o; op_owner_account := op_owner_account o;
  op_signing_key := op_signing_key o;
  op_minimum_nominator_stake := op_minimum_nominator_stake o;
  op_nomination_tax := op_nomination_tax o; op_status := op_status o;
  op_total_stake := op_total_stake o; op_total_shares := op_total_shares o;
  op_total_storage_fee_deposit := op_total_storage_fee_deposit o;
  op_updated_at := op_updated_at o; op_nominator_count := n |}.

Definition refresh_nominator_count (operator_id : Z) : Stmt unit := fun t =>
  mret (with_operators
    (alter (set_nominator_count (active_nominators operator_id t)) operator_id) t, tt).

Definition upsert_nominator (operator_id : Z) (address status : string) (block_height : Z)
    : SE Db SqlxError unit :=
  _ ← run (insert_nominator (as_i 64 operator_id) address status (as_i 64 block_height));
  run (refresh_nominator_count (as_i 64 operator_id)).

Definition get_active_nominator_count (operator_id : Z) : SE Db SqlxError Z :=
  select (fun t => mret (active_nominators operator_id t)).

Definition get_nominator_operator_ids (address : string) : SE Db SqlxError (list string) :=
  select (fun t => mret ((fun kv => pretty kv.1.1) <$>
    filter (fun kv => kv.1.2 = address) (map_to_list (nominators t)))).

(** ** Operators *)

Record UpsertOperator : Type := {
  uo_operator_id : Z;
  uo_domain_id : Z;
  uo_owner_account : string;
  uo_signing_key : string;
  uo_minimum_nominator_stake : Z;
  uo_nomination_tax : Z;
  uo_status : string;
  uo_total_stake : Z;
  uo_total_shares : Z;
  uo_total_storage_fee_deposit : Z;
  uo_block_time : Z;
}.

(** The columns a conflict and [update_operator_stats] set. *)
Definition set_operator_stats (status : string) (stake shares fee updated_at : Z) (o : Operator)
    : Operator := {|
  op_domain_id := op_domain_id o; op_owner_account := op_owner_account o;
  op_signing_key := op_signing_key o;
  op_minimum_nominator_stake := op_minimum_nominator_stake o;
  op_nomination_tax := op_nomination_tax o; op_status := status;
  op_total_stake := stake; op_total_shares := shares;
  op_total_storage_fee_deposit := fee; op_updated_at := updated_at;
  op_nominator_count := op_nominator_count o |}.

Definition set_operator_status (status : string) (updated_at : Z) (o : Operator) : Operator :=
  set_operator_stats status (op_total_stake o) (op_total_shares o)
    (op_total_storage_fee_deposit o) updated_at o.

Definition upsert_operator (op : UpsertOperator) : SE Db SqlxError unit :=
  run (fun t =>
    minimum ← cast_numeric 39 (pretty (uo_minimum_nominator_stake op));
    stake ← cast_numeric 39 (pretty (uo_total_stake op));
    shares ← cast_numeric 39 (pretty (uo_total_shares op));
    fee ← cast_numeric 39 (pretty (uo_total_storage_fee_deposit op));
    let row := {|
      op_domain_id := as_i 32 (uo_domain_id op);
      op_owner_account := uo_owner_account op;
      op_signing_key := uo_signing_key op;
      op_minimum_nominator_stake := minimum;
      op_nomination_tax := as_i 16 (uo_nomination_tax op);
      op_status := uo_status op;
      op_total_stake := stake; op_total_shares := shares;
      op_total_storage_fee_deposit := fee;
      op_updated_at := uo_block_time op;
      op_nominator_count := 0 |} in
    mret (with_operators (upsert (as_i 64 (uo_operator_id op)) row
      (set_operator_stats (uo_status op) stake shares fee (uo_block_time op))) t, tt)).

Definition update_operator_status (operator_id : Z) (status : string) : SE Db SqlxError unit :=
  fun db =>
    run (fun t => mret (with_operators
      (alter (set_operator_status status (now db)) (as_i 64 operator_id)) t, tt)) db.

Definition update_operator_stats (operator_id : Z) (status : string)
    (total_stake total_shares total_storage_fee_deposit block_time : Z) : SE Db SqlxError unit :=
  run (fun t =>
    stake ← cast_numeric 39 (pretty total_stake);
    shares ← cast_numeric 39 (pretty total_shares);
    fee ← cast_numeric 39 (pretty total_storage_fee_deposit);
    mret (with_operators
      (alter (set_operator_stats status stake shares fee block_time) (as_i 64 operator_id)) t, tt)).

Record OperatorRow : Type := {
  or_operator_id : string;
  or_domain_id : string;
  or_owner_account : string;
  or_signing_key : string;
  or_minimum_nominator_stake : string;
  or_nomination_tax : Z;
  or_status : string;
  or_total_stake : string;
  or_total_shares : string;
  or_total_storage_fee_deposit : string;
  or_nominator_count : Z;
}.

Definition operator_row (kv : Z * Operator) : OperatorRow :=
  let '(id, o) := kv in
  {| or_operator_id := pretty id; or_domain_id := pretty (op_domain_id o);
     or_owner_account := op_owner_account o; or_signing_key := op_signing_key o;
     or_minimum_nominator_stake := pretty (op_minimum_nominator_stake o);
     or_nomination_tax := op_nomination_tax o; or_status := op_status o;
     or_total_stake := pretty (op_total_stake o); or_total_shares := pretty (op_total_shares o);
     or_total_storage_fee_deposit := pretty (op_total_storage_fee_deposit o);
     or_nominator_count := op_nominator_count o |}.

Definition get_all_operators : SE Db SqlxError (list OperatorRow) :=
  select (fun t => mret (operator_row <$>
    order_by (asc (fst : Z * Operator -> Z)) (map_to_list (operators t)))).

Definition get_operator (operator_id : Z) : SE Db SqlxError (option OperatorRow) :=
  select (fun t => mret ((fun o => operator_row (operator_id, o)) <$> operators t !! operator_id)).

(** ** Deposits and withdrawals *)

Definition delete_deposits_for_block (block_height : Z) : SE Db SqlxError unit :=
  run (fun t => mret (with_deposits
    (filter (fun d => d_block_height d <> as_i 64 block_height)) t, tt)).

Definition delete_withdrawals_for_block (block_height : Z) : SE Db SqlxError unit :=
  run (fun t => mret (with_withdrawals
    (filter (fun w => w_block_height w <> as_i 64 block_height)) t, tt)).

Definition insert_deposit (operator_id : Z) (address : string)
    (amount storage_fee block_height block_time : Z) : SE Db SqlxError unit :=
  run (fun t =>
    amount ← cast_numeric 39 (pretty amount);
    storage_fee ← cast_numeric 39 (pretty storage_fee);
    let row := {| d_operator_id := as_i 64 operator_id; d_address := address;
                  d_amount := amount; d_storage_fee := storage_fee;
                  d_block_height := as_i 64 block_height; d_block_time := block_time |} in
    mret (with_deposits (fun l => l ++ [row]) t, tt)).

Record InsertWithdrawal : Type := {
  iw_operator_id : Z;
  iw_address : string;
  iw_shares : Z;
  iw_amount : Z;
  iw_storage_fee_refund : Z;
  iw_block_height : Z;
  iw_block_time : Z;
}.

Definition insert_withdrawal (w : InsertWithdrawal) : SE Db SqlxError unit :=
  run (fun t =>
    shares ← cast_numeric 39 (pretty (iw_shares w));
    amount ← cast_numeric 39 (pretty (iw_amount w));
    refund ← cast_numeric 39 (pretty (iw_storage_fee_refund w));
    let row := {| w_operator_id := as_i 64 (iw_operator_id w); w_address := iw_address w;
                  w_shares := shares; w_amount := amount; w_storage_fee_refund := refund;
                  w_block_height := as_i 64 (iw_block_height w);
                  w_block_time := iw_block_time w |} in
    mret (with_withdrawals (fun l => l ++ [row]) t, tt)).

Record DepositRow : Type := {
  dr_operator_id : string;
  dr_address : string;
  dr_amount : string;
  dr_storage_fee : string;
  dr_block_height : Z;
  dr_block_time : Z;
}.

Record WithdrawalRow : Type := {
  wr_operator_id : string;
  wr_address : string;
  wr_shares : string;
  wr_amount : string;
  wr_storage_fee_refund : string;
  wr_block_height : Z;
  wr_block_time : Z;
}.

Definition deposit_row (d : Deposit) : DepositRow := {|
  dr_operator_id := pretty (d_operator_id d); dr_address := d_address d;
  dr_amount := pretty (d_amount d); dr_storage_fee := pretty (d_storage_fee d);
  dr_block_height := d_block_height d; dr_block_time := d_block_time d |}.

Definition withdrawal_row (w : Withdrawal) : WithdrawalRow := {|
  wr_operator_id := pretty (w_operator_id w); wr_address := w_address w;
  wr_shares := pretty (w_shares w); wr_amount := pretty (w_amount w);
  wr_storage_fee_refund := pretty (w_storage_fee_refund w);
  wr_block_height := w_block_height w; wr_block_time := w_block_time w |}.

(** One page of a list of rows. *)
Definition page {A} (lim off : Z) (rows : list A) : outcome SqlxError (list A) :=
  rows ← offset off rows; limit lim rows.

Definition get_deposits (address : string) (operator_id lim off : Z)
    : SE Db SqlxError (list DepositRow) :=
  select (fun t =>
    rows ← page lim off (order_by (desc d_block_time)
      (filter (fun d => d_address d = address /\ d_operator_id d = operator_id)
         (nominator_deposits t)));
    as_rows deposit_row rows).

Definition get_withdrawals (address : string) (operator_id lim off : Z)
    : SE Db SqlxError (list WithdrawalRow) :=
  select (fun t =>
    rows ← page lim off (order_by (desc w_block_time)
      (filter (fun w => w_address w = address /\ w_operator_id w = operator_id)
         (nominator_withdrawals t)));
    as_rows withdrawal_row rows).
