(* ===== verification/IndexerError.v ===== *)
(** * The errors of the indexer

    Models [indexer/src/error.rs]: the error type, the conversions the [?]
    operator uses, and the HTTP response of an error. *)

From S2P Require Import Prelude HeadersCache Db.

(** [tokio::sync::broadcast::error::RecvError]. *)
Inductive RecvError : Type :=
  | Closed
  | Lagged (skipped : Z).

Module Ix.
Section Error.
Context `{ChainTypes}.

Inductive Error : Type :=
  | Config (msg : string)
  | NotFound (msg : string)
  | BadRequest (msg : string)
  | Subspace (e : HeadersCache.Error Hash)
  | Io (msg : string)
  | Join (msg : string)
  | BroadRecvErr (e : RecvError)
  | DB (e : SqlxError)
  | Migrate (msg : string).

(** [StatusCode] and the response body. *)
Definition status_code (e : Error) : Z :=
  match e with
  | NotFound _ => 404
  | BadRequest _ => 400
  | _ => 500
  end.

Definition error_response (e : Error) : Z * string :=
  (status_code e,
   match e with
   | NotFound msg => "not found: " +:+ msg
   | BadRequest msg => "bad request: " +:+ msg
   | _ => "internal server error"
   end).

(** [?] on the results of the database, of reads of the chain and of event
    decoding, in code that writes to the database. *)
Definition db {A} (m : SE Db SqlxError A) : SE Db Error A :=
  fun s => let '(s', r) := m s in (s', map_err DB r).

Definition chain {A} (m : outcome (HeadersCache.Error Hash) A) : SE Db Error A :=
  lift (map_err Subspace m).

Definition decoded {A} (m : outcome string A) : SE Db Error A :=
  lift (map_err (fun msg => Subspace (Subxt msg)) m).
End Error.
End Ix.

(** [match m { Ok(a) => .., Err(err) => .. }] on a read whose error is only
    logged. *)
Definition attempt {E E' A} (m : outcome E A) : outcome E' (option A) :=
  match m with
  | Ok a => Ok (Some a)
  | Err _ => Ok None
  | Panic => Panic
  | Diverge => Diverge
  end.

(** [chrono]: [DateTime::from_timestamp_millis]; a time is its milliseconds
    since the epoch. *)
Class Chrono : Type := { from_timestamp_millis : Z -> option Z }.

Lemma db_clean {A} `{ChainTypes} (m : SE Db SqlxError A) db db' a :
  m db = (db', Ok a) -> Ix.db m db = (db', Ok a).
Proof. intros Hm. unfold Ix.db. by rewrite Hm. Qed.
