(* ===== verification/DbPool.v ===== *)
(** * Connecting to the database

    [Db::new] and [log_db_pool_info] of [indexer/src/storage.rs]. The pool, the connection
    and the migrations are those of [sqlx]. *)

From S2P Require Import Prelude HeadersCache Db IndexerError.

(** [PgPoolOptions], as far as it is set. *)
Record PgPoolOptions : Type := {
  max_connections : Z;
  acquire_slow_threshold : Z;
  acquire_timeout : Z;
}.

Class Sqlx : Type := {
  PgPool : Type;
  Migrator : Type;
  (** [PgPoolOptions::connect] *)
  pool_connect : PgPoolOptions -> string -> outcome SqlxError PgPool;
  (** [Migrator::new], [set_ignore_missing] and [run] *)
  migrator_new : string -> outcome string Migrator;
  set_ignore_missing : bool -> Migrator -> Migrator;
  run_migrations : Migrator -> PgPool -> outcome string unit;
}.

Section Pool.
Context `{ChainTypes, Sqlx}.

Definition pool_options : PgPoolOptions :=
  {| max_connections := 50; acquire_slow_threshold := from_secs 10;
     acquire_timeout := from_secs 60 |}.

(** [Db::new]: the pool with the database migrated. *)
Definition Db_new (db_url migrations_path : string) : outcome Ix.Error PgPool :=
  pg_pool ← map_err Ix.DB (pool_connect pool_options db_url);
  migrator ← map_err Ix.Migrate (migrator_new migrations_path);
  let migrator := set_ignore_missing true migrator in
  _ ← map_err Ix.Migrate (run_migrations migrator pg_pool);
  mret pg_pool.
End Pool.

(** What the pool tells of itself: [num_idle] is a [usize]. *)
Record PoolState : Type := {
  pool_size : Z;
  pool_num_idle : Z;
  pool_can_acquire : bool;
  pool_is_closed : bool;
}.

(** The fields of a line of the log. *)
Record PoolInfo : Type := {
  pi_size : Z;
  pi_idle : Z;
  pi_in_use : Z;
  pi_saturated : bool;
  pi_closed : bool;
}.

Definition pool_info (pool : PoolState) : PoolInfo := {|
  pi_size := pool_size pool;
  pi_idle := pool_num_idle pool;
  pi_in_use := saturating_sub (pool_size pool) (as_u 32 (pool_num_idle pool));
  pi_saturated := negb (pool_can_acquire pool);
  pi_closed := pool_is_closed pool |}.

(** The lines of its ticks. It has no other end than that of the program. *)
Definition log_db_pool_info (ticks : list PoolState) : list PoolInfo := pool_info <$> ticks.

(** The connections in use and the idle ones make up the pool. *)
Lemma pool_info_adds_up pool :
  in_u 32 (pool_size pool) -> 0 <= pool_num_idle pool <= pool_size pool ->
  pi_in_use (pool_info pool) + pi_idle (pool_info pool) = pi_size (pool_info pool).
Proof.
  unfold in_u. intros Hs Hi. cbn. rewrite in_u_as_u by (unfold in_u; lia).
  unfold saturating_sub. lia.
Qed.
