(* ===== verification/ToyIndexer.v ===== *)
(** * A concrete environment for the indexer

    Instances of the interfaces of third-party code with concrete functions,
    and small constructors of clients and events, on which the examples of the
    indexer files run. Hashes are those of [ToyChain]. *)

From Stdlib Require Import Strings.Byte Strings.Ascii.
From S2P Require Import Prelude HeadersCache BlockListener ToyChain Scale ScaleLE RpcTypes.
From S2P Require Import Types Events Chain Db IndexerError.

(** Fields are decoded values tagged with the type they have. *)
#[export] Instance toy_codec : EventCodec := {|
  Fields := sigT event_of;
  decode_as_type k f :=
    match decide (projT1 f = k) with
    | left E => Ok (eq_rect _ event_of (projT2 f) _ E)
    | right _ => Err "shape mismatch"
    end |}.

Definition event (k : EventKind) (e : event_of k) : EventDetails := {|
  ed_pallet := PALLET k; ed_variant := EVENT k; ed_fields := existT k e |}.

#[export] Instance toy_twox : Twox := { twox_128 bs := bs }.

(** Accounts and hashes print as their bytes in hexadecimal. *)
Definition hex_digit (n : nat) : ascii :=
  ascii_of_nat (if (n <? 10)%nat then 48 + n else 87 + n)%nat.

Definition toy_hex (bs : list byte) : string :=
  foldr (fun b s => let n := N.to_nat (Byte.to_N b) in
                    String (hex_digit (n / 16)) (String (hex_digit (n mod 16)) s)) "" bs.

#[export] Instance toy_text : TextCodecs := {
  ss58 bs := "5" +:+ toy_hex bs;
  to_hex bs := "0x" +:+ toy_hex bs;
  hex_encode := toy_hex;
}.

#[export] Instance toy_hash_bytes : HashBytes := {
  hash_bytes h := (fun z => default x00 (Byte.of_N (Z.to_N (z mod 256)))) <$> h }.

#[export] Existing Instance scale_le.
#[export] Existing Instance scale_le_laws.

(** Decimals with 18 fractional digits, and times that chrono represents:
    within 262,000 years of the epoch. *)
#[export] Instance toy_decimal : DecimalLib := {|
  Decimal := Z;
  decimal_from_u64 n := n * 10 ^ 18;
  decimal_from_u128 n := if n <? 2 ^ 96 then Some (n * 10 ^ 18) else None;
  decimal_div a b := if b =? 0 then None else Some (a * 10 ^ 18 / b);
  decimal_to_string := numeric_28_18_text |}.

#[export] Instance toy_chrono : Chrono := {
  from_timestamp_millis ms := if Z.abs ms <? 8 * 10 ^ 15 then Some ms else None }.

(** A client that answers for every block with the same entries, events and
    segments. *)
Definition toy_client (entries : list (StorageQuery * list byte))
    (evs : list (outcome string EventDetails)) (size : Z)
    (segments : list (list EventDetails)) : Client := {|
  cl_fetch _ q := Ok (snd <$> List.find (fun e => bool_decide (e.1 = q)) entries);
  cl_iter _ _ := Ok [];
  cl_events _ := Ok evs;
  cl_segment_size := Ok size;
  cl_fetch_value key _ :=
    Ok (if existsb (fun i => bool_decide (key = system_event_segment_key (Z.of_nat i)))
             (seq 0 (length segments)) then Some key else None);
  cl_decode_events data :=
    Ok <$> concat (imap (fun i s =>
      if bool_decide (data = system_event_segment_key (Z.of_nat i)) then s else []) segments) |}.
