(* ===== verification/ChainProps.v ===== *)
(** * Correctness of the reads of the chain

    A storage read tells an absent entry, a transport failure and a malformed
    value apart, and the segmented events of a domain block are put together
    to exactly the block's events. *)

From Stdlib Require Import Strings.Byte.
From S2P Require Import Prelude HeadersCache TreeRoute BlockListener Scale ScaleLE RpcTypes.
From S2P Require Import Types Events Chain ToyChain ToyIndexer.

(** ** Segments *)

(** The [i]-th slice of [sz] elements. *)
Definition slice {A} (sz i : nat) (l : list A) : list A := take sz (drop (i * sz) l).

Lemma concat_slices {A} (sz k : nat) (l : list A) :
  concat ((fun i => slice sz i l) <$> seq 0 k) = take (k * sz) l.
Proof.
  induction k as [|k IH]; [done|].
  rewrite seq_S, fmap_app, concat_app, IH. cbn. rewrite app_nil_r. unfold slice.
  replace (sz + k * sz)%nat with (k * sz + sz)%nat by lia. by rewrite take_take_drop.
Qed.

(** The same with leftovers behind the last slice. *)
Lemma concat_slices_stale {A} (sz k : nat) (l stale : list A) :
  concat ((fun i => slice sz i l ++ (if (i =? k)%nat then stale else [])) <$> seq 0 (S k)) =
    take (S k * sz) l ++ stale.
Proof.
  rewrite seq_S, fmap_app, concat_app. cbn [Nat.add fmap list_fmap concat].
  rewrite Nat.eqb_refl, app_nil_r, <- (concat_slices sz (S k) l).
  rewrite seq_S, fmap_app, concat_app. cbn [Nat.add fmap list_fmap concat].
  rewrite app_nil_r, app_assoc. do 3 f_equal. apply list_fmap_ext. intros i x Hi.
  apply lookup_seq in Hi as [-> Hi]. by rewrite (proj2 (Nat.eqb_neq _ _)), app_nil_r by lia.
Qed.

Lemma range_incl_seq m : 0 <= m -> range_incl 0 m = Z.of_nat <$> seq 0 (S (Z.to_nat m)).
Proof.
  intros Hm. unfold range_incl, seqZ. replace (Z.to_nat (m - 0 + 1)) with (S (Z.to_nat m)) by lia.
  apply list_fmap_ext. intros i n _. lia.
Qed.

Lemma mapM_fmap_Ok {E A B C} (f : B -> outcome E C) (g : A -> B) (h : A -> C) l :
  Forall (fun x => f (g x) = Ok (h x)) l -> mapM f (g <$> l) = Ok (h <$> l).
Proof. induction 1 as [|x l Hx _ IH]; cbn; [done|]. by rewrite Hx; cbn; rewrite IH. Qed.

Section Reads.
Context `{ChainTypes, ScaleCodec, !ScaleLaws, EventCodec, Twox}.

(** The segment [i] of the events storage decodes to [l]; a segment without
    events may be missing. *)
Definition segment_holds (client : Client) (hash : Hash) (i : nat) (l : list EventDetails) : Prop :=
  let found := cl_fetch_value client (system_event_segment_key (Z.of_nat i)) hash in
  (found = Ok None /\ l = []) \/
  (exists data, found = Ok (Some data) /\ oks (cl_decode_events client data) = l).

Lemma segment_holds_events client hash i l :
  segment_holds client hash i l -> segment_events client hash (Z.of_nat i) = Ok l.
Proof.
  unfold segment_holds, segment_events.
  intros [[-> ->] | (data & -> & <-)]; done.
Qed.

(** C20: [events_from_segments] gives exactly the events of the block, in order:
    when the node holds [block_events] in segments of [sz] events, the last of which
    may go on with events left over from an earlier block, the segments that are read
    cover all the events and the truncation to the event count drops the
    leftovers; a block whose events fill its segments exactly reads one
    segment more, all of it leftovers. *)
Theorem events_from_segments_exact client hash block_events stale (sz : nat) :
  let n := Z.of_nat (length block_events) in
  let last_segment := (length block_events / sz)%nat in
  (0 < sz)%nat -> n < 2 ^ 32 ->
  cl_segment_size client = Ok (Z.of_nat sz) ->
  cl_fetch client hash {| q_pallet := "System"; q_storage := "EventCount"; q_args := [] |} =
    Ok (Some (encode_u32 n)) ->
  (forall i, (i < last_segment)%nat -> segment_holds client hash i (slice sz i block_events)) ->
  segment_holds client hash last_segment (slice sz last_segment block_events ++ stale) ->
  events_from_segments client hash = Ok block_events.
Proof.
  intros n last_segment Hsz Hn Hsize Hcount Hfull Hlast.
  unfold events_from_segments. rewrite Hsize. cbn.
  unfold read_storage, try_read_storage. rewrite Hcount. cbn.
  rewrite <- (app_nil_r (encode_u32 n)), (read_u32 n []) by (split; lia). cbn.
  unfold div_u. rewrite (proj2 (Z.eqb_neq _ 0)) by lia. cbn.
  unfold n. rewrite <- Nat2Z.inj_div. rewrite range_incl_seq, !Nat2Z.id by lia.
  change (length block_events / sz)%nat with last_segment.
  rewrite (mapM_fmap_Ok _ _ (fun i => slice sz i block_events ++
    if (i =? last_segment)%nat then stale else [])).
  - change (Ok (take (length block_events) (concat ((fun i => slice sz i block_events ++
      (if (i =? last_segment)%nat then stale else [])) <$> seq 0 (S last_segment)))) =
      (Ok block_events : outcome (Error Hash) _)).
    rewrite concat_slices_stale, (take_ge block_events); [by rewrite take_app_length|].
    pose proof (Nat.mul_succ_div_gt (length block_events) sz ltac:(lia)). lia.
  - apply Forall_seq. intros i Hi. apply segment_holds_events.
    destruct (Nat.eqb_spec i last_segment) as [->|]; [done|].
    rewrite app_nil_r. apply Hfull. lia.
Qed.

(** A storage read is the decoded value when the entry is there, whatever
    bytes follow it; [None] (or, for [read_storage], the error that names the
    entry) when it is absent; and an error of its own kind when the value does not
    decode or the node does not answer. [has_storage] does not decode. *)
Lemma storage_read_cases {T} (d : Decoder T) client hash pallet storage args answer :
  cl_fetch client hash {| q_pallet := pallet; q_storage := storage; q_args := args |} = answer ->
  (forall P e a rest, reads d P e -> P a -> answer = Ok (Some (e a ++ rest)) ->
     try_read_storage d client hash pallet storage args = Ok (Some a) /\
     read_storage d client hash pallet storage args = Ok a /\
     has_storage client hash pallet storage args = Ok true) /\
  (answer = Ok None ->
     try_read_storage d client hash pallet storage args = Ok None /\
     read_storage d client hash pallet storage args =
       Err (Storage (pallet +:+ "." +:+ storage)) /\
     has_storage client hash pallet storage args = Ok false) /\
  (forall bytes rest e, answer = Ok (Some bytes) -> d bytes = (rest, Err e) ->
     try_read_storage d client hash pallet storage args = Err (scale_error e) /\
     read_storage d client hash pallet storage args = Err (scale_error e) /\
     has_storage client hash pallet storage args = Ok true) /\
  (forall msg, answer = Err msg ->
     try_read_storage d client hash pallet storage args = Err (Subxt msg) /\
     read_storage d client hash pallet storage args = Err (Subxt msg) /\
     has_storage client hash pallet storage args = Err (Subxt msg)).
Proof.
  intros Hanswer. unfold read_storage, try_read_storage, has_storage. rewrite Hanswer.
  split; [|split; [|split]].
  - intros P e a rest Hd Ha ->. cbn. by rewrite (Hd a rest Ha).
  - by intros ->.
  - intros bytes rest e -> He. cbn. by rewrite He.
  - by intros msg ->.
Qed.
End Reads.

(** ** Witnesses *)

Definition seg_event (n : Z) : EventDetails :=
  event KOperatorSlashed {| oe_operator_id := n |}.

(** A block of four events in segments of two, so that the third segment holds
    only what an earlier, longer block left. *)
Definition seg_block : list EventDetails := seg_event <$> [1; 2; 3; 4].
Definition seg_client : Client :=
  toy_client
    [({| q_pallet := "System"; q_storage := "EventCount"; q_args := [] |}, encode_u32 4)]
    [] 2 [seg_event <$> [1; 2]; seg_event <$> [3; 4]; seg_event <$> [91; 92]].

Lemma events_from_segments_exact_witness :
  events_from_segments seg_client [7] = Ok seg_block.
Proof.
  apply (events_from_segments_exact seg_client [7] seg_block [seg_event 91; seg_event 92] 2).
  - lia.
  - cbn. lia.
  - reflexivity.
  - reflexivity.
  - intros i Hi. right. exists (system_event_segment_key (Z.of_nat i)).
    destruct i as [|[|]]; [vm_compute; done..|]. cbn in Hi. lia.
  - right. exists (system_event_segment_key 2). vm_compute. done.
Defined.

Lemma storage_read_cases_witness :
  read_storage decode_u32 seg_client [7] "System" "EventCount" [] = Ok 4 /\
  read_storage decode_u32 seg_client [7] "Timestamp" "Now" [] = Err (Storage "Timestamp.Now").
Proof.
  split.
  - exact (proj1 (proj2 (proj1 (storage_read_cases decode_u32 seg_client [7] "System" "EventCount"
      [] _ eq_refl) (in_u 32) encode_u32 4 [] read_u32 ltac:(split; lia) eq_refl))).
  - exact (proj1 (proj2 (proj1 (proj2 (storage_read_cases decode_u32 seg_client [7] "Timestamp"
      "Now" [] _ eq_refl)) eq_refl))).
Defined.
