(* ===== verification/SharePrice.v ===== *)
(** * The text of a share price

    The chain stores the price of an epoch as an integer number of 10^-18; the
    indexer divides with [rust_decimal], binds the decimal's text, the database
    casts it to [NUMERIC(28,18)] and the API reads the text of that. A text
    [denotes] a price when it is exactly that decimal. *)

From Stdlib Require Import Strings.Ascii.
From S2P Require Import Prelude HeadersCache Types Events Chain Db.

(** [s] is a decimal with at most 18 places that equals [v] / 10^18. *)
Definition denotes (s : string) (v : Z) : Prop :=
  exists i f int frac, split_point s = (i, f) /\ (String.length f <= 18)%nat /\
    digits 0 i = Some int /\ digits 0 f = Some frac /\
    v * 10 ^ Z.of_nat (String.length f) =
      int * 10 ^ 18 * 10 ^ Z.of_nat (String.length f) + frac * 10 ^ 18.

(** What the code relies on of [rust_decimal]: an unsigned 64-bit integer over
    10^18 is exact (18 places are within its 28), and printing is exact. *)
Class DecimalLaws `{DecimalLib} : Prop := {
  share_price_exact : forall v, in_u 64 v -> exists d,
    decimal_div (decimal_from_u64 v) (decimal_from_u64 (10 ^ 18)) = Some d /\
    denotes (decimal_to_string d) v;
}.

Lemma denotes_cast s v : denotes s v -> v < 10 ^ 28 -> cast_numeric_28_18 s = Ok v.
Proof.
  intros (i & f & int & frac & Hs & Hlen & Hi & Hf & Hv) Hb.
  unfold cast_numeric_28_18. rewrite Hs, Hi, Hf. set (unit := 10 ^ Z.of_nat (String.length f)) in *.
  assert (Hunit : 0 < unit) by (apply Z.pow_pos_nonneg; lia).
  replace (2 * frac * 10 ^ 18 + unit) with (unit + (v - int * 10 ^ 18) * (2 * unit)) by lia.
  rewrite Z.div_add by lia. rewrite (Z.div_small unit) by lia.
  replace (int * 10 ^ 18 + (0 + (v - int * 10 ^ 18))) with v by lia.
  by rewrite (proj2 (Z.ltb_lt _ _)) by lia.
Qed.

Lemma denotes_unique s v v' : denotes s v -> denotes s v' -> v = v'.
Proof.
  intros (i & f & int & frac & Hs & _ & Hi & Hf & Hv) (i' & f' & int' & frac' & Hs' & _ & Hi' & Hf' & Hv').
  rewrite Hs in Hs'. injection Hs' as <- <-. rewrite Hi in Hi'. injection Hi' as <-.
  rewrite Hf in Hf'. injection Hf' as <-. set (unit := 10 ^ Z.of_nat (String.length f)) in *.
  assert (0 < unit) by (apply Z.pow_pos_nonneg; lia). nia.
Qed.

(** ** Digits *)

Lemma digits_app acc s1 s2 : digits acc (s1 +:+ s2) = digits acc s1 ≫= fun a => digits a s2.
Proof.
  revert acc. induction s1 as [|c s1 IH]; intros acc; [done|].
  change (String c s1 +:+ s2) with (String c (s1 +:+ s2)). cbn [digits].
  destruct (digit c) as [x|]; [|done]. exact (IH _).
Qed.

Lemma parse_digits_digits w acc s n : parse_digits w acc s = Ok n -> digits acc s = Some n.
Proof.
  revert acc. induction s as [|c s IH]; intros acc; cbn -[digit Z.pow]; [by intros [= ->]|].
  destruct (digit c) as [x|]; [|done]. cbn.
  destruct (2 ^ w <=? acc * 10); [done|]. destruct (2 ^ w <=? acc * 10 + x); [done|]. apply IH.
Qed.

Lemma digits_pretty z : 0 <= z -> digits 0 (pretty z) = Some z.
Proof.
  intros Hz. destruct z as [|p|p]; [done| |lia].
  change (pretty (Z.pos p)) with (pretty_N_go (N.pos p) "").
  apply (parse_digits_digits (Z.pos p + 1)). rewrite parse_digits_go; [done|].
  pose proof (Z.pow_gt_lin_r 2 (Z.pos p + 1)). cbn [Z.of_N]. lia.
Qed.

Lemma pretty_digit d : 0 <= d < 10 -> exists c, pretty d = String c "" /\ digit c = Some d.
Proof.
  intros Hd. assert (Hcases : d = 0 \/ d = 1 \/ d = 2 \/ d = 3 \/ d = 4 \/ d = 5 \/ d = 6 \/
    d = 7 \/ d = 8 \/ d = 9) by lia.
  destruct Hcases as [->|[->|[->|[->|[->|[->|[->|[->|[->| ->]]]]]]]]]; eexists; by split.
Qed.

Lemma length_append s1 s2 : String.length (s1 +:+ s2) = (String.length s1 + String.length s2)%nat.
Proof.
  induction s1 as [|c s1 IH]; [done|].
  change (String c s1 +:+ s2) with (String c (s1 +:+ s2)). cbn [String.length]. by rewrite IH.
Qed.

Lemma zero_padded_spec w n acc :
  0 <= n ->
  String.length (zero_padded w n) = w /\
  digits acc (zero_padded w n) = Some (acc * 10 ^ Z.of_nat w + n mod 10 ^ Z.of_nat w).
Proof.
  revert n. induction w as [|w IH]; intros n Hn; cbn [zero_padded].
  - split; [done|]. cbn. f_equal. rewrite Z.mod_1_r. lia.
  - destruct (pretty_digit (n mod 10)) as (c & Hc & Hdig); [apply Z.mod_pos_bound; lia|].
    destruct (IH (n / 10)) as [Hlen Hval]; [apply Z.div_pos; lia|].
    rewrite Hc, length_append, digits_app, Hlen, Hval. split; [cbn; lia|]. cbn. rewrite Hdig. cbn.
    f_equal. rewrite Nat2Z.inj_succ, Z.pow_succ_r by lia.
    rewrite (Z.rem_mul_r n 10) by (try apply Z.pow_pos_nonneg; lia). lia.
Qed.

Lemma split_point_app acc s n r :
  digits acc s = Some n -> split_point (s +:+ "." +:+ r) = (s, r).
Proof.
  revert acc. induction s as [|c s IH]; intros acc; [done|].
  change (String c s +:+ _) with (String c (s +:+ "." +:+ r)). cbn [digits split_point].
  destruct (digit c) as [x|] eqn:Hc; [|done]. intros Hs. cbn in Hs.
  rewrite bool_decide_eq_false_2 by (intros ->; done).
  by rewrite (IH _ Hs).
Qed.

Lemma text_denotes v : 0 <= v -> denotes (numeric_28_18_text v) v.
Proof.
  intros Hv. unfold numeric_28_18_text.
  assert (Hint : 0 <= v / 10 ^ 18) by (apply Z.div_pos; lia).
  assert (Hfrac : 0 <= v mod 10 ^ 18) by (apply Z.mod_pos_bound; lia).
  destruct (zero_padded_spec 18 (v mod 10 ^ 18) 0 Hfrac) as [Hlen Hval].
  exists (pretty (v / 10 ^ 18)), (zero_padded 18 (v mod 10 ^ 18)), (v / 10 ^ 18), (v mod 10 ^ 18).
  split; [by eapply split_point_app, digits_pretty|]. rewrite Hlen. split; [done|].
  split; [by apply digits_pretty|]. split.
  - rewrite Hval. f_equal. change (Z.of_nat 18) with 18. rewrite Z.mod_mod by lia. lia.
  - change (Z.of_nat 18) with 18. pose proof (Z.div_mod v (10 ^ 18) ltac:(lia)). lia.
Qed.
