(* ===== verification/DbXdm.v ===== *)
(** * The transfer table

    What the three statements on [indexer.xdm_transfers] do: each writes the
    columns of one step of a transfer into the row of its message and keeps
    the rest, so the steps of a transfer are put together into one row in whatever
    order, and however often, the processors of the two chains store them. *)

From Stdlib Require Import Strings.Byte.
From S2P Require Import Prelude HeadersCache Types Events Chain Db.

(** ** Running statements *)

Definition with_tables (t : Tables) (db : Db) : Db :=
  {| tables := t; faults := faults db; now := now db |}.

Lemma run_clean {A} (stmt : Stmt A) db :
  faults db = [] ->
  run stmt db = match stmt (tables db) with
                | Ok (t, a) => (with_tables t db, Ok a)
                | Err e => (db, Err e)
                | Panic => (db, Panic)
                | Diverge => (db, Diverge)
                end.
Proof.
  destruct db as [t f n]. cbn. intros ->. unfold run, with_tables. cbn.
  by destruct (stmt t) as [[t' a]| | |].
Qed.

(** Whatever the connection does, the tables are left alone or the statement
    has run. *)
Lemma run_tables {A} (stmt : Stmt A) db :
  tables (run stmt db).1 = tables db \/
  exists t a, stmt (tables db) = Ok (t, a) /\ tables (run stmt db).1 = t.
Proof.
  unfold run. destruct (head (faults db)) as [[]|];
    destruct (stmt (tables db)) as [[t a]| | |] eqn:E; cbn; eauto.
Qed.

(** A statement that ended well has run. *)
Lemma run_Ok {A} (stmt : Stmt A) db db' a :
  run stmt db = (db', Ok a) -> stmt (tables db) = Ok (tables db', a).
Proof.
  unfold run. intros Hr. destruct (head (faults db)) as [[]|];
    destruct (stmt (tables db)) as [[t x]| | |] eqn:E; simplify_eq; done.
Qed.

(** Casts of the texts the indexer binds. *)
Lemma cast_numeric_pretty p z :
  0 <= z < 10 ^ p -> 10 ^ p <= 2 ^ 512 -> cast_numeric p (pretty z) = Ok z.
Proof.
  intros Hz Hp. unfold cast_numeric. rewrite parse_pretty; [|lia|split; lia]. cbn.
  by rewrite (proj2 (Z.ltb_lt _ _)) by lia.
Qed.

Lemma cast_u128 z : in_u 128 z -> cast_numeric 39 (pretty z) = Ok z.
Proof. intros [Hlo Hhi]. apply cast_numeric_pretty; lia. Qed.

Lemma cast_u256 v : u256_wf v -> cast_numeric 78 (u256_to_string v) = Ok (u256_value v).
Proof. intros Hv. apply u256_bound in Hv. apply cast_numeric_pretty; lia. Qed.

(** ** Observations *)

Definition or_else {A} (a b : option A) : option A :=
  match a with Some _ => a | None => b end.

Definition overlay_cols (u c : BlockCols) : BlockCols := {|
  bc_number := or_else (bc_number u) (bc_number c);
  bc_hash := or_else (bc_hash u) (bc_hash c);
  bc_at := or_else (bc_at u) (bc_at c) |}.

(** The row with the columns that [u] sets. *)
Definition overlay (u r : XdmRow) : XdmRow := {|
  x_sender := or_else (x_sender u) (x_sender r);
  x_receiver := or_else (x_receiver u) (x_receiver r);
  x_amount := or_else (x_amount u) (x_amount r);
  x_initiated := overlay_cols (x_initiated u) (x_initiated r);
  x_executed := overlay_cols (x_executed u) (x_executed r);
  x_acknowledged := overlay_cols (x_acknowledged u) (x_acknowledged r);
  x_successful := or_else (x_successful u) (x_successful r) |}.

Definition agree {A} (a b : option A) : Prop :=
  match a, b with Some x, Some y => x = y | _, _ => True end.

Definition agree_cols (u v : BlockCols) : Prop :=
  agree (bc_number u) (bc_number v) /\ agree (bc_hash u) (bc_hash v) /\
  agree (bc_at u) (bc_at v).

(** No column is set to two values. *)
Definition agree_rows (u v : XdmRow) : Prop :=
  agree (x_sender u) (x_sender v) /\ agree (x_receiver u) (x_receiver v) /\
  agree (x_amount u) (x_amount v) /\ agree_cols (x_initiated u) (x_initiated v) /\
  agree_cols (x_executed u) (x_executed v) /\
  agree_cols (x_acknowledged u) (x_acknowledged v) /\
  agree (x_successful u) (x_successful v).

Lemma or_else_comm {A} (a b c : option A) :
  agree a b -> or_else a (or_else b c) = or_else b (or_else a c).
Proof. by destruct a, b; cbn; intros; subst. Qed.

Lemma or_else_idem {A} (a c : option A) : or_else a (or_else a c) = or_else a c.
Proof. by destruct a. Qed.

Lemma overlay_cols_no c : overlay_cols no_cols c = c.
Proof. by destruct c. Qed.

Lemma overlay_cols_comm u v c :
  agree_cols u v -> overlay_cols u (overlay_cols v c) = overlay_cols v (overlay_cols u c).
Proof.
  intros (? & ? & ?). unfold overlay_cols. cbn.
  by rewrite (or_else_comm (bc_number u)), (or_else_comm (bc_hash u)), (or_else_comm (bc_at u)).
Qed.

Lemma overlay_comm u v r : agree_rows u v -> overlay u (overlay v r) = overlay v (overlay u r).
Proof.
  intros (? & ? & ? & ? & ? & ? & ?). unfold overlay. cbn.
  by rewrite (or_else_comm (x_sender u)), (or_else_comm (x_receiver u)),
    (or_else_comm (x_amount u)), (or_else_comm (x_successful u)),
    (overlay_cols_comm (x_initiated u)), (overlay_cols_comm (x_executed u)),
    (overlay_cols_comm (x_acknowledged u)).
Qed.

Lemma overlay_idem u r : overlay u (overlay u r) = overlay u r.
Proof. unfold overlay, overlay_cols. cbn. by rewrite !or_else_idem. Qed.

Section Observations.
Context `{ChainTypes, TextCodecs, !HashBytes}.

(** An event seen in a block of a chain. *)
Record Observation : Type := {
  ob_chain : ChainId;
  ob_block : HashAndNumber;
  ob_time : Z;
  ob_event : Event;
}.

Definition store_observation (o : Observation) : SE Db SqlxError unit :=
  store_event (ob_chain o) (ob_block o) (ob_time o) (ob_event o).

Definition obs_chains (o : Observation) : ChainId * ChainId :=
  match ob_event o with
  | EvOutgoingTransferInitiated e =>
      (chain_id (tr_sender (otw_transfer e)), chain_id (tr_receiver (otw_transfer e)))
  | EvOutgoingTransferFailed e => (ob_chain o, otf_chain_id e)
  | EvOutgoingTransferSuccessful e => (ob_chain o, ots_chain_id e)
  | EvIncomingTransferSuccessful e => (its_chain_id e, ob_chain o)
  end.

Definition obs_message (o : Observation) : XdmMessageId :=
  match ob_event o with
  | EvOutgoingTransferInitiated e => otw_message_id e
  | EvOutgoingTransferFailed e => otf_message_id e
  | EvOutgoingTransferSuccessful e => ots_message_id e
  | EvIncomingTransferSuccessful e => its_message_id e
  end.

Definition obs_amount (o : Observation) : option Z :=
  match ob_event o with
  | EvOutgoingTransferInitiated e => Some (tr_amount (otw_transfer e))
  | EvIncomingTransferSuccessful e => Some (its_amount e)
  | _ => None
  end.

Definition message_key (src dst : ChainId) (m : XdmMessageId) : XdmKey :=
  (chain_to_string src, chain_to_string dst, u256_value m.1, u256_value m.2).

Definition obs_key (o : Observation) : XdmKey :=
  message_key (obs_chains o).1 (obs_chains o).2 (obs_message o).

Definition obs_cols (o : Observation) : BlockCols := block_cols (ob_block o) (ob_time o).

(** The columns the observation sets. *)
Definition obs_row (o : Observation) : XdmRow :=
  match ob_event o with
  | EvOutgoingTransferInitiated e =>
      {| x_sender := Some (account_to_string (account_id (tr_sender (otw_transfer e))));
         x_receiver := Some (account_to_string (account_id (tr_receiver (otw_transfer e))));
         x_amount := Some (tr_amount (otw_transfer e));
         x_initiated := obs_cols o; x_executed := no_cols; x_acknowledged := no_cols;
         x_successful := None |}
  | EvOutgoingTransferFailed _ =>
      {| x_sender := None; x_receiver := None; x_amount := None; x_initiated := no_cols;
         x_executed := no_cols; x_acknowledged := obs_cols o; x_successful := Some false |}
  | EvOutgoingTransferSuccessful _ =>
      {| x_sender := None; x_receiver := None; x_amount := None; x_initiated := no_cols;
         x_executed := no_cols; x_acknowledged := obs_cols o; x_successful := Some true |}
  | EvIncomingTransferSuccessful e =>
      {| x_sender := None; x_receiver := None; x_amount := Some (its_amount e);
         x_initiated := no_cols; x_executed := obs_cols o; x_acknowledged := no_cols;
         x_successful := Some true |}
  end.

(** The numbers are in the range of their types. *)
Definition obs_wf (o : Observation) : Prop :=
  u256_wf (obs_message o).1 /\ u256_wf (obs_message o).2 /\
  match obs_amount o with None => True | Some a => in_u 128 a end.

Definition apply_obs (o : Observation) (m : gmap XdmKey XdmRow) : gmap XdmKey XdmRow :=
  <[obs_key o := overlay (obs_row o) (default empty_row (m !! obs_key o))]> m.

(** Two observations of one message tell the same of it. *)
Definition obs_agree (o o' : Observation) : Prop :=
  obs_key o = obs_key o' -> agree_rows (obs_row o) (obs_row o').

Lemma apply_obs_comm o o' m :
  obs_agree o o' -> apply_obs o (apply_obs o' m) = apply_obs o' (apply_obs o m).
Proof.
  intros Hag. unfold apply_obs. destruct (decide (obs_key o = obs_key o')) as [Hk|Hk].
  - rewrite Hk, !lookup_insert_eq, !insert_insert_eq. cbn. by rewrite overlay_comm by auto.
  - rewrite !lookup_insert_ne by done. by apply insert_insert_ne.
Qed.

Lemma apply_obs_idem o m : apply_obs o (apply_obs o m) = apply_obs o m.
Proof.
  unfold apply_obs. rewrite lookup_insert_eq, insert_insert_eq. cbn. by rewrite overlay_idem.
Qed.

(** A statement on the transfer table does what the specification says. *)
Lemma store_observation_clean o db :
  obs_wf o -> faults db = [] ->
  store_observation o db = (with_tables (with_xdm (apply_obs o) (tables db)) db, Ok tt).
Proof.
  intros (Hc & Hn & Ha) Hf.
  unfold store_observation, store_event, apply_obs, obs_key, obs_row, obs_amount, obs_message,
    obs_chains in *.
  destruct o as [chain block time [[[c n] [a [s sa] [r ra]]] | [d [c n]] | [d [c n]] | [d [c n] a]]];
    cbn [ob_event ob_chain ob_block ob_time] in *; cbn in Hc, Hn, Ha;
    unfold store_outgoing_transfer_initiated, store_outgoing_transfer_acknowledgement,
      store_incoming_transfer_execution; cbn [otw_message_id otw_transfer tr_sender tr_receiver
      chain_id account_id tr_amount];
    rewrite run_clean by done; unfold insert_transfer;
    cbn -[cast_numeric]; rewrite !cast_u256 by done; cbn -[cast_numeric];
    rewrite ?cast_u128 by done; unfold with_xdm, message_key, obs_cols, overlay;
    cbn -[default lookup insert overlay_cols]; rewrite !overlay_cols_no; reflexivity.
Qed.

Definition store_all (l : list Observation) : SE Db SqlxError unit :=
  for_each l store_observation.

Lemma store_all_clean l db :
  Forall obs_wf l -> faults db = [] ->
  store_all l db =
    (with_tables (with_xdm (fun m => foldr apply_obs m (rev l)) (tables db)) db, Ok tt).
Proof.
  intros Hl. revert db. induction Hl as [|o l Ho _ IH]; intros db Hf.
  - cbn. by destruct db as [[] ? ?].
  - unfold store_all in *. cbn [for_each]. rewrite SE_bind_unfold, store_observation_clean by done.
    rewrite IH by done. cbn [rev]. unfold with_tables, with_xdm. cbn.
    by rewrite foldr_app.
Qed.
End Observations.

Arguments Observation {_}.

#[export] Instance HashAndNumber_eq `{ChainTypes} : EqDecision HashAndNumber.
Proof. solve_decision. Defined.
#[export] Instance Observation_eq `{ChainTypes} : EqDecision Observation.
Proof. solve_decision. Defined.
