(* ===== verification/DbXdmProps.v ===== *)
(** * Correctness of the transfer table and of the checkpoints

    The steps of a transfer meet in one row in any order; a row always has a
    step's columns together; checkpoints are read back, and the processors keep
    theirs apart. *)

From Stdlib Require Import Strings.Byte.
From S2P Require Import Prelude HeadersCache ToyChain Types Events Chain Db DbXdm ToyIndexer.

Section Transfers.
Context `{ChainTypes, TextCodecs, !HashBytes}.

Definition all_agree (l : list Observation) : Prop :=
  forall o o', o ∈ l -> o' ∈ l -> obs_agree o o'.

Lemma all_agree_commuting l : all_agree l -> commuting apply_obs l.
Proof.
  intros Hl. split.
  - intros o o' m Ho Ho'. apply apply_obs_comm. by apply Hl.
  - intros o m _. apply apply_obs_idem.
Qed.

Lemma foldr_apply_obs_set l l' m :
  all_agree l -> (forall o, o ∈ l <-> o ∈ l') ->
  foldr apply_obs m (rev l) = foldr apply_obs m (rev l').
Proof.
  intros Hl Hset. apply foldr_commuting_set.
  - eapply commuting_weaken; [|by apply all_agree_commuting].
    intros o Ho. by rewrite list_elem_of_In, <- in_rev, <- list_elem_of_In in Ho.
  - intros o. by rewrite !list_elem_of_In, <- !in_rev, <- !list_elem_of_In.
Qed.

Lemma apply_obs_lookup o m k :
  obs_key o = k ->
  apply_obs o m !! k = Some (overlay (obs_row o) (default empty_row (m !! k))).
Proof. intros <-. unfold apply_obs. by rewrite lookup_insert_eq. Qed.

Lemma foldr_apply_obs_other l m k :
  (forall o, o ∈ l -> obs_key o <> k) -> foldr apply_obs m l !! k = m !! k.
Proof.
  induction l as [|o l IH]; intros Hl; [done|]. cbn. unfold apply_obs at 1.
  rewrite lookup_insert_ne by (apply Hl; left). apply IH. intros o' Ho'. apply Hl. by right.
Qed.

(** C10: the processors of the two chains may store what they see in any
    order, interleaved in any way, and store it again when they reprocess
    blocks: for observations that do not contradict each other, the transfer
    table, and the rest of the database, depend on the set of the observations
    only, and no statement fails. *)
Theorem transfers_order_irrelevant l l' db :
  Forall obs_wf l -> all_agree l -> (forall o, o ∈ l <-> o ∈ l') -> faults db = [] ->
  store_all l db = store_all l' db /\ (store_all l db).2 = Ok tt.
Proof.
  intros Hwf Hag Hset Hf.
  assert (Hwf' : Forall obs_wf l').
  { rewrite Forall_forall in Hwf |- *. intros o Ho. by apply Hwf, Hset. }
  rewrite !store_all_clean by done. split; [|done].
  do 2 f_equal. unfold with_xdm. f_equal. by apply foldr_apply_obs_set.
Qed.

(** C13: when the initiation, the execution and the acknowledgement of a transfer
    have all been stored, in whatever order, any number of times and among
    observations of any other messages, its row has the sender, the receiver
    and the amount, the blocks of all three steps, and the success of the
    transfer. *)
Theorem transfer_assembled i ei e ee a ea l db :
  ob_event i = EvOutgoingTransferInitiated ei ->
  ob_event e = EvIncomingTransferSuccessful ee ->
  ob_event a = EvOutgoingTransferSuccessful ea ->
  obs_key e = obs_key i -> obs_key a = obs_key i ->
  its_amount ee = tr_amount (otw_transfer ei) ->
  Forall obs_wf l -> all_agree l ->
  i ∈ l -> e ∈ l -> a ∈ l ->
  (forall o, o ∈ l -> obs_key o = obs_key i -> o ∈ [i; e; a]) ->
  faults db = [] -> xdm_transfers (tables db) !! obs_key i = None ->
  xdm_transfers (tables (store_all l db).1) !! obs_key i = Some {|
    x_sender := Some (account_to_string (account_id (tr_sender (otw_transfer ei))));
    x_receiver := Some (account_to_string (account_id (tr_receiver (otw_transfer ei))));
    x_amount := Some (tr_amount (otw_transfer ei));
    x_initiated := obs_cols i; x_executed := obs_cols e; x_acknowledged := obs_cols a;
    x_successful := Some true |}.
Proof.
  intros Hi He Ha Hke Hka Ham Hwf Hag Hil Hel Hal Honly Hf Hnone.
  rewrite store_all_clean by done. cbn.
  rewrite (foldr_apply_obs_set l (filter (fun o => obs_key o <> obs_key i) l ++ [i; e; a]));
    [|done|].
  - rewrite rev_app_distr, foldr_app. cbn [rev app foldr].
    rewrite !apply_obs_lookup by done. rewrite foldr_apply_obs_other.
    + rewrite Hnone. unfold obs_row. rewrite Hi, He, Ha. cbn. by rewrite Ham.
    + intros o Ho. rewrite list_elem_of_In, <- in_rev, <- list_elem_of_In in Ho.
      by apply list_elem_of_filter in Ho as [Ho _].
  - intros o. rewrite elem_of_app, list_elem_of_filter. split.
    + intros Ho. destruct (decide (obs_key o = obs_key i)); [right | left]; auto.
    + intros [[_ Ho] | Ho]; [done|]. rewrite !elem_of_cons in Ho.
      by destruct Ho as [->|[->|[->|[]%not_elem_of_nil]]].
Qed.

(** ** Whole rows *)

Definition cols_whole (c : BlockCols) : Prop :=
  c = no_cols \/ (is_Some (bc_number c) /\ is_Some (bc_hash c) /\ is_Some (bc_at c)).

Definition row_whole (r : XdmRow) : Prop :=
  cols_whole (x_initiated r) /\ cols_whole (x_executed r) /\ cols_whole (x_acknowledged r) /\
  (is_Some (x_sender r) <-> is_Some (bc_at (x_initiated r))) /\
  (is_Some (x_receiver r) <-> is_Some (bc_at (x_initiated r))) /\
  (is_Some (x_amount r) <-> is_Some (bc_at (x_initiated r)) \/ is_Some (bc_at (x_executed r))) /\
  (is_Some (x_successful r) <->
     is_Some (bc_at (x_executed r)) \/ is_Some (bc_at (x_acknowledged r))).

Definition rows_whole (t : Tables) : Prop :=
  map_Forall (fun _ r => row_whole r) (xdm_transfers t).

Lemma empty_row_whole : row_whole empty_row.
Proof.
  unfold row_whole, cols_whole. cbn. repeat split; auto; intros Hs; try by destruct Hs.
Qed.

Lemma block_cols_whole block time : cols_whole (block_cols block time).
Proof. right. cbn. eauto. Qed.

Lemma insert_transfer_whole src dst m row t :
  (forall old new, row_whole old -> row old = Ok new -> row_whole new) ->
  rows_whole t ->
  forall t' u, insert_transfer src dst m row t = Ok (t', u) -> rows_whole t'.
Proof.
  intros Hrow Ht t' u Hins. unfold insert_transfer in Hins.
  apply bind_Ok in Hins as (c & _ & Hins). apply bind_Ok in Hins as (n & _ & Hins).
  apply bind_Ok in Hins as (new & Hnew & Hins). injection Hins as <- _.
  apply map_Forall_insert_2; [|done]. eapply Hrow; [|exact Hnew].
  destruct (xdm_transfers t !! _) as [old|] eqn:Hold; [exact (Ht _ _ Hold) | apply empty_row_whole].
Qed.

Lemma store_event_whole chain block time ev db :
  rows_whole (tables db) -> rows_whole (tables (store_event chain block time ev db).1).
Proof.
  intros Hdb.
  destruct ev as [[m [a [s sa] [r ra]]] | e | e | e]; cbn [store_event];
    unfold store_outgoing_transfer_initiated, store_outgoing_transfer_acknowledgement,
      store_incoming_transfer_execution; cbn;
    match goal with
    | |- rows_whole (tables (run ?stmt db).1) =>
        destruct (run_tables stmt db) as [-> | (t & u & Hstmt & ->)]; [done|]
    end;
    (eapply insert_transfer_whole; [|exact Hdb|exact Hstmt]);
    intros old new (Hi & He & Ha & Hs & Hr & Ham & Hsu) Hnew;
    try (apply bind_Ok in Hnew as (am & _ & Hnew)); injection Hnew as <-;
    unfold row_whole; cbn; pose proof (block_cols_whole block time);
    repeat split; auto; intros; eauto; naive_solver.
Qed.

(** C25: in every row of the transfer table, after any events were stored and
    however the statements ended, the block number, hash and time of a step
    are all there or all missing; the sender and the receiver are there exactly when the
    initiation is, the amount when the initiation or the execution is, and the
    outcome when the execution or the acknowledgement is. *)
Theorem store_events_keeps_rows_whole chain block time evs db :
  rows_whole (tables db) -> rows_whole (tables (store_events chain block time evs db).1).
Proof.
  intros Hdb. unfold store_events.
  apply (for_each_inv (fun db => rows_whole (tables db))); [|done].
  intros ev s _ Hs. by apply store_event_whole.
Qed.
End Transfers.

(** ** Checkpoints *)

(** A set leaves the tables alone, or sets the checkpoint and nothing else. *)
Lemma set_checkpoint_cases process block_number db :
  in_u 32 block_number ->
  let db' := (set_last_processed_block process block_number db).1 in
  metadata (tables db') = metadata (tables db) \/
  metadata (tables db') = <[process := block_number]> (metadata (tables db)).
Proof.
  intros [Hlo Hhi]. cbn zeta.
  assert (Hi : as_i 64 block_number = block_number) by (apply as_i_small; lia).
  unfold set_last_processed_block.
  match goal with |- context [run ?stmt db] =>
    destruct (run_tables stmt db) as [-> | (t & u & Hstmt & ->)]; [by left|] end.
  injection Hstmt as <-. right. cbn. rewrite Hi. unfold upsert.
  by destruct (metadata (tables db) !! process).
Qed.

(** A checkpoint that was set is read back; setting it leaves the
    checkpoints of the other processors alone; and a set that fails, because
    the connection is lost before or after the commit, leaves the old
    checkpoint or the new one. *)
Lemma checkpoint_roundtrip process block_number db :
  in_u 32 block_number ->
  let '(db', r) := set_last_processed_block process block_number db in
  (forall process', process' <> process ->
     metadata (tables db') !! process' = metadata (tables db) !! process') /\
  (r = Ok tt -> faults db' = [] ->
     (get_last_processed_block process db').2 = Ok block_number) /\
  (metadata (tables db') !! process = metadata (tables db) !! process \/
   metadata (tables db') !! process = Some block_number).
Proof.
  intros Hn. pose proof Hn as [Hlo Hhi].
  destruct (set_last_processed_block process block_number db) as [db' r] eqn:Hset.
  assert (Hi : as_i 64 block_number = block_number) by (apply as_i_small; lia).
  assert (Hcases : (tables db' = tables db /\ r <> Ok tt) \/
    metadata (tables db') = <[process := block_number]> (metadata (tables db))).
  { unfold set_last_processed_block, run in Hset. cbn in Hset. rewrite Hi in Hset.
    assert (Hup : upsert process block_number (fun _ => block_number) (metadata (tables db)) =
      <[process := block_number]> (metadata (tables db))).
    { unfold upsert. by destruct (metadata (tables db) !! process). }
    destruct (head (faults db)) as [[]|]; injection Hset as <- <-; cbn; auto. }
  destruct Hcases as [[Ht Hr] | Hm].
  - rewrite Ht. split; [done|]. split; [done | by left].
  - rewrite Hm. split; [|split].
    + intros p' Hp. by rewrite lookup_insert_ne.
    + intros -> Hf. unfold get_last_processed_block, select.
      rewrite SE_bind_unfold, run_clean by done. rewrite Hm, lookup_insert_eq. cbn.
      f_equal. by apply in_u_as_u.
    + right. by rewrite lookup_insert_eq.
Qed.

(** No two processors share a checkpoint: the keys of different chains
    differ, and none is the key of the staking processor. *)
Lemma checkpoint_keys_apart c c' :
  (get_xdm_processor_key c = get_xdm_processor_key c' <-> c = c') /\
  get_xdm_processor_key c <> CHECKPOINT_KEY.
Proof.
  split.
  - split; [|by intros ->]. intros Heq. unfold get_xdm_processor_key in Heq.
    apply (inj (String.append _)) in Heq. by apply (inj chain_to_string) in Heq.
  - unfold get_xdm_processor_key, CHECKPOINT_KEY. by destruct c.
Qed.

(** ** Witnesses *)

Definition clean_db (t : Tables) : Db := {| tables := t; faults := []; now := 0 |}.

Definition u256 (n : Z) : U256Compat := {| limb0 := n; limb1 := 0; limb2 := 0; limb3 := 0 |}.
Definition evm : ChainId := Domain {| domain_id := 0 |}.

Definition sample_transfer : Transfer := {|
  tr_amount := 10 ^ 18;
  tr_sender := {| chain_id := Consensus; account_id := AccountId32 [x01; x02] |};
  tr_receiver := {| chain_id := evm; account_id := AccountId20 [x6f] |} |}.

Definition sample_block (n : Z) : HashAndNumber := {| hn_number := n; hn_hash := [n] |}.

(** The three steps of one transfer from the consensus chain to the domain. *)
Definition obs_init : Observation := {|
  ob_chain := Consensus; ob_block := sample_block 10; ob_time := 1000;
  ob_event := EvOutgoingTransferInitiated
    {| otw_message_id := (u256 0, u256 1); otw_transfer := sample_transfer |} |}.
Definition obs_exec : Observation := {|
  ob_chain := evm; ob_block := sample_block 70; ob_time := 2000;
  ob_event := EvIncomingTransferSuccessful
    {| its_chain_id := Consensus; its_message_id := (u256 0, u256 1); its_amount := 10 ^ 18 |} |}.
Definition obs_ack : Observation := {|
  ob_chain := Consensus; ob_block := sample_block 30; ob_time := 3000;
  ob_event := EvOutgoingTransferSuccessful
    {| ots_chain_id := evm; ots_message_id := (u256 0, u256 1) |} |}.

Definition sample_steps : list Observation := [obs_ack; obs_init; obs_ack; obs_exec].

Lemma sample_steps_wf : Forall obs_wf sample_steps.
Proof. repeat constructor; cbn; lia. Qed.

Lemma sample_steps_agree : all_agree sample_steps.
Proof.
  intros o o' Ho Ho' _. unfold sample_steps in *. rewrite !elem_of_cons in Ho, Ho'.
  destruct Ho as [->|[->|[->|[->|[]%not_elem_of_nil]]]];
    destruct Ho' as [->|[->|[->|[->|[]%not_elem_of_nil]]]];
    repeat split; try exact I; reflexivity.
Qed.

Lemma transfers_order_irrelevant_witness :
  store_all sample_steps (clean_db no_tables) =
    store_all [obs_init; obs_exec; obs_ack] (clean_db no_tables).
Proof.
  refine (proj1 (transfers_order_irrelevant sample_steps [obs_init; obs_exec; obs_ack]
    (clean_db no_tables) sample_steps_wf sample_steps_agree _ eq_refl)).
  intros o. unfold sample_steps. rewrite !elem_of_cons. naive_solver.
Defined.

Lemma transfer_assembled_witness :
  exists row, xdm_transfers (tables (store_all sample_steps (clean_db no_tables)).1)
      !! obs_key obs_init = Some row /\
    x_acknowledged row = obs_cols obs_ack /\ x_successful row = Some true.
Proof.
  eexists. split.
  - eapply (transfer_assembled obs_init _ obs_exec _ obs_ack _ sample_steps (clean_db no_tables)
      eq_refl eq_refl eq_refl eq_refl eq_refl eq_refl sample_steps_wf sample_steps_agree).
    + unfold sample_steps. rewrite !elem_of_cons. auto.
    + unfold sample_steps. rewrite !elem_of_cons. auto.
    + unfold sample_steps. rewrite !elem_of_cons. auto.
    + intros o Ho _. unfold sample_steps in Ho. rewrite !elem_of_cons in *. tauto.
    + reflexivity.
    + reflexivity.
  - split; reflexivity.
Defined.

Lemma store_events_keeps_rows_whole_witness :
  rows_whole (tables (store_events Consensus (sample_block 10) 1000 [ob_event obs_init]
    {| tables := no_tables; faults := [FailsAfter]; now := 0 |}).1).
Proof. apply store_events_keeps_rows_whole. apply map_Forall_empty. Defined.

Lemma checkpoint_roundtrip_witness :
  (get_last_processed_block "staking_processor_Consensus"
     (set_last_processed_block "staking_processor_Consensus" 4200 (clean_db no_tables)).1).2 =
    Ok 4200.
Proof.
  exact (proj1 (proj2 (checkpoint_roundtrip "staking_processor_Consensus" 4200
    (clean_db no_tables) ltac:(split; lia))) eq_refl eq_refl).
Defined.
