(* ===== verification/DbStakingProps.v ===== *)
(** * Correctness of the staking tables

    The block-height guard of the nominators, the materialized nominator
    count, the operator rows, and the queries over share prices, deposits and
    withdrawals. *)

From S2P Require Import Prelude Types Events Db DbXdm DbXdmProps.

(** ** Ordered queries *)

#[export] Instance asc_trans {A} (key : A -> Z) : Transitive (asc key).
Proof. intros a b c. unfold asc. lia. Qed.
#[export] Instance asc_total {A} (key : A -> Z) : Total (asc key).
Proof. intros a b. unfold asc. lia. Qed.
#[export] Instance desc_trans {A} (key : A -> Z) : Transitive (desc key).
Proof. intros a b c. unfold desc. lia. Qed.
#[export] Instance desc_total {A} (key : A -> Z) : Total (desc key).
Proof. intros a b. unfold desc. lia. Qed.

(** [page_of R n l r]: [r] is what [ORDER BY R LIMIT n] may give of the rows
    [l]: some [n] of them (all, when there are fewer), in order, and none that is left out
    comes strictly before one that is given. *)
Definition page_of {A} (R : relation A) (n : Z) (l r : list A) : Prop :=
  exists left_out, r ++ left_out ≡ₚ l /\ StronglySorted R r /\
    length r = Nat.min (Z.to_nat n) (length l) /\
    (forall a b, a ∈ r -> b ∈ left_out -> R a b).

Lemma StronglySorted_take_drop {A} (R : relation A) n (l : list A) :
  StronglySorted R l ->
  StronglySorted R (take n l) /\ (forall a b, a ∈ take n l -> b ∈ drop n l -> R a b).
Proof.
  intros Hl. revert n. induction Hl as [|x l Hl IH Hx]; intros [|n]; cbn.
  1-3: split; [constructor | intros a b Ha; by apply not_elem_of_nil in Ha].
  destruct (IH n) as [Hs Hab]. rewrite Forall_forall in Hx. split.
  - constructor; [done|]. apply Forall_forall. intros y Hy. apply Hx.
    rewrite <- (take_drop n l). apply elem_of_app. by left.
  - intros a b Ha Hb. apply elem_of_cons in Ha as [->|Ha]; [|by apply Hab].
    apply Hx. rewrite <- (take_drop n l). apply elem_of_app. by right.
Qed.

Lemma order_limit_page {A} (R : relation A) `{!RelDecision R, !Transitive R, !Total R} n l :
  0 <= n -> exists r, limit n (order_by R l) = Ok r /\ page_of R n l r.
Proof.
  intros Hn. unfold limit. rewrite (proj2 (Z.ltb_ge _ _)) by done.
  eexists. split; [reflexivity|]. exists (drop (Z.to_nat n) (order_by R l)).
  pose proof (StronglySorted_merge_sort R l) as Hs.
  destruct (StronglySorted_take_drop R (Z.to_nat n) _ Hs) as [Hs1 Hs2].
  pose proof (merge_sort_Permutation R l) as Hp. repeat split.
  - by rewrite take_drop.
  - done.
  - rewrite length_take. f_equal. unfold order_by. by rewrite Hp.
  - done.
Qed.

Lemma select_clean {A} (f : Tables -> outcome SqlxError A) db :
  faults db = [] ->
  select f db = (db, f (tables db)).
Proof.
  intros Hf. unfold select. rewrite run_clean by done.
  destruct (f (tables db)); cbn; try done. by destruct db; cbn in *; subst.
Qed.

(** ** Nominators *)

Lemma upsert_nominator_clean op addr status h db :
  faults db = [] ->
  upsert_nominator op addr status h db =
    (with_tables (match insert_nominator (as_i 64 op) addr status (as_i 64 h) (tables db) with
                  | Ok (t, _) => match refresh_nominator_count (as_i 64 op) t with
                                 | Ok (t', _) => t' | _ => t end
                  | _ => tables db end) db, Ok tt).
Proof.
  intros Hf. unfold upsert_nominator. rewrite SE_bind_unfold, run_clean by done. cbn.
  by rewrite run_clean by done.
Qed.

Definition guarded (status : string) (h : Z) (old : option Nominator) : Nominator :=
  match old with
  | Some old => if nom_block_height old <=? h then {| nom_status := status; nom_block_height := h |}
                else old
  | None => {| nom_status := status; nom_block_height := h |}
  end.

Lemma with_nominators_id t : with_nominators (fun m => m) t = t.
Proof. by destruct t. Qed.

(** C23: [upsert_nominator]: a new nominator is recorded; a recorded one takes
    the new status and height unless its height is greater; no other
    nominator changes; and the operator's row, if there is one, has exactly
    the number of its active nominators afterwards, whatever count an
    interrupted run left there. *)
Theorem upsert_nominator_correct op addr status h db :
  faults db = [] ->
  exists t, upsert_nominator op addr status h db = (with_tables t db, Ok tt) /\
    nominators t = <[(as_i 64 op, addr) :=
      guarded status (as_i 64 h) (nominators (tables db) !! (as_i 64 op, addr))]>
        (nominators (tables db)) /\
    (forall o, operators t !! as_i 64 op = Some o ->
       op_nominator_count o = active_nominators (as_i 64 op) t) /\
    (forall id, id <> as_i 64 op -> operators t !! id = operators (tables db) !! id) /\
    (forall id, is_Some (operators t !! id) <-> is_Some (operators (tables db) !! id)) /\
    (get_active_nominator_count (as_i 64 op) (with_tables t db)).2 =
      Ok (active_nominators (as_i 64 op) t).
Proof.
  intros Hf. eexists. split; [by apply upsert_nominator_clean|]. cbn.
  split; [|split; [|split; [|split]]].
  - unfold upsert, guarded. by destruct (nominators (tables db) !! (as_i 64 op, addr)).
  - intros o Ho. rewrite lookup_alter_eq in Ho.
    destruct (operators (tables db) !! as_i 64 op) as [o'|]; [|done]. by injection Ho as <-.
  - intros id Hid. by rewrite lookup_alter_ne.
  - intros id. destruct (decide (id = as_i 64 op)) as [->|]; [|by rewrite lookup_alter_ne].
    rewrite lookup_alter_eq. by destruct (operators (tables db) !! as_i 64 op).
  - unfold get_active_nominator_count. by rewrite select_clean.
Qed.

Lemma guarded_comm status h status' h' old :
  h <> h' ->
  guarded status h (Some (guarded status' h' old)) =
  guarded status' h' (Some (guarded status h old)).
Proof.
  intros Hne. unfold guarded. destruct old as [[s oh]|]; cbn.
  - destruct (Z.leb_spec oh h); destruct (Z.leb_spec oh h'); cbn;
      destruct (Z.leb_spec h h'); destruct (Z.leb_spec h' h);
      destruct (Z.leb_spec oh h); destruct (Z.leb_spec oh h'); first [lia | reflexivity].
  - destruct (Z.leb_spec h h'); destruct (Z.leb_spec h' h); first [lia | reflexivity].
Qed.

(** The number of active nominators depends on the nominators of the operator
    only. *)
Lemma active_nominators_ext op t t' :
  (forall addr, nominators t !! (op, addr) = nominators t' !! (op, addr)) ->
  active_nominators op t = active_nominators op t'.
Proof.
  intros Heq. unfold active_nominators. f_equal.
  apply Permutation_length, NoDup_Permutation.
  1-2: apply NoDup_filter, NoDup_map_to_list.
  intros [[o addr] n]. rewrite !list_elem_of_filter, !elem_of_map_to_list. cbn.
  split; intros [[-> Hs] Hl]; [rewrite Heq in Hl | rewrite <- Heq in Hl]; done.
Qed.

Lemma alter_count_comm op op' n n' (m : gmap Z Operator) :
  op <> op' ->
  alter (set_nominator_count n) op (alter (set_nominator_count n') op' m) =
  alter (set_nominator_count n') op' (alter (set_nominator_count n) op m).
Proof. intros Hne. by apply alter_alter_ne. Qed.

Lemma alter_count_absorb op n n' (m : gmap Z Operator) :
  alter (set_nominator_count n) op (alter (set_nominator_count n') op m) =
  alter (set_nominator_count n) op m.
Proof. rewrite alter_alter_eq. by apply alter_ext. Qed.

(** The two statements as updates of the tables. *)
Definition apply_nominator (op : Z) (addr status : string) (h : Z) (t : Tables) : Tables :=
  let t' := with_nominators (fun m => <[(op, addr) := guarded status h (m !! (op, addr))]> m) t in
  with_operators (alter (set_nominator_count (active_nominators op t')) op) t'.

Lemma upsert_nominator_apply op addr status h db :
  faults db = [] ->
  upsert_nominator op addr status h db =
    (with_tables (apply_nominator (as_i 64 op) addr status (as_i 64 h) (tables db)) db, Ok tt).
Proof.
  intros Hf. rewrite upsert_nominator_clean by done. cbn. unfold apply_nominator, upsert, guarded.
  by destruct (nominators (tables db) !! (as_i 64 op, addr)).
Qed.

Lemma apply_nominator_comm op addr status h op' addr' status' h' t :
  (op, addr) <> (op', addr') \/ h <> h' ->
  apply_nominator op addr status h (apply_nominator op' addr' status' h' t) =
  apply_nominator op' addr' status' h' (apply_nominator op addr status h t).
Proof.
  intros Hne.
  pose (upd op addr status h := fun m : gmap (Z * string) Nominator =>
    <[(op, addr) := guarded status h (m !! (op, addr))]> m).
  assert (Hcomm : upd op addr status h (upd op' addr' status' h' (nominators t)) =
                  upd op' addr' status' h' (upd op addr status h (nominators t))).
  { unfold upd. destruct (decide ((op, addr) = (op', addr'))) as [[= -> ->]|Hk].
    - rewrite !lookup_insert_eq, !insert_insert_eq. f_equal. apply guarded_comm.
      by destruct Hne.
    - rewrite !lookup_insert_ne by done. by apply insert_insert_ne. }
  (* the number of active nominators of an operator after both updates *)
  assert (Hcount : forall o t1 t2, nominators t1 = nominators t2 ->
    active_nominators o t1 = active_nominators o t2).
  { intros o t1 t2 Heq. apply active_nominators_ext. by rewrite Heq. }
  unfold apply_nominator, with_operators, with_nominators. cbn.
  change (<[(op, addr) := _]> _) with (upd op addr status h (upd op' addr' status' h' (nominators t))) at 1.
  fold (upd op addr status h) (upd op' addr' status' h').
  destruct (decide (op = op')) as [->|Hop].
  - rewrite !alter_count_absorb. f_equal; [exact Hcomm|]. f_equal. f_equal. by apply Hcount.
  - rewrite alter_count_comm by done. f_equal; [exact Hcomm|].
    assert (Hop' : op' <> op) by congruence.
    f_equal; [|f_equal]; f_equal; apply active_nominators_ext; cbn; intros a; unfold upd;
      rewrite !lookup_insert; repeat case_decide; simplify_eq; done.
Qed.

(** C24: two nominator updates that the parallel block processing may swap
    commute: when they are of different nominators, or come from different
    blocks, both orders give the same database, nominator counts included. *)
Theorem upsert_nominator_commutes op addr status h op' addr' status' h' db :
  in_u 64 op -> in_u 64 op' -> in_u 32 h -> in_u 32 h' ->
  (op, addr) <> (op', addr') \/ h <> h' -> faults db = [] ->
  (upsert_nominator op addr status h ≫= fun _ => upsert_nominator op' addr' status' h') db =
  (upsert_nominator op' addr' status' h' ≫= fun _ => upsert_nominator op addr status h) db.
Proof.
  intros Ho Ho' Hh Hh' Hne Hf. rewrite !SE_bind_unfold.
  rewrite !upsert_nominator_apply by done. cbn beta iota.
  unfold with_tables. cbn [tables faults now]. do 2 f_equal. symmetry. apply apply_nominator_comm.
  destruct Hne as [Hne|Hne]; [left | right].
  2: { unfold in_u in *. by rewrite !as_i_small by lia. }
  intros Heq. apply Hne. injection Heq as Hop ->. f_equal.
  by apply (as_i_inj 64).
Qed.

(** ** Operators *)

Definition operator_wf (op : UpsertOperator) : Prop :=
  in_u 64 (uo_operator_id op) /\ in_u 32 (uo_domain_id op) /\
  in_u 128 (uo_minimum_nominator_stake op) /\ in_u 8 (uo_nomination_tax op) /\
  in_u 128 (uo_total_stake op) /\ in_u 128 (uo_total_shares op) /\
  in_u 128 (uo_total_storage_fee_deposit op).

(** The statements on the operators. An operator that is not in the table
    is inserted with all its columns and no nominators; on one that is, only
    the status, the stake, the shares, the storage fee and the time change: the domain,
    the owner, the signing key, the minimum stake, the tax and the nominator count of the
    first insert stay. The two updates change nothing when the operator is not
    in the table, and never touch another operator. *)
Lemma operator_statements op status stake shares fee time db :
  operator_wf op -> in_u 128 stake -> in_u 128 shares -> in_u 128 fee -> faults db = [] ->
  let id := as_i 64 (uo_operator_id op) in
  let old := operators (tables db) !! id in
  (exists m, upsert_operator op db = (with_tables (with_operators (fun _ => m) (tables db)) db, Ok tt) /\
     m = <[id := match old with
       | None => {|
           op_domain_id := as_i 32 (uo_domain_id op); op_owner_account := uo_owner_account op;
           op_signing_key := uo_signing_key op;
           op_minimum_nominator_stake := uo_minimum_nominator_stake op;
           op_nomination_tax := uo_nomination_tax op; op_status := uo_status op;
           op_total_stake := uo_total_stake op; op_total_shares := uo_total_shares op;
           op_total_storage_fee_deposit := uo_total_storage_fee_deposit op;
           op_updated_at := uo_block_time op; op_nominator_count := 0 |}
       | Some o => {|
           op_domain_id := op_domain_id o; op_owner_account := op_owner_account o;
           op_signing_key := op_signing_key o;
           op_minimum_nominator_stake := op_minimum_nominator_stake o;
           op_nomination_tax := op_nomination_tax o; op_status := uo_status op;
           op_total_stake := uo_total_stake op; op_total_shares := uo_total_shares op;
           op_total_storage_fee_deposit := uo_total_storage_fee_deposit op;
           op_updated_at := uo_block_time op; op_nominator_count := op_nominator_count o |}
       end]> (operators (tables db))) /\
  (exists m, update_operator_stats (uo_operator_id op) status stake shares fee time db =
       (with_tables (with_operators (fun _ => m) (tables db)) db, Ok tt) /\
     m = match old with
         | None => operators (tables db)
         | Some o => <[id := set_operator_stats status stake shares fee time o]>
                       (operators (tables db))
         end) /\
  (exists m, update_operator_status (uo_operator_id op) status db =
       (with_tables (with_operators (fun _ => m) (tables db)) db, Ok tt) /\
     m = match old with
         | None => operators (tables db)
         | Some o => <[id := set_operator_status status (now db) o]> (operators (tables db))
         end).
Proof.
  intros (Hid & Hd & Hm & Ht & Hs & Hsh & Hfee) Hst Hshs Hf Hclean id old.
  assert (Halter : forall f, alter f id (operators (tables db)) =
    match old with None => operators (tables db) | Some o => <[id := f o]> (operators (tables db)) end).
  { intros f. unfold old. destruct (operators (tables db) !! id) as [o|] eqn:Ho.
    - rewrite <- (insert_id (operators (tables db)) id o Ho) at 1. by rewrite alter_insert_eq.
    - by apply alter_id'. }
  split; [|split].
  - unfold upsert_operator. rewrite run_clean by done. rewrite !cast_u128 by done. cbn.
    eexists. split; [reflexivity|]. fold id. fold old. unfold upsert. fold old.
    rewrite (as_i_small 16) by (unfold in_u in Ht; lia). by destruct old.
  - unfold update_operator_stats. rewrite run_clean by done. rewrite !cast_u128 by done. cbn.
    eexists. split; [reflexivity|]. apply Halter.
  - unfold update_operator_status. rewrite run_clean by done. cbn.
    eexists. split; [reflexivity|]. apply Halter.
Qed.

(** ** Witnesses *)

Definition sample_operator (id : Z) : UpsertOperator := {|
  uo_operator_id := id; uo_domain_id := 0; uo_owner_account := "owner";
  uo_signing_key := "0xkey"; uo_minimum_nominator_stake := 10; uo_nomination_tax := 5;
  uo_status := "registered"; uo_total_stake := 100; uo_total_shares := 90;
  uo_total_storage_fee_deposit := 7; uo_block_time := 1000 |}.

Definition operator_db : Db := (upsert_operator (sample_operator 3) (clean_db no_tables)).1.

Lemma upsert_nominator_correct_witness :
  (get_active_nominator_count 3 (upsert_nominator 3 "alice" "active" 10 operator_db).1).2 = Ok 1.
Proof.
  destruct (upsert_nominator_correct 3 "alice" "active" 10 operator_db eq_refl)
    as (t & Ht & Hn & _ & _ & _ & Hcount).
  rewrite Ht. cbn [fst]. change (as_i 64 3) with 3 in *. rewrite Hcount.
  unfold active_nominators. by rewrite Hn.
Defined.

Lemma upsert_nominator_commutes_witness :
  (upsert_nominator 3 "alice" "active" 10 ≫= fun _ =>
     upsert_nominator 3 "alice" "withdrawn" 5) operator_db =
  (upsert_nominator 3 "alice" "withdrawn" 5 ≫= fun _ =>
     upsert_nominator 3 "alice" "active" 10) operator_db.
Proof.
  apply upsert_nominator_commutes; [split; lia..| | reflexivity]. right. lia.
Defined.

Lemma operator_statements_witness :
  exists m, update_operator_status 9 "slashed" operator_db =
      (with_tables (with_operators (fun _ => m) (tables operator_db)) operator_db, Ok tt) /\
    m = operators (tables operator_db).
Proof.
  assert (Hwf : operator_wf (sample_operator 9)) by (repeat split; cbn; lia).
  exact (proj2 (proj2 (operator_statements (sample_operator 9) "slashed" 0 0 0 0 operator_db Hwf
    ltac:(split; lia) ltac:(split; lia) ltac:(split; lia) eq_refl))).
Defined.
