(* ===== verification/Staking.v ===== *)
(** * The staking indexer

    Models [indexer/src/staking.rs]: what the staking processor writes for one
    block, with the storage it reads, the errors it only logs, and the matching of
    storage fees with nominations. *)

From Stdlib Require Import Strings.Byte.
From S2P Require Import Prelude HeadersCache TreeRoute BlockListener Scale RpcTypes Types.
From S2P Require Import Events Chain Db IndexerError.

Section Staking.
Context `{ChainTypes, ScaleCodec, EventCodec, Twox, TextCodecs, DecimalLib, Chrono}.
Context (node : RpcNode) (client : Client).

(** ** Storage fees

    [HashMap<(u64, String), Vec<u128>>]: the fees deposited in the block, per
    operator and nominator, in the order of the events. *)
Definition push_fee (fees : gmap (Z * string) (list Z)) (e : StorageFeeDeposited) : gmap (Z * string) (list Z) :=
  let key := (sfd_operator_id e, ss58 (sfd_nominator_id e)) in
  <[key := default [] (fees !! key) ++ [sfd_amount e]]> fees.

Fixpoint collect_fees (events : list (outcome string StorageFeeDeposited)) (fees : gmap (Z * string) (list Z))
    : outcome string (gmap (Z * string) (list Z)) :=
  match events with
  | [] => mret fees
  | event :: events' => e ← event; collect_fees events' (push_fee fees e)
  end.

(** [fees.remove(0)], when there is one. *)
Definition take_fee (key : Z * string) (fees : gmap (Z * string) (list Z)) : Z * gmap (Z * string) (list Z) :=
  match fees !! key with
  | Some (fee :: rest) => (fee, <[key := rest]> fees)
  | _ => (0, fees)
  end.

(** ** Events of a block *)

Definition on_registered (hash : Hash) (block_number block_time : Z) (e : OperatorEvent)
    : SE Db Ix.Error unit :=
  let id := oe_operator_id e in
  op ← lift (attempt (read_storage decode_operator client hash "Domains" "Operators" [ArgU64 id]));
  match op with
  | None => mret tt
  | Some op =>
      owner ← lift (attempt
        (read_storage decode_bytes32 client hash "Domains" "OperatorIdOwner" [ArgU64 id]));
      match owner with
      | None => mret tt
      | Some owner =>
          let owner_account := ss58 owner in
          _ ← Ix.db (upsert_operator {|
            uo_operator_id := id;
            uo_domain_id := fo_current_domain_id op;
            uo_owner_account := owner_account;
            uo_signing_key := "0x" +:+ hex_encode (fo_signing_key op);
            uo_minimum_nominator_stake := fo_minimum_nominator_stake op;
            uo_nomination_tax := fo_nomination_tax op;
            uo_status := as_str (fo_status op);
            uo_total_stake := fo_current_total_stake op;
            uo_total_shares := fo_current_total_shares op;
            uo_total_storage_fee_deposit := fo_total_storage_fee_deposit op;
            uo_block_time := block_time |});
          Ix.db (upsert_nominator id owner_account "active" block_number)
      end
  end.

Definition on_status (status : string) (e : OperatorEvent) : SE Db Ix.Error unit :=
  Ix.db (update_operator_status (oe_operator_id e) status).

(** The loop over the nominations, with the fees that are still unmatched. *)
Fixpoint on_nominated (events : list (outcome string OperatorNominated)) (fees : gmap (Z * string) (list Z))
    (block_number block_time : Z) : SE Db Ix.Error unit :=
  match events with
  | [] => mret tt
  | event :: events' =>
      e ← Ix.decoded event;
      let address := ss58 (on_nominator_id e) in
      _ ← Ix.db (upsert_nominator (on_operator_id e) address "active" block_number);
      let '(storage_fee, fees') := take_fee (on_operator_id e, address) fees in
      _ ← Ix.db (insert_deposit (on_operator_id e) address (on_amount e) storage_fee
                   block_number block_time);
      on_nominated events' fees' block_number block_time
  end.

Definition no_withdrawal : NominatorWithdrawal :=
  {| nw_shares := 0; nw_amount := 0; nw_storage_fee_refund := 0 |}.

(** The withdrawal of an event: zeros when there is none or it cannot be
    read. *)
Definition read_withdrawal (hash : Hash) (e : NominatorEvent)
    : outcome (Error Hash) NominatorWithdrawal :=
  found ← attempt (try_read_storage decode_withdrawal client hash "Domains" "Withdrawals"
    [ArgU64 (ne_operator_id e); ArgAccount (ne_nominator_id e)]);
  mret (default no_withdrawal (mjoin found)).

Definition on_withdrew (hash : Hash) (block_number block_time : Z) (e : NominatorEvent)
    : SE Db Ix.Error unit :=
  withdrawal ← Ix.chain (read_withdrawal hash e);
  Ix.db (insert_withdrawal {|
    iw_operator_id := ne_operator_id e;
    iw_address := ss58 (ne_nominator_id e);
    iw_shares := nw_shares withdrawal;
    iw_amount := nw_amount withdrawal;
    iw_storage_fee_refund := nw_storage_fee_refund withdrawal;
    iw_block_height := block_number;
    iw_block_time := block_time |}).

Definition on_nominator_unlocked (block_number : Z) (e : NominatorEvent) : SE Db Ix.Error unit :=
  Ix.db (upsert_nominator (ne_operator_id e) (ss58 (ne_nominator_id e)) "withdrawn" block_number).

Definition on_nominated_staked_unlocked (hash : Hash) (block_number : Z) (e : NominatorEvent)
    : SE Db Ix.Error unit :=
  found ← lift (attempt (has_storage client hash "Domains" "Deposits"
    [ArgU64 (ne_operator_id e); ArgAccount (ne_nominator_id e)]));
  let has_deposit := default true found in
  let status := if has_deposit then "active" else "withdrawn" in
  Ix.db (upsert_nominator (ne_operator_id e) (ss58 (ne_nominator_id e)) status block_number).

(** ** Share prices of an epoch *)

(** The keys of a [BTreeMap], in order. *)
Definition btree_keys (m : gmap Z Z) : list Z := merge_sort Z.le (fst <$> map_to_list m).

Definition PERQUINTILL : Z := 1000000000000000000.

Definition index_operator_price (hash : Hash) (epoch_event : DomainEpochCompleted)
    (block_height block_time : Z) (operator_id : Z) : SE Db Ix.Error unit :=
  let domain_id' := dec_domain_id epoch_event in
  let epoch_index := dec_completed_epoch_index epoch_event in
  price ← lift (attempt (try_read_storage decode_u64 client hash "Domains"
    "OperatorEpochSharePrice"
    [ArgU64 operator_id; ArgDomainEpoch {| de_domain := domain_id'; de_epoch := epoch_index |}]));
  match mjoin price with
  | None => mret tt
  | Some share_price_raw =>
      op ← lift (attempt
        (read_storage decode_operator client hash "Domains" "Operators" [ArgU64 operator_id]));
      match op with
      | None => mret tt
      | Some op =>
          share_price ← lift (expect
            (decimal_div (decimal_from_u64 share_price_raw) (decimal_from_u64 PERQUINTILL)));
          _ ← Ix.db (upsert_epoch_share_price {|
            usp_operator_id := as_i 64 operator_id;
            usp_domain_id := as_i 32 (domain_id domain_id');
            usp_epoch_index := as_i 64 epoch_index;
            usp_share_price := share_price;
            usp_total_stake := fo_current_total_stake op;
            usp_total_shares := fo_current_total_shares op;
            usp_block_height := as_i 64 block_height;
            usp_block_time := block_time |});
          Ix.db (update_operator_stats operator_id (as_str (fo_status op))
            (fo_current_total_stake op) (fo_current_total_shares op)
            (fo_total_storage_fee_deposit op) block_time)
      end
  end.

Definition index_epoch_share_prices (hash : Hash) (block_height block_time : Z)
    (epoch_event : DomainEpochCompleted) : SE Db Ix.Error unit :=
  summary ← Ix.chain (read_storage decode_staking_summary client hash "Domains"
    "DomainStakingSummary" [ArgDomain (dec_domain_id epoch_event)]);
  for_each (btree_keys (current_operators summary))
    (index_operator_price hash epoch_event block_height block_time).

(** ** The handler *)

(** [for event in events.find::<E>() { let e = event?; .. }] *)
Definition for_events {E} (events : list (outcome string E)) (body : E -> SE Db Ix.Error unit)
    : SE Db Ix.Error unit :=
  for_each events (fun event => e ← Ix.decoded event; body e).

(** The part of the handler behind the deletions. *)
Definition index_staking_events (hash : Hash) (block_number block_time : Z)
    (events : list (outcome string EventDetails)) : SE Db Ix.Error unit :=
  _ ← for_events (find KOperatorRegistered events) (on_registered hash block_number block_time);
  _ ← for_events (find KOperatorDeregistered events) (on_status "deregistered");
  _ ← for_events (find KOperatorSlashed events) (on_status "slashed");
  _ ← for_events (find KOperatorDeactivated events) (on_status "deactivated");
  _ ← for_events (find KOperatorReactivated events) (on_status "registered");
  fees ← Ix.decoded (collect_fees (find KStorageFeeDeposited events) ∅);
  _ ← on_nominated (find KOperatorNominated events) fees block_number block_time;
  _ ← for_events (find KWithdrewStake events) (on_withdrew hash block_number block_time);
  _ ← for_events (find KNominatorUnlocked events) (on_nominator_unlocked block_number);
  _ ← for_events (find KNominatedStakedUnlocked events)
        (on_nominated_staked_unlocked hash block_number);
  for_events (find KDomainEpochCompleted events)
    (index_epoch_share_prices hash block_number block_time).

Definition index_staking_for_block (block_number : Z) : SE Db Ix.Error unit :=
  block_ext ← Ix.chain (block_ext_at_number node block_number);
  let hash := be_hash block_ext in
  millis ← Ix.chain (timestamp client hash);
  block_time ← lift (expect (from_timestamp_millis (as_i 64 millis)));
  events ← Ix.chain (events client hash);
  _ ← Ix.db (delete_deposits_for_block block_number);
  _ ← Ix.db (delete_withdrawals_for_block block_number);
  index_staking_events hash block_number block_time events.
End Staking.
