(* ===== verification/StakingFacts.v ===== *)
(** * The statements of a staking block

    The staking handler never reads the database: what it sends is a list of
    statements that the chain determines. [traced m l r] says that [m] runs
    the statements [l] one after the other and then ends with [r], unless one
    of them fails. *)

From Stdlib Require Import Strings.Byte.
From S2P Require Import Prelude HeadersCache TreeRoute BlockListener Scale RpcTypes Types.
From S2P Require Import Events Chain Db IndexerError DbXdm Staking.

Section Statements.
Context `{ChainTypes, ScaleCodec, EventCodec, Twox, TextCodecs, DecimalLib, Chrono}.

(** The statements the staking processor sends. *)
Inductive Action : Type :=
  | AUpsertOperator (op : UpsertOperator)
  | AUpdateStatus (operator_id : Z) (status : string)
  | AUpdateStats (operator_id : Z) (status : string) (stake shares fee block_time : Z)
  | AInsertNominator (operator_id : Z) (address status : string) (block_height : Z)
  | ARefreshCount (operator_id : Z)
  | AInsertDeposit (operator_id : Z) (address : string) (amount fee block_height block_time : Z)
  | AInsertWithdrawal (w : InsertWithdrawal)
  | ADeleteDeposits (block_height : Z)
  | ADeleteWithdrawals (block_height : Z)
  | AUpsertPrice (p : UpsertSharePrice).

Definition exec (a : Action) : SE Db SqlxError unit :=
  match a with
  | AUpsertOperator op => upsert_operator op
  | AUpdateStatus id status => update_operator_status id status
  | AUpdateStats id status stake shares fee time =>
      update_operator_stats id status stake shares fee time
  | AInsertNominator id address status h =>
      run (insert_nominator (as_i 64 id) address status (as_i 64 h))
  | ARefreshCount id => run (refresh_nominator_count (as_i 64 id))
  | AInsertDeposit id address amount fee h time => insert_deposit id address amount fee h time
  | AInsertWithdrawal w => insert_withdrawal w
  | ADeleteDeposits h => delete_deposits_for_block h
  | ADeleteWithdrawals h => delete_withdrawals_for_block h
  | AUpsertPrice p => upsert_epoch_share_price p
  end.

Definition exec_all (l : list Action) : SE Db SqlxError unit := for_each l exec.

Definition traced (m : SE Db Ix.Error unit) (l : list Action) (r : outcome Ix.Error unit) : Prop :=
  forall db, m db = match exec_all l db with
                    | (db', Ok _) => (db', r)
                    | (db', Err e) => (db', Err (Ix.DB e))
                    | (db', Panic) => (db', Panic)
                    | (db', Diverge) => (db', Diverge)
                    end.

Lemma traced_ret : traced (mret tt) [] (Ok tt).
Proof. by intros db. Qed.

Lemma traced_end (r : outcome Ix.Error unit) : traced (lift r) [] r.
Proof. by intros db. Qed.

Lemma traced_exec a (m : SE Db SqlxError unit) :
  (forall db, m db = exec a db) -> traced (Ix.db m) [a] (Ok tt).
Proof.
  intros Hm db. unfold Ix.db, exec_all. rewrite Hm. cbn [for_each]. rewrite SE_bind_unfold.
  by destruct (exec a db) as [db' [[]| | |]].
Qed.

(** After a part that ended well, the next part; a part that failed is the
    end. *)
Lemma traced_bind_ok m l k l' r :
  traced m l (Ok tt) -> traced k l' r -> traced (m ≫= fun _ => k) (l ++ l') r.
Proof.
  intros Hm Hk db. rewrite SE_bind_unfold, Hm. unfold exec_all. rewrite for_each_app, SE_bind_unfold.
  fold (exec_all l). destruct (exec_all l db) as [db' [[]| | |]]; [apply Hk | done..].
Qed.

Lemma traced_bind_fail m l (k : unit -> SE Db Ix.Error unit) r :
  traced m l r -> r <> Ok tt -> traced (m ≫= k) l r.
Proof.
  intros Hm Hr db. rewrite SE_bind_unfold, Hm.
  destruct (exec_all l db) as [db' [[]| | |]]; [|done..]. by destruct r as [[]| | |].
Qed.

Lemma traced_lift {A} (o : outcome Ix.Error A) (k : A -> SE Db Ix.Error unit) a l r :
  o = Ok a -> traced (k a) l r -> traced (lift o ≫= k) l r.
Proof. intros -> Hk db. rewrite SE_bind_unfold. exact (Hk db). Qed.

Lemma lift_Ok {A B} (a : A) (k : A -> SE Db Ix.Error B) db : (lift (Ok a) ≫= k) db = k a db.
Proof. by rewrite SE_bind_unfold. Qed.

(** Results that are not an error of the database. *)
Class NoDbError {A} (o : outcome Ix.Error A) : Prop :=
  no_db_error : forall e, o <> Err (Ix.DB e).

#[global] Instance no_db_ok {A} (a : A) : NoDbError (Ok a).
Proof. done. Qed.
#[global] Instance no_db_subspace {E A} (f : E -> HeadersCache.Error Hash) (o : outcome E A) :
  NoDbError (map_err (fun e => Ix.Subspace (f e)) o).
Proof. by intros e; destruct o. Qed.
#[global] Instance no_db_chain {A} (o : outcome (HeadersCache.Error Hash) A) :
  NoDbError (map_err Ix.Subspace o).
Proof. by intros e; destruct o. Qed.
#[global] Instance no_db_attempt {E A} (o : outcome E A) : NoDbError (attempt o).
Proof. by intros e; destruct o. Qed.
#[global] Instance no_db_expect {A} (o : option A) : NoDbError (expect o).
Proof. by intros e; destruct o. Qed.

(** [does P m]: [m] runs statements that satisfy [P], whatever happens, and its own
    end is not an error of the database. *)
Definition does (P : Action -> Prop) (m : SE Db Ix.Error unit) : Prop :=
  exists l r, traced m l r /\ Forall P l /\ NoDbError r.

Lemma does_ret P : does P (mret tt).
Proof. exists [], (Ok tt). split_and!; [apply traced_ret | done | apply _]. Qed.

Lemma does_exec (P : Action -> Prop) a (m : SE Db SqlxError unit) :
  (forall db, m db = exec a db) -> P a -> does P (Ix.db m).
Proof.
  intros Hm Ha. exists [a], (Ok tt).
  split_and!; [by apply traced_exec | by constructor | apply _].
Qed.

Lemma does_bind (P : Action -> Prop) m k :
  does P m -> does P k -> does P (m ≫= fun _ => k).
Proof.
  intros (l & r & Hm & Hl & Hr) (l' & r' & Hk & Hl' & Hr').
  destruct r as [[]| | |].
  2-4: exists l; eexists; split; [eapply traced_bind_fail; [exact Hm | done] | done].
  exists (l ++ l'), r'. split_and!; [by apply traced_bind_ok | by apply Forall_app | done].
Qed.

Lemma does_lift {A} (P : Action -> Prop) (o : outcome Ix.Error A) k :
  NoDbError o -> (forall a, o = Ok a -> does P (k a)) -> does P (lift o ≫= k).
Proof.
  intros Hno Hk. destruct o as [a|e| |].
  - destruct (Hk a eq_refl) as (l & r & Hm & Hl & Hr). exists l, r. split; [|done].
    by apply (traced_lift _ _ a).
  - exists [], (Err e). split_and!; [by intros db | done |]. intros e' [= ->].
    by apply (Hno e').
  - by exists [], Panic; split; [intros db|].
  - by exists [], Diverge; split; [intros db|].
Qed.

End Statements.

(** A read whose failure the client of the node reports. *)
Ltac lifted := eapply does_lift; [tc_solve|].

Section Handlers.
Context `{ChainTypes, ScaleCodec, EventCodec, Twox, TextCodecs, DecimalLib, Chrono}.

Lemma does_for_each {A} (P : Action -> Prop) (l : list A) body :
  (forall x, x ∈ l -> does P (body x)) -> does P (for_each l body).
Proof.
  induction l as [|x l IH]; intros Hl; cbn; [apply does_ret|].
  apply does_bind; [apply Hl; left | apply IH; intros y Hy; apply Hl; by right].
Qed.

Lemma does_for_events {E} (P : Action -> Prop) (l : list (outcome string E)) body :
  (forall x, does P (body x)) -> does P (for_events l body).
Proof.
  intros Hbody. apply does_for_each. intros event _. lifted. intros a _. apply Hbody.
Qed.

Lemma traced_upsert_nominator op addr status h :
  traced (Ix.db (upsert_nominator op addr status h))
    [AInsertNominator op addr status h; ARefreshCount op] (Ok tt).
Proof.
  intros db. unfold Ix.db, upsert_nominator, exec_all. cbn [for_each exec].
  rewrite !SE_bind_unfold.
  destruct (run (insert_nominator _ _ _ _) db) as [db' [[]| | |]]; [|done..].
  rewrite SE_bind_unfold. by destruct (run (refresh_nominator_count _) db') as [db'' [[]| | |]].
Qed.

Lemma does_upsert_nominator (P : Action -> Prop) op addr status h :
  P (AInsertNominator op addr status h) -> P (ARefreshCount op) ->
  does P (Ix.db (upsert_nominator op addr status h)).
Proof.
  intros Hins Href. eexists _, _. split_and!; [apply traced_upsert_nominator | by repeat constructor | apply _].
Qed.

(** When the traced part fails its last statement is a failure of its own, so
    a part that ends with [Ok] has run all its statements. *)
Lemma traced_Ok m l r db db' :
  traced m l r -> m db = (db', Ok tt) -> r = Ok tt /\ exec_all l db = (db', Ok tt).
Proof.
  intros Hm Hdb. rewrite Hm in Hdb.
  destruct (exec_all l db) as [db'' [[]| | |]]; try done. by injection Hdb as -> ->.
Qed.

Lemma traced_state m l r db : traced m l r -> (m db).1 = (exec_all l db).1.
Proof. intros Hm. rewrite Hm. by destruct (exec_all l db) as [db' [[]| | |]]. Qed.

(** ** Statements that leave a table alone *)

Definition is_deposit (a : Action) : bool :=
  match a with AInsertDeposit _ _ _ _ _ _ | ADeleteDeposits _ => true | _ => false end.
Definition is_withdrawal (a : Action) : bool :=
  match a with AInsertWithdrawal _ | ADeleteWithdrawals _ => true | _ => false end.

(** Neither on the deposits nor on the withdrawals. *)
Definition other (a : Action) : Prop := is_deposit a = false /\ is_withdrawal a = false.

(** Rows of other blocks stay. *)
Definition at_height (h : Z) (a : Action) : Prop :=
  match a with
  | AInsertDeposit _ _ _ _ h' _ | ADeleteDeposits h' | ADeleteWithdrawals h' => h' = h
  | AInsertWithdrawal w => iw_block_height w = h
  | _ => True
  end.

Context (node : RpcNode) (client : Client).

Lemma on_registered_other hash n time e : does other (on_registered client hash n time e).
Proof.
  lifted. intros [op|] _; [|apply does_ret].
  lifted. intros [owner|] _; [|apply does_ret].
  apply does_bind; [by eapply (does_exec _ (AUpsertOperator _)) | by apply does_upsert_nominator].
Qed.

Lemma on_status_other status e : does other (on_status status e).
Proof. by eapply (does_exec _ (AUpdateStatus (oe_operator_id e) status)). Qed.

Lemma on_unlocked_other n e : does other (on_nominator_unlocked n e).
Proof. by apply does_upsert_nominator. Qed.

Lemma on_staked_unlocked_other hash n e :
  does other (on_nominated_staked_unlocked client hash n e).
Proof. lifted. intros found _. by apply does_upsert_nominator. Qed.

Lemma index_prices_other hash n time e :
  does other (index_epoch_share_prices client hash n time e).
Proof.
  lifted. intros summary _. apply does_for_each. intros id _.
  lifted. intros price _. destruct (mjoin price); [|apply does_ret].
  lifted. intros [op|] _; [|apply does_ret].
  lifted. intros share_price _. apply does_bind.
  - by eapply (does_exec _ (AUpsertPrice _)).
  - by eapply (does_exec _ (AUpdateStats _ _ _ _ _ _)).
Qed.

Lemma does_weaken (P Q : Action -> Prop) m : (forall a, P a -> Q a) -> does P m -> does Q m.
Proof.
  intros HPQ (l & r & Hm & Hl & Hr). exists l, r. split_and!; [done | by eapply Forall_impl | done].
Qed.
End Handlers.
