(* ===== verification/StakingProps.v ===== *)
(** * Correctness of the staking indexer

    The deposits and withdrawals a block leaves in the database, with the
    storage fees matched first in, first out; and that processing a block again,
    after any number of interrupted runs, leaves the same rows. *)

From Stdlib Require Import Strings.Byte.
From S2P Require Import Prelude HeadersCache TreeRoute BlockListener Scale ScaleLE RpcTypes.
From S2P Require Import RpcTypesProps Types Events Chain Db IndexerError DbXdm DbXdmProps.
From S2P Require Import DbStakingProps Staking StakingFacts ToyChain ToyIndexer.

(** ** Effects of statements on the deposit and withdrawal tables *)

Section Effects.
Context `{DecimalLib}.

Definition deposit_of (a : Action) : option Deposit :=
  match a with
  | AInsertDeposit id address amount fee h time => Some {|
      d_operator_id := as_i 64 id; d_address := address; d_amount := amount;
      d_storage_fee := fee; d_block_height := as_i 64 h; d_block_time := time |}
  | _ => None
  end.

Definition withdrawal_of_action (a : Action) : option Withdrawal :=
  match a with
  | AInsertWithdrawal w => Some {|
      w_operator_id := as_i 64 (iw_operator_id w); w_address := iw_address w;
      w_shares := iw_shares w; w_amount := iw_amount w;
      w_storage_fee_refund := iw_storage_fee_refund w;
      w_block_height := as_i 64 (iw_block_height w); w_block_time := iw_block_time w |}
  | _ => None
  end.

Definition keeps_height (h : Z) (d : Deposit) : Prop := d_block_height d <> as_i 64 h.
Definition keeps_height_w (h : Z) (w : Withdrawal) : Prop := w_block_height w <> as_i 64 h.
#[local] Instance keeps_dec h d : Decision (keeps_height h d).
Proof. unfold keeps_height. apply _. Defined.
#[local] Instance keeps_w_dec h w : Decision (keeps_height_w h w).
Proof. unfold keeps_height_w. apply _. Defined.

Definition deposit_effect (a : Action) (l : list Deposit) : list Deposit :=
  match a with
  | ADeleteDeposits h => filter (keeps_height h) l
  | _ => match deposit_of a with Some d => l ++ [d] | None => l end
  end.

Definition withdrawal_effect (a : Action) (l : list Withdrawal) : list Withdrawal :=
  match a with
  | ADeleteWithdrawals h => filter (keeps_height_w h) l
  | _ => match withdrawal_of_action a with Some w => l ++ [w] | None => l end
  end.

(** The amounts the statement binds are [u128]. *)
Definition action_wf (a : Action) : Prop :=
  match a with
  | AInsertDeposit _ _ amount fee _ _ => in_u 128 amount /\ in_u 128 fee
  | AInsertWithdrawal w =>
      in_u 128 (iw_shares w) /\ in_u 128 (iw_amount w) /\ in_u 128 (iw_storage_fee_refund w)
  | _ => True
  end.

Lemma exec_effect a db :
  action_wf a ->
  (nominator_deposits (tables (exec a db).1) = nominator_deposits (tables db) \/
   nominator_deposits (tables (exec a db).1) = deposit_effect a (nominator_deposits (tables db))) /\
  (nominator_withdrawals (tables (exec a db).1) = nominator_withdrawals (tables db) \/
   nominator_withdrawals (tables (exec a db).1) =
     withdrawal_effect a (nominator_withdrawals (tables db))).
Proof.
  intros Hwf.
  destruct a; cbn [exec]; unfold update_operator_status, upsert_operator, update_operator_stats,
    insert_deposit, insert_withdrawal, delete_deposits_for_block, delete_withdrawals_for_block,
    upsert_epoch_share_price;
  match goal with
  | |- context [run ?stmt db] =>
      destruct (run_tables stmt db) as [-> | (t & u & Hstmt & ->)]; [by auto|]
  end;
  repeat (apply bind_Ok in Hstmt as (? & ? & Hstmt)); cbn in Hwf;
  injection Hstmt as <-; cbn; auto;
  split; auto; right; rewrite cast_u128 in * by tauto; inv_outcome; try done.
Qed.

(** A statement that ended well on a clean connection has run. *)
Lemma exec_effect_ok a db db' :
  action_wf a -> faults db = [] -> exec a db = (db', Ok tt) ->
  faults db' = [] /\
  nominator_deposits (tables db') = deposit_effect a (nominator_deposits (tables db)) /\
  nominator_withdrawals (tables db') = withdrawal_effect a (nominator_withdrawals (tables db)).
Proof.
  intros Hwf Hf.
  destruct a; cbn [exec]; unfold update_operator_status, upsert_operator, update_operator_stats,
    insert_deposit, insert_withdrawal, delete_deposits_for_block, delete_withdrawals_for_block,
    upsert_epoch_share_price; rewrite run_clean by done;
  match goal with
  | |- match ?o with _ => _ end = _ -> _ => destruct o as [[t u]| | |] eqn:Hstmt; [|done..]
  end;
  repeat (apply bind_Ok in Hstmt as (? & ? & Hstmt)); cbn in Hwf;
  injection Hstmt as <-; intros Hdb; injection Hdb as <-; cbn; (split; [done|]);
  rewrite ?cast_u128 in * by tauto; inv_outcome; done.
Qed.

Lemma exec_all_effect l db db' :
  Forall action_wf l -> faults db = [] -> exec_all l db = (db', Ok tt) ->
  faults db' = [] /\
  nominator_deposits (tables db') =
    foldl (fun t a => deposit_effect a t) (nominator_deposits (tables db)) l /\
  nominator_withdrawals (tables db') =
    foldl (fun t a => withdrawal_effect a t) (nominator_withdrawals (tables db)) l.
Proof.
  intros Hl. revert db. induction Hl as [|a l Ha _ IH]; intros db Hf Hdb.
  - by injection Hdb as <-.
  - unfold exec_all in Hdb. cbn [for_each] in Hdb. rewrite SE_bind_unfold in Hdb.
    destruct (exec a db) as [db1 [[]| | |]] eqn:Ha1; [|done..].
    destruct (exec_effect_ok a db db1 Ha Hf Ha1) as (Hf1 & Hd1 & Hw1).
    cbn [foldl]. rewrite <- Hd1, <- Hw1. by apply IH.
Qed.

(** Any run of statements of a block, cut short anywhere, leaves the rows of
    the other blocks alone. *)
Lemma exec_all_keeps h l db :
  Forall action_wf l -> Forall (at_height h) l ->
  filter (keeps_height h) (nominator_deposits (tables (exec_all l db).1)) =
    filter (keeps_height h) (nominator_deposits (tables db)) /\
  filter (keeps_height_w h) (nominator_withdrawals (tables (exec_all l db).1)) =
    filter (keeps_height_w h) (nominator_withdrawals (tables db)).
Proof.
  intros Hwf Hh. unfold exec_all.
  apply (for_each_inv (fun db' =>
    filter (keeps_height h) (nominator_deposits (tables db')) =
      filter (keeps_height h) (nominator_deposits (tables db)) /\
    filter (keeps_height_w h) (nominator_withdrawals (tables db')) =
      filter (keeps_height_w h) (nominator_withdrawals (tables db)))); [|done].
  intros a s Ha [Hd Hw]. rewrite Forall_forall in Hwf, Hh.
  specialize (Hwf a Ha). specialize (Hh a Ha).
  destruct (exec_effect a s Hwf) as [Hda Hwa]. rewrite <- Hd, <- Hw. split.
  - destruct Hda as [->| ->]; [done|]. destruct a; cbn in *; subst; try done.
    + rewrite filter_app, filter_cons_False, filter_nil, app_nil_r; [done|].
      intros Hk. by apply Hk.
    + rewrite list_filter_filter. apply list_filter_iff. tauto.
  - destruct Hwa as [->| ->]; [done|]. destruct a; cbn in *; subst; try done.
    + rewrite filter_app, filter_cons_False, filter_nil, app_nil_r; [done|].
      intros Hk. by apply Hk.
    + rewrite list_filter_filter. apply list_filter_iff. tauto.
Qed.

Lemma foldl_deposit_effect l t :
  Forall (fun a => match a with ADeleteDeposits _ => False | _ => True end) l ->
  foldl (fun t a => deposit_effect a t) t l = t ++ omap deposit_of l.
Proof.
  intros Hl. revert t. induction Hl as [|a l Ha _ IH]; intros t; cbn; [by rewrite app_nil_r|].
  rewrite IH. destruct a; try done; cbn. by rewrite <- app_assoc.
Qed.

Lemma foldl_withdrawal_effect l t :
  Forall (fun a => match a with ADeleteWithdrawals _ => False | _ => True end) l ->
  foldl (fun t a => withdrawal_effect a t) t l = t ++ omap withdrawal_of_action l.
Proof.
  intros Hl. revert t. induction Hl as [|a l Ha _ IH]; intros t; cbn; [by rewrite app_nil_r|].
  rewrite IH. destruct a; try done; cbn. by rewrite <- app_assoc.
Qed.
End Effects.

(** ** Storage fees, first in, first out *)

Section Fees.
Context `{TextCodecs}.

Definition fee_key (d : StorageFeeDeposited) : Z * string :=
  (sfd_operator_id d, ss58 (sfd_nominator_id d)).
Definition nomination_key (e : OperatorNominated) : Z * string :=
  (on_operator_id e, ss58 (on_nominator_id e)).

(** The fees deposited for an operator by a nominator, in order. *)
Definition fee_queue (deps : list StorageFeeDeposited) (key : Z * string) : list Z :=
  sfd_amount <$> filter (fun d => fee_key d = key) deps.

(** How many of [seen] are [key]. *)
Definition rank (key : Z * string) (seen : list (Z * string)) : nat :=
  length (filter (fun k => k = key) seen).

(** The rows of the nominations of a block: the fee of a nomination that has
    [k] earlier ones of the same nominator and operator is the fee deposit
    number [k] of that nominator for that operator, or zero. *)
Fixpoint expected_deposits (n time : Z) (deps : list StorageFeeDeposited)
    (seen : list (Z * string)) (noms : list OperatorNominated) : list Deposit :=
  match noms with
  | [] => []
  | e :: noms' =>
      {| d_operator_id := as_i 64 (on_operator_id e);
         d_address := ss58 (on_nominator_id e);
         d_amount := on_amount e;
         d_storage_fee :=
           default 0 (fee_queue deps (nomination_key e) !! rank (nomination_key e) seen);
         d_block_height := as_i 64 n; d_block_time := time |}
      :: expected_deposits n time deps (seen ++ [nomination_key e]) noms'
  end.

(** The fees still unmatched after the nominations [seen]. *)
Definition fees_left (deps : list StorageFeeDeposited) (seen : list (Z * string))
    (fees : gmap (Z * string) (list Z)) : Prop :=
  forall key, default [] (fees !! key) = drop (rank key seen) (fee_queue deps key).

Lemma collect_fees_queue deps fees0 fees pre :
  (forall key, default [] (fees0 !! key) = fee_queue pre key) ->
  collect_fees (Ok <$> deps) fees0 = Ok fees ->
  forall key, default [] (fees !! key) = fee_queue (pre ++ deps) key.
Proof.
  revert fees0 pre. induction deps as [|d deps IH]; intros fees0 pre Hpre Hc key; cbn in Hc.
  - injection Hc as <-. by rewrite app_nil_r.
  - rewrite (assoc_L (++) pre [d] deps : pre ++ d :: deps = (pre ++ [d]) ++ deps).
    apply (IH (push_fee fees0 d)); [|done]. clear key. intros key.
    unfold push_fee, fee_queue. cbn zeta. rewrite filter_app, fmap_app, filter_cons.
    fold (fee_key d). fold (fee_queue pre key). rewrite <- Hpre.
    case_decide as Hk.
    + subst key. by rewrite lookup_insert_eq.
    + rewrite lookup_insert_ne by done. by rewrite app_nil_r.
Qed.

Lemma rank_snoc key k seen :
  rank key (seen ++ [k]) = (rank key seen + if decide (k = key) then 1 else 0)%nat.
Proof. unfold rank. rewrite filter_app, length_app, filter_cons. by case_decide. Qed.

Lemma take_fee_left deps seen fees key :
  fees_left deps seen fees ->
  (take_fee key fees).1 = default 0 (fee_queue deps key !! rank key seen) /\
  fees_left deps (seen ++ [key]) (take_fee key fees).2.
Proof.
  intros Hfees. pose proof (Hfees key) as Hkey. unfold take_fee.
  rewrite <- (Nat.add_0_r (rank key seen)), <- lookup_drop.
  assert (Hstep : forall fees' l, fees' !! key = Some l ->
    l = drop (S (rank key seen)) (fee_queue deps key) ->
    (forall k, k <> key -> fees' !! k = fees !! k) -> fees_left deps (seen ++ [key]) fees').
  { intros fees' l Hl Heq Hother k. rewrite rank_snoc. destruct (decide (key = k)) as [<-|Hk].
    - rewrite Hl. cbn. rewrite Heq. f_equal. lia.
    - rewrite Hother by done. by rewrite Hfees, Nat.add_0_r. }
  destruct (fees !! key) as [[|fee rest]|] eqn:Hf; cbn in *; rewrite <- Hkey.
  - split; [done|]. apply (Hstep fees []); [done | | done].
    rewrite <- Nat.add_1_r, <- drop_drop, <- Hkey. done.
  - split; [done|]. apply (Hstep _ rest); [by rewrite lookup_insert_eq | |].
    + rewrite <- Nat.add_1_r, <- drop_drop, <- Hkey. done.
    + intros k Hk. by rewrite lookup_insert_ne.
  - split; [done|]. intros k. rewrite rank_snoc. destruct (decide (key = k)) as [<-|Hk].
    + rewrite Hf. cbn. rewrite <- drop_drop, <- Hkey. done.
    + by rewrite Hfees, Nat.add_0_r.
Qed.
End Fees.

(** ** The handler *)

Section Handler.
Context `{ChainTypes, ScaleCodec, !ScaleLaws, EventCodec, Twox, TextCodecs, DecimalLib, Chrono}.
Context (node : RpcNode) (client : Client).

Lemma on_nominated_traced deps noms seen fees n time :
  fees_left deps seen fees ->
  exists l, traced (on_nominated (Ok <$> noms) fees n time) l (Ok tt) /\
    omap deposit_of l = expected_deposits n time deps seen noms /\
    omap withdrawal_of_action l = [] /\
    Forall (fun a => match a with
                     | AInsertDeposit _ _ amount fee h _ =>
                         h = n /\ (exists e, e ∈ noms /\ on_amount e = amount) /\
                         (fee = 0 \/ exists d, d ∈ deps /\ sfd_amount d = fee)
                     | _ => other a
                     end) l.
Proof.
  revert seen fees. induction noms as [|e noms IH]; intros seen fees Hfees.
  - exists []. split; [apply traced_ret|]. done.
  - destruct (take_fee_left deps seen fees (nomination_key e) Hfees) as [Hfee Hfees'].
    destruct (IH _ _ Hfees') as (l & Hl & Hd & Hw & Hall).
    exists ([AInsertNominator (on_operator_id e) (ss58 (on_nominator_id e)) "active" n;
             ARefreshCount (on_operator_id e)] ++
            [AInsertDeposit (on_operator_id e) (ss58 (on_nominator_id e)) (on_amount e)
               (take_fee (nomination_key e) fees).1 n time] ++ l).
    split; [|split; [|split]].
    + cbn [fmap list_fmap on_nominated]. eapply traced_lift; [reflexivity|]. cbn zeta.
      apply traced_bind_ok; [by apply traced_upsert_nominator|].
      fold (nomination_key e). destruct (take_fee (nomination_key e) fees) as [fee fees'].
      apply traced_bind_ok; [by apply traced_exec | exact Hl].
    + cbn. by rewrite Hd, Hfee.
    + exact Hw.
    + constructor; [done|]. constructor; [done|]. constructor.
      * split; [done|]. split; [exists e; split; [left | done]|].
        rewrite Hfee. destruct (fee_queue deps (nomination_key e) !! _) as [fee|] eqn:Hq; [|by left].
        right. apply list_elem_of_lookup_2 in Hq. unfold fee_queue in Hq.
        apply list_elem_of_fmap in Hq as (d & -> & Hdq).
        apply list_elem_of_filter in Hdq as [_ Hdq]. by exists d.
      * eapply Forall_impl; [exact Hall|]. intros [] Ha; try exact Ha. cbn in Ha |- *.
        destruct Ha as (? & (e' & ? & ?) & ?). split; [done|]. split; [|done].
        exists e'. split; [by right | done].
Qed.

(** The rows of the withdrawals of a block: what the storage holds of each, and
    zeros when there is nothing to read. *)
Definition expected_withdrawals (hash : Hash) (n time : Z) (events : list NominatorEvent)
    : list Withdrawal :=
  (fun e =>
    let w := match read_withdrawal client hash e with Ok w => w | _ => no_withdrawal end in
    {| w_operator_id := as_i 64 (ne_operator_id e); w_address := ss58 (ne_nominator_id e);
       w_shares := nw_shares w; w_amount := nw_amount w;
       w_storage_fee_refund := nw_storage_fee_refund w;
       w_block_height := as_i 64 n; w_block_time := time |}) <$> events.

Lemma read_withdrawal_range hash e w :
  read_withdrawal client hash e = Ok w ->
  in_u 128 (nw_shares w) /\ in_u 128 (nw_amount w) /\ in_u 128 (nw_storage_fee_refund w).
Proof.
  assert (Hzero : in_u 128 0) by (split; lia).
  intros Hw. unfold read_withdrawal in Hw. apply bind_Ok in Hw as (found & Hf & Hw).
  injection Hw as <-. unfold attempt in Hf.
  destruct (try_read_storage _ _ _ _ _ _) as [[w|]| | |] eqn:Hr; try done;
    injection Hf as <-; try (cbn; auto).
  unfold try_read_storage in Hr. apply bind_Ok in Hr as ([bytes|] & _ & Hr); [|done].
  destruct (safe_withdrawal bytes) as [(w' & Hw' & ? & ? & ? & _) | [e' He']].
  - rewrite Hw' in Hr. injection Hr as <-. cbn. auto.
  - by rewrite He' in Hr.
Qed.

Lemma on_withdrew_ok hash n time events db db' :
  faults db = [] ->
  for_events (Ok <$> events) (on_withdrew client hash n time) db = (db', Ok tt) ->
  faults db' = [] /\ nominator_deposits (tables db') = nominator_deposits (tables db) /\
  nominator_withdrawals (tables db') =
    nominator_withdrawals (tables db) ++ expected_withdrawals hash n time events.
Proof.
  unfold for_events. revert db. induction events as [|e events IH]; intros db Hf Hdb; cbn in Hdb.
  - injection Hdb as <-. by rewrite app_nil_r.
  - apply SE_bind_Ok in Hdb as (db1 & [] & He & Hdb).
    apply SE_bind_Ok in He as (db0 & e0 & He0 & He). injection He0 as <- <-.
    apply SE_bind_Ok in He as (db0 & w & Hw & He). unfold Ix.chain, lift in Hw.
    destruct (read_withdrawal client hash e) as [w'| | |] eqn:Hr; cbn in Hw; try done.
    injection Hw as <- ->.
    unfold Ix.db in He. destruct (insert_withdrawal _ db) as [db2 [[]| | |]] eqn:Hi; try done.
    injection He as <-.
    destruct (read_withdrawal_range hash e w Hr) as (? & ? & ?).
    match type of Hi with
    | insert_withdrawal ?iw _ = _ =>
        assert (Hwf : action_wf (AInsertWithdrawal iw)) by (cbn; auto);
        destruct (exec_effect_ok (AInsertWithdrawal iw) db db2 Hwf Hf Hi) as (Hf2 & Hd & Hwd)
    end.
    destruct (IH db2 Hf2 Hdb) as (? & -> & ->). rewrite Hd, Hwd. cbn. rewrite Hr.
    by rewrite <- app_assoc.
Qed.

Lemma does_other_ok m db db' :
  does other m -> faults db = [] -> m db = (db', Ok tt) ->
  faults db' = [] /\ nominator_deposits (tables db') = nominator_deposits (tables db) /\
  nominator_withdrawals (tables db') = nominator_withdrawals (tables db).
Proof.
  intros (l & r & Hm & Hl & _) Hf Hdb. apply (traced_Ok _ _ _ _ _ Hm) in Hdb as [_ Hdb].
  assert (Hwf : Forall action_wf l).
  { eapply Forall_impl; [exact Hl|]. intros [] [Hd Hw]; done. }
  destruct (exec_all_effect l db db' Hwf Hf Hdb) as (? & -> & ->). split; [done|].
  rewrite foldl_deposit_effect, foldl_withdrawal_effect.
  2-3: eapply Forall_impl; [exact Hl|]; intros [] [Hd Hw]; done.
  assert (omap deposit_of l = [] /\ omap withdrawal_of_action l = []) as [-> ->].
  { clear -Hl. induction Hl as [|a l [Hd Hw] _ [IHd IHw]]; [done|]. cbn. rewrite IHd, IHw.
    by destruct a. }
  by rewrite !app_nil_r.
Qed.

Lemma on_nominated_ok deps noms fees n time db db' :
  Forall (fun d => in_u 128 (sfd_amount d)) deps ->
  Forall (fun e => in_u 128 (on_amount e)) noms ->
  fees_left deps [] fees -> faults db = [] ->
  on_nominated (Ok <$> noms) fees n time db = (db', Ok tt) ->
  faults db' = [] /\
  nominator_deposits (tables db') =
    nominator_deposits (tables db) ++ expected_deposits n time deps [] noms /\
  nominator_withdrawals (tables db') = nominator_withdrawals (tables db).
Proof.
  intros Hdeps Hnoms Hfees Hf Hdb.
  destruct (on_nominated_traced deps noms [] fees n time Hfees) as (l & Hl & Hd & Hw & Hall).
  destruct (traced_Ok _ _ _ _ _ Hl Hdb) as [_ Hrun].
  rewrite Forall_forall in Hdeps. rewrite Forall_forall in Hnoms.
  assert (Hwf : Forall action_wf l).
  { eapply Forall_impl; [exact Hall|]. intros [] Ha; cbn in *; try done.
    - destruct Ha as (_ & (e & He & <-) & Hfee). split; [by apply Hnoms|].
      destruct Hfee as [->|(d & Hd' & <-)]; [split; lia | by apply Hdeps].
    - by destruct Ha. }
  destruct (exec_all_effect l db db' Hwf Hf Hrun) as (? & -> & ->). split; [done|].
  rewrite foldl_deposit_effect, foldl_withdrawal_effect, Hd, Hw, app_nil_r; [done|..].
  all: eapply Forall_impl; [exact Hall|]; intros [] Ha; cbn in *; try done; by destruct Ha.
Qed.

(** The amounts of decoded events are [u128]. *)
Definition events_typed (evs : list (outcome string EventDetails)) : Prop :=
  Forall (fun d => forall e, d = Ok e -> in_u 128 (sfd_amount e)) (find KStorageFeeDeposited evs) /\
  Forall (fun d => forall e, d = Ok e -> in_u 128 (on_amount e)) (find KOperatorNominated evs).

Lemma typed_decoded {E} (f : E -> Z) (xs : list E) :
  Forall (fun d : outcome string E => forall e, d = Ok e -> in_u 128 (f e)) (Ok <$> xs) ->
  Forall (fun e => in_u 128 (f e)) xs.
Proof. rewrite Forall_fmap. intros Hx. eapply Forall_impl; [exact Hx|]. cbn. auto. Qed.

Lemma chain_Ok {A} (o : outcome (Error Hash) A) db db' a :
  Ix.chain o db = (db', Ok a) -> db' = db /\ o = Ok a.
Proof. unfold Ix.chain, lift. destruct o; cbn; try done. by intros [= -> ->]. Qed.

Lemma decoded_Ok {A} (o : outcome string A) db db' a :
  Ix.decoded o db = (db', Ok a) -> db' = db /\ o = Ok a.
Proof. unfold Ix.decoded, lift. destruct o; cbn; try done. by intros [= -> ->]. Qed.

Lemma db_Ok {A} (m : SE Db SqlxError A) db db' a :
  Ix.db m db = (db', Ok a) -> m db = (db', Ok a).
Proof. unfold Ix.db. destruct (m db) as [db1 [| | |]]; cbn; try done. by intros [= -> ->]. Qed.

Lemma collect_fees_Ok evs fees0 fees :
  collect_fees evs fees0 = Ok fees -> exists deps, evs = Ok <$> deps.
Proof.
  revert fees0. induction evs as [|ev evs IH]; intros fees0 Hc; [by exists []|].
  cbn in Hc. apply bind_Ok in Hc as (d & -> & Hc). destruct (IH _ Hc) as [deps ->].
  by exists (d :: deps).
Qed.

Lemma for_events_Ok {E} (evs : list (outcome string E)) body db db' :
  for_events evs body db = (db', Ok tt) -> exists xs, evs = Ok <$> xs.
Proof.
  unfold for_events. revert db. induction evs as [|ev evs IH]; intros db Hdb; [by exists []|].
  cbn in Hdb. apply SE_bind_Ok in Hdb as (db1 & [] & He & Hdb).
  apply SE_bind_Ok in He as (db0 & e & He & _). apply decoded_Ok in He as [_ ->].
  destruct (IH _ Hdb) as [xs ->]. by exists (e :: xs).
Qed.

Lemma on_nominated_Ok evs fees n time db db' :
  on_nominated evs fees n time db = (db', Ok tt) -> exists xs, evs = Ok <$> xs.
Proof.
  revert fees db. induction evs as [|ev evs IH]; intros fees db Hdb; [by exists []|].
  cbn in Hdb. apply SE_bind_Ok in Hdb as (db0 & e & He & Hdb).
  apply decoded_Ok in He as [_ ->].
  apply SE_bind_Ok in Hdb as (db1 & [] & _ & Hdb).
  destruct (take_fee _ fees) as [fee fees'].
  apply SE_bind_Ok in Hdb as (db2 & [] & _ & Hdb).
  destruct (IH _ _ Hdb) as [xs ->]. by exists (e :: xs).
Qed.

(** A part of the handler that leaves deposits and withdrawals alone. *)
Ltac pass_other Hdb does_lemma :=
  let Hm := fresh "Hm" in
  apply SE_bind_Ok in Hdb as (? & [] & Hm & Hdb);
  apply does_other_ok in Hm as (? & ? & ?);
    [|by apply does_for_events; intros; apply does_lemma | done].

(** The part of the handler behind the deletions. *)
Lemma index_staking_events_ok hash n time evs db db' :
  events_typed evs -> faults db = [] ->
  index_staking_events client hash n time evs db = (db', Ok tt) ->
  exists deps noms wds,
    find KStorageFeeDeposited evs = Ok <$> deps /\
    find KOperatorNominated evs = Ok <$> noms /\
    find KWithdrewStake evs = Ok <$> wds /\
    nominator_deposits (tables db') =
      nominator_deposits (tables db) ++ expected_deposits n time deps [] noms /\
    nominator_withdrawals (tables db') =
      nominator_withdrawals (tables db) ++ expected_withdrawals hash n time wds.
Proof.
  intros [Htd Htn] Hf Hdb. unfold index_staking_events in Hdb.
  pass_other Hdb on_registered_other. do 4 pass_other Hdb on_status_other.
  apply SE_bind_Ok in Hdb as (? & fees & Hfees & Hdb). apply decoded_Ok in Hfees as [-> Hfees].
  apply SE_bind_Ok in Hdb as (? & [] & Hnom & Hdb).
  apply SE_bind_Ok in Hdb as (? & [] & Hwd & Hdb).
  destruct (collect_fees_Ok _ _ _ Hfees) as [deps Hdeps].
  destruct (on_nominated_Ok _ _ _ _ _ _ Hnom) as [noms Hnoms].
  destruct (for_events_Ok _ _ _ _ Hwd) as [wds Hwds].
  rewrite Hdeps in Hfees, Htd. rewrite Hnoms in Hnom, Htn. rewrite Hwds in Hwd.
  apply typed_decoded in Htd. apply typed_decoded in Htn.
  apply (on_nominated_ok deps) in Hnom as (? & ? & ?); [|done..| |done].
  2: { intros key. by rewrite (collect_fees_queue deps ∅ fees []). }
  apply on_withdrew_ok in Hwd as (? & ? & ?); [|done].
  pass_other Hdb on_unlocked_other. pass_other Hdb on_staked_unlocked_other.
  apply does_other_ok in Hdb as (? & ? & ?);
    [|by apply does_for_events; intros; apply index_prices_other | done].
  exists deps, noms, wds. repeat (split; [done|]). split; congruence.
Qed.

(** A block's handler that ended well, on a clean connection. *)
Lemma index_staking_ok n db db' :
  (forall hash evs, events client hash = Ok evs -> events_typed evs) -> faults db = [] ->
  index_staking_for_block node client n db = (db', Ok tt) ->
  exists blk millis time evs deps noms wds,
    block_ext_at_number node n = Ok blk /\
    timestamp client (be_hash blk) = Ok millis /\
    from_timestamp_millis (as_i 64 millis) = Some time /\
    events client (be_hash blk) = Ok evs /\
    find KStorageFeeDeposited evs = Ok <$> deps /\
    find KOperatorNominated evs = Ok <$> noms /\
    find KWithdrewStake evs = Ok <$> wds /\
    nominator_deposits (tables db') =
      filter (keeps_height n) (nominator_deposits (tables db)) ++
      expected_deposits n time deps [] noms /\
    nominator_withdrawals (tables db') =
      filter (keeps_height_w n) (nominator_withdrawals (tables db)) ++
      expected_withdrawals (be_hash blk) n time wds.
Proof.
  intros Htyped Hf Hdb. unfold index_staking_for_block in Hdb.
  apply SE_bind_Ok in Hdb as (? & blk & Hblk & Hdb). apply chain_Ok in Hblk as [-> Hblk].
  apply SE_bind_Ok in Hdb as (? & millis & Hms & Hdb). apply chain_Ok in Hms as [-> Hms].
  apply SE_bind_Ok in Hdb as (? & time & Htime & Hdb).
  unfold lift, expect in Htime. destruct (from_timestamp_millis _) as [time'|] eqn:Ht; [|done].
  injection Htime as <- ->.
  apply SE_bind_Ok in Hdb as (? & evs & Hevs & Hdb). apply chain_Ok in Hevs as [-> Hevs].
  apply SE_bind_Ok in Hdb as (db1 & [] & Hdel & Hdb). apply db_Ok in Hdel.
  apply SE_bind_Ok in Hdb as (db2 & [] & Hdelw & Hdb). apply db_Ok in Hdelw.
  destruct (exec_effect_ok (ADeleteDeposits n) db db1 I Hf Hdel) as (Hf1 & Hd1 & Hw1).
  destruct (exec_effect_ok (ADeleteWithdrawals n) db1 db2 I Hf1 Hdelw) as (Hf2 & Hd2 & Hw2).
  destruct (index_staking_events_ok _ _ _ _ _ _ (Htyped _ _ Hevs) Hf2 Hdb)
    as (deps & noms & wds & ? & ? & ? & Hd & Hw).
  exists blk, millis, time, evs, deps, noms, wds. repeat (split; [done|]).
  rewrite Hd, Hw, Hd2, Hw2, Hd1, Hw1. done.
Qed.

(** Any run, whatever fails in it, only touches the rows of its own block. *)
Definition own (n : Z) (a : Action) : Prop := at_height n a /\ action_wf a.

Lemma other_own n a : other a -> own n a.
Proof. intros [Hd Hw]. by destruct a. Qed.

Definition fees_typed (fees : gmap (Z * string) (list Z)) : Prop :=
  map_Forall (fun _ l => Forall (in_u 128) l) fees.

Lemma collect_fees_typed evs fees0 fees :
  Forall (fun d => forall e, d = Ok e -> in_u 128 (sfd_amount e)) evs ->
  fees_typed fees0 -> collect_fees evs fees0 = Ok fees -> fees_typed fees.
Proof.
  intros Hevs. revert fees0. induction Hevs as [|ev evs Hev _ IH]; intros fees0 Hfees0 Hc; cbn in Hc.
  - by injection Hc as <-.
  - apply bind_Ok in Hc as (d & -> & Hc). apply (IH (push_fee fees0 d)); [|done].
    apply map_Forall_insert_2; [|done]. apply Forall_app. split; [|by repeat constructor; apply Hev].
    destruct (fees0 !! _) as [l|] eqn:Hl; [exact (Hfees0 _ _ Hl) | done].
Qed.

Lemma take_fee_typed key fees :
  fees_typed fees -> in_u 128 (take_fee key fees).1 /\ fees_typed (take_fee key fees).2.
Proof.
  intros Hfees. unfold take_fee. destruct (fees !! key) as [[|fee rest]|] eqn:Hl; cbn.
  1, 3: split; [split; lia | done].
  pose proof (Hfees _ _ Hl) as Hall. apply Forall_cons in Hall as [Hfee Hrest].
  split; [done|]. by apply map_Forall_insert_2.
Qed.

(** What a property of statements needs to hold of all statements of block
    [n], the operators and the share prices apart. *)
Record nominator_statements (P : Action -> Prop) (n : Z) : Prop := {
  ns_nominator : forall id addr status, P (AInsertNominator id addr status n);
  ns_count : forall id, P (ARefreshCount id);
  ns_status : forall id status, P (AUpdateStatus id status);
  ns_deposit : forall id addr amount fee time, in_u 128 amount -> in_u 128 fee ->
    P (AInsertDeposit id addr amount fee n time);
  ns_withdrawal : forall w, iw_block_height w = n -> in_u 128 (iw_shares w) ->
    in_u 128 (iw_amount w) -> in_u 128 (iw_storage_fee_refund w) -> P (AInsertWithdrawal w);
  ns_deposits : P (ADeleteDeposits n);
  ns_withdrawals : P (ADeleteWithdrawals n);
}.

Lemma on_nominated_does P evs fees n time :
  nominator_statements P n ->
  Forall (fun d => forall e, d = Ok e -> in_u 128 (on_amount e)) evs ->
  fees_typed fees -> does P (on_nominated evs fees n time).
Proof.
  intros HP Hevs. revert fees. induction Hevs as [|ev evs Hev _ IH]; intros fees Hfees; cbn.
  - apply does_ret.
  - lifted. intros e He.
    assert (Hok : ev = Ok e) by (destruct ev; cbn in He; congruence).
    apply does_bind; [by apply does_upsert_nominator; apply HP|].
    destruct (take_fee_typed (on_operator_id e, ss58 (on_nominator_id e)) fees Hfees) as [Hfee Hleft].
    destruct (take_fee _ fees) as [fee fees']. cbn in *. apply does_bind; [|by apply IH].
    eapply (does_exec _ (AInsertDeposit _ _ _ _ _ _)); [done|].
    apply HP; [by apply (Hev e Hok) | done].
Qed.

Lemma on_withdrew_does P hash n time e :
  nominator_statements P n -> does P (on_withdrew client hash n time e).
Proof.
  intros HP. lifted. intros w Hw.
  assert (Hr : read_withdrawal client hash e = Ok w).
  { destruct (read_withdrawal client hash e); cbn in Hw; congruence. }
  destruct (read_withdrawal_range _ _ _ Hr) as (? & ? & ?).
  eapply (does_exec _ (AInsertWithdrawal _)); [done|]. by apply HP.
Qed.

Lemma index_staking_does P n :
  nominator_statements P n ->
  (forall hash time e, does P (on_registered client hash n time e)) ->
  (forall hash time e, does P (index_epoch_share_prices client hash n time e)) ->
  (forall hash evs, events client hash = Ok evs -> events_typed evs) ->
  does P (index_staking_for_block node client n).
Proof.
  intros HP Hreg Hprice Htyped. unfold index_staking_for_block.
  lifted. intros blk _. lifted. intros millis _. lifted. intros time _.
  lifted. intros evs Hevs.
  assert (Hev : events client (be_hash blk) = Ok evs).
  { destruct (events client (be_hash blk)); cbn in Hevs; congruence. }
  destruct (Htyped _ _ Hev) as [Htd Htn].
  apply does_bind; [apply (does_exec _ (ADeleteDeposits n)); [done | apply HP]|].
  apply does_bind; [apply (does_exec _ (ADeleteWithdrawals n)); [done | apply HP]|].
  unfold index_staking_events.
  apply does_bind; [by apply does_for_events|].
  do 4 (apply does_bind; [apply does_for_events; intros e;
    eapply (does_exec _ (AUpdateStatus (oe_operator_id e) _)); [done | apply HP]|]).
  lifted. intros fees Hfees. apply does_bind.
  { apply on_nominated_does; [done..|]. apply (collect_fees_typed _ ∅ _ Htd).
    - apply map_Forall_empty.
    - destruct (collect_fees _ _); cbn in Hfees; congruence. }
  apply does_bind; [by apply does_for_events; intros; apply on_withdrew_does|].
  apply does_bind; [apply does_for_events; intros; apply does_upsert_nominator; apply HP|].
  apply does_bind.
  { apply does_for_events. intros e. lifted. intros found _.
    apply does_upsert_nominator; apply HP. }
  by apply does_for_events.
Qed.

Lemma index_staking_own n :
  (forall hash evs, events client hash = Ok evs -> events_typed evs) ->
  does (own n) (index_staking_for_block node client n).
Proof.
  apply index_staking_does; [by split|..]; intros; eapply does_weaken; try apply other_own.
  - apply on_registered_other.
  - apply index_prices_other.
Qed.
End Handler.

(** ** Properties *)

Section Properties.
Context `{ChainTypes, ScaleCodec, !ScaleLaws, EventCodec, Twox, TextCodecs, DecimalLib, Chrono}.

(** The amounts of the events a client gives are [u128]. *)
Definition client_typed (client : Client) : Prop :=
  forall hash evs, events client hash = Ok evs -> events_typed evs.

(** C9: when the handler of block [n] ends well, the deposits and withdrawals
    recorded for [n] are exactly those of the block, in order, and the rows of all other
    blocks are untouched: a deposit per nomination, with the storage fees the
    same nominator paid for the same operator matched first in, first
    out, and zero when they run out; a withdrawal per withdrawal event, with
    what the storage holds of it. *)
Theorem staking_rows_exact node client n db db' :
  client_typed client -> faults db = [] ->
  index_staking_for_block node client n db = (db', Ok tt) ->
  exists blk millis time evs deps noms wds,
    block_ext_at_number node n = Ok blk /\
    timestamp client (be_hash blk) = Ok millis /\
    from_timestamp_millis (as_i 64 millis) = Some time /\
    events client (be_hash blk) = Ok evs /\
    find KStorageFeeDeposited evs = Ok <$> deps /\
    find KOperatorNominated evs = Ok <$> noms /\
    find KWithdrewStake evs = Ok <$> wds /\
    nominator_deposits (tables db') =
      filter (keeps_height n) (nominator_deposits (tables db)) ++
      expected_deposits n time deps [] noms /\
    nominator_withdrawals (tables db') =
      filter (keeps_height_w n) (nominator_withdrawals (tables db)) ++
      expected_withdrawals client (be_hash blk) n time wds.
Proof. intros Hc Hf Hdb. exact (index_staking_ok node client n db db' Hc Hf Hdb). Qed.

(** Runs of the handler of block [n], each against a chain and a connection of
    its own, cut short by whatever fails in them. *)
Definition interrupted_runs (n : Z) (envs : list (RpcNode * Client * list Fault)) (db : Db) : Db :=
  foldl (fun db env =>
    (index_staking_for_block env.1.1 env.1.2 n
       {| tables := tables db; faults := env.2; now := now db |}).1) db envs.

Lemma interrupted_keeps n envs db :
  Forall (fun env => client_typed env.1.2) envs ->
  filter (keeps_height n) (nominator_deposits (tables (interrupted_runs n envs db))) =
    filter (keeps_height n) (nominator_deposits (tables db)) /\
  filter (keeps_height_w n) (nominator_withdrawals (tables (interrupted_runs n envs db))) =
    filter (keeps_height_w n) (nominator_withdrawals (tables db)).
Proof.
  intros Henvs. revert db. induction Henvs as [|env envs Henv _ IH]; intros db; [done|].
  unfold interrupted_runs in *. cbn [foldl].
  match goal with |- context [foldl ?f (?g ?x).1 envs] => destruct (IH (g x).1) as [-> ->] end.
  destruct (index_staking_own env.1.1 env.1.2 n Henv) as (l & r & Hl & Hown & _).
  rewrite (traced_state _ _ _ _ Hl).
  apply (exec_all_keeps n l {| tables := tables db; faults := env.2; now := now db |}).
  - eapply Forall_impl; [exact Hown|]. by intros a [].
  - eapply Forall_impl; [exact Hown|]. by intros a [].
Qed.

(** C8: reprocessing a block is idempotent: after any number of interrupted runs of
    its handler, on this chain or on a branch that was given up, with the
    connection lost at any statement, one run that ends well leaves the same
    deposits and withdrawals as if it had been the only one. *)
Theorem staking_reprocess node client n envs db dbA dbB :
  client_typed client -> Forall (fun env => client_typed env.1.2) envs ->
  faults db = [] -> index_staking_for_block node client n db = (dbA, Ok tt) ->
  index_staking_for_block node client n
    {| tables := tables (interrupted_runs n envs db); faults := []; now := now db |} =
    (dbB, Ok tt) ->
  nominator_deposits (tables dbA) = nominator_deposits (tables dbB) /\
  nominator_withdrawals (tables dbA) = nominator_withdrawals (tables dbB).
Proof.
  intros Hc Henvs Hf HA HB.
  destruct (index_staking_ok node client n _ _ Hc Hf HA)
    as (blk & ms & time & evs & deps & noms & wds & Hb & Hm & Ht & He & H1' & H2' & H3' & -> & ->).
  match type of HB with _ ?clean = _ =>
    destruct (index_staking_ok node client n clean dbB Hc eq_refl HB)
      as (blk' & ms' & time' & evs' & deps' & noms' & wds' & Hb' & Hm' & Ht' & He' & H1'' & H2'' &
          H3'' & -> & ->)
  end.
  destruct (interrupted_keeps n envs db Henvs) as [Hd Hw]. cbn [tables]. rewrite Hd, Hw.
  rewrite Hb in Hb'. injection Hb' as <-. rewrite Hm in Hm'. injection Hm' as <-.
  rewrite Ht in Ht'. injection Ht' as <-. rewrite He in He'. injection He' as <-.
  rewrite H1' in H1''. rewrite H2' in H2''. rewrite H3' in H3''.
  apply fmap_Ok_inj in H1'', H2'', H3''. by subst.
Qed.
End Properties.

(** ** Witnesses *)

Definition alice : list byte := repeat x0a 32.

Definition q (pallet storage : string) (args : list StorageArg) : StorageQuery :=
  {| q_pallet := pallet; q_storage := storage; q_args := args |}.

Definition nomination (op amount : Z) : outcome string EventDetails :=
  Ok (event KOperatorNominated
    {| on_operator_id := op; on_nominator_id := alice; on_amount := amount |}).
Definition fee_deposit (op amount : Z) : outcome string EventDetails :=
  Ok (event KStorageFeeDeposited
    {| sfd_operator_id := op; sfd_nominator_id := alice; sfd_amount := amount |}).
Definition alice_event (k : EventKind) (e : event_of k) : outcome string EventDetails :=
  Ok (event k e).

(** A block in which operator 3 is registered by alice, who nominates it twice
    with one storage fee, and withdraws from it; operator 4 is deregistered. *)
Definition staking_client : Client :=
  toy_client
    [ (q "Timestamp" "Now" [], encode_u64 1700000000000);
      (q "Domains" "Operators" [ArgU64 3], encode_operator RpcTypesProps.sample_operator);
      (q "Domains" "OperatorIdOwner" [ArgU64 3], alice);
      (q "Domains" "Withdrawals" [ArgU64 3; ArgAccount alice],
         encode_withdrawals sample_withdrawals) ]
    [ Ok (event KOperatorRegistered {| oe_operator_id := 3 |});
      fee_deposit 3 11; nomination 3 100; nomination 3 200;
      Ok (event KWithdrewStake {| ne_operator_id := 3; ne_nominator_id := alice |});
      Ok (event KOperatorDeregistered {| oe_operator_id := 4 |}) ] 100 [].

Definition staking_run (fs : list Fault) (t : Tables) : Db * outcome Ix.Error unit :=
  index_staking_for_block on_a staking_client 2 {| tables := t; faults := fs; now := 0 |}.

Example staking_run_ok :
  (staking_run [] no_tables).2 = Ok tt /\
  d_storage_fee <$> nominator_deposits (tables (staking_run [] no_tables).1) = [11; 0] /\
  w_amount <$> nominator_withdrawals (tables (staking_run [] no_tables).1) = [20].
Proof. vm_compute. done. Qed.

Lemma staking_client_typed : client_typed staking_client.
Proof.
  intros hash evs Hevs. injection Hevs as <-. split.
  - match goal with |- Forall _ ?l =>
      assert (Hl : l = [Ok {| sfd_operator_id := 3; sfd_nominator_id := alice; sfd_amount := 11 |}])
        by reflexivity; rewrite Hl end.
    repeat constructor; injection H as <-; cbn; lia.
  - match goal with |- Forall _ ?l =>
      assert (Hl : l = [
        Ok {| on_operator_id := 3; on_nominator_id := alice; on_amount := 100 |};
        Ok {| on_operator_id := 3; on_nominator_id := alice; on_amount := 200 |}])
        by reflexivity; rewrite Hl end.
    repeat constructor; injection H as <-; cbn; lia.
Qed.

Definition rerun_db : Db := {|
  tables := tables (interrupted_runs 2
    [(on_a, staking_client, repeat Runs 8 ++ [FailsAfter]);
     (on_b, staking_client, [Runs; FailsBefore])]
    {| tables := no_tables; faults := []; now := 0 |});
  faults := []; now := 0 |}.

Lemma run_eq {A B} (m : A * B) b : m.2 = b -> m = (m.1, b).
Proof. destruct m. cbn. by intros ->. Qed.

Lemma staking_rows_exact_witness :
  exists noms, length noms = 2%nat /\
    nominator_deposits (tables (staking_run [] no_tables).1) =
      expected_deposits 2 1700000000000
        [{| sfd_operator_id := 3; sfd_nominator_id := alice; sfd_amount := 11 |}] [] noms.
Proof.
  destruct (staking_rows_exact on_a staking_client 2
    {| tables := no_tables; faults := []; now := 0 |} _ staking_client_typed eq_refl
    (run_eq _ _ (proj1 staking_run_ok)))
    as (blk & ms & time & evs & deps & noms & wds & Hb & Hm & Ht & He & Hd & Hn & _ & Hrows & _).
  injection Hb as <-. vm_compute in Hm. injection Hm as <-. vm_compute in Ht. injection Ht as <-.
  injection He as <-.
  exists noms. split.
  - apply (f_equal length) in Hn. rewrite length_fmap in Hn. rewrite <- Hn. reflexivity.
  - destruct deps as [|d [|d' deps]]; vm_compute in Hd; try discriminate Hd.
    injection Hd as <-. exact Hrows.
Defined.

Lemma staking_reprocess_witness :
  exists dbB, index_staking_for_block on_a staking_client 2 rerun_db = (dbB, Ok tt) /\
    nominator_deposits (tables (staking_run [] no_tables).1) = nominator_deposits (tables dbB).
Proof.
  eexists. split.
  - apply (run_eq _ (Ok tt)). vm_compute. reflexivity.
  - refine (proj1 (staking_reprocess on_a staking_client 2
      [(on_a, staking_client, repeat Runs 8 ++ [FailsAfter]);
       (on_b, staking_client, [Runs; FailsBefore])]
      {| tables := no_tables; faults := []; now := 0 |} _ _ staking_client_typed _ eq_refl
      (run_eq _ _ (proj1 staking_run_ok)) (run_eq _ (Ok tt) _))).
    + constructor; [exact staking_client_typed|].
      constructor; [exact staking_client_typed | constructor].
    + vm_compute. reflexivity.
Defined.
