(* ===== verification/DbTypes.v ===== *)
(** * The column types of the database

    [typed]: every number in the tables fits the type of its column in
    [indexer/migrations]. A statement of the indexer keeps the tables typed whatever
    the connection does, and on a running connection the database accepts every number
    the chain can deliver: [u128] balances in [NUMERIC(39,0)], 256-bit message
    numbers in [NUMERIC(78,0)], share prices in [NUMERIC(28,18)]. *)

From Stdlib Require Import Strings.Byte Strings.Ascii.
From S2P Require Import Prelude HeadersCache TreeRoute BlockListener Scale RpcTypes RpcTypesProps.
From S2P Require Import Types Events Chain Db SharePrice IndexerError DbXdm Staking StakingFacts.
From S2P Require Import StakingProps ToyChain ScaleLE ToyIndexer.

(** [SMALLINT], [INTEGER], [BIGINT], and [NUMERIC(p,0)] of a value that is never
    negative. *)
Definition in_i (w z : Z) : Prop := - 2 ^ (w - 1) <= z < 2 ^ (w - 1).
Definition numeric (p z : Z) : Prop := 0 <= z < 10 ^ p.

Definition opt {A} (P : A -> Prop) (o : option A) : Prop :=
  match o with Some a => P a | None => True end.

Definition transfer_typed (k : XdmKey) (r : XdmRow) : Prop :=
  numeric 78 k.1.2 /\ numeric 78 k.2 /\ opt (numeric 39) (x_amount r) /\
  opt (in_i 64) (bc_number (x_initiated r)) /\ opt (in_i 64) (bc_number (x_executed r)) /\
  opt (in_i 64) (bc_number (x_acknowledged r)).

Definition price_typed (k : Z * Z * Z) (p : SharePrice) : Prop :=
  in_i 64 k.1.1 /\ in_i 32 k.1.2 /\ in_i 64 k.2 /\ numeric 28 (sp_share_price p) /\
  numeric 39 (sp_total_stake p) /\ numeric 39 (sp_total_shares p) /\
  in_i 64 (sp_block_height p).

Definition nominator_typed (k : Z * string) (n : Nominator) : Prop :=
  in_i 64 k.1 /\ in_i 64 (nom_block_height n).

(** The count is a [BIGINT] as long as the table has fewer than 2^63 rows: it is not
    listed. *)
Definition operator_typed (id : Z) (o : Operator) : Prop :=
  in_i 64 id /\ in_i 32 (op_domain_id o) /\ numeric 39 (op_minimum_nominator_stake o) /\
  in_i 16 (op_nomination_tax o) /\ numeric 39 (op_total_stake o) /\
  numeric 39 (op_total_shares o) /\ numeric 39 (op_total_storage_fee_deposit o).

Definition deposit_typed (d : Deposit) : Prop :=
  in_i 64 (d_operator_id d) /\ numeric 39 (d_amount d) /\ numeric 39 (d_storage_fee d) /\
  in_i 64 (d_block_height d).

Definition withdrawal_typed (w : Withdrawal) : Prop :=
  in_i 64 (w_operator_id w) /\ numeric 39 (w_shares w) /\ numeric 39 (w_amount w) /\
  numeric 39 (w_storage_fee_refund w) /\ in_i 64 (w_block_height w).

Record typed (t : Tables) : Prop := {
  ty_metadata : map_Forall (fun _ n => in_i 64 n) (metadata t);
  ty_transfers : map_Forall transfer_typed (xdm_transfers t);
  ty_prices : map_Forall price_typed (operator_epoch_share_prices t);
  ty_nominators : map_Forall nominator_typed (nominators t);
  ty_operators : map_Forall operator_typed (operators t);
  ty_deposits : Forall deposit_typed (nominator_deposits t);
  ty_withdrawals : Forall withdrawal_typed (nominator_withdrawals t);
}.

Lemma no_tables_typed : typed no_tables.
Proof. split; try apply map_Forall_empty; constructor. Qed.

Lemma as_i_range w z : 0 < w -> in_i w (as_i w z).
Proof.
  intros Hw. unfold in_i, as_i.
  assert (2 ^ w = 2 * 2 ^ (w - 1)) by (rewrite <- Z.pow_succ_r by lia; f_equal; lia).
  pose proof (Z.mod_pos_bound z (2 ^ w) ltac:(lia)).
  destruct (Z.ltb_spec (z mod 2 ^ w) (2 ^ (w - 1))); lia.
Qed.

Lemma digit_range c x : digit c = Some x -> 0 <= x < 10.
Proof.
  unfold digit. set (n := Z.of_nat (nat_of_ascii c) - 48).
  destruct (Z.leb_spec 0 n), (Z.ltb_spec n 10); cbn; try done. intros [= <-]. lia.
Qed.

Lemma parse_digits_nonneg w acc s n : 0 <= acc -> parse_digits w acc s = Ok n -> 0 <= n.
Proof.
  revert acc. induction s as [|c s IH]; intros acc Hacc; cbn [parse_digits]; [by intros [= <-]|].
  destruct (digit c) as [x|] eqn:Hc; [|done]. apply digit_range in Hc. cbn [ok_or mbind outcome_bind].
  destruct (2 ^ w <=? acc * 10); [done|]. destruct (2 ^ w <=? acc * 10 + x); [done|].
  apply IH. lia.
Qed.

(** Whatever the text, a value the cast gives fits the column. *)
Lemma cast_numeric_range p s n : cast_numeric p s = Ok n -> numeric p n.
Proof.
  unfold cast_numeric. intros Hc. apply bind_Ok in Hc as (m & Hm & Hc).
  destruct (Z.ltb_spec m (10 ^ p)) as [Hlt|]; [|done]. injection Hc as <-. split; [|done].
  assert (Hp : parse_u 512 s = Ok m) by (destruct (parse_u 512 s); cbn in Hm; congruence).
  unfold parse_u in Hp. destruct s as [|c s]; [done|].
  case_bool_decide; [destruct s as [|c' s]; [done|]|];
    by eapply parse_digits_nonneg; [|exact Hp].
Qed.

Lemma digits_nonneg acc s n : 0 <= acc -> digits acc s = Some n -> 0 <= n.
Proof.
  revert acc. induction s as [|c s IH]; intros acc Hacc; cbn [digits]; [by intros [= <-]|].
  destruct (digit c) as [x|] eqn:Hc; [|done]. apply digit_range in Hc. apply IH. lia.
Qed.

Lemma cast_price_range s v : cast_numeric_28_18 s = Ok v -> numeric 28 v.
Proof.
  unfold cast_numeric_28_18. destruct (split_point s) as [i f]. cbv zeta.
  destruct (digits 0 i) as [int|] eqn:Hi; [|done].
  destruct (digits 0 f) as [frac|] eqn:Hf; [|done].
  apply digits_nonneg in Hi; [|lia]. apply digits_nonneg in Hf; [|lia].
  set (unit := 10 ^ Z.of_nat _). assert (0 < unit) by (apply Z.pow_pos_nonneg; lia).
  set (q := (2 * frac * 10 ^ 18 + unit) / (2 * unit)).
  assert (0 <= q) by (apply Z.div_pos; lia).
  destruct (int * 10 ^ 18 + q <? 10 ^ 28) eqn:Hlt; [|done]. apply Z.ltb_lt in Hlt.
  intros [= <-]. unfold numeric. lia.
Qed.

Lemma typed_run {A} (stmt : Stmt A) db :
  (forall t t' a, typed t -> stmt t = Ok (t', a) -> typed t') ->
  typed (tables db) -> typed (tables (run stmt db).1).
Proof.
  intros Hs Ht. destruct (run_tables stmt db) as [-> | (t & a & Hstmt & ->)]; [done|]. by eapply Hs.
Qed.

Lemma Forall_kept {A} (P Q : A -> Prop) `{!forall x, Decision (Q x)} l :
  Forall P l -> Forall P (filter Q l).
Proof.
  rewrite !Forall_forall. intros Hl x Hx. apply list_elem_of_filter in Hx as [_ Hx]. by apply Hl.
Qed.

Create HintDb typed.
#[export] Hint Resolve cast_numeric_range cast_price_range : typed.
#[export] Hint Extern 1 (in_i _ (as_i _ _)) => apply as_i_range; lia : typed.

Ltac solve_typed := split_and!; cbn; eauto with typed.

(** A statement that succeeded, taken apart into its casts. *)
Ltac casts H :=
  repeat (apply bind_Ok in H as (? & ? & H)); injection H as <-.

(** ** The statements *)

Section Statements.
Context `{ChainTypes, ScaleCodec, EventCodec, Twox, TextCodecs, !HashBytes, DecimalLib, Chrono}.

Lemma insert_transfer_typed src dst m row :
  (forall old r, row old = Ok r ->
     opt (numeric 39) (x_amount old) -> opt (in_i 64) (bc_number (x_initiated old)) ->
     opt (in_i 64) (bc_number (x_executed old)) -> opt (in_i 64) (bc_number (x_acknowledged old)) ->
     opt (numeric 39) (x_amount r) /\ opt (in_i 64) (bc_number (x_initiated r)) /\
     opt (in_i 64) (bc_number (x_executed r)) /\ opt (in_i 64) (bc_number (x_acknowledged r))) ->
  forall t t' a, typed t -> insert_transfer src dst m row t = Ok (t', a) -> typed t'.
Proof.
  intros Hrow t t' a Ht Hi. unfold insert_transfer in Hi.
  apply bind_Ok in Hi as (channel & Hc & Hi). apply bind_Ok in Hi as (nonce & Hn & Hi).
  apply bind_Ok in Hi as (new & Hnew & Hi). injection Hi as <- _.
  destruct Ht as [? Hx ? ? ? ? ?]. split; try done. cbn.
  apply map_Forall_insert_2; [|done]. cbn in Hnew.
  set (k := (chain_to_string src, chain_to_string dst, channel, nonce)) in *.
  assert (Hold : forall old, old = default empty_row (xdm_transfers t !! k) ->
    opt (numeric 39) (x_amount old) /\ opt (in_i 64) (bc_number (x_initiated old)) /\
    opt (in_i 64) (bc_number (x_executed old)) /\ opt (in_i 64) (bc_number (x_acknowledged old))).
  { intros old ->. destruct (xdm_transfers t !! k) as [r|] eqn:Hr; [|done].
    destruct (Hx _ _ Hr) as (_ & _ & ?). done. }
  destruct (Hold _ eq_refl) as (Ha & Hb & Hd & He).
  split; [by apply cast_numeric_range in Hc|]. split; [by apply cast_numeric_range in Hn|].
  exact (Hrow _ _ Hnew Ha Hb Hd He).
Qed.

Lemma store_event_typed chain block time ev db :
  typed (tables db) -> typed (tables (store_event chain block time ev db).1).
Proof.
  assert (Hcols : opt (in_i 64) (bc_number (block_cols block time))) by (apply as_i_range; lia).
  destruct ev as [[m [a [s sa] [r ra]]] | e | e | e]; cbn [store_event];
    unfold store_outgoing_transfer_initiated, store_outgoing_transfer_acknowledgement,
      store_incoming_transfer_execution; apply typed_run; apply insert_transfer_typed;
    intros old new Hnew Ha Hi Hx Hk; cbn in Hnew; casts Hnew; cbn; eauto with typed.
Qed.

Lemma set_checkpoint_typed key n db :
  typed (tables db) -> typed (tables (set_last_processed_block key n db).1).
Proof.
  apply typed_run. intros t t' u [] Hs. injection Hs as <- _. split; try done. cbn.
  apply map_Forall_insert_2; [|done]. destruct (metadata t !! key); apply as_i_range; lia.
Qed.

(** What the statements of the staking indexer are given. *)
Definition fits (a : Action) : Prop :=
  match a with
  | AUpsertOperator op =>
      in_u 128 (uo_minimum_nominator_stake op) /\ in_u 128 (uo_total_stake op) /\
      in_u 128 (uo_total_shares op) /\ in_u 128 (uo_total_storage_fee_deposit op)
  | AUpdateStats _ _ stake shares fee _ => in_u 128 stake /\ in_u 128 shares /\ in_u 128 fee
  | AInsertDeposit _ _ amount fee _ _ => in_u 128 amount /\ in_u 128 fee
  | AInsertWithdrawal w =>
      in_u 128 (iw_shares w) /\ in_u 128 (iw_amount w) /\ in_u 128 (iw_storage_fee_refund w)
  | AUpsertPrice p =>
      in_i 64 (usp_operator_id p) /\ in_i 32 (usp_domain_id p) /\ in_i 64 (usp_epoch_index p) /\
      in_i 64 (usp_block_height p) /\ in_u 128 (usp_total_stake p) /\
      in_u 128 (usp_total_shares p) /\
      exists v, in_u 64 v /\ denotes (decimal_to_string (usp_share_price p)) v
  | _ => True
  end.

Lemma alter_typed (f : Operator -> Operator) id t :
  (forall o, operator_typed id o -> operator_typed id (f o)) -> typed t ->
  typed (with_operators (alter f id) t).
Proof.
  intros Hf [? ? ? ? Ho ? ?]. split; try done. cbn. intros k o Hk.
  destruct (decide (id = k)) as [->|Hne].
  - rewrite lookup_alter_eq in Hk. destruct (operators t !! k) as [o'|] eqn:Ho'; [|done].
    injection Hk as <-. by apply Hf, Ho.
  - rewrite lookup_alter_ne in Hk by done. by apply Ho.
Qed.

Lemma exec_typed a db : fits a -> typed (tables db) -> typed (tables (exec a db).1).
Proof.
  intros Ha. destruct a; cbn [exec fits] in *;
    unfold update_operator_status, upsert_operator, update_operator_stats, insert_deposit,
      insert_withdrawal, delete_deposits_for_block, delete_withdrawals_for_block,
      upsert_epoch_share_price, insert_nominator, refresh_nominator_count; apply typed_run;
    intros t t' u Ht Hs; pose proof Ht as [Hm Hx Hp Hn Ho Hd Hw]; cbn -[cast_numeric] in Hs.
  - casts Hs. split; try done. cbn. apply map_Forall_insert_2; [|done].
    destruct (operators t !! _) as [o|] eqn:Hold; cbn.
    + destruct (Ho _ _ Hold) as (? & ? & ? & ? & ? & ? & ?). by solve_typed.
    + by solve_typed.
  - casts Hs. apply alter_typed; [|done]. intros o (? & ? & ? & ? & ? & ? & ?). by solve_typed.
  - casts Hs. apply alter_typed; [|done]. intros o (? & ? & ? & ? & ? & ? & ?). by solve_typed.
  - casts Hs. split; try done. cbn. apply map_Forall_insert_2; [|done].
    destruct (nominators t !! _) as [n|] eqn:Hold; [|by solve_typed].
    destruct (_ <=? _); [by solve_typed|]. by apply Hn.
  - casts Hs. apply alter_typed; [|done]. intros o (? & ? & ? & ? & ? & ? & ?). by solve_typed.
  - casts Hs. split; try done. cbn. apply Forall_app. split; [done|].
    apply Forall_singleton. by solve_typed.
  - casts Hs. split; try done. cbn. apply Forall_app. split; [done|].
    apply Forall_singleton. by solve_typed.
  - casts Hs. split; try done. cbn. by apply Forall_kept.
  - casts Hs. split; try done. cbn. by apply Forall_kept.
  - casts Hs. split; try done. cbn. destruct Ha as (? & ? & ? & ? & _).
    apply map_Forall_insert_2; [|done].
    destruct (operator_epoch_share_prices t !! _); by solve_typed.
Qed.

(** On a running connection no such statement is rejected. *)
Lemma exec_accepted a db :
  fits a -> faults db = [] -> exists t, exec a db = (with_tables t db, Ok tt).
Proof.
  intros Ha Hf. destruct a; cbn [exec fits] in *;
    unfold update_operator_status, upsert_operator, update_operator_stats, insert_deposit,
      insert_withdrawal, delete_deposits_for_block, delete_withdrawals_for_block,
      upsert_epoch_share_price, insert_nominator, refresh_nominator_count;
    rewrite run_clean by done;
    try match type of Ha with _ /\ _ => destruct_and? Ha end;
    try match goal with Hp : exists v, _ |- _ => destruct Hp as (v & [Hv0 Hv] & Hd);
      rewrite (denotes_cast _ v Hd) by lia end;
    cbn -[cast_numeric]; rewrite ?cast_u128 by done; cbn; eauto.
Qed.

Lemma exec_all_typed l db :
  Forall fits l -> typed (tables db) ->
  typed (tables (exec_all l db).1) /\ (faults db = [] -> (exec_all l db).2 = Ok tt).
Proof.
  intros Hl. revert db. induction Hl as [|a l Ha _ IH]; intros db Ht; [done|].
  unfold exec_all. cbn [for_each]. rewrite SE_bind_unfold.
  pose proof (exec_typed a db Ha Ht) as Ht'. destruct (exec a db) as [db' r] eqn:He. cbn in Ht'.
  destruct r as [[]|e| |]; try (split; [exact Ht'|]); [|intros Hf..].
  - destruct (IH db' Ht') as [IH1 IH2]. split; [exact IH1|]. intros Hf. apply IH2.
    destruct (exec_accepted a db Ha Hf) as [t Ht2]. rewrite Ht2 in He. by injection He as <-.
  - destruct (exec_accepted a db Ha Hf) as [t Ht2]. by rewrite Ht2 in He.
  - destruct (exec_accepted a db Ha Hf) as [t Ht2]. by rewrite Ht2 in He.
  - destruct (exec_accepted a db Ha Hf) as [t Ht2]. by rewrite Ht2 in He.
Qed.
End Statements.

(** ** The handlers *)

Section Handlers.
Context `{ChainTypes, ScaleCodec, !ScaleLaws, EventCodec, Twox, TextCodecs, !HashBytes,
  DecimalLib, !DecimalLaws, Chrono}.
Context (node : RpcNode) (client : Client).

(** What a read gives is in the range of its decoder. *)
Lemma try_read_range {T} (d : Decoder T) P hash pallet storage args a :
  safe d P -> try_read_storage d client hash pallet storage args = Ok (Some a) -> P a.
Proof.
  intros Hd Hr. unfold try_read_storage in Hr. apply bind_Ok in Hr as ([bytes|] & _ & Hr); [|done].
  destruct (Hd bytes) as [(a' & Ha & HP) | [e He]].
  - rewrite Ha in Hr. by injection Hr as <-.
  - by rewrite He in Hr.
Qed.

Lemma read_range {T} (d : Decoder T) P hash pallet storage args a :
  safe d P -> read_storage d client hash pallet storage args = Ok a -> P a.
Proof.
  intros Hd Hr. unfold read_storage in Hr. apply bind_Ok in Hr as ([a'|] & Ha & Hr); [|done].
  injection Hr as <-. by eapply try_read_range.
Qed.

Lemma attempt_Ok {E E' A} (m : outcome E A) (a : A) :
  (attempt m : outcome E' (option A)) = Ok (Some a) -> m = Ok a.
Proof. by destruct m; cbn; intros [= ->]. Qed.

Lemma fits_nominators n : nominator_statements fits n.
Proof. by split. Qed.

Lemma on_registered_fits hash n time e : does fits (on_registered client hash n time e).
Proof.
  lifted. intros [op|] Hop; [|apply does_ret].
  apply attempt_Ok in Hop. apply (read_range _ _ _ _ _ _ _ safe_operator) in Hop.
  destruct Hop as (_ & _ & ? & _ & ? & ? & ?).
  lifted. intros [owner|] _; [|apply does_ret].
  apply does_bind; [by eapply (does_exec _ (AUpsertOperator _)) | by apply does_upsert_nominator].
Qed.

Lemma index_prices_fits hash n time e : does fits (index_epoch_share_prices client hash n time e).
Proof.
  lifted. intros summary _. apply does_for_each. intros id _.
  lifted. intros price Hprice. destruct (mjoin price) as [raw|] eqn:Hraw; [|apply does_ret].
  destruct price as [[v|]|]; try done. cbn in Hraw. injection Hraw as ->.
  apply attempt_Ok in Hprice. apply (try_read_range _ _ _ _ _ _ _ safe_u64) in Hprice.
  lifted. intros [op|] Hop; [|apply does_ret].
  apply attempt_Ok in Hop. apply (read_range _ _ _ _ _ _ _ safe_operator) in Hop.
  destruct Hop as (_ & _ & _ & _ & ? & ? & ?).
  lifted. intros share_price Hdiv.
  destruct (share_price_exact raw Hprice) as (d & Hd & Hden).
  change (10 ^ 18) with PERQUINTILL in Hd. rewrite Hd in Hdiv. injection Hdiv as <-.
  apply does_bind.
  - eapply (does_exec _ (AUpsertPrice _)); [done|]. cbn.
    split_and!; try (apply as_i_range; lia); try done. by exists raw.
  - by eapply (does_exec _ (AUpdateStats _ _ _ _ _ _)).
Qed.

Lemma index_staking_fits n : client_typed client -> does fits (index_staking_for_block node client n).
Proof.
  intros Htyped. apply index_staking_does; [apply fits_nominators|..]; intros.
  - apply on_registered_fits.
  - apply index_prices_fits.
  - by eapply Htyped.
Qed.

(** C34: every number in the database fits its column, and the database accepts
    every number of the chain. Whatever fails while a block's staking is indexed, while transfer
    events are stored or a checkpoint is written, the tables stay typed: [u128] balances
    in 39 digits, 256-bit message numbers in 78, share prices in 28 with 18 places,
    heights and identifiers in the integers of their columns. And while the
    connection runs, the staking handler never ends with an error of the
    database, whatever events and storage the chain has. *)
Theorem tables_stay_typed n db :
  client_typed client -> typed (tables db) ->
  typed (tables (index_staking_for_block node client n db).1) /\
  (forall chain block time evs, typed (tables (store_events chain block time evs db).1)) /\
  (forall key number, typed (tables (set_last_processed_block key number db).1)) /\
  (faults db = [] -> forall e, (index_staking_for_block node client n db).2 <> Err (Ix.DB e)).
Proof.
  intros Hc Ht. destruct (index_staking_fits n Hc) as (l & r & Htr & Hl & Hr).
  destruct (exec_all_typed l db Hl Ht) as [Ht' Hok]. split_and!.
  - by rewrite (traced_state _ _ _ _ Htr).
  - intros chain block time evs. unfold store_events.
    apply (for_each_inv (fun d => typed (tables d))); [|done].
    intros ev d _. apply store_event_typed.
  - intros key number. by apply set_checkpoint_typed.
  - intros Hf e. specialize (Hok Hf). rewrite Htr.
    destruct (exec_all l db) as [db' r'] eqn:Hx. cbn in Hok. subst r'. exact (Hr e).
Qed.

(** C35: a share price survives the way from the chain to the API. When the storage
    has the price [v] of an operator's epoch (an integer number of 10^-18), the
    handler stores exactly [v] in the 28-digit column, and the text that the query
    of the API gives for the row denotes [v] and no other price: neither the
    decimal division, nor the bound text, nor the cast, nor the printing rounds. *)
Theorem share_price_roundtrip hash e n time id v op db :
  faults db = [] ->
  try_read_storage decode_u64 client hash "Domains" "OperatorEpochSharePrice"
    [ArgU64 id; ArgDomainEpoch {| de_domain := dec_domain_id e;
                                  de_epoch := dec_completed_epoch_index e |}] = Ok (Some v) ->
  read_storage decode_operator client hash "Domains" "Operators" [ArgU64 id] = Ok op ->
  exists db' row,
    index_operator_price client hash e n time id db = (db', Ok tt) /\
    let key := (as_i 64 id, as_i 32 (domain_id (dec_domain_id e)),
                as_i 64 (dec_completed_epoch_index e)) in
    operator_epoch_share_prices (tables db') !! key = Some row /\ sp_share_price row = v /\
    forall v', denotes (spr_share_price (share_price_row (key, row))) v' <-> v' = v.
Proof.
  intros Hf Hprice Hop.
  pose proof (try_read_range _ _ _ _ _ _ _ safe_u64 Hprice) as Hv.
  pose proof (read_range _ _ _ _ _ _ _ safe_operator Hop) as (_ & _ & _ & _ & Hst & Hsh & Hfee).
  destruct (share_price_exact v Hv) as (d & Hd & Hden). change (10 ^ 18) with PERQUINTILL in Hd.
  eexists _, _. split.
  - unfold index_operator_price. rewrite Hprice, Hop. cbn [attempt mjoin option_join].
    rewrite lift_Ok. cbn [mjoin option_join]. rewrite lift_Ok, Hd. cbn [expect].
    rewrite lift_Ok, SE_bind_unfold. erewrite db_clean.
    2:{ unfold upsert_epoch_share_price. rewrite run_clean by done.
        cbn -[cast_numeric cast_numeric_28_18].
        rewrite (denotes_cast _ v Hden) by (unfold in_u in Hv; lia). cbn -[cast_numeric].
        rewrite !cast_u128 by done. cbn. reflexivity. }
    apply db_clean. unfold update_operator_stats. rewrite run_clean by done.
    cbn -[cast_numeric]. rewrite !cast_u128 by done. cbn. reflexivity.
  - cbn. unfold upsert. rewrite lookup_insert_eq. split; [done|].
    match goal with |- sp_share_price ?r = v /\ _ => assert (sp_share_price r = v) as -> end.
    { by case_match. }
    assert (Hd' : denotes (numeric_28_18_text v) v) by (apply text_denotes, Hv).
    split; [done|]. intros v'. split; [|by intros ->].
    intros Hv'. symmetry. by eapply denotes_unique.
Qed.
End Handlers.

(** ** Witnesses *)

Definition fresh_db : Db := {| tables := no_tables; faults := []; now := 0 |}.

#[export] Instance toy_decimal_laws : DecimalLaws.
Proof.
  split. intros v Hv. exists v. split; [|apply text_denotes, Hv].
  cbn [decimal_div decimal_from_u64 toy_decimal].
  change (10 ^ 18 * 10 ^ 18 =? 0) with false. cbn iota. f_equal.
  by rewrite <- Z.mul_assoc, Z.div_mul.
Qed.

Lemma tables_stay_typed_witness :
  typed (tables (index_staking_for_block on_a staking_client 2 fresh_db).1) /\
  (index_staking_for_block on_a staking_client 2 fresh_db).2 <> Err (Ix.DB RowNotFound).
Proof.
  destruct (tables_stay_typed on_a staking_client 2 fresh_db staking_client_typed
    no_tables_typed) as (Ht & _ & _ & Hok).
  split; [exact Ht | exact (Hok eq_refl RowNotFound)].
Defined.

(** The price 1.25 of operator 3 in epoch 7. *)
Definition price_client : Client :=
  toy_client
    [ (q "Domains" "OperatorEpochSharePrice"
         [ArgU64 3; ArgDomainEpoch {| de_domain := {| domain_id := 0 |}; de_epoch := 7 |}],
       encode_u64 1250000000000000000);
      (q "Domains" "Operators" [ArgU64 3], encode_operator RpcTypesProps.sample_operator) ] [] 100 [].

Definition epoch_7 : DomainEpochCompleted :=
  {| dec_domain_id := {| domain_id := 0 |}; dec_completed_epoch_index := 7 |}.

Lemma share_price_roundtrip_witness :
  exists db' row,
    index_operator_price price_client [1] epoch_7 2 0 3 fresh_db = (db', Ok tt) /\
    operator_epoch_share_prices (tables db') !! (3, 0, 7) = Some row /\
    sp_share_price row = 1250000000000000000.
Proof.
  destruct (share_price_roundtrip price_client [1] epoch_7 2 0 3 1250000000000000000
    (operator_of RpcTypesProps.sample_operator) fresh_db) as (db' & row & H1 & H2 & H3 & _);
    [reflexivity | vm_compute; reflexivity | vm_compute; reflexivity |].
  exists db', row. split; [exact H1|]. split; [exact H2 | exact H3].
Defined.
