(* ===== verification/Xdm.v ===== *)
(** * The XDM indexer

    Models [indexer/src/xdm.rs]: the transfer events of a block, in the order
    in which they are stored, the transfer of an initiation read from the
    [OutgoingTransfers] storage, and what the XDM processor writes for one
    block. *)

From Stdlib Require Import Strings.Byte.
From S2P Require Import Prelude HeadersCache TreeRoute BlockListener Scale RpcTypes Types.
From S2P Require Import Events Chain Db IndexerError.

(** [Transfer]'s [Decode] is derived by a macro of [parity-scale-codec]. *)
Class TransferCodec : Type := { decode_transfer : Decoder Transfer }.

Section Xdm.
Context `{ChainTypes, ScaleCodec, EventCodec, Twox, TextCodecs, HashBytes, Chrono, TransferCodec}.
Context (node : RpcNode) (client : Client).

(** [Into<Event>], for the types that have it. *)
Definition as_events (k : EventKind) (into : event_of k -> Event) (block_events : list EventDetails)
    : list Event :=
  into <$> omap (as_event_ok k) block_events.

Definition invalid_chain_id (c : ChainId) : string :=
  "invalid chain id: " +:+
  match c with
  | Consensus => "Consensus"
  | Domain d => "Domain(DomainId(" +:+ pretty (domain_id d) +:+ "))"
  end.

Definition xdm_block_events (chain : ChainId) (hash : Hash)
    : outcome Ix.Error (list EventDetails) :=
  match chain with
  | Consensus => evs ← map_err Ix.Subspace (events client hash); mret (oks evs)
  | Domain d =>
      if domain_id d =? 0 then map_err Ix.Subspace (events_from_segments client hash)
      else Err (Ix.Config (invalid_chain_id chain))
  end.

(** The stored transfer of an initiation. *)
Definition read_transfer (hash : Hash) (event : OutgoingTransferInitiated)
    : outcome Ix.Error Event :=
  transfer ← map_err Ix.Subspace (read_storage decode_transfer client hash "Transporter"
    "OutgoingTransfers" [ArgChain (oti_chain_id event); ArgMessage (oti_message_id event)]);
  mret (EvOutgoingTransferInitiated
    {| otw_message_id := oti_message_id event; otw_transfer := transfer |}).

Definition extract_xdm_events_for_block (chain : ChainId) (hash : Hash)
    : outcome Ix.Error (list Event) :=
  block_events ← xdm_block_events chain hash;
  let events :=
    as_events KOutgoingTransferFailed EvOutgoingTransferFailed block_events ++
    as_events KOutgoingTransferSuccessful EvOutgoingTransferSuccessful block_events ++
    as_events KIncomingTransferSuccessful EvIncomingTransferSuccessful block_events in
  outgoing_init_events ← mapM (read_transfer hash)
    (omap (as_event_ok KOutgoingTransferInitiated) block_events);
  mret (events ++ outgoing_init_events).

Definition index_events_for_block (chain : ChainId) (block_number : Z) : SE Db Ix.Error unit :=
  block_ext ← Ix.chain (block_ext_at_number node block_number);
  let hash := be_hash block_ext in
  events ← lift (extract_xdm_events_for_block chain hash);
  match events with
  | [] => mret tt
  | _ =>
      let block := {| hn_number := be_number block_ext; hn_hash := hash |} in
      millis ← Ix.chain (timestamp client hash);
      block_time ← lift (expect (from_timestamp_millis (as_i 64 millis)));
      Ix.db (store_events chain block block_time events)
  end.
End Xdm.
