(* ===== verification/XdmFacts.v ===== *)
(** * What the handler of a block observes

    The handler of the XDM indexer reads a block, and stores what it has read: the observations
    of the block, which only depend on the chain. *)

From S2P Require Import Prelude HeadersCache TreeRoute BlockListener Scale RpcTypes Types.
From S2P Require Import Events Chain Db IndexerError DbXdm Xdm.

Section Observations.
Context `{ChainTypes, ScaleCodec, EventCodec, Twox, TextCodecs, !HashBytes, Chrono, TransferCodec}.

(** A block for one of the processors to index: its chain and what the node of
    that chain answers. *)
Record Job : Type := {
  j_chain : ChainId;
  j_node : RpcNode;
  j_client : Client;
  j_block : Z;
}.

Definition index_job (j : Job) : SE Db Ix.Error unit :=
  index_events_for_block (j_node j) (j_client j) (j_chain j) (j_block j).

Definition observation (chain : ChainId) (blk : BlockExt) (time : Z) (ev : Event) : Observation := {|
  ob_chain := chain; ob_block := {| hn_number := be_number blk; hn_hash := be_hash blk |};
  ob_time := time; ob_event := ev |}.

Definition job_observations (j : Job) : outcome Ix.Error (list Observation) :=
  blk ← map_err Ix.Subspace (block_ext_at_number (j_node j) (j_block j));
  evs ← extract_xdm_events_for_block (j_client j) (j_chain j) (be_hash blk);
  match evs with
  | [] => mret []
  | _ =>
      millis ← map_err Ix.Subspace (timestamp (j_client j) (be_hash blk));
      time ← expect (from_timestamp_millis (as_i 64 millis));
      mret (observation (j_chain j) blk time <$> evs)
  end.

Lemma store_events_all chain block time evs db :
  store_events chain block time evs db =
    store_all ((fun ev => {| ob_chain := chain; ob_block := block; ob_time := time;
                             ob_event := ev |}) <$> evs) db.
Proof.
  unfold store_events, store_all. revert db. induction evs as [|ev evs IH]; intros db; [done|].
  cbn [for_each fmap list_fmap]. rewrite !SE_bind_unfold. unfold store_observation at 1. cbn.
  destruct (store_event chain block time ev db) as [db' [[]| | |]]; [apply IH | done..].
Qed.

(** The handler of a block, by its observations. *)
Lemma index_job_spec j db :
  index_job j db = match job_observations j with
                   | Ok obs => Ix.db (store_all obs) db
                   | Err e => (db, Err e)
                   | Panic => (db, Panic)
                   | Diverge => (db, Diverge)
                   end.
Proof.
  unfold index_job, index_events_for_block, job_observations.
  rewrite SE_bind_unfold. unfold Ix.chain at 1, lift at 1.
  destruct (block_ext_at_number _ _) as [blk|e| |]; cbn [map_err]; try done.
  cbn [mbind outcome_bind]. rewrite SE_bind_unfold. unfold lift at 1.
  destruct (extract_xdm_events_for_block _ _ _) as [[|ev evs]|e| |]; try done.
  cbn [mbind outcome_bind]. rewrite SE_bind_unfold. unfold Ix.chain at 1, lift at 1.
  destruct (timestamp _ _) as [millis|e| |]; cbn [map_err]; try done.
  cbn [mbind outcome_bind]. rewrite SE_bind_unfold. unfold lift at 1.
  destruct (from_timestamp_millis _) as [time|]; cbn [expect]; [|done].
  cbn [mbind outcome_bind mret outcome_ret]. unfold Ix.db. by rewrite store_events_all.
Qed.

Definition job_obs (j : Job) : list Observation :=
  match job_observations j with Ok obs => obs | _ => [] end.

(** They are of the chain, and of the block. *)
Lemma job_obs_block j o :
  o ∈ job_obs j -> ob_chain o = j_chain j /\
  exists blk, block_ext_at_number (j_node j) (j_block j) = Ok blk /\
    ob_block o = {| hn_number := be_number blk; hn_hash := be_hash blk |}.
Proof.
  unfold job_obs, job_observations. intros Ho.
  destruct (block_ext_at_number _ _) as [blk|e| |]; cbn in Ho;
    [|by apply not_elem_of_nil in Ho..].
  destruct (extract_xdm_events_for_block _ _ _) as [[|ev evs]|e| |]; cbn in Ho;
    try by apply not_elem_of_nil in Ho.
  destruct (timestamp _ _) as [millis|e| |]; cbn in Ho; try by apply not_elem_of_nil in Ho.
  destruct (from_timestamp_millis _) as [time|]; cbn in Ho; [|by apply not_elem_of_nil in Ho].
  change (o ∈ observation (j_chain j) blk time <$> (ev :: evs)) in Ho.
  apply list_elem_of_fmap in Ho as (ev' & -> & _). split; [done|]. by exists blk.
Qed.

(** Nodes that have the same block give the same observations. *)
Lemma job_obs_same chain client node node' b b' blk blk' :
  block_ext_at_number node b = Ok blk -> block_ext_at_number node' b' = Ok blk' ->
  be_hash blk = be_hash blk' -> be_number blk = be_number blk' ->
  job_observations {| j_chain := chain; j_node := node; j_client := client; j_block := b |} =
  job_observations {| j_chain := chain; j_node := node'; j_client := client; j_block := b' |}.
Proof.
  intros Hb Hb' Hh Hn. unfold job_observations. cbn [j_node j_block j_client j_chain].
  rewrite Hb, Hb'. cbn. rewrite Hh.
  destruct (extract_xdm_events_for_block _ _ _) as [[|ev evs]|e| |]; try done. cbn.
  destruct (timestamp _ _) as [millis|e| |]; try done. cbn.
  destruct (from_timestamp_millis _) as [time|]; [|done]. cbn. unfold observation. by rewrite Hh, Hn.
Qed.
End Observations.
