(* ===== verification/Processor.v ===== *)
(** * The block-processing loop

    Models [run_processor] of [indexer/src/processor.rs], the loop both
    processors run: the range of blocks a broadcast message asks for, the blocks of
    a range processed concurrently with [buffered], the checkpoints.

    The loop is a step relation. A block being processed is the list of its
    statements that are still to run, and the statements of the blocks
    in flight interleave in any way; their results are taken in the order of the blocks.
    [log] records, for the properties, the blocks that were taken with the
    statements they ran. *)

From S2P Require Import Prelude HeadersCache TreeRoute BlockListener Types Chain Db.
From S2P Require Import IndexerError.

Definition CHECKPOINT_PROCESSED_BLOCK : Z := 100.

Section Processor.
Context `{ChainTypes}.

(** A statement, and how the handler of a block is made of them: [m] runs the
    statements [l] and ends with [r], unless one of them fails. *)
Definition Statement : Type := SE Db SqlxError unit.

Definition run_statements (l : list Statement) : SE Db SqlxError unit := for_each l (fun s => s).

Definition is_task (m : SE Db Ix.Error unit) (l : list Statement) (r : outcome Ix.Error unit) : Prop :=
  forall db, m db = match run_statements l db with
                    | (db', Ok _) => (db', r)
                    | (db', Err e) => (db', Err (Ix.DB e))
                    | (db', Panic) => (db', Panic)
                    | (db', Diverge) => (db', Diverge)
                    end.

(** [BlockProcessor], without its name for the logs; [block_task] lists the
    statements of a block's handler. *)
Record BlockProcessor : Type := {
  process_block : Z -> SE Db Ix.Error unit;
  checkpoint_key : string;
  block_task : Z -> list Statement -> outcome Ix.Error unit -> Prop;
}.

(** What the loop relies on: [block_task] is right and total, *)
Class ProcessorLaws (p : BlockProcessor) : Prop := {
  task_ok : forall b l r, block_task p b l r -> is_task (process_block p b) l r;
  task_exists : forall b, exists l r, block_task p b l r;
}.

(** and the statements leave the checkpoints alone. *)
Class TaskLaws (p : BlockProcessor) : Prop := {
  task_keeps : forall b l r, block_task p b l r ->
    Forall (fun s : Statement => forall db,
      metadata (tables (s db).1) = metadata (tables db)) l;
}.

(** What [stream.recv()] gives. *)
Inductive Recv : Type :=
  | Received (m : BlocksExt)
  | RecvFailed (e : RecvError).

(** [db.get_last_processed_block(..).await.unwrap_or(0)] *)
Definition last_processed (p : BlockProcessor) (db : Db) : Db * Z :=
  let '(db', r) := get_last_processed_block (checkpoint_key p) db in
  (db', match r with Ok n => n | _ => 0 end).

Definition minimum (l : list Z) : option Z :=
  match l with [] => None | x :: l' => Some (foldr Z.min x l') end.
Definition maximum (l : list Z) : option Z :=
  match l with [] => None | x :: l' => Some (foldr Z.max x l') end.

(** The blocks [from..=to] a message asks for. *)
Definition block_range (last : Z) (m : BlocksExt) : outcome Ix.Error (Z * Z) :=
  let numbers := be_number <$> blocks m in
  if (length numbers =? 1)%nat then
    from ← add_u 32 last 1;
    to ← expect (head numbers);
    mret (from, to)
  else
    min ← expect (minimum numbers);
    max ← expect (maximum numbers);
    next ← add_u 32 last 1;
    mret (Z.min min next, max).

(** ** Blocks in flight *)

Record Task : Type := {
  t_block : Z;
  t_ran : list Statement;
  t_todo : list Statement;
  t_result : outcome Ix.Error unit;
}.

(** The statements that ran, after one more: one that fails ends the block. *)
Definition advance (t : Task) (s : Statement) (rest : list Statement) (r : outcome SqlxError unit)
    : Task :=
  match r with
  | Ok _ => {| t_block := t_block t; t_ran := t_ran t ++ [s]; t_todo := rest;
               t_result := t_result t |}
  | _ => {| t_block := t_block t; t_ran := t_ran t; t_todo := [];
            t_result := match r with
                        | Err e => Err (Ix.DB e)
                        | Panic => Panic
                        | _ => Diverge
                        end |}
  end.

(** [stream::iter(from..=to)..buffered(n)]: the next block to start, the last,
    and the blocks in flight, oldest first. *)
Record Range : Type := {
  r_next : Z;
  r_to : Z;
  r_inflight : list Task;
}.

Inductive Phase : Type :=
  | Waiting
  | Working (r : Range)
  | Halted (result : outcome Ix.Error unit).

Record PState : Type := {
  ps_db : Db;
  ps_queue : list Recv;
  ps_phase : Phase;
  log : list (Z * list Statement);
}.

Definition set_phase (s : PState) (db : Db) (phase : Phase) : PState :=
  {| ps_db := db; ps_queue := ps_queue s; ps_phase := phase; log := log s |}.

(** Taking a message off the channel. *)
Definition on_message (p : BlockProcessor) (s : PState) (m : BlocksExt) (queue : list Recv)
    : PState :=
  let '(db', last) := last_processed p (ps_db s) in
  {| ps_db := db'; ps_queue := queue; log := log s;
     ps_phase :=
       match block_range last m with
       | Ok (from, to) =>
           if to <? from then Waiting
           else Working {| r_next := from; r_to := to; r_inflight := [] |}
       | Err e => Halted (Err e)
       | Panic => Halted Panic
       | Diverge => Halted Diverge
       end |}.

(** A checkpoint write, and what follows when it succeeds. *)
Definition checkpoint (p : BlockProcessor) (db : Db) (block : Z) (next : Phase) : Db * Phase :=
  match Ix.db (set_last_processed_block (checkpoint_key p) block) db with
  | (db', Ok _) => (db', next)
  | (db', r) => (db', Halted r)
  end.

(** The oldest block in flight has ended well: it is taken off the stream, and
    every hundredth block is a checkpoint. *)
Definition take_block (p : BlockProcessor) (s : PState) (r : Range) (t : Task) (rest : list Task)
    : PState :=
  let next := Working {| r_next := r_next r; r_to := r_to r; r_inflight := rest |} in
  let '(db', phase) :=
    if t_block t mod CHECKPOINT_PROCESSED_BLOCK =? 0
    then checkpoint p (ps_db s) (t_block t) next
    else (ps_db s, next) in
  {| ps_db := db'; ps_queue := ps_queue s; ps_phase := phase;
     log := log s ++ [(t_block t, t_ran t)] |}.

(** All blocks of the range are taken: the last one is the checkpoint. *)
Definition finish_range (p : BlockProcessor) (s : PState) (r : Range) : PState :=
  let '(db', phase) := checkpoint p (ps_db s) (r_to r) Waiting in
  {| ps_db := db'; ps_queue := ps_queue s; ps_phase := phase; log := log s |}.

(** One step of [run_processor] with at most [parallel] blocks in flight. *)
Inductive step (p : BlockProcessor) (parallel : nat) : PState -> PState -> Prop :=
  | step_recv s m queue :
      ps_phase s = Waiting -> ps_queue s = Received m :: queue ->
      step p parallel s (on_message p s m queue)
  | step_lagged s n queue :
      ps_phase s = Waiting -> ps_queue s = RecvFailed (Lagged n) :: queue ->
      step p parallel s {| ps_db := ps_db s; ps_queue := queue; ps_phase := Waiting; log := log s |}
  | step_closed s queue :
      ps_phase s = Waiting -> ps_queue s = RecvFailed Closed :: queue ->
      step p parallel s (set_phase s (ps_db s) (Halted (Err (Ix.BroadRecvErr Closed))))
  | step_start s r l result :
      ps_phase s = Working r -> r_next r <= r_to r -> (length (r_inflight r) < parallel)%nat ->
      block_task p (r_next r) l result ->
      step p parallel s (set_phase s (ps_db s) (Working {|
        r_next := r_next r + 1; r_to := r_to r;
        r_inflight := r_inflight r ++
          [{| t_block := r_next r; t_ran := []; t_todo := l; t_result := result |}] |}))
  | step_statement s r before t after st rest db' res :
      ps_phase s = Working r -> r_inflight r = before ++ t :: after -> t_todo t = st :: rest ->
      st (ps_db s) = (db', res) ->
      step p parallel s (set_phase s db' (Working {|
        r_next := r_next r; r_to := r_to r;
        r_inflight := before ++ advance t st rest res :: after |}))
  | step_take s r t rest :
      ps_phase s = Working r -> r_inflight r = t :: rest -> t_todo t = [] -> t_result t = Ok tt ->
      step p parallel s (take_block p s r t rest)
  | step_fail s r t rest :
      ps_phase s = Working r -> r_inflight r = t :: rest -> t_todo t = [] -> t_result t <> Ok tt ->
      step p parallel s (set_phase s (ps_db s) (Halted (t_result t)))
  | step_finish s r :
      ps_phase s = Working r -> r_inflight r = [] -> r_to r < r_next r ->
      step p parallel s (finish_range p s r).

(** The executable loop, which has one block in flight at a time. *)
Definition process_and_checkpoint (p : BlockProcessor) (block : Z) : SE Db Ix.Error unit :=
  _ ← process_block p block;
  if block mod CHECKPOINT_PROCESSED_BLOCK =? 0
  then Ix.db (set_last_processed_block (checkpoint_key p) block) else mret tt.

Definition handle_message (p : BlockProcessor) (m : BlocksExt) : SE Db Ix.Error unit := fun db =>
  let '(db', last) := last_processed p db in
  match block_range last m with
  | Ok (from, to) =>
      if to <? from then (db', Ok tt)
      else (_ ← for_each (range_incl from to) (process_and_checkpoint p);
            Ix.db (set_last_processed_block (checkpoint_key p) to)) db'
  | Err e => (db', Err e)
  | Panic => (db', Panic)
  | Diverge => (db', Diverge)
  end.

Fixpoint run_processor (p : BlockProcessor) (stream : list Recv) : SE Db Ix.Error unit :=
  match stream with
  | [] => mret tt
  | Received m :: stream' => handle_message p m ≫= fun _ => run_processor p stream'
  | RecvFailed (Lagged _) :: stream' => run_processor p stream'
  | RecvFailed e :: _ => throw (Ix.BroadRecvErr e)
  end.
End Processor.
