(* ===== verification/Processors.v ===== *)
(** * The two block processors

    [XdmProcessor] of [indexer/src/xdm.rs] and [StakingProcessor] of
    [indexer/src/staking.rs] as instances of the interface of the loop: each
    handler is a list of statements that the chain determines, and none of
    them touches the checkpoints. *)

From S2P Require Import Prelude HeadersCache TreeRoute BlockListener Scale RpcTypes Types.
From S2P Require Import Events Chain Db IndexerError DbXdm Staking StakingFacts StakingProps.
From S2P Require Import Xdm XdmFacts Processor.

Section Processors.
Context `{ChainTypes, ScaleCodec, !ScaleLaws, EventCodec, Twox, TextCodecs, !HashBytes, DecimalLib,
  Chrono, TransferCodec}.
Context (node : RpcNode) (client : Client).

(** ** Staking *)

Definition StakingProcessor : BlockProcessor := {|
  process_block := index_staking_for_block node client;
  checkpoint_key := CHECKPOINT_KEY;
  block_task b l r := exists acts,
    l = exec <$> acts /\ traced (index_staking_for_block node client b) acts r /\
    Forall (own b) acts |}.

Lemma run_statements_exec acts db : run_statements (exec <$> acts) db = exec_all acts db.
Proof.
  unfold run_statements, exec_all. revert db. induction acts as [|a acts IH]; intros db; [done|].
  cbn. rewrite !SE_bind_unfold. destruct (exec a db) as [db' [[]| | |]]; [apply IH | done..].
Qed.

(** A statement keeps a part [f] of the tables that its effect keeps. *)
Lemma run_keeps {A X} (f : Tables -> X) (stmt : Stmt A) db :
  (forall t t' a, stmt t = Ok (t', a) -> f t' = f t) ->
  f (tables (run stmt db).1) = f (tables db).
Proof.
  intros Hs. destruct (run_tables stmt db) as [-> | (t & a & Hstmt & ->)]; [done|]. by eapply Hs.
Qed.

Lemma exec_keeps a db :
  metadata (tables (exec a db).1) = metadata (tables db) /\
  xdm_transfers (tables (exec a db).1) = xdm_transfers (tables db).
Proof.
  split; destruct a; cbn [exec]; unfold update_operator_status, upsert_operator,
    update_operator_stats, insert_deposit, insert_withdrawal, delete_deposits_for_block,
    delete_withdrawals_for_block, upsert_epoch_share_price; apply run_keeps; intros t t' u Hstmt;
  repeat (apply bind_Ok in Hstmt as (? & ? & Hstmt)); by injection Hstmt as <-.
Qed.

#[export] Instance staking_laws : client_typed client -> ProcessorLaws StakingProcessor.
Proof.
  intros Htyped. split.
  - intros b l r (acts & -> & Ht & _) db. rewrite run_statements_exec. apply Ht.
  - intros b. destruct (index_staking_own node client b Htyped) as (acts & r & Ht & Hown & _).
    by exists (exec <$> acts), r, acts.
Qed.

#[export] Instance staking_tasks : TaskLaws StakingProcessor.
Proof.
  split. intros b l r (acts & -> & _ & _). apply Forall_fmap, Forall_forall. intros a _ db.
    apply exec_keeps.
Qed.

(** ** Cross-domain messages *)

(** A block, for the handler of a chain. *)
Definition xdm_job (chain : ChainId) (b : Z) : Job :=
  {| j_chain := chain; j_node := node; j_client := client; j_block := b |}.

Definition XdmProcessor (chain : ChainId) : BlockProcessor := {|
  process_block := index_events_for_block node client chain;
  checkpoint_key := get_xdm_processor_key chain;
  block_task b l r := l = store_observation <$> job_obs (xdm_job chain b) /\
    r = (fun _ => tt) <$> job_observations (xdm_job chain b) |}.

Lemma store_observation_keeps {X} (f : Tables -> X) o db :
  (forall g t, f (with_xdm g t) = f t) -> f (tables (store_observation o db).1) = f (tables db).
Proof.
  intros Hf. unfold store_observation, store_event.
  destruct (ob_event o) as [[m [a [s sa] [r ra]]] | e | e | e];
    unfold store_outgoing_transfer_initiated, store_outgoing_transfer_acknowledgement,
      store_incoming_transfer_execution; cbn; apply run_keeps; intros t t' u Hstmt;
    unfold insert_transfer in Hstmt;
    repeat (apply bind_Ok in Hstmt as (? & ? & Hstmt)); injection Hstmt as <-; apply Hf.
Qed.

Lemma xdm_task chain b l r : block_task (XdmProcessor chain) b l r ->
  is_task (index_events_for_block node client chain b) l r.
Proof.
  intros [-> ->] db. pose proof (index_job_spec (xdm_job chain b) db) as Hix.
  unfold index_job in Hix. cbn in Hix. rewrite Hix. unfold job_obs.
  destruct (job_observations _) as [obs|e| |]; [|done..]. cbn. unfold Ix.db, store_all, run_statements.
  clear Hix. revert db. induction obs as [|o obs IH]; intros db; [done|].
  cbn [for_each fmap list_fmap]. rewrite !SE_bind_unfold.
  destruct (store_observation o db) as [db' [[]| | |]]; [apply IH | done..].
Qed.

#[export] Instance xdm_laws chain : ProcessorLaws (XdmProcessor chain).
Proof. split; [apply xdm_task | by intros b; do 2 eexists]. Qed.

#[export] Instance xdm_tasks chain : TaskLaws (XdmProcessor chain).
Proof.
  split. intros b l r [-> _]. apply Forall_fmap, Forall_forall. intros o _ db.
  by apply (store_observation_keeps metadata).
Qed.
End Processors.
