(* ===== verification/ProcessorProps.v ===== *)
(** * Correctness of the block-processing loop

    However the blocks in flight interleave and wherever the loop stops, no
    block at or below the checkpoint was skipped; and the loop neither
    gets stuck nor runs forever. *)

From S2P Require Import Prelude HeadersCache TreeRoute BlockListener Types Chain Db.
From S2P Require Import IndexerError DbXdm DbXdmProps Processor Scale ScaleLE RpcTypes.
From S2P Require Import Events Xdm Processors ToyChain ToyIndexer.

Section Loop.
Context `{ChainTypes} (p : BlockProcessor) `{!TaskLaws p} (parallel : nat).

(** The checkpoint as the loop reads it. *)
Definition saved (db : Db) : Z :=
  match metadata (tables db) !! checkpoint_key p with Some n => as_u 32 n | None => 0 end.

Definition recv_typed (r : Recv) : Prop :=
  match r with
  | Received m => Forall (fun b => in_u 32 (be_number b)) (blocks m)
  | RecvFailed _ => True
  end.

#[export] Instance recv_typed_dec r : Decision (recv_typed r).
Proof. destruct r; unfold recv_typed, in_u; apply _. Defined.

(** Blocks in the log ran all their statements, and ended well. *)
Definition log_ok (l : list (Z * list Statement)) : Prop :=
  forall b sts, (b, sts) ∈ l -> block_task p b sts (Ok tt).

Definition covered (c0 : Z) (l : list (Z * list Statement)) (b : Z) : Prop :=
  b <= c0 \/ exists sts, (b, sts) ∈ l.

(** The blocks in flight are consecutive and each is its handler, partly run. *)
Definition task_state (b : Z) (t : Task) : Prop :=
  t_block t = b /\
  (t_result t = Ok tt -> block_task p b (t_ran t ++ t_todo t) (Ok tt)) /\
  Forall (fun s : Statement => forall db, metadata (tables (s db).1) = metadata (tables db))
    (t_todo t).

Fixpoint tasks_from (b : Z) (l : list Task) : Prop :=
  match l with
  | [] => True
  | t :: l' => task_state b t /\ tasks_from (b + 1) l'
  end.

Definition range_ok (c0 : Z) (l : list (Z * list Statement)) (r : Range) : Prop :=
  let oldest := r_next r - Z.of_nat (length (r_inflight r)) in
  tasks_from oldest (r_inflight r) /\ 0 <= oldest /\ r_next r <= r_to r + 1 /\ in_u 32 (r_to r) /\
  (forall b, 1 <= b < oldest -> covered c0 l b).

(** The invariant of the loop, started at the checkpoint [c0]. *)
Definition loop_inv (c0 : Z) (s : PState) : Prop :=
  Forall recv_typed (ps_queue s) /\ log_ok (log s) /\
  (forall b, 1 <= b <= saved (ps_db s) -> covered c0 (log s) b) /\
  match ps_phase s with Working r => range_ok c0 (log s) r | _ => True end.

Lemma saved_range db : in_u 32 (saved db).
Proof.
  unfold saved. destruct (metadata (tables db) !! _); [apply as_u_range; lia | split; lia].
Qed.

(** Setting the checkpoint sets it to the block or, failing, keeps it. *)
Lemma checkpoint_saved db block next :
  in_u 32 block ->
  let '(db', phase) := checkpoint p db block next in
  (saved db' = saved db \/ saved db' = block) /\
  (phase = next \/ exists r, phase = Halted r).
Proof.
  intros Hb. unfold checkpoint, Ix.db.
  pose proof (set_checkpoint_cases (checkpoint_key p) block db Hb) as Hcases.
  destruct (set_last_processed_block (checkpoint_key p) block db) as [db' r]. cbn in Hcases |- *.
  assert (Hs : saved db' = saved db \/ saved db' = block).
  { unfold saved. destruct Hcases as [-> | ->]; [by left|]. right.
    rewrite lookup_insert_eq. by apply in_u_as_u. }
  destruct r as [[]| | |]; cbn; eauto.
Qed.

Lemma checkpoint_phase db block next :
  (checkpoint p db block next).2 = next \/ exists r, (checkpoint p db block next).2 = Halted r.
Proof.
  unfold checkpoint. destruct (Ix.db _ db) as [db' [[]| | |]]; cbn; eauto.
Qed.

(** A checkpoint that is written is the one that is read. *)
Lemma checkpoint_reached db block next :
  in_u 32 block ->
  let '(db', phase) := checkpoint p db block next in
  phase = next /\ saved db' = block \/ exists r, phase = Halted r.
Proof.
  intros Hb. unfold checkpoint, Ix.db, set_last_processed_block, run.
  assert (Hi : as_i 64 block = block) by (apply as_i_small; unfold in_u in Hb; lia).
  destruct (head (faults db)) as [[]|]; cbn; eauto.
  all: left; split; [done|]; unfold saved; cbn; unfold upsert; rewrite lookup_insert_eq, Hi;
    destruct (metadata (tables db) !! _); by apply in_u_as_u.
Qed.

Lemma covered_weaken c0 l l' b : covered c0 l b -> covered c0 (l ++ l') b.
Proof.
  intros [Hb|[sts Hs]]; [by left|]. right. exists sts. apply elem_of_app. by left.
Qed.

Lemma tasks_from_app b l1 l2 :
  tasks_from b (l1 ++ l2) <-> tasks_from b l1 /\ tasks_from (b + Z.of_nat (length l1)) l2.
Proof.
  revert b. induction l1 as [|t l1 IH]; intros b; cbn [app tasks_from length].
  - rewrite Z.add_0_r. tauto.
  - rewrite IH. replace (b + 1 + Z.of_nat (length l1)) with (b + Z.of_nat (S (length l1))) by lia.
    tauto.
Qed.

(** ** The range of a message *)

Lemma foldr_min_le x l y : y ∈ x :: l -> foldr Z.min x l <= y.
Proof.
  induction l as [|z l IH]; cbn; intros Hy.
  - apply list_elem_of_singleton in Hy. lia.
  - rewrite !elem_of_cons in Hy.
    destruct Hy as [->|[->|Hy]]; [|lia|]; (etransitivity; [apply Z.le_min_r|]); apply IH;
      rewrite elem_of_cons; auto.
Qed.

Lemma foldr_max_ge x l y : y ∈ x :: l -> y <= foldr Z.max x l.
Proof.
  induction l as [|z l IH]; cbn; intros Hy.
  - apply list_elem_of_singleton in Hy. lia.
  - rewrite !elem_of_cons in Hy.
    destruct Hy as [->|[->|Hy]]; [|lia|]; (etransitivity; [|apply Z.le_max_r]); apply IH;
      rewrite elem_of_cons; auto.
Qed.

Lemma foldr_min_range w x l :
  Forall (in_u w) (x :: l) -> in_u w (foldr Z.min x l).
Proof.
  intros Hl. apply Forall_cons in Hl as [Hx Hl]. induction Hl as [|z l Hz _ IH]; cbn; [done|].
  unfold in_u in *. lia.
Qed.

Lemma foldr_max_range w x l :
  Forall (in_u w) (x :: l) -> in_u w (foldr Z.max x l).
Proof.
  intros Hl. apply Forall_cons in Hl as [Hx Hl]. induction Hl as [|z l Hz _ IH]; cbn; [done|].
  unfold in_u in *. lia.
Qed.

Lemma foldr_max_in x l : foldr Z.max x l ∈ x :: l.
Proof.
  induction l as [|z l IH]; cbn; [left|].
  destruct (Z.max_spec z (foldr Z.max x l)) as [[_ ->] | [_ ->]].
  - apply elem_of_cons in IH as [-> | IH]; [left | by do 2 right].
  - right. left.
Qed.

(** The range of a message ends on one of its blocks. *)
Lemma block_range_to last m from to :
  block_range last m = Ok (from, to) -> exists b, b ∈ blocks m /\ be_number b = to.
Proof.
  unfold block_range. rewrite length_fmap. intros Hr.
  destruct (blocks m) as [|b l]; [done|].
  destruct (length (b :: l) =? 1)%nat.
  - apply bind_Ok in Hr as (f & _ & Hr). injection Hr as <- <-. exists b. by split; [left|].
  - apply bind_Ok in Hr as (mn & _ & Hr). apply bind_Ok in Hr as (mx & Hmx & Hr).
    apply bind_Ok in Hr as (nx & _ & Hr). injection Hr as <- <-. injection Hmx as <-.
    pose proof (foldr_max_in (be_number b) (be_number <$> l)) as Hin.
    change (be_number b :: (be_number <$> l)) with (be_number <$> b :: l) in Hin.
    apply list_elem_of_fmap in Hin as (x & Hx & Hin). exists x. by split.
Qed.

(** What [block_range] gives, when it gives anything. *)
Lemma block_range_Ok last m from to :
  in_u 32 last -> Forall (fun b => in_u 32 (be_number b)) (blocks m) ->
  block_range last m = Ok (from, to) ->
  0 <= from <= last + 1 /\ in_u 32 to /\
  (forall b, b ∈ blocks m -> be_number b <= to) /\
  (length (blocks m) <> 1%nat -> forall b, b ∈ blocks m -> from <= be_number b) /\
  (length (blocks m) = 1%nat -> from = last + 1).
Proof.
  intros Hlast Hm Hr. unfold block_range in Hr. rewrite length_fmap in Hr.
  assert (Hadd : forall from : Z, (add_u 32 last 1 : outcome Ix.Error Z) = Ok from ->
    from = last + 1).
  { unfold add_u. intros f Hf. destruct (last + 1 <? 2 ^ 32); [by injection Hf|done]. }
  pose proof Hlast as [Hl1 Hl2].
  destruct (Nat.eqb_spec (length (blocks m)) 1) as [Hlen|Hlen].
  - destruct (blocks m) as [|b [|b' l]]; try done. cbn in Hr.
    apply bind_Ok in Hr as (f & Hf & Hr). apply Hadd in Hf. injection Hr as <- <-.
    apply Forall_cons in Hm as [Hb _]. split; [lia|]. split; [done|].
    split; [|by split]. intros x Hx. apply list_elem_of_singleton in Hx as ->. lia.
  - apply bind_Ok in Hr as (mn & Hmn & Hr). apply bind_Ok in Hr as (mx & Hmx & Hr).
    apply bind_Ok in Hr as (nx & Hnx & Hr). apply Hadd in Hnx. injection Hr as <- <-.
    destruct (blocks m) as [|b l]; [done|]. cbn in Hmn, Hmx.
    injection Hmn as <-. injection Hmx as <-.
    assert (Hall : Forall (in_u 32) (be_number b :: (be_number <$> l))).
    { apply Forall_cons in Hm as [Hb Hl]. constructor; [done|]. by apply Forall_fmap. }
    pose proof (foldr_min_range 32 _ _ Hall) as [Hmin1 Hmin2].
    assert (Hin : forall x, x ∈ b :: l -> be_number x ∈ be_number b :: (be_number <$> l)).
    { intros x Hx. change (be_number x ∈ be_number <$> (b :: l)). by apply list_elem_of_fmap_2. }
    split; [lia|]. split; [by apply foldr_max_range|].
    split; [|split; [|done]].
    + intros x Hx. by apply foldr_max_ge, Hin.
    + intros _ x Hx. etransitivity; [apply Z.le_min_l|]. by apply foldr_min_le, Hin.
Qed.

Lemma last_processed_spec db :
  tables (last_processed p db).1 = tables db /\
  ((last_processed p db).2 = saved db \/ (last_processed p db).2 = 0).
Proof.
  unfold last_processed, get_last_processed_block, select.
  match goal with |- context [(run ?stmt ≫= ?k) db] =>
    assert (Hk : ((run stmt ≫= k) db).1 = (run stmt db).1) by
      (rewrite SE_bind_unfold; by destruct (run stmt db) as [? [| | |]]);
    assert (Hv : forall n, ((run stmt ≫= k) db).2 = Ok n -> n = saved db)
  end.
  - intros n. rewrite SE_bind_unfold. unfold run, saved.
    destruct (metadata (tables db) !! checkpoint_key p) as [x|];
      destruct (head (faults db)) as [[]|]; cbn; intros [= <-]; done.
  - match goal with |- context [(run ?stmt ≫= ?k) db] =>
      destruct ((run stmt ≫= k) db) as [db' r] eqn:Hrun end.
    cbn in Hk, Hv |- *. split.
    + rewrite Hk. destruct (run_tables (fun t => a ← ok_or (metadata t !! checkpoint_key p)
        RowNotFound; mret (t, a)) db) as [-> | (t & a & Hstmt & ->)]; [done|].
      apply bind_Ok in Hstmt as (x & _ & [= <- _]). done.
    + destruct r; auto.
Qed.

(** ** The invariant *)

Lemma on_message_inv c0 s m queue :
  loop_inv c0 s -> ps_phase s = Waiting -> ps_queue s = Received m :: queue ->
  loop_inv c0 (on_message p s m queue).
Proof.
  intros (Hq & Hlog & Hcov & _) _ Hqueue. rewrite Hqueue in Hq.
  apply Forall_cons in Hq as [Hm Hq]. cbn in Hm.
  unfold on_message. destruct (last_processed_spec (ps_db s)) as [Htab Hlast].
  destruct (last_processed p (ps_db s)) as [db' last]. cbn in Htab, Hlast.
  assert (Hsaved : saved db' = saved (ps_db s)) by (unfold saved; by rewrite Htab).
  split; [done|]. split; [done|]. cbn [ps_db log ps_phase]. rewrite Hsaved. split; [done|].
  destruct (block_range last m) as [[from to]| | |] eqn:Hr; try done.
  destruct (Z.ltb_spec to from); [done|].
  pose proof (saved_range (ps_db s)) as Hsr.
  apply block_range_Ok in Hr as (Hfrom & [Hto1 Hto2] & _); [|destruct Hlast as [-> | ->]|done].
  2: { done. }
  2: { split; lia. }
  unfold range_ok. cbn. split; [done|]. split; [lia|]. split; [lia|]. split; [done|].
  intros b Hb. apply Hcov. destruct Hlast as [-> | ->]; lia.
Qed.

Lemma start_inv c0 s r l result :
  loop_inv c0 s -> ps_phase s = Working r -> r_next r <= r_to r ->
  block_task p (r_next r) l result ->
  loop_inv c0 (set_phase s (ps_db s) (Working {|
    r_next := r_next r + 1; r_to := r_to r;
    r_inflight := r_inflight r ++
      [{| t_block := r_next r; t_ran := []; t_todo := l; t_result := result |}] |})).
Proof.
  intros (Hq & Hlog & Hcov & Hphase) Hr Hnext Htask. rewrite Hr in Hphase.
  destruct Hphase as (Htasks & Hold & Hto & Hto32 & Hbefore).
  split; [done|]. split; [done|]. split; [done|]. cbn [ps_phase set_phase].
  unfold range_ok. cbn [r_next r_to r_inflight]. rewrite length_app. cbn [length].
  replace (r_next r + 1 - Z.of_nat (length (r_inflight r) + 1))
    with (r_next r - Z.of_nat (length (r_inflight r))) by lia.
  split; [|split; [done|]; split; [lia|]; by split].
  apply tasks_from_app. split; [done|].
  replace (r_next r - Z.of_nat (length (r_inflight r)) + Z.of_nat (length (r_inflight r)))
    with (r_next r) by lia.
  cbn. split; [|done]. split; [done|]. cbn. split; [by intros -> | by eapply task_keeps].
Qed.

Lemma advance_state b t st rest res :
  task_state b t -> t_todo t = st :: rest -> task_state b (advance t st rest res).
Proof.
  intros (Hb & Hok & Hkeep) Htodo. rewrite Htodo in Hkeep, Hok.
  apply Forall_cons in Hkeep as [_ Hkeep]. unfold advance.
  destruct res as [[]| | |]; (split; [done|]); cbn; try done.
  split; [|done]. intros Hres. rewrite <- app_assoc. by apply Hok.
Qed.

Lemma statement_inv c0 s r before t after st rest db' res :
  loop_inv c0 s -> ps_phase s = Working r -> r_inflight r = before ++ t :: after ->
  t_todo t = st :: rest -> st (ps_db s) = (db', res) ->
  loop_inv c0 (set_phase s db' (Working {|
    r_next := r_next r; r_to := r_to r;
    r_inflight := before ++ advance t st rest res :: after |})).
Proof.
  intros (Hq & Hlog & Hcov & Hphase) Hr Hfl Htodo Hst. rewrite Hr in Hphase.
  unfold range_ok in Hphase. rewrite Hfl in Hphase.
  destruct Hphase as (Htasks & Hrest). apply tasks_from_app in Htasks as [Hb [Ht Ha]].
  assert (Hmeta : metadata (tables db') = metadata (tables (ps_db s))).
  { destruct Ht as (_ & _ & Hkeep). rewrite Htodo in Hkeep. apply Forall_cons in Hkeep as [Hk _].
    rewrite <- (Hk (ps_db s)). by rewrite Hst. }
  split; [done|]. split; [done|]. cbn [ps_db set_phase log ps_phase].
  split; [unfold saved; by rewrite Hmeta|].
  unfold range_ok. cbn [r_next r_to r_inflight]. rewrite length_app in Hrest, Hb, Ht, Ha |- *.
  cbn [length] in *. split; [|done]. apply tasks_from_app. split; [done|].
  split; [by eapply advance_state | done].
Qed.

Lemma take_inv c0 s r t rest :
  loop_inv c0 s -> ps_phase s = Working r -> r_inflight r = t :: rest ->
  t_todo t = [] -> t_result t = Ok tt -> loop_inv c0 (take_block p s r t rest).
Proof.
  intros (Hq & Hlog & Hcov & Hphase) Hr Hfl Htodo Hres. rewrite Hr in Hphase.
  unfold range_ok in Hphase. rewrite Hfl in Hphase. cbn [length] in Hphase.
  destruct Hphase as (((Hb & Hok & _) & Htasks) & Hold & Hto & Hto32 & Hbefore).
  specialize (Hok Hres). rewrite Htodo, app_nil_r in Hok.
  set (log' := log s ++ [(t_block t, t_ran t)]).
  assert (Hlog' : log_ok log').
  { intros b sts Hin. apply elem_of_app in Hin as [Hin|Hin]; [by apply Hlog|].
    apply list_elem_of_singleton in Hin as [= -> ->]. by rewrite Hb. }
  assert (Hcov' : forall b, 1 <= b <= t_block t -> covered c0 log' b).
  { intros b Hrange. destruct (decide (b = t_block t)) as [->|Hne].
    - right. exists (t_ran t). apply elem_of_app. right. by apply list_elem_of_singleton.
    - apply covered_weaken, Hbefore. lia. }
  assert (Hrange : range_ok c0 log' {| r_next := r_next r; r_to := r_to r; r_inflight := rest |}).
  { unfold range_ok. cbn [r_next r_to r_inflight].
    replace (r_next r - Z.of_nat (length rest)) with (t_block t + 1) by lia.
    replace (r_next r - Z.of_nat (S (length rest)) + 1) with (t_block t + 1) in Htasks by lia.
    split; [done|]. split; [lia|]. split; [done|]. split; [done|]. intros b Hbb. apply Hcov'. lia. }
  unfold take_block.
  destruct (t_block t mod CHECKPOINT_PROCESSED_BLOCK =? 0).
  - pose proof (checkpoint_saved (ps_db s) (t_block t)
      (Working {| r_next := r_next r; r_to := r_to r; r_inflight := rest |})) as Hck.
    destruct (checkpoint p (ps_db s) (t_block t) _) as [db' phase].
    destruct Hck as [Hsaved Hph]; [unfold in_u in *; lia|].
    split; [done|]. split; [done|]. cbn [ps_db log ps_phase]. split.
    + intros b Hbb. destruct Hsaved as [Hs|Hs]; rewrite Hs in Hbb; [|by apply Hcov'].
      by apply covered_weaken, Hcov.
    + destruct Hph as [-> | [res ->]]; done.
  - split; [done|]. split; [done|]. cbn [ps_db log ps_phase]. split; [|done].
    intros b Hbb. by apply covered_weaken, Hcov.
Qed.

Lemma finish_inv c0 s r :
  loop_inv c0 s -> ps_phase s = Working r -> r_inflight r = [] -> r_to r < r_next r ->
  loop_inv c0 (finish_range p s r).
Proof.
  intros (Hq & Hlog & Hcov & Hphase) Hr Hfl Hto. rewrite Hr in Hphase.
  unfold range_ok in Hphase. rewrite Hfl in Hphase. cbn [length] in Hphase.
  destruct Hphase as (_ & Hold & Hto' & Hto32 & Hbefore). unfold finish_range.
  pose proof (checkpoint_saved (ps_db s) (r_to r) Waiting Hto32) as Hck.
  destruct (checkpoint p (ps_db s) (r_to r) Waiting) as [db' phase].
  destruct Hck as [Hsaved Hph].
  split; [done|]. split; [done|]. cbn [ps_db log ps_phase]. split.
  - intros b Hbb. destruct Hsaved as [Hs|Hs]; rewrite Hs in Hbb; [by apply Hcov|].
    apply Hbefore. lia.
  - destruct Hph as [-> | [res ->]]; done.
Qed.

Lemma step_inv c0 s s' : loop_inv c0 s -> step p parallel s s' -> loop_inv c0 s'.
Proof.
  intros Hinv Hstep. destruct Hstep.
  - by apply on_message_inv.
  - destruct Hinv as (Hq & ? & ? & _). rewrite H1 in Hq. apply Forall_cons in Hq as [_ Hq].
    by split.
  - destruct Hinv as (? & ? & ? & _). by split.
  - by apply start_inv.
  - by eapply statement_inv.
  - by apply take_inv.
  - destruct Hinv as (? & ? & ? & _). by split.
  - by apply finish_inv.
Qed.

(** ** Termination *)

Context `{!ProcessorLaws p}.

(** Messages left, whether a range is being processed, blocks left to start,
    and the work on the blocks in flight: each step decreases this measure. *)
Definition pending (l : list Task) : nat :=
  sum_list_with (fun t => S (length (t_todo t))) l.

Definition measure_of (s : PState) : nat * (nat * (nat * nat)) :=
  (length (ps_queue s),
   match ps_phase s with
   | Working r => (2, (Z.to_nat (r_to r + 1 - r_next r), pending (r_inflight r)))
   | Waiting => (1, (0, 0))
   | Halted _ => (0, (0, 0))
   end)%nat.

Definition lex {A B} (R : relation A) (S : relation B) : relation (A * B) := fun x y =>
  R x.1 y.1 \/ (x.1 = y.1 /\ S x.2 y.2).

Lemma lex_wf {A B} (R : relation A) (S : relation B) :
  well_founded R -> well_founded S -> well_founded (lex R S).
Proof.
  intros HR HS [a b]. revert b.
  induction (HR a) as [a _ IHa]. intros b. induction (HS b) as [b _ IHb].
  constructor. intros [a' b'] [Ha | [Ha Hb]]; cbn in *; [by apply IHa|]. subst. by apply IHb.
Qed.

Definition measure_lt : relation (nat * (nat * (nat * nat))) := lex lt (lex lt (lex lt lt)).

Lemma measure_lt_wf : well_founded measure_lt.
Proof. repeat apply lex_wf; apply lt_wf. Qed.

Lemma step_decreases s s' : step p parallel s s' -> measure_lt (measure_of s') (measure_of s).
Proof.
  intros Hstep.
  assert (Hphase : forall s db phase, ps_phase s = Waiting \/ (exists r, ps_phase s = Working r) ->
    phase = Waiting /\ (exists r, ps_phase s = Working r) \/ (exists r, phase = Halted r) ->
    measure_lt (measure_of (set_phase s db phase)) (measure_of s)).
  { intros s0 db phase Hs Hp. right. split; [done|]. left.
    destruct Hp as [[-> [r Hr]] | [r ->]]; cbn; [rewrite Hr; cbn; lia|].
    destruct Hs as [-> | [r' ->]]; cbn; lia. }
  destruct Hstep as [s m queue Hw Hq | s n queue Hw Hq | s queue Hw Hq | s r l res Hw Hn Hl Ht
    | s r before t after st rest db' res Hw Hfl Htodo Hst | s r t rest Hw Hfl Htodo Hres
    | s r t rest Hw Hfl Htodo Hres | s r Hw Hfl Hto].
  - left. unfold on_message. destruct (last_processed p (ps_db s)). cbn. rewrite Hq. cbn. lia.
  - left. cbn. rewrite Hq. cbn. lia.
  - apply Hphase; eauto.
  - right. split; [done|]. cbn. rewrite Hw. right. split; [done|]. left. cbn. lia.
  - right. split; [done|]. cbn. rewrite Hw. right. split; [done|]. right. split; [done|].
    cbn. rewrite Hfl. unfold pending. rewrite !sum_list_with_app. cbn. rewrite Htodo.
    unfold advance. destruct res; cbn; lia.
  - right. unfold take_block.
    destruct (if _ =? 0 then _ else _) as [db' phase] eqn:Hck. split; [done|]. cbn. rewrite Hw.
    assert (Hph : phase = Working {| r_next := r_next r; r_to := r_to r; r_inflight := rest |} \/
      exists x, phase = Halted x).
    { destruct (_ =? 0); [|injection Hck as _ <-; by left].
      unfold checkpoint in Hck. destruct (Ix.db _ _) as [? [[]| | |]]; injection Hck as _ <-; eauto. }
    destruct Hph as [-> | [x ->]].
    + right. split; [done|]. right. split; [done|]. cbn. rewrite Hfl. cbn. lia.
    + left. cbn. lia.
  - apply Hphase; eauto.
  - unfold finish_range, checkpoint. destruct (Ix.db _ _) as [db' [[]| | |]];
      match goal with |- measure_lt (measure_of {| ps_phase := ?ph |}) _ =>
        apply (Hphase s db' ph); [by eauto|] end; [left | right..]; eauto.
Qed.

(** The phases in which the loop has nothing left to do. *)
Definition settled (s : PState) : Prop :=
  (exists r, ps_phase s = Halted r) \/ (ps_phase s = Waiting /\ ps_queue s = []).

Lemma decide_settled s : settled s \/ ~ settled s.
Proof.
  unfold settled. destruct (ps_phase s) as [|r|res].
  - destruct (ps_queue s); [left; by right|]. right. by intros [[x [=]] | [_ [=]]].
  - right. by intros [[r' [=]] | [[=] _]].
  - left. left. by eexists.
Qed.

Lemma step_progress s :
  (0 < parallel)%nat -> ~ settled s -> exists s', step p parallel s s'.
Proof.
  intros Hpar Hs. destruct (ps_phase s) as [|r|res] eqn:Hw.
  - destruct (ps_queue s) as [|[m|[|n]] queue] eqn:Hq.
    + exfalso. apply Hs. by right.
    + eexists. by eapply step_recv.
    + eexists. by eapply step_closed.
    + eexists. by eapply step_lagged.
  - destruct (r_inflight r) as [|t rest] eqn:Hfl.
    + destruct (decide (r_next r <= r_to r)) as [Hle|Hgt].
      * destruct (task_exists (r_next r)) as (l & res & Ht).
        eexists. eapply step_start; [done..| |exact Ht]. by rewrite Hfl.
      * eexists. eapply step_finish; [done..|]. lia.
    + destruct (t_todo t) as [|st todo] eqn:Htodo.
      * destruct (t_result t) as [[]| | |] eqn:Hres.
        { eexists. by eapply step_take. }
        all: eexists; eapply step_fail; [done..|]; by rewrite Hres.
      * destruct (st (ps_db s)) as [db' res] eqn:Hst.
        eexists. by eapply (step_statement _ _ s r [] t rest).
  - exfalso. apply Hs. left. by eexists.
Qed.

Lemma decide_ok (r : outcome Ix.Error unit) : r = Ok tt \/ r <> Ok tt.
Proof. destruct r as [[]| | |]; [by left | by right..]. Qed.

(** ** The executable loop takes steps of the relation *)

Definition working (db : Db) (queue : list Recv) (l : list (Z * list Statement)) (r : Range) : PState :=
  {| ps_db := db; ps_queue := queue; ps_phase := Working r; log := l |}.

Lemma statements_steps db queue lg next to t l db' x :
  t_todo t = l -> run_statements l db = (db', x) ->
  exists t', rtc (step p parallel)
      (working db queue lg {| r_next := next; r_to := to; r_inflight := [t] |})
      (working db' queue lg {| r_next := next; r_to := to; r_inflight := [t'] |}) /\
    t_block t' = t_block t /\ t_todo t' = [] /\
    t_result t' = match x with
                  | Ok _ => t_result t
                  | Err e => Err (Ix.DB e)
                  | Panic => Panic
                  | Diverge => Diverge
                  end.
Proof.
  revert db t. induction l as [|st l IH]; intros db t Htodo Hrun.
  - injection Hrun as <- <-. exists t. split; [apply rtc_refl | done].
  - unfold run_statements in Hrun. cbn [for_each] in Hrun. rewrite SE_bind_unfold in Hrun.
    destruct (st db) as [db1 res] eqn:Hst.
    assert (Hstep : step p parallel
      (working db queue lg {| r_next := next; r_to := to; r_inflight := [t] |})
      (working db1 queue lg
         {| r_next := next; r_to := to; r_inflight := [advance t st l res] |})).
    { exact (step_statement p parallel
        (working db queue lg {| r_next := next; r_to := to; r_inflight := [t] |})
        {| r_next := next; r_to := to; r_inflight := [t] |} [] t [] st l db1 res
        eq_refl eq_refl Htodo Hst). }
    destruct res as [[]| | |].
    1: { destruct (IH db1 (advance t st l (Ok tt)) eq_refl Hrun) as (t' & Hsteps & Ht').
         exists t'. split; [by eapply rtc_l | exact Ht']. }
    all: injection Hrun as <- <-; eexists; (split; [by apply rtc_once | done]).
Qed.

Lemma block_steps db queue lg next to db' x :
  (0 < parallel)%nat -> next <= to -> process_and_checkpoint p next db = (db', x) ->
  exists lg' phase, rtc (step p parallel)
      (working db queue lg {| r_next := next; r_to := to; r_inflight := [] |})
      {| ps_db := db'; ps_queue := queue; ps_phase := phase; log := lg' |} /\
    phase = match x with
            | Ok _ => Working {| r_next := next + 1; r_to := to; r_inflight := [] |}
            | _ => Halted x
            end.
Proof.
  intros Hpar Hle Hrun. destruct (task_exists next) as (l & res & Ht).
  pose proof (task_ok _ _ _ Ht db) as Hblock.
  unfold process_and_checkpoint in Hrun. rewrite SE_bind_unfold, Hblock in Hrun.
  destruct (run_statements l db) as [db1 y] eqn:Hl.
  destruct (statements_steps db queue lg (next + 1) to
    {| t_block := next; t_ran := []; t_todo := l; t_result := res |} l db1 y eq_refl Hl)
    as (t' & Hsteps & Hb & Htodo & Hres). cbn in Hb, Hres.
  assert (Hstart : rtc (step p parallel)
    (working db queue lg {| r_next := next; r_to := to; r_inflight := [] |})
    (working db1 queue lg {| r_next := next + 1; r_to := to; r_inflight := [t'] |})).
  { eapply rtc_l; [|exact Hsteps].
    exact (step_start p parallel
      (working db queue lg {| r_next := next; r_to := to; r_inflight := [] |})
      {| r_next := next; r_to := to; r_inflight := [] |} l res eq_refl Hle Hpar Ht). }
  destruct (decide_ok (t_result t')) as [Hok|Hnok].
  - assert (Hy : y = Ok tt /\ res = Ok tt).
    { destruct y as [[]| | |]; rewrite Hok in Hres; try discriminate Hres. by split. }
    destruct Hy as [-> ->].
    exists (lg ++ [(next, t_ran t')]), (match x with
      | Ok _ => Working {| r_next := next + 1; r_to := to; r_inflight := [] |}
      | _ => Halted x end). split; [|done].
    eapply rtc_r; [exact Hstart|].
    pose proof (step_take p parallel
      (working db1 queue lg {| r_next := next + 1; r_to := to; r_inflight := [t'] |})
      {| r_next := next + 1; r_to := to; r_inflight := [t'] |} t' [] eq_refl eq_refl Htodo Hok)
      as Htake.
    unfold take_block in Htake. cbn [r_next r_to] in Htake. rewrite Hb in Htake.
    destruct (next mod CHECKPOINT_PROCESSED_BLOCK =? 0).
    + unfold checkpoint in Htake. cbn [ps_db working] in Htake. rewrite Hrun in Htake.
      destruct x as [[]| | |]; exact Htake.
    + injection Hrun as <- <-. exact Htake.
  - assert (Hx : x = t_result t' /\ db' = db1 /\ x <> Ok tt).
    { destruct y as [[]| | |]; cbn in Hrun, Hres; rewrite Hres in Hnok |- *;
        try (by injection Hrun as <- <-).
      destruct res as [[]| | |]; try done; by injection Hrun as <- <-. }
    destruct Hx as (-> & -> & _). exists lg. eexists. split.
    + eapply rtc_r; [exact Hstart|].
      exact (step_fail p parallel
        (working db1 queue lg {| r_next := next + 1; r_to := to; r_inflight := [t'] |})
        {| r_next := next + 1; r_to := to; r_inflight := [t'] |} t' [] eq_refl eq_refl Htodo Hnok).
    + by destruct (t_result t') as [[]| | |].
Qed.

Lemma range_steps db queue lg from to db' x :
  (0 < parallel)%nat -> from <= to + 1 ->
  for_each (range_incl from to) (process_and_checkpoint p) db = (db', x) ->
  exists lg' phase, rtc (step p parallel)
      (working db queue lg {| r_next := from; r_to := to; r_inflight := [] |})
      {| ps_db := db'; ps_queue := queue; ps_phase := phase; log := lg' |} /\
    phase = match x with
            | Ok _ => Working {| r_next := to + 1; r_to := to; r_inflight := [] |}
            | _ => Halted x
            end.
Proof.
  intros Hpar Hle. remember (Z.to_nat (to + 1 - from)) as k eqn:Hk.
  revert from db lg Hle Hk. induction k as [|k IH]; intros from db lg Hle Hk Hrun.
  - rewrite range_incl_empty in Hrun by lia. injection Hrun as <- <-.
    assert (from = to + 1) as -> by lia. eexists _, _. split; [apply rtc_refl | done].
  - rewrite range_incl_cons in Hrun by lia. cbn [for_each] in Hrun. rewrite SE_bind_unfold in Hrun.
    destruct (process_and_checkpoint p from db) as [db1 y] eqn:Hb.
    destruct (block_steps db queue lg from to db1 y Hpar ltac:(lia) Hb) as (lg1 & ph & Hsteps & ->).
    destruct y as [[]| | |].
    + destruct (IH (from + 1) db1 lg1 ltac:(lia) ltac:(lia) Hrun) as (lg2 & ph & Hsteps2 & Hph).
      exists lg2, ph. split; [by etransitivity | done].
    + injection Hrun as <- <-. eexists _, _. split; [exact Hsteps | done].
    + injection Hrun as <- <-. eexists _, _. split; [exact Hsteps | done].
    + injection Hrun as <- <-. eexists _, _. split; [exact Hsteps | done].
Qed.

(** The phase in which a message leaves the loop. *)
Definition phase_after (x : outcome Ix.Error unit) : Phase :=
  match x with Ok _ => Waiting | _ => Halted x end.

Lemma message_steps db m queue lg db' x :
  (0 < parallel)%nat -> handle_message p m db = (db', x) ->
  exists lg', rtc (step p parallel)
    {| ps_db := db; ps_queue := Received m :: queue; ps_phase := Waiting; log := lg |}
    {| ps_db := db'; ps_queue := queue; ps_phase := phase_after x; log := lg' |}.
Proof.
  intros Hpar Hrun. set (s0 := {| ps_db := db; ps_queue := Received m :: queue;
    ps_phase := Waiting; log := lg |}).
  pose proof (step_recv p parallel s0 m queue eq_refl eq_refl) as Hrecv.
  unfold on_message in Hrecv. unfold handle_message in Hrun. cbn [ps_db s0] in Hrecv.
  destruct (last_processed p db) as [db0 last].
  destruct (block_range last m) as [[from to]|e| |]; cbn iota beta in Hrecv.
  - destruct (Z.ltb_spec to from) as [Hlt|Hge].
    { injection Hrun as <- <-. exists lg. by apply rtc_once. }
    rewrite SE_bind_unfold in Hrun.
    destruct (for_each (range_incl from to) (process_and_checkpoint p) db0) as [db1 y] eqn:Hf.
    destruct (range_steps db0 queue lg from to db1 y Hpar ltac:(lia) Hf) as (lg1 & ph & Hsteps & ->).
    assert (Hstart : rtc (step p parallel) s0 {| ps_db := db1; ps_queue := queue; log := lg1;
      ps_phase := match y with
                  | Ok _ => Working {| r_next := to + 1; r_to := to; r_inflight := [] |}
                  | _ => Halted y end |}) by (eapply rtc_l; [exact Hrecv | exact Hsteps]).
    exists lg1. destruct y as [[]| | |]; try (by injection Hrun as <- <-; exact Hstart).
    eapply rtc_r; [exact Hstart|].
    pose proof (step_finish p parallel
      (working db1 queue lg1 {| r_next := to + 1; r_to := to; r_inflight := [] |})
      {| r_next := to + 1; r_to := to; r_inflight := [] |} eq_refl eq_refl ltac:(cbn; lia)) as Hfin.
    unfold finish_range, checkpoint in Hfin. cbn [ps_db working r_to] in Hfin.
    rewrite Hrun in Hfin. by destruct x as [[]| | |].
  - injection Hrun as <- <-. exists lg. by apply rtc_once.
  - injection Hrun as <- <-. exists lg. by apply rtc_once.
  - injection Hrun as <- <-. exists lg. by apply rtc_once.
Qed.

(** ** Properties *)

Definition start_state (db : Db) (queue : list Recv) : PState :=
  {| ps_db := db; ps_queue := queue; ps_phase := Waiting; log := [] |}.

Lemma start_loop_inv db queue :
  Forall recv_typed queue -> loop_inv (saved db) (start_state db queue).
Proof.
  intros Hq. split; [done|]. split; [|split; [|done]].
  - intros b sts Hin. by apply not_elem_of_nil in Hin.
  - intros b Hb. left. cbn in Hb. lia.
Qed.

Lemma inv_covers c0 s :
  loop_inv c0 s -> 0 <= c0 -> forall b, c0 < b <= saved (ps_db s) ->
    exists sts, (b, sts) ∈ log s /\ block_task p b sts (Ok tt).
Proof.
  intros (_ & Hlog & Hcov & _) Hc b Hb.
  destruct (Hcov b) as [Hle | [sts Hsts]]; [lia | lia|]. exists sts. split; [done|]. by apply Hlog.
Qed.

Lemma blocks_covered db queue s :
  Forall recv_typed queue -> rtc (step p parallel) (start_state db queue) s ->
  forall b, saved db < b <= saved (ps_db s) ->
    exists sts, (b, sts) ∈ log s /\ block_task p b sts (Ok tt).
Proof.
  intros Hq Hsteps. apply inv_covers; [|by destruct (saved_range db)].
  pose proof (start_loop_inv db queue Hq) as H0. revert H0.
  induction Hsteps as [|s1 s2 s3 H12 _ IH]; [done|]. intros H1. apply IH. by eapply step_inv.
Qed.

(** C7: no block is skipped. However the statements of the blocks in flight
    interleave, and wherever the loop or the process stops, every block above
    the first checkpoint and up to the current one has run all the statements
    of its handler, and ended well; so a restart from the checkpoint leaves out no
    height. (It can leave out a block: one that replaced an indexed block of its height in a
    reorganisation the processor had not finished, see [LostReorgs.restart_loses_reorg].) This
    holds across reorg messages, lagged receivers, failing statements and failing reads and writes
    of the checkpoint. *)
Theorem checkpoint_sound db queue s :
  Forall recv_typed queue -> rtc (step p parallel) (start_state db queue) s ->
  forall b, saved db < b <= saved (ps_db s) ->
    exists sts, (b, sts) ∈ log s /\ block_task p b sts (Ok tt).
Proof. exact (blocks_covered db queue s). Qed.

(** C14: the loop always comes to an end of its work: it cannot run forever on
    the messages it has, and as long as at least one block may be in flight it never gets
    stuck: it only stops when it has halted, or waits with no message left. *)
Theorem loop_settles s :
  Acc (fun s2 s1 => step p parallel s1 s2) s /\
  ((0 < parallel)%nat -> exists s', rtc (step p parallel) s s' /\ settled s').
Proof.
  assert (Hacc : forall s, Acc (fun s2 s1 => step p parallel s1 s2) s).
  { intros s0. remember (measure_of s0) as m eqn:Hm. revert s0 Hm.
    induction (measure_lt_wf m) as [m _ IH]. intros s0 ->. constructor. intros s1 Hstep.
    eapply IH; [by apply step_decreases | done]. }
  split; [done|]. intros Hpar. induction (Hacc s) as [s0 _ IH].
  destruct (decide_settled s0) as [Hs|Hs]; [by exists s0|].
  destruct (step_progress s0 Hpar Hs) as [s1 Hstep]. destruct (IH s1 Hstep) as (s2 & H12 & Hs2).
  exists s2. split; [by eapply rtc_l | done].
Qed.

(** C22: what a message asks for. Its range goes from behind the checkpoint for a message of
    one block; for a message of several, also from the lowest of its blocks, so that the
    blocks a reorg enacted below the checkpoint are processed again; up to its highest
    block; it never leaves a gap behind the checkpoint. A single block at or below
    the checkpoint, as after a switch to a sibling block of the same height, asks for
    an empty range, and nothing is indexed or checkpointed; a message without blocks
    and a checkpoint at the last block number panic. *)
Theorem message_blocks last m s queue :
  in_u 32 last ->
  (forall from to, Forall (fun b => in_u 32 (be_number b)) (blocks m) ->
     block_range last m = Ok (from, to) ->
     from <= last + 1 /\
     (forall b, b ∈ blocks m -> be_number b <= to) /\
     (length (blocks m) <> 1%nat -> forall b, b ∈ blocks m -> from <= be_number b) /\
     (length (blocks m) = 1%nat -> from = last + 1)) /\
  (forall b, blocks m = [b] -> last + 1 < 2 ^ 32 -> be_number b <= last ->
     (last_processed p (ps_db s)).2 = last ->
     ps_phase (on_message p s m queue) = Waiting /\
     tables (ps_db (on_message p s m queue)) = tables (ps_db s) /\
     log (on_message p s m queue) = log s) /\
  (blocks m = [] -> block_range last m = Panic) /\
  (last + 1 = 2 ^ 32 -> block_range last m = Panic).
Proof.
  intros Hlast. split; [|split; [|split]].
  - intros from to Hm Hr. apply block_range_Ok in Hr; [|done..]. tauto.
  - intros b Hb Hmax Hle Hl. unfold on_message.
    destruct (last_processed_spec (ps_db s)) as [Htab _].
    destruct (last_processed p (ps_db s)) as [db' l]. cbn in Hl, Htab |- *. subst l.
    unfold block_range. rewrite Hb. cbn. unfold add_u.
    rewrite (proj2 (Z.ltb_lt _ _)) by done. cbn.
    by rewrite (proj2 (Z.ltb_lt _ _)) by lia.
  - intros Hb. unfold block_range. by rewrite Hb.
  - intros Hmax. unfold block_range, add_u. rewrite Hmax, Z.ltb_irrefl.
    destruct (_ =? 1)%nat; [done|].
    destruct (minimum _); [|done]. by destruct (maximum _).
Qed.

Lemma run_processor_steps db stream db' x :
  (0 < parallel)%nat -> run_processor p stream db = (db', x) ->
  exists s, rtc (step p parallel) (start_state db stream) s /\
    ps_db s = db' /\ ps_phase s = phase_after x /\ (x = Ok tt -> ps_queue s = []).
Proof.
  intros Hpar. unfold start_state. generalize ([] : list (Z * list Statement)) as lg.
  revert db. induction stream as [|[m|[|n]] stream IH]; intros db lg Hrun.
  - injection Hrun as <- <-. eexists. split; [apply rtc_refl | done].
  - cbn [run_processor] in Hrun. rewrite SE_bind_unfold in Hrun.
    destruct (handle_message p m db) as [db1 y] eqn:Hm.
    destruct (message_steps db m stream lg db1 y Hpar Hm) as [lg1 Hsteps].
    destruct y as [[]| | |].
    1: { destruct (IH db1 lg1 Hrun) as (s & Hs & Hdb & Hph & Hq).
         exists s. split; [by etransitivity | done]. }
    all: injection Hrun as <- <-; eexists; (split; [exact Hsteps | done]).
  - injection Hrun as <- <-. eexists. split.
    + eapply rtc_once. by eapply step_closed.
    + done.
  - destruct (IH db lg Hrun) as (s & Hs & Hrest). exists s. split; [|done].
    eapply rtc_l; [|exact Hs]. by eapply (step_lagged _ _ {| ps_queue := _ |}).
Qed.

End Loop.

(** ** Witnesses *)

#[local] Instance no_transfers : TransferCodec := { decode_transfer := throw (CodecMessage "none") }.

(** A chain of three blocks without transfers. *)
Definition quiet_client : Client := toy_client [] [] 100 [].
Definition quiet : BlockProcessor := XdmProcessor on_b quiet_client Consensus.

Definition block (sh : SubstrateHeader) : BlockExt := {|
  be_number := s_number sh; be_hash := toy_id sh; be_parent_hash := s_parent_hash sh;
  be_state_root := s_state_root sh; be_extrinsics_root := s_extrinsics_root sh |}.
Definition message (l : list SubstrateHeader) : BlocksExt :=
  {| blocks := block <$> l; maybe_reorg_data := None |}.

Definition quiet_stream : list Recv :=
  [Received (message [b1]); RecvFailed (Lagged 1); Received (message [b1; b2; b3])].

Definition quiet_end : Db := (run_processor quiet quiet_stream (clean_db no_tables)).1.

Lemma quiet_run :
  run_processor quiet quiet_stream (clean_db no_tables) = (quiet_end, Ok tt) /\
  saved quiet quiet_end = 3.
Proof. split; vm_compute; reflexivity. Qed.

Lemma quiet_typed : Forall recv_typed quiet_stream.
Proof. repeat constructor; cbn; lia. Qed.

(** One message, with its block started and taken. *)
Lemma checkpoint_sound_witness :
  exists s, rtc (step quiet 4) (start_state (clean_db no_tables) [Received (message [b1])]) s /\
    saved quiet (ps_db s) = 1 /\
    exists sts, (1, sts) ∈ log s /\ block_task quiet 1 sts (Ok tt).
Proof.
  assert (Htask : block_task quiet 1 [] (Ok tt)).
  { split; vm_compute; reflexivity. }
  eexists. split; [|split].
  - eapply rtc_l; [by eapply step_recv|]. eapply rtc_l; [eapply step_start; [reflexivity|..]|].
    + vm_compute. discriminate.
    + cbn. lia.
    + exact Htask.
    + eapply rtc_l; [by eapply step_take|]. eapply rtc_l; [by eapply step_finish|].
      apply rtc_refl.
  - vm_compute. reflexivity.
  - eapply (checkpoint_sound quiet 4 (clean_db no_tables) [Received (message [b1])]).
    + repeat constructor; cbn; lia.
    + eapply rtc_l; [by eapply step_recv|]. eapply rtc_l; [eapply step_start; [reflexivity|..]|].
      * vm_compute. discriminate.
      * cbn. lia.
      * exact Htask.
      * eapply rtc_l; [by eapply step_take|]. eapply rtc_l; [by eapply step_finish|].
        apply rtc_refl.
    + vm_compute. split; [reflexivity | discriminate].
Defined.

Lemma loop_settles_witness :
  exists s, rtc (step quiet 4) (start_state (clean_db no_tables) quiet_stream) s /\ settled s.
Proof.
  exact (proj2 (loop_settles quiet 4 (start_state (clean_db no_tables) quiet_stream)) ltac:(lia)).
Defined.

Lemma message_blocks_witness :
  2 <= be_number (block b2) /\
  ps_phase (on_message quiet (start_state quiet_end []) (message [b3]) []) = Waiting.
Proof.
  split.
  - refine (proj1 (proj2 (proj2 (proj1 (message_blocks quiet 5 (message [b2; b3])
      (start_state quiet_end []) [] ltac:(split; lia)) 2 3 _ eq_refl))) ltac:(cbn; lia) (block b2) _).
    + repeat constructor; cbn; lia.
    + left.
  - refine (proj1 (proj1 (proj2 (message_blocks quiet 3 (message [b3]) (start_state quiet_end []) []
      ltac:(split; lia))) (block b3) eq_refl _ _ _)).
    + lia.
    + cbn. lia.
    + vm_compute. reflexivity.
Defined.
