(* ===== verification/StatusRace.v ===== *)
(** * The status of an operator depends on the scheduling

    Blocks in flight run their statements in any order. The statements on deposits,
    withdrawals and nominators carry the height of their block and do not mind; the
    status of an operator is written without one ([update_operator_status]), so that
    of two blocks in flight that change the same operator the older one may win. *)

From S2P Require Import Prelude HeadersCache TreeRoute BlockListener ToyChain Scale ScaleLE.
From S2P Require Import RpcTypes Types Events Chain Db IndexerError ToyIndexer DbXdm Staking.
From S2P Require Import StakingFacts StakingProps Xdm Processor Processors.

Section Schedules.
Context `{ChainTypes} (p : BlockProcessor) (parallel : nat).

(** A block in flight may run all that is left of it. *)
Lemma steps_run s next to before b ran l res after db' :
  ps_phase s = Working {| r_next := next; r_to := to; r_inflight := before ++
    {| t_block := b; t_ran := ran; t_todo := l; t_result := res |} :: after |} ->
  run_statements l (ps_db s) = (db', Ok tt) ->
  rtc (step p parallel) s (set_phase s db' (Working {| r_next := next; r_to := to;
    r_inflight := before ++
      {| t_block := b; t_ran := ran ++ l; t_todo := []; t_result := res |} :: after |})).
Proof.
  revert s ran. induction l as [|st l IH]; intros s ran Hs Hrun.
  - injection Hrun as <-. rewrite app_nil_r, <- Hs. by destruct s.
  - unfold run_statements in Hrun. cbn [for_each] in Hrun. rewrite SE_bind_unfold in Hrun.
    destruct (st (ps_db s)) as [db1 [[]| | |]] eqn:Hst; try done.
    eapply rtc_l; [by eapply step_statement|]. 
    replace (ran ++ st :: l) with ((ran ++ [st]) ++ l) by by rewrite <- app_assoc.
    exact (IH (set_phase s db1 _) (ran ++ [st]) eq_refl Hrun).
Qed.

(** Blocks [b] and [b + 1] in flight, the last of the range. *)
Definition two_in_flight (b : Z) (ran1 todo1 ran2 todo2 : list Statement) : Phase :=
  Working {| r_next := b + 1 + 1; r_to := b + 1; r_inflight := [
    {| t_block := b; t_ran := ran1; t_todo := todo1; t_result := Ok tt |};
    {| t_block := b + 1; t_ran := ran2; t_todo := todo2; t_result := Ok tt |} ] |}.

Lemma steps_first s b l ran2 todo2 db' :
  ps_phase s = two_in_flight b [] l ran2 todo2 -> run_statements l (ps_db s) = (db', Ok tt) ->
  rtc (step p parallel) s (set_phase s db' (two_in_flight b l [] ran2 todo2)).
Proof. intros Hs Hrun. exact (steps_run s _ _ [] b [] l _ [_] db' Hs Hrun). Qed.

Lemma steps_second s b l ran1 todo1 db' :
  ps_phase s = two_in_flight b ran1 todo1 [] l -> run_statements l (ps_db s) = (db', Ok tt) ->
  rtc (step p parallel) s (set_phase s db' (two_in_flight b ran1 todo1 l [])).
Proof. intros Hs Hrun. exact (steps_run s _ _ [_] (b + 1) [] l _ [] db' Hs Hrun). Qed.

(** On a running connection a checkpoint succeeds and keeps the operators. *)
Lemma checkpoint_clean db block next :
  faults db = [] -> exists db', checkpoint p db block next = (db', next) /\ faults db' = [] /\
    operators (tables db') = operators (tables db) /\
    metadata (tables db') !! checkpoint_key p = Some (as_i 64 block).
Proof.
  intros Hf. unfold checkpoint, Ix.db, set_last_processed_block. rewrite run_clean by done. cbn.
  eexists. split; [reflexivity|]. cbn. split_and!; [done..|].
  unfold upsert. rewrite lookup_insert_eq. by destruct (metadata (tables db) !! _).
Qed.

Lemma take_clean s r t rest :
  faults (ps_db s) = [] -> exists db', take_block p s r t rest = {|
      ps_db := db'; ps_queue := ps_queue s;
      ps_phase := Working {| r_next := r_next r; r_to := r_to r; r_inflight := rest |};
      log := log s ++ [(t_block t, t_ran t)] |} /\
    faults db' = [] /\ operators (tables db') = operators (tables (ps_db s)).
Proof.
  intros Hf. unfold take_block. destruct (_ =? 0); [|by eexists].
  match goal with |- context [checkpoint p _ ?b ?n] =>
    destruct (checkpoint_clean (ps_db s) b n Hf) as (db' & -> & ? & ? & _) end.
  by exists db'.
Qed.

(** When both blocks have run, they are taken in their order, and the range ends. *)
Lemma steps_take_two s b l1 l2 :
  ps_phase s = two_in_flight b l1 [] l2 [] ->
  faults (ps_db s) = [] ->
  exists s', rtc (step p parallel) s s' /\ ps_phase s' = Waiting /\
    log s' = log s ++ [(b, l1); (b + 1, l2)] /\
    operators (tables (ps_db s')) = operators (tables (ps_db s)) /\
    metadata (tables (ps_db s')) !! checkpoint_key p = Some (as_i 64 (b + 1)).
Proof.
  intros Hs Hf.
  pose proof (step_take p parallel s _ _ _ Hs eq_refl eq_refl eq_refl) as Hstep1.
  match type of Hstep1 with step _ _ _ (take_block _ _ ?r ?t ?rest) =>
    destruct (take_clean s r t rest Hf) as (db1 & Ht1 & Hf1 & Ho1) end.
  rewrite Ht1 in Hstep1. clear Ht1. cbn [t_block t_ran r_next r_to] in Hstep1.
  match type of Hstep1 with step _ _ _ ?s1' => set (s1 := s1') in * end.
  pose proof (step_take p parallel s1 _ _ _ eq_refl eq_refl eq_refl eq_refl) as Hstep2.
  match type of Hstep2 with step _ _ _ (take_block _ _ ?r ?t ?rest) =>
    destruct (take_clean s1 r t rest Hf1) as (db2 & Ht2 & Hf2 & Ho2) end.
  rewrite Ht2 in Hstep2. clear Ht2. cbn [t_block t_ran r_next r_to] in Hstep2.
  match type of Hstep2 with step _ _ _ ?s2' => set (s2 := s2') in * end.
  assert (Hstep3 : step p parallel s2 (finish_range p s2
    {| r_next := b + 1 + 1; r_to := b + 1; r_inflight := [] |}))
    by (apply step_finish; [done | done | cbn; lia]).
  unfold finish_range in Hstep3. cbn [r_to] in Hstep3.
  destruct (checkpoint_clean db2 (b + 1) Waiting Hf2) as (db3 & Hc & _ & Ho3 & Hm).
  change (ps_db s2) with db2 in Hstep3. rewrite Hc in Hstep3.
  eexists. split; [eapply rtc_l; [exact Hstep1|]; eapply rtc_l; [exact Hstep2|];
    by eapply rtc_once|].
  cbn. split_and!; [done | | by rewrite Ho3, Ho2 | done].
  by rewrite <- app_assoc.
Qed.
End Schedules.

(** ** Two changes of one operator's status *)

Section Race.
Context `{ChainTypes, ScaleCodec, !ScaleLaws, EventCodec, Twox, TextCodecs, !HashBytes, DecimalLib,
  Chrono, TransferCodec}.
Context (node : RpcNode) (client : Client).

(** The statements of a block whose only staking event changes a status. *)
Definition status_block (b id : Z) (status : string) : list Action :=
  [ADeleteDeposits b; ADeleteWithdrawals b; AUpdateStatus id status].

Lemma status_block_clean b id status db :
  faults db = [] -> exists db',
    run_statements (exec <$> status_block b id status) db = (db', Ok tt) /\ faults db' = [] /\
    operators (tables db') =
      alter (set_operator_status status (now db)) (as_i 64 id) (operators (tables db)) /\
    now db' = now db.
Proof.
  intros Hf. eexists. rewrite run_statements_exec. unfold exec_all, status_block.
  cbn [for_each exec]. unfold delete_deposits_for_block, delete_withdrawals_for_block,
    update_operator_status.
  rewrite !SE_bind_unfold, run_clean by done. cbn [mret outcome_ret].
  rewrite !SE_bind_unfold, run_clean by done. cbn [mret outcome_ret].
  rewrite !SE_bind_unfold, run_clean by done. cbn. by split_and!.
Qed.

(** C36: the status of an operator is not ordered by height. When two consecutive blocks in
    flight change the status of one operator, the processor can end the range, with
    both blocks in its log and the checkpoint on the second, with either status in the
    table: that of the second block, or that of the first, which nothing will
    correct. *)
Theorem status_follows_scheduling parallel s b id st1 st2 o :
  (2 <= parallel)%nat -> faults (ps_db s) = [] ->
  ps_phase s = Working {| r_next := b; r_to := b + 1; r_inflight := [] |} ->
  block_task (StakingProcessor node client) b (exec <$> status_block b id st1) (Ok tt) ->
  block_task (StakingProcessor node client) (b + 1) (exec <$> status_block (b + 1) id st2) (Ok tt) ->
  operators (tables (ps_db s)) !! as_i 64 id = Some o ->
  forall status, status ∈ [st1; st2] -> exists s',
    rtc (step (StakingProcessor node client) parallel) s s' /\ ps_phase s' = Waiting /\
    map fst (log s') = map fst (log s) ++ [b; b + 1] /\
    metadata (tables (ps_db s')) !! CHECKPOINT_KEY = Some (as_i 64 (b + 1)) /\
    op_status <$> operators (tables (ps_db s')) !! as_i 64 id = Some status.
Proof.
  intros Hpar Hf Hs Ht1 Ht2 Ho status Hstatus. set (p := StakingProcessor node client) in *.
  set (l1 := exec <$> status_block b id st1) in *.
  set (l2 := exec <$> status_block (b + 1) id st2) in *.
  assert (Hfirst : rtc (step p parallel) s (set_phase s (ps_db s) (two_in_flight b [] l1 [] l2))).
  { eapply rtc_l.
    - apply (step_start p parallel s _ l1 (Ok tt) Hs); [cbn; lia | cbn; lia | exact Ht1].
    - apply rtc_once.
      match goal with |- step _ _ ?s1 _ =>
        apply (step_start p parallel s1 _ l2 (Ok tt) eq_refl); [cbn; lia | cbn; lia | exact Ht2] end. }
  assert (Hend : forall db, faults db = [] ->
    rtc (step p parallel) s (set_phase s db (two_in_flight b l1 [] l2 [])) ->
    op_status <$> operators (tables db) !! as_i 64 id = Some status ->
    exists s', rtc (step p parallel) s s' /\ ps_phase s' = Waiting /\
      map fst (log s') = map fst (log s) ++ [b; b + 1] /\
      metadata (tables (ps_db s')) !! CHECKPOINT_KEY = Some (as_i 64 (b + 1)) /\
      op_status <$> operators (tables (ps_db s')) !! as_i 64 id = Some status).
  { intros db Hfdb Hsteps Hst.
    destruct (steps_take_two p parallel (set_phase s db (two_in_flight b l1 [] l2 [])) b l1 l2
      eq_refl Hfdb) as (s' & Hrun & Hw & Hlog & Hops & Hm).
    exists s'. split; [by etrans|]. split; [done|].
    split; [by rewrite Hlog, map_app|]. split; [done|]. by rewrite Hops. }
  apply list_elem_of_In in Hstatus as [<- | [<- | []]].
  - destruct (status_block_clean (b + 1) id st2 (ps_db s) Hf) as (db1 & Hr1 & Hf1 & Ho1 & _).
    destruct (status_block_clean b id st1 db1 Hf1) as (db2 & Hr2 & Hf2 & Ho2 & _).
    apply (Hend db2 Hf2); [|by rewrite Ho2, Ho1, !lookup_alter_eq, Ho].
    etrans; [exact Hfirst|].
    etrans; [exact (steps_second p parallel (set_phase s (ps_db s) (two_in_flight b [] l1 [] l2)) b l2
      _ _ db1 eq_refl Hr1)|].
    exact (steps_first p parallel (set_phase s db1 (two_in_flight b [] l1 l2 [])) b l1 _ _ db2
      eq_refl Hr2).
  - destruct (status_block_clean b id st1 (ps_db s) Hf) as (db1 & Hr1 & Hf1 & Ho1 & _).
    destruct (status_block_clean (b + 1) id st2 db1 Hf1) as (db2 & Hr2 & Hf2 & Ho2 & _).
    apply (Hend db2 Hf2); [|by rewrite Ho2, Ho1, !lookup_alter_eq, Ho].
    etrans; [exact Hfirst|].
    etrans; [exact (steps_first p parallel (set_phase s (ps_db s) (two_in_flight b [] l1 [] l2)) b l1
      _ _ db1 eq_refl Hr1)|].
    exact (steps_second p parallel (set_phase s db1 (two_in_flight b l1 [] [] l2)) b l2 _ _ db2
      eq_refl Hr2).
Qed.
End Race.

(** ** Witness: operator 3 is deactivated in block 1 and reactivated in block 2 *)

Definition status_event (k : EventKind) (e : event_of k) : outcome string EventDetails :=
  Ok (event k e).

Definition race_client : Client :=
  let c := toy_client [(q "Timestamp" "Now" [], encode_u64 1700000000000)] [] 100 [] in {|
  cl_fetch := cl_fetch c;
  cl_iter := cl_iter c;
  cl_events h := Ok [if bool_decide (h = toy_id a1)
                     then status_event KOperatorDeactivated {| oe_operator_id := 3 |}
                     else status_event KOperatorReactivated {| oe_operator_id := 3 |}];
  cl_segment_size := cl_segment_size c;
  cl_fetch_value := cl_fetch_value c;
  cl_decode_events := cl_decode_events c |}.

Definition operator_3 : Operator := {|
  op_domain_id := 0; op_owner_account := "5A"; op_signing_key := "0x";
  op_minimum_nominator_stake := 0; op_nomination_tax := 5; op_status := "registered";
  op_total_stake := 0; op_total_shares := 0; op_total_storage_fee_deposit := 0;
  op_updated_at := 0; op_nominator_count := 0 |}.

Definition race_start : PState := {|
  ps_db := {| tables := with_operators (fun _ => {[3 := operator_3]}) no_tables;
              faults := []; now := 0 |};
  ps_queue := [];
  ps_phase := Working {| r_next := 1; r_to := 2; r_inflight := [] |};
  log := [] |}.

Lemma traced_status status (e : OperatorEvent) :
  traced (for_events [Ok e] (on_status status)) [AUpdateStatus (oe_operator_id e) status] (Ok tt).
Proof.
  apply (traced_bind_ok (e ← Ix.decoded (Ok e); on_status status e)
    [AUpdateStatus (oe_operator_id e) status] (mret tt) []); [|apply traced_ret].
  apply (traced_lift _ _ e); [done|]. by apply traced_exec.
Qed.

(** The parts of the handler, in turn: reads that give values, the two deletions, loops over
    no events, and the loop over the one event. *)
Ltac trace_step :=
  first
    [ eapply traced_lift; [vm_compute; reflexivity|]
    | eapply (traced_bind_ok _ []); [by intros ?|]
    | eapply (traced_bind_ok _ [_]); [by apply traced_exec; intros ?|]
    | eapply (traced_bind_ok _ [_]); [exact (traced_status _ {| oe_operator_id := 3 |})|] ].

Lemma race_task_1 :
  traced (index_staking_for_block on_a race_client 1) (status_block 1 3 "deactivated") (Ok tt).
Proof.
  unfold index_staking_for_block, Ix.chain. do 6 trace_step. unfold index_staking_events.
  do 10 trace_step. by intros ?.
Qed.

Lemma race_task_2 :
  traced (index_staking_for_block on_a race_client 2) (status_block 2 3 "registered") (Ok tt).
Proof.
  unfold index_staking_for_block, Ix.chain. do 6 trace_step. unfold index_staking_events.
  do 10 trace_step. by intros ?.
Qed.

#[local] Instance race_transfers : TransferCodec := { decode_transfer := throw (CodecMessage "none") }.

Lemma status_follows_scheduling_witness :
  exists s', rtc (step (StakingProcessor on_a race_client) 1000) race_start s' /\
    ps_phase s' = Waiting /\
    metadata (tables (ps_db s')) !! CHECKPOINT_KEY = Some 2 /\
    op_status <$> operators (tables (ps_db s')) !! 3 = Some "deactivated".
Proof.
  destruct (status_follows_scheduling on_a race_client 1000 race_start 1 3 "deactivated" "registered"
    operator_3) with (status := "deactivated") as (s' & Hs' & Hw & _ & Hm & Hst).
  - lia.
  - reflexivity.
  - reflexivity.
  - exists (status_block 1 3 "deactivated"). split; [reflexivity|].
    split; [exact race_task_1 | repeat constructor].
  - exists (status_block 2 3 "registered"). split; [reflexivity|].
    split; [exact race_task_2 | repeat constructor].
  - reflexivity.
  - left.
  - exists s'. split; [exact Hs'|]. split; [exact Hw|]. split; [exact Hm | exact Hst].
Defined.
