(* ===== verification/Follow.v ===== *)
(** * A processor behind a node that moves

    The node's best chain changes while a processor works: the listener tells the
    processor about every change, but a block is read from the node as it is
    when the block is started, which may be ahead of what the processor has heard, and
    other programs write to the same database. [World] adds both to the
    processing loop. What is shown here is independent of what a processor stores: for
    a processor with the laws of [Indexing] that hears of every change
    ([extends]), the database is right for every block of the node's last chain once the
    processor is at rest. [HeightIndexing] are simpler laws, for data that is kept per height. *)

From S2P Require Import Prelude HeadersCache TreeRoute BlockListener Types Chain Db.
From S2P Require Import IndexerError DbXdm Processor ProcessorProps.

(** ** What a processor leaves in the database

    [P k] is the processor while the node has its [k]-th chain, up to the [n]-th, and
    [chain k h] what that chain has at height [h]. [good m (chain k h) h db]: the database is right
    for this block as long as only chains from the [m]-th on are indexed after it;
    [part m k b ran db]: it is so for the statements [ran] of the block the [k]-th chain has at [b]. [keeps] is what
    other writers of the database do. *)
Class Indexing `{ChainTypes} {A : Type} (P : nat -> BlockProcessor) (chain : nat -> Z -> A) (n : nat)
    (keeps : relation Db) (good : nat -> A -> Z -> Db -> Prop)
    (part : nat -> nat -> Z -> list Statement -> Db -> Prop) : Prop := {
  ix_laws k : TaskLaws (P k);
  ix_key k : checkpoint_key (P k) = checkpoint_key (P 0%nat);
  ix_read db db' : tables db' = tables db -> keeps db db';
  ix_checkpoint c db : keeps db (set_last_processed_block (checkpoint_key (P 0%nat)) c db).1;
  (** Other writers do no harm, *)
  ix_good_keeps m a h db db' : in_u 32 h -> keeps db db' -> good m a h db -> good m a h db';
  ix_part_keeps m k b l db db' : in_u 32 b -> keeps db db' -> part m k b l db -> part m k b l db';
  (** and neither do the statements of another block of a chain that is not older. *)
  ix_good_other m a h k b l r st db : (m <= k <= n)%nat -> in_u 32 b -> in_u 32 h -> h <> b ->
    block_task (P k) b l r -> st ∈ l -> good m a h db -> good m a h (st db).1;
  ix_part_other m i h ran k b l r st db : (m <= k <= n)%nat -> in_u 32 b -> in_u 32 h -> h <> b ->
    block_task (P k) b l r -> st ∈ l -> part m i h ran db -> part m i h ran (st db).1;
  (** The statements of a block run one by one, and once all have, it is right. *)
  ix_nil m k b db : part m k b [] db;
  ix_run m k b ran st rest db db' : (m <= k <= n)%nat -> in_u 32 b ->
    block_task (P k) b (ran ++ st :: rest) (Ok tt) -> part m k b ran db -> st db = (db', Ok tt) ->
    part m k b (ran ++ [st]) db';
  ix_task m k b l db : (m <= k <= n)%nat -> in_u 32 b -> block_task (P k) b l (Ok tt) ->
    part m k b l db -> good m (chain k b) b db;
}.

(** ** The world of a processor *)

Section World.
Context `{ChainTypes} (P : nat -> BlockProcessor) (parallel : nat) (msgs : list BlocksExt).

(** The chain the node has, by the number of messages that led to it, and the processor. *)
Record World : Type := { w_view : nat; w_state : PState }.

(** How many messages the processor has taken. *)
Definition received (s : PState) : nat := (length msgs - length (ps_queue s))%nat.

Definition with_db (s : PState) (db : Db) : PState := set_phase s db (ps_phase s).

(** Other writers keep the processor's checkpoint and its data. *)
Definition apart (keeps : relation Db) (db db' : Db) : Prop :=
  metadata (tables db') !! checkpoint_key (P 0%nat) =
    metadata (tables db) !! checkpoint_key (P 0%nat) /\ keeps db db'.

Inductive world_step (keeps : relation Db) : World -> World -> Prop :=
  (** The node moves on to a later chain. *)
  | world_moves v v' s :
      (v <= v' <= length msgs)%nat ->
      world_step keeps {| w_view := v; w_state := s |} {| w_view := v'; w_state := s |}
  (** The processor takes a step against the chain the node has; a message is only
      received after the node has moved. *)
  | world_runs v s s' :
      step (P v) parallel s s' -> (received s' <= v)%nat ->
      world_step keeps {| w_view := v; w_state := s |} {| w_view := v; w_state := s' |}
  (** Another program writes to the database. *)
  | world_writes v s db' :
      apart keeps (ps_db s) db' ->
      world_step keeps {| w_view := v; w_state := s |}
        {| w_view := v; w_state := with_db s db' |}.

(** Once the node has its last chain, the world runs as the processor does. *)
Lemma world_runs_on keeps s s' :
  rtc (step (P (length msgs)) parallel) s s' ->
  rtc (world_step keeps) {| w_view := length msgs; w_state := s |}
    {| w_view := length msgs; w_state := s' |}.
Proof.
  induction 1 as [s | s1 s2 s3 H12 _ IH]; [apply rtc_refl|].
  eapply rtc_l; [|exact IH]. apply world_runs; [done|]. unfold received. lia.
Qed.

(** ** What ran

    The processor against whichever chain the node has: all its runs in the world are runs of
    the loop, with writes of others in between. *)
Definition anytime : BlockProcessor := {|
  process_block := process_block (P 0%nat);
  checkpoint_key := checkpoint_key (P 0%nat);
  block_task b l r := exists k, block_task (P k) b l r |}.

Hypothesis Hkey : forall k, checkpoint_key (P k) = checkpoint_key (P 0%nat).
Hypothesis Hlaws : forall k, TaskLaws (P k).

#[local] Instance anytime_tasks : TaskLaws anytime.
Proof. split. intros b l r [k Ht]. by apply (task_keeps (TaskLaws := Hlaws k) b l r). Qed.

Lemma step_anytime v s s' : step (P v) parallel s s' -> step anytime parallel s s'.
Proof.
  assert (Hck : forall db n next, checkpoint (P v) db n next = checkpoint anytime db n next).
  { intros db n next. unfold checkpoint. by rewrite (Hkey v). }
  destruct 1 as [s m queue | | | s r l res | | s r t rest | | s r].
  - replace (on_message (P v) s m queue) with (on_message anytime s m queue); [by apply step_recv|].
    unfold on_message, last_processed. by rewrite (Hkey v).
  - by eapply step_lagged.
  - by eapply step_closed.
  - apply step_start; [done..|]. by exists v.
  - by eapply step_statement.
  - replace (take_block (P v) s r t rest) with (take_block anytime s r t rest);
      [by apply step_take|].
    unfold take_block. by rewrite Hck.
  - by eapply step_fail.
  - replace (finish_range (P v) s r) with (finish_range anytime s r); [by apply step_finish|].
    unfold finish_range. by rewrite Hck.
Qed.

Lemma world_covered keeps db queue v w :
  Forall recv_typed queue ->
  rtc (world_step keeps) {| w_view := v; w_state := start_state db queue |} w ->
  forall b, saved (P 0%nat) db < b <= saved (P 0%nat) (ps_db (w_state w)) ->
    exists k sts, (b, sts) ∈ log (w_state w) /\ block_task (P k) b sts (Ok tt).
Proof.
  intros Hq Hsteps b Hb.
  assert (Hinv : loop_inv anytime (saved anytime db) (w_state w)).
  { pose proof (start_loop_inv anytime db queue Hq) as H0.
    change (start_state db queue) with (w_state {| w_view := v; w_state := start_state db queue |})
      in H0. revert H0. clear b Hb.
    induction Hsteps as [|w1 w2 w3 H12 _ IH]; [done|]. intros H1. apply IH.
    destruct H12 as [| v1 s s' Hs _ | v1 s db' [Hmeta _]]; [done | |].
    - eapply (step_inv anytime parallel); [done|]. by eapply step_anytime.
    - destruct H1 as (Hqq & Hlog & Hcov & Hph). split; [done|]. split; [done|]. cbn in *.
      split; [|done]. unfold saved in *. cbn [checkpoint_key anytime] in *. by rewrite Hmeta. }
  destruct (inv_covers anytime _ _ Hinv ltac:(by destruct (saved_range anytime db)) b Hb)
    as (sts & Hin & [k Hk]).
  by exists k, sts.
Qed.
End World.

(** ** The messages

    [top k] is the height of the [k]-th chain. Message [j] leads from chain [j] to the next:
    the two agree up to [base], the blocks of the message are all heights above it, and a
    message of one block is an extension: a switch to another branch has several. *)
Record extends {A} `{ChainTypes} (chain : nat -> Z -> A) (top : nat -> Z) (j : nat)
    (m : BlocksExt) (base : Z) : Prop := {
  ex_typed : Forall (fun b => in_u 32 (be_number b)) (blocks m);
  ex_base : 0 <= base <= top j;
  ex_same : forall h, 1 <= h <= base -> chain (S j) h = chain j h;
  ex_range : forall b, b ∈ blocks m -> base < be_number b <= top (S j);
  ex_first : exists b, b ∈ blocks m /\ be_number b = base + 1;
  ex_last : exists b, b ∈ blocks m /\ be_number b = top (S j);
  ex_single : length (blocks m) = 1%nat -> base = top j;
}.

Section Following.
Context `{ChainTypes} {A : Type} (P : nat -> BlockProcessor) (chain : nat -> Z -> A)
  (msgs : list BlocksExt) (keeps : relation Db) (good : nat -> A -> Z -> Db -> Prop)
  (part : nat -> nat -> Z -> list Statement -> Db -> Prop)
  `{!Indexing P chain (length msgs) keeps good part}.
Context (parallel : nat) (top : nat -> Z).
Hypothesis Hmsgs : forall j m, msgs !! j = Some m -> exists base, extends chain top j m base.

Lemma saved_key k db : saved (P k) db = saved (P 0%nat) db.
Proof. unfold saved. by rewrite (ix_key k). Qed.

(** The database is right for the block a chain [k] has at height [h], as long as only
    chains from the [m]-th on are indexed, which have the same block there, up to the [j]-th. *)
Definition current (j : nat) (h : Z) (db : Db) : Prop :=
  exists m k, (m <= j)%nat /\ (m <= k <= length msgs)%nat /\ good m (chain k h) h db /\
    forall i, (m <= i <= j)%nat -> chain i h = chain m h.

(** The block in flight at height [b] is its handler against a chain at least as new as [j],
    partly run. *)
Definition follows (j : nat) (db : Db) (b : Z) (t : Task) : Prop :=
  t_block t = b /\ exists k l r, (j <= k <= length msgs)%nat /\ block_task (P k) b l r /\
    (forall st, st ∈ t_todo t -> st ∈ l) /\
    (t_result t = Ok tt -> r = Ok tt /\ l = t_ran t ++ t_todo t /\ part j k b (t_ran t) db).

Fixpoint all_follow (j : nat) (db : Db) (b : Z) (l : list Task) : Prop :=
  match l with
  | [] => True
  | t :: l' => follows j db b t /\ all_follow j db (b + 1) l'
  end.

Definition world_range (j : nat) (db : Db) (r : Range) : Prop :=
  let oldest := r_next r - Z.of_nat (length (r_inflight r)) in
  all_follow j db oldest (r_inflight r) /\ 0 <= oldest /\ r_next r <= r_to r + 1 /\
  in_u 32 (r_to r) /\ r_to r = top j /\
  forall h, 1 <= h < oldest -> current j h db.

Definition world_inv (w : World) : Prop :=
  let s := w_state w in
  let j := received msgs s in
  ps_queue s = Received <$> drop j msgs /\ (j <= w_view w <= length msgs)%nat /\
  match ps_phase s with
  | Waiting =>
      saved (P 0%nat) (ps_db s) <= top j /\
      ((0 < j)%nat -> saved (P 0%nat) (ps_db s) = top j) /\
      forall h, 1 <= h <= saved (P 0%nat) (ps_db s) -> current j h (ps_db s)
  | Working r => world_range j (ps_db s) r
  | Halted _ => True
  end.

(** ** The invariant is kept *)

Lemma all_follow_app j db b l1 l2 :
  all_follow j db b (l1 ++ l2) <->
  all_follow j db b l1 /\ all_follow j db (b + Z.of_nat (length l1)) l2.
Proof.
  revert b. induction l1 as [|t l1 IH]; intros b; cbn [app all_follow length].
  - rewrite Z.add_0_r. tauto.
  - rewrite IH. replace (b + 1 + Z.of_nat (length l1)) with (b + Z.of_nat (S (length l1))) by lia.
    tauto.
Qed.

(** A write that keeps what has run of the blocks in flight keeps them. *)
Lemma all_follow_write j db db' b l :
  (forall k h ran, b <= h < b + Z.of_nat (length l) -> part j k h ran db -> part j k h ran db') ->
  all_follow j db b l -> all_follow j db' b l.
Proof.
  revert b. induction l as [|t l IH]; intros b; cbn [all_follow length]; [done|].
  intros Hw [(Hb & k & tl & r & Hk & Ht & Htodo & Hok) Hl]. split.
  - split; [done|]. exists k, tl, r. split_and!; [lia..|done|done|].
    intros Hres. destruct (Hok Hres) as (? & ? & Hp). split_and!; [done..|].
    by apply Hw; [lia|].
  - apply IH; [|done]. intros k' h ran Hh. apply Hw. lia.
Qed.

Lemma current_write j h db db' :
  (forall m a, (m <= j)%nat -> good m a h db -> good m a h db') -> current j h db -> current j h db'.
Proof.
  intros Hw (m & k & Hm & Hk & Hg & Hsame). exists m, k. split_and!; [lia..|by apply Hw|done].
Qed.

Lemma current_intro j k h db :
  (j <= k <= length msgs)%nat -> good j (chain k h) h db -> current j h db.
Proof. intros Hj Hg. exists j, k. split_and!; [lia..|done|]. intros i Hi. by replace i with j by lia. Qed.

Lemma current_next j h db : chain (S j) h = chain j h -> current j h db -> current (S j) h db.
Proof.
  intros Hs (m & k & Hm & Hk & Hg & Hsame). exists m, k. split_and!; [lia..|done|].
  intros i Hi. destruct (decide (i = S j)) as [->|]; [|apply Hsame; lia].
  rewrite Hs. apply Hsame. lia.
Qed.

Lemma checkpoint_keeps k db c next : keeps db (checkpoint (P k) db c next).1.
Proof.
  unfold checkpoint, Ix.db. rewrite (ix_key k).
  pose proof (ix_checkpoint c db) as Hd.
  destruct (set_last_processed_block _ c db) as [db' [[]| | |]]; exact Hd.
Qed.

Lemma checkpoint_key_reached k db c next :
  in_u 32 c ->
  let '(db', phase) := checkpoint (P k) db c next in
  phase = next /\ saved (P 0%nat) db' = c \/ exists r, phase = Halted r.
Proof.
  intros Hn. pose proof (checkpoint_reached (P k) db c next Hn) as Hck.
  destruct (checkpoint (P k) db c next) as [db' phase]. by rewrite <- (saved_key k).
Qed.

(** What other writers keep. *)
Lemma all_follow_keeps j db db' b l :
  keeps db db' -> 0 <= b -> b + Z.of_nat (length l) <= 2 ^ 32 ->
  all_follow j db b l -> all_follow j db' b l.
Proof.
  intros Hkp Hb Hl. apply all_follow_write. intros k h ran Hh. apply ix_part_keeps; [|done].
  unfold in_u. lia.
Qed.

Lemma current_keeps j h db db' : in_u 32 h -> keeps db db' -> current j h db -> current j h db'.
Proof. intros Hh Hk. apply current_write. intros m a _. by apply ix_good_keeps. Qed.

(** Taking message [j]: the range covers all heights at which the chain has changed, and
    ends at its top. *)
Lemma message_range j m base last saved_n from to :
  extends chain top j m base ->
  (last = saved_n \/ last = 0) -> in_u 32 saved_n -> saved_n <= top j ->
  block_range last m = Ok (from, to) ->
  0 <= from <= last + 1 /\ from <= to /\ to = top (S j) /\ in_u 32 to /\
  forall h, 1 <= h < from -> chain (S j) h = chain j h.
Proof.
  intros Hext Hlast Hsaved Htop Hr. destruct Hext as [Htyped Hbase Hsame Hrange Hfirst Htoplast Hone].
  assert (Hl : in_u 32 last) by (unfold in_u in *; destruct Hlast as [-> | ->]; lia).
  destruct (block_range_Ok last m from to Hl Htyped Hr) as (Hfrom & Hto & Hmax & Hmany & Hsingle).
  destruct (block_range_to last m from to Hr) as (bt & Hbt & Hbto).
  destruct Hfirst as (bf & Hbf & Hbf1). destruct Htoplast as (bl & Hbl & Hbl1).
  assert (Htt : to = top (S j)).
  { pose proof (Hmax _ Hbl). pose proof (Hrange _ Hbt). lia. }
  assert (Hfb : from <= base + 1).
  { destruct (decide (length (blocks m) = 1%nat)) as [H1|H1].
    - rewrite (Hsingle H1), (Hone H1). destruct Hlast; lia.
    - pose proof (Hmany H1 _ Hbf). lia. }
  pose proof (Hrange _ Hbf). split; [lia|]. split; [lia|]. split; [done|]. split; [done|].
  intros h Hh. apply Hsame. lia.
Qed.

Lemma recv_keeps v s m queue :
  world_inv {| w_view := v; w_state := s |} -> ps_phase s = Waiting ->
  ps_queue s = Received m :: queue ->
  (received msgs (on_message (P v) s m queue) <= v)%nat ->
  world_inv {| w_view := v; w_state := on_message (P v) s m queue |}.
Proof.
  intros (Hq & Hv & Hinv) Hph Hqueue Hview. cbn [w_state w_view] in *. rewrite Hph in Hinv.
  destruct Hinv as (Htop & _ & Hcur).
  assert (Hj : (received msgs s < length msgs)%nat).
  { rewrite Hqueue in Hq. apply (f_equal length) in Hq. cbn in Hq.
    rewrite length_fmap, length_drop in Hq. lia. }
  destruct (lookup_lt_is_Some_2 msgs _ Hj) as [m' Hm'].
  rewrite (drop_S _ _ _ Hm'), Hqueue in Hq. cbn in Hq. injection Hq as -> Hq'.
  destruct (Hmsgs _ _ Hm') as [base Hext].
  assert (Hgot : received msgs (on_message (P v) s m' queue) = S (received msgs s)).
  { unfold on_message, received. destruct (last_processed _ _) as [? ?]. cbn [ps_queue].
    rewrite Hqueue. apply (f_equal length) in Hq'. rewrite length_fmap, length_drop in Hq'.
    unfold received in *. cbn in *. rewrite Hqueue in *. cbn in *. lia. }
  pose proof (last_processed_spec (P v) (ps_db s)) as [Htab Hlast].
  pose proof (saved_range (P v) (ps_db s)) as Hsr. rewrite saved_key in Hlast, Hsr.
  unfold world_inv. cbn [w_state w_view]. rewrite Hgot in Hview |- *.
  unfold on_message in *. destruct (last_processed (P v) (ps_db s)) as [db' last].
  cbn [fst snd] in Htab, Hlast. cbn [ps_queue ps_db ps_phase].
  split; [done|]. split; [lia|].
  destruct (block_range last m') as [[from to]| | |] eqn:Hr; try done.
  destruct (message_range _ _ _ _ _ _ _ Hext Hlast Hsr Htop Hr) as (Hf & Hft & Htt & Hto & Hsame).
  destruct (Z.ltb_spec to from); [lia|].
  unfold world_range. cbn. split; [done|]. split; [lia|]. split; [lia|]. split; [done|]. split; [done|].
  intros h Hh. apply (current_keeps _ _ (ps_db s)); [unfold in_u in *; lia | by apply ix_read|].
  apply current_next; [by apply Hsame; lia|]. apply Hcur. destruct Hlast; lia.
Qed.

Lemma start_keeps v s r l result :
  world_inv {| w_view := v; w_state := s |} -> ps_phase s = Working r -> r_next r <= r_to r ->
  block_task (P v) (r_next r) l result ->
  world_inv {| w_view := v; w_state := set_phase s (ps_db s) (Working {|
    r_next := r_next r + 1; r_to := r_to r;
    r_inflight := r_inflight r ++
      [{| t_block := r_next r; t_ran := []; t_todo := l; t_result := result |}] |}) |}.
Proof.
  intros (Hq & Hv & Hinv) Hr Hnext Htask. cbn [w_state w_view] in *. rewrite Hr in Hinv.
  destruct Hinv as (Hfl & Hold & Hle & Hto32 & Hto & Hcur).
  split; [done|]. split; [done|]. cbn [w_state ps_phase set_phase ps_db].
  change (received msgs (set_phase _ _ _)) with (received msgs s).
  unfold world_range. cbn [r_next r_to r_inflight]. rewrite length_app. cbn [length].
  replace (r_next r + 1 - Z.of_nat (length (r_inflight r) + 1))
    with (r_next r - Z.of_nat (length (r_inflight r))) by lia.
  split; [|split; [done|]; split; [lia|]; by split].
  apply all_follow_app. split; [done|].
  replace (r_next r - Z.of_nat (length (r_inflight r)) + Z.of_nat (length (r_inflight r)))
    with (r_next r) by lia.
  assert (Hb : in_u 32 (r_next r)) by (unfold in_u in *; lia).
  cbn. split; [|done]. split; [done|]. exists v, l, result. split; [lia|]. cbn.
  split_and!; [done|done|]. intros ->. split_and!; [done..|]. apply ix_nil.
Qed.

Lemma statement_keeps v s r before t after st rest db' res :
  world_inv {| w_view := v; w_state := s |} -> ps_phase s = Working r ->
  r_inflight r = before ++ t :: after -> t_todo t = st :: rest -> st (ps_db s) = (db', res) ->
  world_inv {| w_view := v; w_state := set_phase s db' (Working {|
    r_next := r_next r; r_to := r_to r;
    r_inflight := before ++ advance t st rest res :: after |}) |}.
Proof.
  intros (Hq & Hv & Hinv) Hr Hfl Htodo Hst. cbn [w_state w_view] in *. rewrite Hr in Hinv.
  unfold world_range in Hinv. rewrite Hfl, length_app in Hinv. cbn [length] in Hinv.
  destruct Hinv as (Hall & Hold & Hle & Hto32 & Hto & Hcur).
  apply all_follow_app in Hall as [Hbefore [Ht Hafter]].
  set (b0 := r_next r - Z.of_nat (length before + S (length after))) in *.
  set (b := b0 + Z.of_nat (length before)) in *.
  destruct Ht as (Hb & k & l & r' & Hk & Htask & Hin & Hok). rewrite Htodo in Hin, Hok.
  assert (Hstl : st ∈ l) by (apply Hin; left).
  assert (Hdb' : db' = (st (ps_db s)).1) by (by rewrite Hst). unfold in_u in Hto32.
  assert (Hb32 : in_u 32 b) by (unfold in_u; lia).
  assert (Hother : forall i h ran, in_u 32 h -> h <> b ->
    part (received msgs s) i h ran (ps_db s) -> part (received msgs s) i h ran db').
  { intros i h ran Hh Hne. rewrite Hdb'. by apply (ix_part_other _ i h ran k b l r'). }
  split; [done|]. split; [done|]. cbn [w_state ps_phase set_phase ps_db].
  change (received msgs (set_phase _ _ _)) with (received msgs s).
  unfold world_range. cbn [r_next r_to r_inflight]. rewrite length_app. cbn [length].
  fold b0. split; [|split; [done|]; split; [done|]; split; [done|]; split; [done|]].
  - apply all_follow_app. fold b. split; [|split].
    + revert Hbefore. apply all_follow_write. intros i h ran Hh. apply Hother; [unfold in_u|]; lia.
    + unfold advance. destruct res as [[]|e| |]; (split; [done|]); exists k, l, r'; cbn;
        (split; [done|]); (split; [done|]); (split; [try (intros x Hx; by apply not_elem_of_nil in Hx)|]);
        try done.
      * intros x Hx. apply Hin. by right.
      * intros Hres. destruct (Hok Hres) as (-> & -> & Hpart). split; [done|].
        split; [by rewrite <- app_assoc|]. by eapply (ix_run _ k).
    + revert Hafter. apply all_follow_write. intros i h ran Hh. apply Hother; [unfold in_u|]; lia.
  - intros h Hh. apply (current_write _ _ (ps_db s)); [|by apply Hcur]. intros m a Hm. rewrite Hdb'.
    apply (ix_good_other m a h k b l r'); [lia | done | unfold in_u; lia | lia | done..].
Qed.

Lemma take_keeps v s r t rest :
  world_inv {| w_view := v; w_state := s |} -> ps_phase s = Working r ->
  r_inflight r = t :: rest -> t_todo t = [] -> t_result t = Ok tt ->
  world_inv {| w_view := v; w_state := take_block (P v) s r t rest |}.
Proof.
  intros (Hq & Hv & Hinv) Hr Hfl Htodo Hres. cbn [w_state w_view] in *. rewrite Hr in Hinv.
  unfold world_range in Hinv. rewrite Hfl in Hinv. cbn [length] in Hinv.
  destruct Hinv as (((Hb & k & l & r' & Hk & Htask & _ & Hok) & Hall) & Hold & Hle & Hto32 & Hto &
    Hcur).
  destruct (Hok Hres) as (-> & -> & Hpart). rewrite Htodo, app_nil_r in Htask.
  set (b := r_next r - Z.of_nat (S (length rest))) in *. unfold in_u in Hto32.
  assert (Hb32 : in_u 32 b) by (unfold in_u; lia).
  assert (Hgood : current (received msgs s) b (ps_db s)).
  { apply (current_intro _ k); [lia|]. by eapply (ix_task _ k). }
  assert (Hrange : forall db, db = ps_db s \/ keeps (ps_db s) db ->
    world_range (received msgs s) db {| r_next := r_next r; r_to := r_to r; r_inflight := rest |}).
  { intros db Hdb. unfold world_range. cbn [r_next r_to r_inflight].
    replace (r_next r - Z.of_nat (length rest)) with (b + 1) by lia.
    split; [|split_and!; [lia | done | done | done |]].
    - destruct Hdb as [-> | Hdb]; [done|]. revert Hall. by apply all_follow_keeps; [|lia..].
    - intros h Hh. assert (Hc : current (received msgs s) h (ps_db s)).
      { destruct (decide (h = b)) as [->|]; [done|]. apply Hcur. lia. }
      destruct Hdb as [-> | Hdb]; [done|]. by eapply current_keeps; [unfold in_u; lia|..]. }
  unfold take_block. destruct (_ =? 0).
  - pose proof (checkpoint_key_reached v (ps_db s) (t_block t)
      (Working {| r_next := r_next r; r_to := r_to r; r_inflight := rest |})) as Hck.
    pose proof (checkpoint_keeps v (ps_db s) (t_block t)
      (Working {| r_next := r_next r; r_to := r_to r; r_inflight := rest |})) as Hd.
    destruct (checkpoint (P v) (ps_db s) (t_block t) _) as [db' phase]. cbn [fst] in Hd.
    split; [done|]. split; [done|]. cbn [w_state ps_phase ps_db].
    destruct Hck as [[-> _] | [res ->]]; [by rewrite Hb | apply Hrange; by right | done].
  - split; [done|]. split; [done|]. cbn [w_state ps_phase ps_db]. apply Hrange. by left.
Qed.

Lemma finish_keeps v s r :
  world_inv {| w_view := v; w_state := s |} -> ps_phase s = Working r -> r_inflight r = [] ->
  r_to r < r_next r ->
  world_inv {| w_view := v; w_state := finish_range (P v) s r |}.
Proof.
  intros (Hq & Hv & Hinv) Hr Hfl Hlt. cbn [w_state w_view] in *. rewrite Hr in Hinv.
  unfold world_range in Hinv. rewrite Hfl in Hinv. cbn [length] in Hinv.
  destruct Hinv as (_ & Hold & Hle & Hto32 & Hto & Hcur). unfold finish_range.
  pose proof (checkpoint_key_reached v (ps_db s) (r_to r) Waiting Hto32) as Hck.
  pose proof (checkpoint_keeps v (ps_db s) (r_to r) Waiting) as Hd.
  destruct (checkpoint (P v) (ps_db s) (r_to r) Waiting) as [db' phase]. cbn [fst] in Hd.
  split; [done|]. split; [done|]. cbn [w_state ps_phase ps_db].
  destruct Hck as [[-> Hsaved] | [res ->]]; [|done]. rewrite Hsaved.
  split; [by rewrite Hto|]. split; [done|]. intros h Hh. unfold in_u in Hto32.
  apply (current_keeps _ _ (ps_db s)); [unfold in_u; lia | done|]. apply Hcur. lia.
Qed.

Lemma world_step_inv w w' :
  world_inv w -> world_step P parallel msgs keeps w w' -> world_inv w'.
Proof.
  intros Hinv Hstep.
  destruct Hstep as [v v' s Hvv | v s s' Hs Hview | v s db' [Hmeta Hkeep]].
  - destruct Hinv as (Hq & Hv & Hinv). cbn [w_state w_view] in *.
    split; [done|]. split; [cbn; lia | done].
  - destruct Hs as [s m queue Hph Hqueue | s n queue Hph Hqueue | s queue Hph Hqueue
      | s r l result | s r before t after st rest db' res | s r t rest | s r t rest | s r].
    + by apply recv_keeps.
    + destruct Hinv as (Hq & _). cbn in Hq. rewrite Hqueue in Hq. by destruct (drop _ msgs).
    + destruct Hinv as (Hq & _). cbn in Hq. rewrite Hqueue in Hq. by destruct (drop _ msgs).
    + by apply start_keeps.
    + by eapply statement_keeps.
    + by apply take_keeps.
    + by destruct Hinv as (? & ? & _).
    + by apply finish_keeps.
  - destruct Hinv as (Hq & Hv & Hinv). cbn [w_state w_view] in *.
    split; [done|]. split; [done|]. cbn [w_state ps_phase with_db set_phase ps_db].
    change (received msgs (with_db s db')) with (received msgs s).
    assert (Hsaved : saved (P 0%nat) db' = saved (P 0%nat) (ps_db s)) by (unfold saved; by rewrite Hmeta).
    destruct (ps_phase s) as [|r|]; [| |done].
    + rewrite Hsaved. destruct Hinv as (Ht & Ht' & Hcur). split; [done|]. split; [done|].
      intros h Hh. pose proof (saved_range (P 0%nat) (ps_db s)) as Hsr.
      apply (current_keeps _ _ (ps_db s)); [unfold in_u in *; lia | done | by apply Hcur].
    + destruct Hinv as (Hall & Hold & Hle & Hto32 & Hto & Hcur). unfold in_u in Hto32.
      split; [|split_and!; [done | done | done | done |]].
      * revert Hall. apply all_follow_keeps; [done | lia | lia].
      * intros h Hh. apply (current_keeps _ _ (ps_db s)); [unfold in_u; lia | done | by apply Hcur].
Qed.

(** Once everything is received and the processor is at rest, its checkpoint is the top of
    the last chain, and the database is right for every block of this chain. *)
Lemma world_at_rest db v w :
  (v <= length msgs)%nat -> saved (P 0%nat) db <= top 0%nat ->
  (forall h, 1 <= h <= saved (P 0%nat) db -> good 0%nat (chain 0%nat h) h db) ->
  rtc (world_step P parallel msgs keeps)
    {| w_view := v; w_state := start_state db (Received <$> msgs) |} w ->
  ps_phase (w_state w) = Waiting -> ps_queue (w_state w) = [] -> msgs <> [] ->
  saved (P 0%nat) (ps_db (w_state w)) = top (length msgs) /\
  forall h, 1 <= h <= top (length msgs) -> exists m, (m <= length msgs)%nat /\
    good m (chain (length msgs) h) h (ps_db (w_state w)) /\
    forall i, (m <= i <= length msgs)%nat -> chain i h = chain (length msgs) h.
Proof.
  intros Hv Htop Hgood Hsteps Hph Hqueue Hne.
  assert (Hw : world_inv w).
  { assert (H0 : world_inv {| w_view := v; w_state := start_state db (Received <$> msgs) |}).
    { unfold world_inv, received. cbn [w_state w_view start_state ps_queue ps_phase ps_db].
      rewrite length_fmap, Nat.sub_diag. split; [done|]. split; [lia|].
      split; [done|]. split; [lia|]. intros h Hh. apply (current_intro 0 0); [lia|]. by apply Hgood. }
    revert H0. clear Hph Hqueue. induction Hsteps as [|w1 w2 w3 H12 _ IH]; [done|].
    intros H1. apply IH. by eapply world_step_inv. }
  destruct w as [vw s]. cbn [w_state] in *.
  destruct Hw as (_ & Hvw & Hinv). cbn [w_state w_view] in *. rewrite Hph in Hinv.
  assert (Hgot : received msgs s = length msgs) by (unfold received; rewrite Hqueue; cbn; lia).
  rewrite Hgot in *. destruct Hinv as (_ & Heq & Hcur).
  assert (Hpos : (0 < length msgs)%nat) by (destruct msgs; [done | cbn; lia]).
  specialize (Heq Hpos). split; [done|]. intros h Hh. rewrite <- Heq in Hh.
  destruct (Hcur h Hh) as (m & k & Hm & Hk & Hg & Hsame). exists m. split; [done|].
  rewrite (Hsame (length msgs)) in * by lia. split; [by rewrite <- (Hsame k) by lia|].
  intros i Hi. by apply Hsame.
Qed.
End Following.

(** ** Data per height

    A processor that stores data per height: its statements only change the data
    of their own height, and once all of a block's statements have run, whatever was there and
    whatever others did in between, the data is right. *)

Section Heights.
Context `{ChainTypes} {A D : Type} (data : Db -> Z -> D).

(** The statements [l] of block [b] run in order and end well, and others may write in
    between as long as they leave the data of [b] alone: it goes from [d], the data some
    database has, to [d']. *)
Fixpoint data_run (b : Z) (l : list Statement) (d d' : D) : Prop :=
  match l with
  | [] => d' = d /\ exists db, data db b = d
  | st :: l' => exists db db',
      data db b = d /\ st db = (db', Ok tt) /\ data_run b l' (data db' b) d'
  end.

Lemma data_run_snoc b l st d db db' :
  data_run b l d (data db b) -> st db = (db', Ok tt) -> data_run b (l ++ [st]) d (data db' b).
Proof.
  revert d. induction l as [|s l IH]; cbn; intros d Hl Hst.
  - destruct Hl as [<- _]. exists db, db'. split_and!; [done..|]. by exists db'.
  - destruct Hl as (db1 & db2 & Hd & Hs & Hl). exists db1, db2. split_and!; [done..|].
    by apply IH.
Qed.

Context (P : nat -> BlockProcessor) (chain : nat -> Z -> A) (right : A -> Z -> D -> Prop).

Class HeightIndexing : Prop := {
  hx_laws k : TaskLaws (P k);
  hx_key k : checkpoint_key (P k) = checkpoint_key (P 0%nat);
  hx_apart k b l r : in_u 32 b -> block_task (P k) b l r ->
    Forall (fun st : Statement => forall db h, in_u 32 h -> h <> b ->
      data (st db).1 h = data db h) l;
  hx_task k b l d d' : in_u 32 b -> block_task (P k) b l (Ok tt) ->
    data_run b l d d' -> right (chain k b) b d';
  hx_read db db' h : tables db' = tables db -> data db' h = data db h;
  hx_checkpoint c db h :
    data (set_last_processed_block (checkpoint_key (P 0%nat)) c db).1 h = data db h;
}.

Definition same_data (db db' : Db) : Prop := forall h, in_u 32 h -> data db' h = data db h.

#[export] Instance height_indexing n : HeightIndexing ->
  Indexing P chain n same_data (fun _ a h db => right a h (data db h))
    (fun _ _ b ran db => exists d, data_run b ran d (data db b)).
Proof.
  intros Hx.
  assert (Hother : forall k b l r st db h, in_u 32 b -> in_u 32 h -> h <> b ->
    block_task (P k) b l r -> st ∈ l -> data (st db).1 h = data db h).
  { intros k b l r st db h Hb Hh Hne Ht Hin.
    pose proof (hx_apart k b l r Hb Ht) as Hl. rewrite Forall_forall in Hl. by apply Hl. }
  split.
  - apply hx_laws.
  - apply hx_key.
  - intros db db' Ht h _. by apply hx_read.
  - intros c db h _. apply hx_checkpoint.
  - intros m a h db db' Hh Hk. by rewrite (Hk h Hh).
  - intros m k b l db db' Hb Hk. by rewrite (Hk b Hb).
  - intros m a h k b l r st db _ Hb Hh Hne Ht Hin. by rewrite (Hother k b l r).
  - intros m i h ran k b l r st db _ Hb Hh Hne Ht Hin. by rewrite (Hother k b l r).
  - intros m k b db. exists (data db b). split; [done | by exists db].
  - intros m k b ran st rest db db' _ _ _ [d Hd] Hst. exists d. by eapply data_run_snoc.
  - intros m k b l db _ Hb Ht [d Hd]. by eapply hx_task.
Qed.
End Heights.
