(* ===== verification/NodeChains.v ===== *)
(** * The chains of a node that moves

    The messages of the listener name a sequence of best blocks; a node that has each of
    them as its best block in turn serves, by number, the blocks of each of their chains.
    Here: which blocks a chain has, and at which heights a message changes it. *)

From S2P Require Import Prelude HeadersCache TreeRoute BlockListener BlockListenerFacts.
From S2P Require Import Types Chain Processor ProcessorProps Follow.

Section Chains.
Context `{HeaderHashing, !CollisionFree}.
Context (valid : Header -> Prop) (Hchain : ChainOk valid).

(** Every valid header above height one has a valid parent. *)
Definition Rooted : Prop := forall hdr, valid hdr -> 1 < number hdr ->
  exists p, valid p /\ header_hash p = parent_hash hdr.

(** [hdr] is on the chain of the block [best]. *)
Definition on_chain (best : Hash) (hdr : Header) : Prop :=
  valid hdr /\ exists l, path valid best l (header_hash hdr).

(** The hash of the block the node has at a height. *)
Definition hash_at (node : RpcNode) (h : Z) : outcome (Error Hash) Hash :=
  be_hash <$> block_ext_at_number node h.

(** A node with [best] as its best block serves the blocks of its chain by their number. *)
Definition serves_chain (node : RpcNode) (best : Hash) : Prop := forall hdr, on_chain best hdr ->
  hash_at node (number hdr) = Ok (header_hash hdr).

(** The best block after the first [k] messages: the last block of the last of them. *)
Definition best_after (best : HashAndNumber) (msgs : list BlocksExt) (k : nat) : HashAndNumber :=
  foldl (fun best m =>
    match last (blocks m) with
    | Some b => {| hn_number := be_number b; hn_hash := be_hash b |}
    | None => best
    end) best (take k msgs).

(** A valid header with a hash and a number. *)
Definition header_of (b : HashAndNumber) (hdr : Header) : Prop :=
  valid hdr /\ header_hash hdr = hn_hash b /\ number hdr = hn_number b.

(** ** Chains *)

(** Along a path every header is one higher than the next. *)
Lemma path_numbers h l c x z :
  path valid h l c -> valid x -> header_hash x = h -> valid z -> header_hash z = c ->
  number x = number z + Z.of_nat (length l) /\
  (forall y, valid y -> header_hash y ∈ l -> number z < number y <= number x).
Proof.
  intros Hp. revert x. induction Hp as [h | h p l c (y & Hvy & Hy & Hpar) Hp IH]; intros x Hx Hh Hz Hc.
  - assert (x = z) as -> by (apply header_hash_inj; congruence). split; [cbn; lia|].
    intros y _ Hin. by apply not_elem_of_nil in Hin.
  - assert (y = x) as -> by (apply header_hash_inj; congruence).
    assert (Hparent : exists q, valid q /\ header_hash q = p).
    { inversion Hp as [h' | h' q' l' c' (w & Hw & Hw' & _) _]; subst; eauto. }
    destruct Hparent as (q & Hq & Hqp).
    assert (Hxq : number x = number q + 1) by (apply (co_height valid Hchain); congruence).
    destruct (IH q Hq Hqp Hz Hc) as [Hn Hin]. cbn [length]. split; [lia|].
    intros y Hy' Hy''. apply elem_of_cons in Hy'' as [Heq | Hl].
    + assert (y = x) as -> by (apply header_hash_inj; congruence). lia.
    + specialize (Hin y Hy' Hl). lia.
Qed.

(** A path that moves has a block one above its end. *)
Lemma path_first h l c x z :
  path valid h l c -> l <> [] -> valid x -> header_hash x = h -> valid z -> header_hash z = c ->
  exists y, valid y /\ header_hash y ∈ l /\ number y = number z + 1.
Proof.
  intros Hp. revert x. induction Hp as [h | h p l c (y & Hvy & Hy & Hpar) Hp IH];
    intros x Hne Hx Hh Hz Hc; [done|].
  assert (y = x) as -> by (apply header_hash_inj; congruence).
  destruct l as [|h' l'].
  - inversion Hp; subst. exists x. split; [done|]. split; [apply list_elem_of_singleton; congruence|].
    apply (co_height valid Hchain); [done..|]. congruence.
  - assert (exists q, valid q /\ header_hash q = p) as (q & Hq & Hqp).
    { inversion Hp as [|h'' q' l'' c' (w & Hw & Hw' & _) _]; subst; eauto. }
    destruct (IH q ltac:(done) Hq Hqp Hz Hc) as (y & Hvy' & Hin & Hn).
    exists y. split; [done|]. split; [by right | done].
Qed.

(** A rooted chain has a block at every height from one to its best block. *)
Lemma on_chain_at x h :
  Rooted -> valid x -> 1 <= h <= number x ->
  exists y, on_chain (header_hash x) y /\ number y = h.
Proof.
  intros Hroot. remember (Z.to_nat (number x - h)) as k eqn:Hk. revert x Hk.
  induction k as [|k IH]; intros x Hk Hx Hh.
  - exists x. split; [|lia]. split; [done|]. exists []. constructor.
  - destruct (Hroot x Hx ltac:(lia)) as (p & Hp & Hpx).
    assert (Hn : number x = number p + 1) by (by apply (co_height valid Hchain)).
    destruct (IH p ltac:(lia) Hp ltac:(lia)) as (y & (Hy & l & Hl) & Hyh).
    exists y. split; [|done]. split; [done|]. exists (header_hash x :: l).
    econstructor; [|exact Hl]. exists x. by rewrite Hpx.
Qed.

Lemma on_chain_below best l z y :
  path valid best l (header_hash z) -> on_chain (header_hash z) y -> on_chain best y.
Proof.
  intros Hl (Hy & k & Hk). split; [done|]. exists (l ++ k). by eapply path_app.
Qed.

(** The chain of a block is the block and the chain of its parent. *)
Lemma on_chain_inv x y :
  on_chain (header_hash x) y -> y = x \/ on_chain (parent_hash x) y.
Proof.
  intros (Hy & l & Hl). inversion Hl as [h Hh | h p l' c (z & _ & Hz & <-) Hp]; subst.
  - left. apply header_hash_inj. congruence.
  - right. apply header_hash_inj in Hz as ->. split; [done | by exists l'].
Qed.

(** A block an honest node serves by number is described by a valid header. *)
Lemma honest_block node h x :
  node_honest valid node -> block_ext_at_number node h = Ok x ->
  exists hdr, valid hdr /\ header_hash hdr = be_hash x /\ number hdr = be_number x.
Proof.
  intros Hnode Hx. unfold block_ext_at_number in Hx. apply bind_Ok in Hx as (fh & _ & Hx).
  apply bind_Ok in Hx as (bh & _ & Hx). unfold block_ext_at_hash in Hx.
  apply bind_Ok in Hx as (fs & Hfs & Hx). apply bind_Ok in Hx as (sh & Hsh & Hx).
  injection Hx as <-. unfold chain_get_header in Hfs. destruct (rpc_header_failure _ _); [done|].
  destruct fs as [sh'|]; [|done]. injection Hsh as ->. injection Hfs as Hfs.
  destruct (nh_header _ _ Hnode bh sh Hfs) as (hdr & Hconv & <- & Hv).
  exists hdr. split_and!; [done | done|]. unfold convert_header in Hconv.
  destruct (redecode_digest _); [|done]. by injection Hconv as <-.
Qed.

(** ** Messages *)

Lemma announces_best best m best' :
  announces valid best m best' ->
  exists b, last (blocks m) = Some b /\ be_hash b = best' /\ described valid b.
Proof.
  intros (ret & common & _ & Hpath & Hne & Hdesc & _).
  destruct (blocks m) as [|b l _] using rev_ind; [done|]. exists b. split; [apply last_snoc|].
  rewrite fmap_app, rev_app_distr in Hpath. cbn in Hpath. apply Forall_app in Hdesc as [_ Hb].
  rewrite Forall_singleton in Hb. split; [by inversion Hpath | done].
Qed.

Lemma best_after_header best hdr msgs best' k :
  header_of best hdr -> announced valid (hn_hash best) msgs best' ->
  exists hdr', header_of (best_after best msgs k) hdr'.
Proof.
  revert best hdr k. induction msgs as [|m msgs IH]; intros best hdr k Hh Ha.
  - exists hdr. unfold best_after. by rewrite take_nil.
  - destruct k as [|k]; [by exists hdr|]. destruct Ha as (mid & Hm & Ha).
    destruct (announces_best _ _ _ Hm) as (b & Hb & Hmid & (hdr1 & ? & ? & ?)).
    unfold best_after. cbn. rewrite Hb. eapply (IH _ hdr1); [done|]. cbn. by rewrite Hmid.
Qed.

Lemma announced_nth best msgs best' j m :
  announced valid (hn_hash best) msgs best' -> msgs !! j = Some m ->
  announces valid (hn_hash (best_after best msgs j)) m (hn_hash (best_after best msgs (S j))).
Proof.
  revert best j. induction msgs as [|m0 msgs IH]; intros best j; [done|].
  intros (mid & Hm0 & Hrest) Hj. destruct (announces_best _ _ _ Hm0) as (b0 & Hb0 & Hmid & _).
  unfold best_after. destruct j as [|j]; cbn in Hj |- *; rewrite Hb0.
  - injection Hj as <-. cbn. by rewrite take_0, Hmid.
  - apply (IH {| hn_number := be_number b0; hn_hash := be_hash b0 |}); [|done]. cbn. by rewrite Hmid.
Qed.

Lemma best_after_all best msgs best' :
  announced valid (hn_hash best) msgs best' ->
  hn_hash (best_after best msgs (length msgs)) = best'.
Proof.
  revert best. induction msgs as [|m msgs IH]; intros best; [done|].
  intros (mid & Hm & Hrest). destruct (announces_best _ _ _ Hm) as (b & Hb & Hmid & _).
  unfold best_after. cbn. rewrite Hb.
  apply (IH {| hn_number := be_number b; hn_hash := be_hash b |}). cbn. by rewrite Hmid.
Qed.

(** Two nodes agree up to a block of both of their chains. *)
Lemma serves_same node1 best1 l1 node2 best2 l2 z h :
  Rooted -> serves_chain node1 best1 -> serves_chain node2 best2 ->
  path valid best1 l1 (header_hash z) -> path valid best2 l2 (header_hash z) ->
  valid z -> 1 <= h <= number z -> hash_at node1 h = hash_at node2 h.
Proof.
  intros Hroot H1' H2' Hl1 Hl2 Hz Hh. destruct (on_chain_at z h Hroot Hz Hh) as (y & Hy & <-).
  rewrite (H1' y), (H2' y); [done|..]; by eapply on_chain_below.
Qed.

(** The messages of the listener, seen by a node that serves the chain of each best block:
    each changes the chain exactly above the common block, on which it puts its blocks. *)
Lemma announced_extends nodes best hdr0 msgs best' :
  Rooted -> header_of best hdr0 -> announced valid (hn_hash best) msgs best' ->
  Forall recv_typed (Received <$> msgs) ->
  (forall m, m ∈ msgs -> length (blocks m) = 1%nat -> maybe_reorg_data m = None) ->
  (forall k, (k <= length msgs)%nat ->
     serves_chain (nodes k) (hn_hash (best_after best msgs k))) ->
  forall j m, msgs !! j = Some m -> exists base,
    extends (fun k => hash_at (nodes k)) (fun k => hn_number (best_after best msgs k)) j m base.
Proof.
  intros Hroot Hh Ha Htyped Hsingle Hserves j m Hj.
  assert (Hlen : (j < length msgs)%nat) by (by eapply lookup_lt_Some).
  pose proof (announced_nth _ _ _ _ _ Ha Hj) as Hm.
  destruct (announces_best _ _ _ Hm) as (b & Hb & Hbest & _).
  destruct (best_after_header _ _ _ _ j Hh Ha) as (x & Hx & Hxh & Hxn).
  destruct (best_after_header _ _ _ _ (S j) Hh Ha) as (x' & Hx' & Hxh' & Hxn').
  destruct Hm as (ret & common & Hret & Hena & Hne & Hdesc & (z & Hz & Hzc) & Hreorg).
  destruct (path_numbers _ _ _ x z Hret Hx Hxh Hz Hzc) as [Hnx _].
  destruct (path_numbers _ _ _ x' z Hena Hx' Hxh' Hz Hzc) as [_ Hin].
  assert (Hnumber : forall c, c ∈ blocks m -> exists y, valid y /\ header_hash y = be_hash c /\
    number y = be_number c /\ header_hash y ∈ rev (be_hash <$> blocks m)).
  { intros c Hc. rewrite Forall_forall in Hdesc. destruct (Hdesc c Hc) as (y & ? & Hy & ?).
    exists y. split_and!; [done..|]. rewrite Hy, list_elem_of_In, <- in_rev, <- list_elem_of_In.
    by apply list_elem_of_fmap_2. }
  exists (number z). split.
  - rewrite Forall_forall in Htyped. apply (Htyped (Received m)).
    apply list_elem_of_fmap_2. by eapply list_elem_of_lookup_2.
  - rewrite <- Hxn. split; [by apply (co_number valid Hchain) | lia].
  - intros h Hh'. rewrite <- Hzc in Hena, Hret.
    eapply serves_same; [done | apply Hserves; lia | apply Hserves; lia | done..].
  - intros c Hc. destruct (Hnumber c Hc) as (y & Hy & _ & <- & Hyin). rewrite <- Hxn'. by apply Hin.
  - destruct (path_first _ _ _ x' z Hena) as (y & Hy & Hyin & Hyn); [|done..|].
    { intros Hnil. apply (f_equal length) in Hnil. rewrite length_rev, length_fmap in Hnil.
      by destruct (blocks m). }
    rewrite list_elem_of_In, <- in_rev, <- list_elem_of_In in Hyin.
    apply list_elem_of_fmap in Hyin as (c & Hc & Hcin). exists c. split; [done|].
    destruct (Hnumber c Hcin) as (y' & _ & Hy' & Hcn & _).
    assert (y' = y) as -> by (apply header_hash_inj; congruence). congruence.
  - exists b. split; [by apply last_Some_elem_of|].
    destruct (Hnumber b) as (y & _ & Hy & Hyn & _); [by apply last_Some_elem_of|].
    assert (y = x') as -> by (apply header_hash_inj; congruence). congruence.
  - intros H1'. rewrite (Hsingle m) in Hreorg; [|by eapply list_elem_of_lookup_2 | done].
    subst ret. cbn in Hnx. lia.
Qed.
End Chains.
