(* ===== verification/Canonical.v ===== *)
(** * The staking rows of the canonical chain

    The listener, the node it listens to and the staking processor composed: [Follow]
    for the deposits and withdrawals of [index_staking_for_block], behind the messages
    that [listen_for_blocks] broadcasts. *)

From Stdlib Require Import Strings.Byte.
From S2P Require Import Prelude HeadersCache TreeRoute BlockListener BlockListenerFacts.
From S2P Require Import Scale ScaleLE RpcTypes Types Events Chain Db IndexerError DbXdm DbXdmProps.
From S2P Require Import Staking StakingFacts StakingProps Processor Processors ProcessorProps.
From S2P Require Import Follow NodeChains ToyChain ListenerProps ToyIndexer.

(** ** The rows of a height *)

Section Rows.
Context `{ChainTypes, ScaleCodec, !ScaleLaws, EventCodec, Twox, TextCodecs, DecimalLib, Chrono}.

Definition height_rows (db : Db) (h : Z) : list Deposit * list Withdrawal :=
  (filter (fun d => d_block_height d = h) (nominator_deposits (tables db)),
   filter (fun w => w_block_height w = h) (nominator_withdrawals (tables db))).

Lemma height_rows_read db db' h : tables db' = tables db -> height_rows db' h = height_rows db h.
Proof. intros Htab. unfold height_rows. by rewrite Htab. Qed.

Lemma height_rows_checkpoint key n db h :
  height_rows (set_last_processed_block key n db).1 h = height_rows db h.
Proof.
  unfold height_rows, set_last_processed_block.
  match goal with |- context [run ?stmt db] =>
    destruct (run_tables stmt db) as [-> | (t & u & Hstmt & ->)]; [done|] end.
  by injection Hstmt as <-.
Qed.

(** The rows block [hash] of height [h] calls for. *)
Definition rows_of_block (client : Client) (hash : Hash) (h : Z)
    (rows : list Deposit * list Withdrawal) : Prop :=
  exists millis time evs deps noms wds,
    timestamp client hash = Ok millis /\
    from_timestamp_millis (as_i 64 millis) = Some time /\
    events client hash = Ok evs /\
    find KStorageFeeDeposited evs = Ok <$> deps /\
    find KOperatorNominated evs = Ok <$> noms /\
    find KWithdrewStake evs = Ok <$> wds /\
    rows = (expected_deposits h time deps [] noms, expected_withdrawals client hash h time wds).

(** There is one such list of rows. *)
Lemma rows_of_block_unique client hash h rows rows' :
  rows_of_block client hash h rows -> rows_of_block client hash h rows' -> rows = rows'.
Proof.
  intros (ms & time & evs & deps & noms & wds & Hms & Ht & He & Hd & Hn & Hw & ->)
    (ms' & time' & evs' & deps' & noms' & wds' & Hms' & Ht' & He' & Hd' & Hn' & Hw' & ->).
  rewrite Hms in Hms'. injection Hms' as <-. rewrite Ht in Ht'. injection Ht' as <-.
  rewrite He in He'. injection He' as <-.
  assert (Hinj : forall {A} (l k : list A) (m : list (outcome string A)),
    m = Ok <$> l -> m = Ok <$> k -> l = k) by (intros A l k m -> Hk; by eapply fmap_Ok_inj).
  by rewrite (Hinj _ _ _ _ Hd Hd'), (Hinj _ _ _ _ Hn Hn'), (Hinj _ _ _ _ Hw Hw').
Qed.

(** A statement that ends well somewhere has run, and ends well on every connection that
    runs: none of them fails because of what is stored. *)
Lemma exec_Ok a db db' db0 :
  action_wf a -> exec a db = (db', Ok tt) -> faults db0 = [] ->
  nominator_deposits (tables db') = deposit_effect a (nominator_deposits (tables db)) /\
  nominator_withdrawals (tables db') = withdrawal_effect a (nominator_withdrawals (tables db)) /\
  exists db0', exec a db0 = (db0', Ok tt).
Proof.
  intros Hwf Hrun Hf.
  destruct a; cbn [exec] in *; unfold update_operator_status, upsert_operator,
    update_operator_stats, insert_deposit, insert_withdrawal, delete_deposits_for_block,
    delete_withdrawals_for_block, upsert_epoch_share_price in *;
  apply run_Ok in Hrun; rewrite run_clean by done;
  repeat (apply bind_Ok in Hrun as (? & ? & Hrun));
  repeat match goal with H : ?m = Ok _ |- context [?m ≫= _] =>
    rewrite H; cbn [mbind outcome_bind] end;
  injection Hrun as Ht; rewrite <- Ht; cbn in Hwf |- *; rewrite ?cast_u128 in * by tauto;
  inv_outcome; (split_and!; [done | done | by eexists]).
Qed.

(** ** Statements and the rows of a height *)

Lemma deposit_effect_apart a b h l :
  at_height b a -> h <> as_i 64 b ->
  filter (fun d => d_block_height d = h) (deposit_effect a l) =
  filter (fun d => d_block_height d = h) l.
Proof.
  intros Ha Hh. destruct a; cbn in *; subst; try done.
  - rewrite filter_app, filter_cons_False, filter_nil, app_nil_r; [done|]. cbn. congruence.
  - rewrite list_filter_filter. apply list_filter_iff. unfold keeps_height. naive_solver.
Qed.

Lemma withdrawal_effect_apart a b h l :
  at_height b a -> h <> as_i 64 b ->
  filter (fun w => w_block_height w = h) (withdrawal_effect a l) =
  filter (fun w => w_block_height w = h) l.
Proof.
  intros Ha Hh. destruct a; cbn in *; subst; try done.
  - rewrite filter_app, filter_cons_False, filter_nil, app_nil_r; [done|]. cbn. congruence.
  - rewrite list_filter_filter. apply list_filter_iff. unfold keeps_height_w. naive_solver.
Qed.

Lemma deposit_effect_own a b l :
  at_height b a ->
  filter (fun d => d_block_height d = as_i 64 b) (deposit_effect a l) =
  deposit_effect a (filter (fun d => d_block_height d = as_i 64 b) l).
Proof.
  intros Ha. destruct a; cbn in *; subst; try done.
  - rewrite filter_app. by rewrite (filter_cons_True _ _ []), filter_nil.
  - rewrite !list_filter_filter. apply list_filter_iff. tauto.
Qed.

Lemma withdrawal_effect_own a b l :
  at_height b a ->
  filter (fun w => w_block_height w = as_i 64 b) (withdrawal_effect a l) =
  withdrawal_effect a (filter (fun w => w_block_height w = as_i 64 b) l).
Proof.
  intros Ha. destruct a; cbn in *; subst; try done.
  - rewrite filter_app. by rewrite (filter_cons_True _ _ []), filter_nil.
  - rewrite !list_filter_filter. apply list_filter_iff. tauto.
Qed.

(** A number of a block is stored as it is. *)
Lemma height_stored h : in_u 32 h -> as_i 64 h = h.
Proof. intros Hh. apply as_i_small; unfold in_u in Hh; lia. Qed.

Lemma exec_apart a b db h :
  own b a -> in_u 32 b -> h <> b -> height_rows (exec a db).1 h = height_rows db h.
Proof.
  intros [Hat Hwf] Hb Hne. destruct (exec_effect a db Hwf) as [Hd Hw]. unfold height_rows.
  rewrite <- (height_stored b Hb) in Hne. f_equal.
  - destruct Hd as [-> | ->]; [done|]. by apply (deposit_effect_apart a b).
  - destruct Hw as [-> | ->]; [done|]. by apply (withdrawal_effect_apart a b).
Qed.

(** What a block's statements make of its rows, and that they end well again on a connection
    that runs. *)
Lemma actions_run b acts d d' :
  in_u 32 b -> Forall (own b) acts -> data_run height_rows b (exec <$> acts) d d' ->
  d' = (foldl (fun t a => deposit_effect a t) d.1 acts,
        foldl (fun t a => withdrawal_effect a t) d.2 acts) /\
  (exists db, height_rows db b = d) /\
  forall db0, faults db0 = [] -> exists db0', exec_all acts db0 = (db0', Ok tt).
Proof.
  intros Hb Hown. revert d. induction Hown as [|a acts [Hat Hwf] _ IH]; intros d; cbn.
  - intros [-> Hdb]. split; [by destruct d|]. split; [done|]. intros db0 _. by exists db0.
  - intros (db & db' & <- & Hexec & Hrun).
    destruct (IH _ Hrun) as (-> & _ & Hclean).
    assert (Hrows : height_rows db' b = (deposit_effect a (height_rows db b).1,
                                         withdrawal_effect a (height_rows db b).2)).
    { destruct (exec_Ok a db db' {| tables := tables db; faults := []; now := 0 |} Hwf Hexec eq_refl)
        as (Hd & Hw & _).
      unfold height_rows. cbn [fst snd]. rewrite Hd, Hw, <- (height_stored b Hb).
      by rewrite deposit_effect_own, withdrawal_effect_own. }
    rewrite Hrows. split; [done|]. split; [by exists db|]. intros db0 Hf.
    destruct (exec_Ok a db db' db0 Hwf Hexec Hf) as (_ & _ & db1 & Hex1).
    destruct (exec_effect_ok a db0 db1 Hwf Hf Hex1) as (Hf1 & _).
    destruct (Hclean db1 Hf1) as [db2 Hex2]. exists db2. unfold exec_all in *. cbn [for_each].
    by rewrite SE_bind_unfold, Hex1.
Qed.

(** Once all statements of a block have run, its rows are those it calls for. *)
Lemma staking_task_rows node client b acts d d' :
  client_typed client -> in_u 32 b -> Forall (own b) acts ->
  traced (index_staking_for_block node client b) acts (Ok tt) ->
  data_run height_rows b (exec <$> acts) d d' ->
  exists blk, block_ext_at_number node b = Ok blk /\ rows_of_block client (be_hash blk) b d'.
Proof.
  intros Hc Hb Hown Htr Hrun.
  destruct (actions_run b acts d d' Hb Hown Hrun) as (-> & [db <-] & Hclean).
  set (db0 := {| tables := with_deposits (fun _ => (height_rows db b).1)
                   (with_withdrawals (fun _ => (height_rows db b).2) (tables db));
                 faults := []; now := 0 |}).
  destruct (Hclean db0 eq_refl) as [db1 Hexec].
  assert (Hwf : Forall action_wf acts) by (eapply Forall_impl; [exact Hown|]; by intros ? []).
  destruct (exec_all_effect acts db0 db1 Hwf eq_refl Hexec) as (_ & Hd & Hw).
  pose proof (Htr db0) as Hix. rewrite Hexec in Hix.
  destruct (index_staking_ok node client b db0 db1 Hc eq_refl Hix)
    as (blk & millis & time & evs & deps & noms & wds & Hblk & ? & ? & ? & ? & ? & ? & Hd' & Hw').
  exists blk. split; [done|]. exists millis, time, evs, deps, noms, wds.
  repeat (split; [done|]).
  assert (Hnone : forall {A} (f : A -> Z) l, filter (fun x => f x <> as_i 64 b)
    (filter (fun x => f x = b) l) = []).
  { intros A f l. rewrite list_filter_filter.
    induction l as [|x l IH]; [done|]. rewrite filter_cons_False; [done|].
    rewrite height_stored by done. tauto. }
  change (nominator_deposits (tables db0)) with (height_rows db b).1 in *.
  change (nominator_withdrawals (tables db0)) with (height_rows db b).2 in *.
  rewrite <- Hd, <- Hw, Hd', Hw'. unfold height_rows, keeps_height, keeps_height_w. cbn [fst snd].
  by rewrite !Hnone.
Qed.
End Rows.

(** ** The staking processor stores per height *)

Section Instance.
Context `{ChainTypes, ScaleCodec, !ScaleLaws, EventCodec, Twox, TextCodecs, DecimalLib,
  Chrono}.
Context (nodes : nat -> RpcNode) (client : Client).

Definition right_rows (block : outcome (Error Hash) Hash) (h : Z)
    (rows : list Deposit * list Withdrawal) : Prop :=
  exists hash, block = Ok hash /\ rows_of_block client hash h rows.

#[export] Instance staking_indexing : client_typed client ->
  HeightIndexing height_rows (fun k => StakingProcessor (nodes k) client)
    (fun k => hash_at (nodes k)) right_rows.
Proof.
  intros Hc. split.
  - intros k. apply staking_tasks.
  - done.
  - intros k b l r Hb (acts & -> & _ & Hown). apply Forall_fmap, Forall_forall.
    intros a Ha db h _ Hne. rewrite Forall_forall in Hown. by apply (exec_apart a b); [apply Hown|..].
  - intros k b l d d' Hb (acts & -> & Htr & Hown) Hrun.
    destruct (staking_task_rows (nodes k) client b acts d d' Hc Hb Hown Htr Hrun)
      as (blk & Hblk & Hrows).
    exists (be_hash blk). unfold hash_at. by rewrite Hblk.
  - exact height_rows_read.
  - intros n db h. apply height_rows_checkpoint.
Qed.
End Instance.

(** ** From the node to the rows *)

Section Canonical.
Context `{HeaderHashing, !CollisionFree, !TreeRouteAlgo, !TreeRouteLaws}.
Context `{ScaleCodec, !ScaleLaws, EventCodec, Twox, TextCodecs, DecimalLib, Chrono}.
Context (valid : Header -> Prop).

(** A run of the listener from the block [start]: honest notifications, the messages it sent, and
    no switch to a branch with a single new block. *)
Record listened (sub : list (RpcNode * SubItem)) (s : Listener) (start : Header)
    (msgs : list BlocksExt) (best : Hash) : Prop := {
  li_honest : Forall (item_honest valid) sub;
  li_cache : cache_inv valid (cache s);
  li_start : valid start /\ header_hash start = best_hash s;
  li_sent : exists s' res, listen_for_blocks sub s = (s', res) /\ sent s' = sent s ++ msgs /\
    best_hash s' = best;
  li_some : msgs <> [];
  li_typed : Forall recv_typed (Received <$> msgs);
  li_branches : forall m, m ∈ msgs -> length (blocks m) = 1%nat -> maybe_reorg_data m = None;
}.

Definition start_block (start : Header) : HashAndNumber :=
  {| hn_number := number start; hn_hash := header_hash start |}.

(** The rows a staking processor leaves, among other writers of the database. *)
Lemma canonical_rows client nodes parallel sub s start msgs best db v w :
  ChainOk valid -> Rooted valid -> listened sub s start msgs best -> client_typed client ->
  (forall k, (k <= length msgs)%nat ->
     serves_chain valid (nodes k) (hn_hash (best_after (start_block start) msgs k))) ->
  let P k := StakingProcessor (nodes k) client in
  (v <= length msgs)%nat -> saved (P 0%nat) db <= number start ->
  (forall h, 1 <= h <= saved (P 0%nat) db ->
     right_rows client (hash_at (nodes 0%nat) h) h (height_rows db h)) ->
  rtc (world_step P parallel msgs (same_data height_rows))
    {| w_view := v; w_state := start_state db (Received <$> msgs) |} w ->
  ps_phase (w_state w) = Waiting -> ps_queue (w_state w) = [] ->
  exists hdr, valid hdr /\ header_hash hdr = best /\
    saved (P 0%nat) (ps_db (w_state w)) = number hdr /\
    forall x, on_chain valid best x -> 1 <= number x ->
      rows_of_block client (header_hash x) (number x) (height_rows (ps_db (w_state w)) (number x)).
Proof.
  intros Hchain Hroot [Hsub Hc [Hstart Hhash] (s' & res & Hrun & Hsent & <-) Hne Htyped Hbranch]
    Hclient Hserves P Hv Hsaved Hgood Hsteps Hph Hqueue.
  pose proof (listen_for_blocks_post valid Hchain sub s Hsub Hc) as Hpost. rewrite Hrun in Hpost.
  destruct Hpost as ((_ & (msgs' & Hsent' & Hann) & _) & _).
  assert (msgs' = msgs) as -> by (apply (app_inv_head (sent s)); congruence).
  rewrite <- Hhash in Hann. change (header_hash start) with (hn_hash (start_block start)) in Hann.
  assert (Hho : header_of valid (start_block start) start) by done.
  pose proof (announced_extends valid Hchain nodes _ start msgs _ Hroot Hho Hann Htyped Hbranch
    Hserves) as Hext.
  pose proof (staking_indexing nodes client Hclient) as Hix.
  destruct (world_at_rest P _ msgs _ _ _ parallel _ Hext db v w Hv Hsaved
    Hgood Hsteps Hph Hqueue Hne) as [Hcheck Hrows].
  destruct (best_after_header valid _ _ _ _ (length msgs) Hho Hann) as (hdr & Hhdr & Hbest & Hn).
  rewrite (best_after_all valid _ _ _ Hann) in Hbest.
  exists hdr. split; [done|]. split; [done|]. split; [congruence|].
  intros x Hx Hx1.
  assert (Hxn : number x <= number hdr).
  { destruct Hx as [Hx (l & Hl)].
    destruct (path_numbers valid Hchain _ _ _ hdr x Hl Hhdr Hbest Hx eq_refl). lia. }
  destruct (Hrows (number x) ltac:(lia)) as (_ & _ & (hash & Hhx & Hr) & _).
  rewrite (Hserves (length msgs) ltac:(lia) x) in Hhx; [by injection Hhx as <-|].
  by rewrite (best_after_all valid _ _ _ Hann).
Qed.
End Canonical.

(** ** An example: the node leaves the branch of [a2] for that of [b3] *)

Section Example.

(** Alice nominates operator 3 in every block, with 100 on the first branch and 200 on the
    second. *)
Definition branch_client : Client :=
  let c := toy_client [(q "Timestamp" "Now" [], encode_u64 1700000000000)] [] 100 [] in {|
  cl_fetch := cl_fetch c;
  cl_iter := cl_iter c;
  cl_events h := Ok [nomination 3 (if bool_decide (h ∈ [toy_id a1; toy_id a2]) then 100 else 200)];
  cl_segment_size := cl_segment_size c;
  cl_fetch_value := cl_fetch_value c;
  cl_decode_events := cl_decode_events c |}.

Lemma branch_client_typed : client_typed branch_client.
Proof.
  intros hash evs Hevs. cbn in Hevs. destruct (bool_decide _); injection Hevs as <-.
  all: split; [exact (Forall_nil_2 _)|].
  all: apply Forall_singleton; intros e He; injection He as <-; (split; cbn; lia).
Qed.

Definition branch_nodes (k : nat) : RpcNode := match k with O => on_a | S _ => on_b end.

Definition branch_msgs : list BlocksExt := sent (listen_for_blocks toy_sub toy_listener).1.

(** The database after the first branch has been indexed. *)
Definition branch_db : Db :=
  (run_processor (StakingProcessor on_a branch_client)
     [Received (message [a1; a2])] (clean_db no_tables)).1.

Definition branch_end : Db * outcome Ix.Error unit :=
  run_processor (StakingProcessor on_b branch_client) (Received <$> branch_msgs) branch_db.

Example branch_rows :
  map d_amount (nominator_deposits (tables branch_db)) = [100; 100] /\
  map d_amount (nominator_deposits (tables branch_end.1)) = [200; 200; 200] /\
  branch_end.2 = Ok tt.
Proof. vm_compute. done. Qed.

Lemma toy_rooted : Rooted toy_valid.
Proof.
  assert (Hall : Forall (fun x => 1 < number x -> Exists (fun p => header_hash p = parent_hash x)
    (toy_header <$> toy_blocks)) (toy_header <$> toy_blocks)).
  { repeat (constructor; [try (cbn; lia)|]); [..|constructor]; intros _;
      apply (bool_decide_unpack _); vm_compute; exact I. }
  intros x Hx Hn. rewrite Forall_forall in Hall.
  destruct (proj1 (Exists_exists _ _) (Hall x Hx Hn)) as (p & Hp & Hpx). by exists p.
Qed.

Lemma root_has_no_chain y : ~ on_chain toy_valid root y.
Proof.
  intros (Hy & l & Hl). apply toy_root_unserved. remember (header_hash y) as c eqn:Hc.
  destruct Hl as [h | h p l c (x & Hx & Hxh & _) _]; eauto.
Qed.

(** Walks down a chain of [ToyChain] block by block. *)
Ltac walk Hy blocks :=
  lazymatch blocks with
  | ?b :: ?rest =>
      let Hup := fresh "Hup" in
      destruct (on_chain_inv toy_valid (toy_header b) _ Hy) as [-> | Hup];
      [vm_compute; reflexivity | clear Hy; walk Hup rest]
  | [] => by destruct (root_has_no_chain _ Hy)
  end.

Lemma branch_nodes_serve k :
  (k <= length branch_msgs)%nat ->
  serves_chain toy_valid (branch_nodes k)
    (hn_hash (best_after (start_block (toy_header a2)) branch_msgs k)).
Proof.
  assert (Hl : length branch_msgs = 1%nat) by (vm_compute; reflexivity). rewrite Hl. intros Hk.
  destruct k as [|[|k]]; [| |lia]; intros y Hy.
  - change (hn_hash _) with (toy_id a2) in Hy. walk Hy [a2; a1; genesis].
  - replace (hn_hash _) with (toy_id b3) in Hy by (vm_compute; reflexivity).
    walk Hy [b3; b2; b1; genesis].
Qed.

Lemma branch_listened :
  listened toy_valid toy_sub toy_listener (toy_header a2) branch_msgs (toy_id b3).
Proof.
  split.
  - exact toy_sub_honest.
  - exact toy_cache_inv.
  - split; [do 3 (try (left; reflexivity); right) | reflexivity].
  - exists (listen_for_blocks toy_sub toy_listener).1, (listen_for_blocks toy_sub toy_listener).2.
    split; [apply surjective_pairing|]. split; vm_compute; reflexivity.
  - vm_compute. discriminate.
  - apply (bool_decide_unpack _). vm_compute. exact I.
  - intros m Hm Hone. assert (Hl : (fun m => length (blocks m)) <$> branch_msgs = [3%nat])
      by (vm_compute; reflexivity).
    revert Hm Hone Hl. generalize branch_msgs. intros l Hm Hone Hl.
    apply (list_elem_of_fmap_2 (fun m => length (blocks m))) in Hm. rewrite Hl, Hone in Hm.
    by apply list_elem_of_singleton in Hm.
Qed.

Lemma branch_db_right h :
  1 <= h <= 2 -> right_rows branch_client (hash_at on_a h) h (height_rows branch_db h).
Proof.
  intros Hh. assert (h = 1 \/ h = 2) as [-> | ->] by lia.
  1: exists (toy_id a1). 2: exists (toy_id a2).
  all: split; [vm_compute; reflexivity|].
  all: exists 1700000000000, 1700000000000, [nomination 3 100], [],
    [{| on_operator_id := 3; on_nominator_id := alice; on_amount := 100 |}], [].
  all: repeat (split; [vm_compute; reflexivity|]); vm_compute; reflexivity.
Qed.

#[export] Instance branch_laws : ProcessorLaws (StakingProcessor on_b branch_client) :=
  staking_laws on_b branch_client branch_client_typed.

End Example.
