(* ===== verification/XdmCanonical.v ===== *)
(** * The transfers of the canonical chain

    [Follow] for the XDM processor of one chain. What it stores is not kept per height: the row of
    a message is written by the blocks of its steps, on either chain, so that the
    blocks of an abandoned branch may overwrite each other's columns. A row has five parts: the
    columns of its three steps, which one of the chains writes, and the amount and the outcome,
    which both do. A [Slot] is one part of one row. Once the processor is at rest, the row
    of every message the canonical chain has an event for shows all columns of this event. *)

From Stdlib Require Import Strings.Byte.
From S2P Require Import Prelude HeadersCache TreeRoute BlockListener BlockListenerFacts.
From S2P Require Import Scale RpcTypes Types Events Chain Db IndexerError DbXdm DbXdmProps.
From S2P Require Import Xdm XdmFacts Processor Processors ProcessorProps.
From S2P Require Import Follow NodeChains Canonical.

(** ** The parts of a row *)

Inductive Part : Type := Initiation | Execution | Acknowledgement | Amount | Outcome.

#[export] Instance Part_eq : EqDecision Part.
Proof. solve_decision. Defined.

(** A part of the row of a message. *)
Definition Slot : Type := XdmKey * Part.

(** The columns of a part, the others left out. *)
Definition cells (p : Part) (r : XdmRow) : XdmRow :=
  match p with
  | Initiation => {| x_sender := x_sender r; x_receiver := x_receiver r;
      x_initiated := x_initiated r; x_amount := None; x_executed := no_cols;
      x_acknowledged := no_cols; x_successful := None |}
  | Execution => {| x_sender := None; x_receiver := None; x_initiated := no_cols;
      x_amount := None; x_executed := x_executed r; x_acknowledged := no_cols;
      x_successful := None |}
  | Acknowledgement => {| x_sender := None; x_receiver := None; x_initiated := no_cols;
      x_amount := None; x_executed := no_cols; x_acknowledged := x_acknowledged r;
      x_successful := None |}
  | Amount => {| x_sender := None; x_receiver := None; x_initiated := no_cols;
      x_amount := x_amount r; x_executed := no_cols; x_acknowledged := no_cols;
      x_successful := None |}
  | Outcome => {| x_sender := None; x_receiver := None; x_initiated := no_cols;
      x_amount := None; x_executed := no_cols; x_acknowledged := no_cols;
      x_successful := x_successful r |}
  end.

Definition row_of (db : Db) (key : XdmKey) : XdmRow :=
  default empty_row (xdm_transfers (tables db) !! key).

Definition slot_cells (db : Db) (s : Slot) : XdmRow := cells s.2 (row_of db s.1).

(** The chain on which a step happens: the execution on the destination. *)
Definition happens_on (c : ChainId) (s : Slot) : Prop :=
  let '((src, dst), _, _) := s.1 in
  (match s.2 with Execution => dst | _ => src end) = chain_to_string c.

Section Cells.
Context `{ChainTypes, TextCodecs, !HashBytes}.

Definition obs_step (o : Observation) : Part :=
  match ob_event o with
  | EvOutgoingTransferInitiated _ => Initiation
  | EvIncomingTransferSuccessful _ => Execution
  | _ => Acknowledgement
  end.

(** The parts of the row that the observation writes. *)
Definition obs_parts (o : Observation) : list Part :=
  match ob_event o with
  | EvOutgoingTransferInitiated _ => [Initiation; Amount]
  | EvIncomingTransferSuccessful _ => [Execution; Amount; Outcome]
  | _ => [Acknowledgement; Outcome]
  end.

Definition writes (o : Observation) (s : Slot) : Prop := s.1 = obs_key o /\ s.2 ∈ obs_parts o.

#[export] Instance writes_dec o s : Decision (writes o s).
Proof. unfold writes. apply _. Defined.

Definition obs_cells (o : Observation) (s : Slot) : XdmRow := cells s.2 (obs_row o).

(** The row has every column that the observation sets. *)
Definition recorded (o : Observation) (db : Db) : Prop :=
  overlay (obs_row o) (row_of db (obs_key o)) = row_of db (obs_key o).

Lemma overlay_parts o r :
  overlay (obs_row o) r = r <-> Forall (fun p => cells p r = cells p (obs_row o)) (obs_parts o).
Proof.
  unfold obs_parts, obs_row, obs_cols. destruct r as [sd rc a [n0 h0 t0] [n1 h1 t1] [n2 h2 t2] b].
  destruct (ob_event o); rewrite !Forall_cons, Forall_nil; cbn;
    unfold overlay, overlay_cols, block_cols, no_cols; cbn; split; intros Heq; destruct_and?;
    repeat match goal with E : @eq XdmRow _ _ |- _ => injection E; clear E; intros end; subst;
    done.
Qed.

Lemma recorded_cells o db :
  recorded o db <-> forall s, writes o s -> slot_cells db s = obs_cells o s.
Proof.
  unfold recorded. rewrite overlay_parts, Forall_forall. split.
  - intros Hp [key p] [Hk Hin]. cbn in Hk, Hin. subst key. by apply Hp.
  - intros Hs p Hp. by apply (Hs (obs_key o, p)).
Qed.

(** The sender of an initiation is on the chain of the initiation, and a transfer goes to
    another chain. *)
Definition own_sender (o : Observation) : Prop :=
  match ob_event o with
  | EvOutgoingTransferInitiated e => chain_id (tr_sender (otw_transfer e)) = ob_chain o
  | _ => True
  end.

Definition crosses (o : Observation) : Prop := (obs_chains o).1 <> (obs_chains o).2.

Lemma obs_happens o : own_sender o -> happens_on (ob_chain o) (obs_key o, obs_step o).
Proof.
  unfold own_sender, happens_on, obs_step, obs_key, obs_chains, message_key.
  destruct o as [c blk t []]; cbn; [by intros -> | done..].
Qed.

(** Two observations that write the same part are of one step, or agree on the part when they
    agree on the amount and on the outcome. *)
Lemma parts_agree o o' s :
  writes o s -> writes o' s ->
  agree (x_amount (obs_row o)) (x_amount (obs_row o')) ->
  agree (x_successful (obs_row o)) (x_successful (obs_row o')) ->
  obs_cells o s = obs_cells o' s \/ s.2 = obs_step o /\ s.2 = obs_step o'.
Proof.
  intros [_ Hp] [_ Hp']. unfold obs_cells, obs_parts, obs_row, obs_step in *.
  apply (bool_decide_pack _) in Hp, Hp'. destruct s as [key p].
  destruct (ob_event o), (ob_event o'), p; cbn in *; intros Ha Hb; try done; try (by right); left;
    congruence.
Qed.

(** The statement of a well-formed observation is [apply_obs]. *)
Lemma store_observation_stmt o : obs_wf o -> exists stmt : Stmt unit,
  (forall db, store_observation o db = run stmt db) /\
  forall t, stmt t = Ok (with_xdm (apply_obs o) t, tt).
Proof.
  intros Hwf. assert (Hrun : exists stmt : Stmt unit, forall db, store_observation o db = run stmt db).
  { unfold store_observation, store_event.
    destruct (ob_event o) as [[m [a [s sa] [r ra]]] | e | e | e]; eexists; intros db; reflexivity. }
  destruct Hrun as [stmt Hrun]. exists stmt. split; [done|]. intros t.
  pose proof (store_observation_clean o {| tables := t; faults := []; now := 0 |} Hwf eq_refl) as Hc.
  rewrite Hrun, run_clean in Hc by done. cbn in Hc.
  destruct (stmt t) as [[t' []]| | |]; [|discriminate Hc..]. injection Hc as ->. done.
Qed.

Lemma cells_overlay o p r :
  cells p (overlay (obs_row o) r) = if decide (p ∈ obs_parts o) then cells p (obs_row o) else cells p r.
Proof.
  unfold obs_parts, obs_row, obs_cols. destruct r as [sd rc a [] [] [] b].
  destruct (ob_event o), p; reflexivity.
Qed.

Lemma apply_obs_cells o m s :
  cells s.2 (default empty_row (apply_obs o m !! s.1)) =
    if decide (writes o s) then obs_cells o s else cells s.2 (default empty_row (m !! s.1)).
Proof.
  unfold apply_obs, obs_cells. destruct s as [key p]. cbn [fst snd].
  destruct (decide (key = obs_key o)) as [->|Hk].
  - rewrite lookup_insert_eq. cbn [from_option id]. rewrite cells_overlay.
    apply decide_ext. unfold writes. cbn. tauto.
  - rewrite lookup_insert_ne by done. rewrite decide_False; [done|]. by intros [? _].
Qed.

(** What a statement does to a part, however it ends. *)
Lemma store_observation_cells o db s :
  obs_wf o ->
  slot_cells (store_observation o db).1 s = slot_cells db s \/
  writes o s /\ slot_cells (store_observation o db).1 s = obs_cells o s.
Proof.
  intros Hwf. destruct (store_observation_stmt o Hwf) as (stmt & Hrun & Hstmt).
  rewrite Hrun. unfold slot_cells, row_of.
  destruct (run_tables stmt db) as [-> | (t & u & Ht & ->)]; [by left|].
  rewrite Hstmt in Ht. injection Ht as <- _. cbn [xdm_transfers with_xdm].
  rewrite apply_obs_cells. case_decide; [by right | by left].
Qed.

Lemma store_observation_stored o db db' s :
  obs_wf o -> store_observation o db = (db', Ok tt) -> writes o s ->
  slot_cells db' s = obs_cells o s.
Proof.
  intros Hwf Hst Hs. destruct (store_observation_stmt o Hwf) as (stmt & Hrun & Hstmt).
  rewrite Hrun in Hst. apply run_Ok in Hst. rewrite Hstmt in Hst. injection Hst as Ht.
  unfold slot_cells, row_of. rewrite <- Ht. cbn [xdm_transfers with_xdm].
  rewrite apply_obs_cells. by rewrite decide_True.
Qed.
End Cells.

(** ** The processor of one chain *)

Section Chain.
Context `{HeaderHashing, !CollisionFree}.
Context `{ScaleCodec, !ScaleLaws, EventCodec, Twox, TextCodecs, !HashBytes, DecimalLib, Chrono,
  TransferCodec}.
Context (valid : Header -> Prop) (nodes : nat -> RpcNode) (client : Client) (chain : ChainId)
  (n : nat).

Definition block_obs (k : nat) (b : Z) : list Observation :=
  job_obs (xdm_job (nodes k) client chain b).

(** The nodes are honest, their transfers are between their chain and another, and on none of
    the chains a step happens twice. *)
Record transfer_chain : Prop := {
  tc_honest k : node_honest valid (nodes k);
  tc_wf k b o : o ∈ block_obs k b -> obs_wf o /\ own_sender o /\ crosses o;
  tc_once k b b' o o' : (k <= n)%nat -> o ∈ block_obs k b -> o' ∈ block_obs k b' ->
    obs_key o = obs_key o' -> obs_step o = obs_step o' -> o = o';
}.
Hypothesis Htc : transfer_chain.

Lemma block_obs_own k b o :
  o ∈ block_obs k b -> obs_wf o /\ crosses o /\ happens_on chain (obs_key o, obs_step o).
Proof.
  intros Ho. destruct (tc_wf Htc k b o Ho) as (Hwf & Hs & Hx). split; [done|]. split; [done|].
  destruct (job_obs_block _ o Ho) as [Hc _]. cbn in Hc. rewrite <- Hc. by apply obs_happens.
Qed.

(** Nodes with the same block observe the same. *)
Lemma block_obs_same k k' h o :
  hash_at (nodes k) h = hash_at (nodes k') h -> o ∈ block_obs k h -> o ∈ block_obs k' h.
Proof.
  intros Hh Ho. destruct (job_obs_block _ o Ho) as (_ & blk & Hblk & _). cbn in Hblk.
  unfold hash_at in Hh. rewrite Hblk in Hh. cbn in Hh.
  destruct (block_ext_at_number (nodes k') h) as [blk'| | |] eqn:Hblk'; try done. injection Hh as Hhash.
  destruct (honest_block valid _ _ _ (tc_honest Htc k) Hblk) as (x & _ & Hx & Hxn).
  destruct (honest_block valid _ _ _ (tc_honest Htc k') Hblk') as (y & _ & Hy & Hyn).
  assert (x = y) as -> by (apply header_hash_inj; congruence).
  unfold block_obs, job_obs, xdm_job in *.
  rewrite <- (job_obs_same chain client (nodes k) (nodes k') h h blk blk'); [done..|congruence|].
  congruence.
Qed.

(** On one chain a part is written with the same columns. *)
Lemma one_chain_agrees k b b' o o' s :
  (k <= n)%nat -> o ∈ block_obs k b -> o' ∈ block_obs k b' -> writes o s -> writes o' s ->
  obs_cells o s = obs_cells o' s.
Proof.
  intros Hk Ho Ho' [Hs Hp] [Hs' Hp']. assert (Hkey : obs_key o = obs_key o') by congruence.
  destruct (decide (obs_step o = obs_step o')) as [Hstep|Hne].
  { by rewrite (tc_once Htc k b b' o o'). }
  destruct (block_obs_own k b o Ho) as (_ & Hx & Hon).
  destruct (block_obs_own k b' o' Ho') as (_ & _ & Hon').
  destruct Hx. apply (inj chain_to_string).
  unfold happens_on in Hon, Hon'. rewrite <- Hkey in Hon'. cbn in Hon, Hon'.
  unfold obs_step, obs_parts in *.
  destruct (ob_event o), (ob_event o'); cbn in Hne, Hon, Hon'; try done; try congruence;
    rewrite !elem_of_cons, elem_of_nil in Hp, Hp'; intuition congruence.
Qed.

(** What the other writers of the database may observe. *)
Context (other : Observation -> Prop).

(** They write the parts of what they observe. *)
Definition same_cells (db db' : Db) : Prop :=
  forall s, slot_cells db' s = slot_cells db s \/
    exists o, other o /\ writes o s /\ slot_cells db' s = obs_cells o s.

Lemma same_cells_xdm db db' :
  xdm_transfers (tables db') = xdm_transfers (tables db) -> same_cells db db'.
Proof. intros Htab s. left. unfold slot_cells, row_of. by rewrite Htab. Qed.

Lemma same_cells_read db db' : tables db' = tables db -> same_cells db db'.
Proof. intros Htab. apply same_cells_xdm. by rewrite Htab. Qed.

Lemma same_cells_checkpoint key c db : same_cells db (set_last_processed_block key c db).1.
Proof.
  apply same_cells_xdm. unfold set_last_processed_block.
  apply (run_keeps xdm_transfers). by intros t t' u [= <-].
Qed.

(** The part was written for an event on one of the chains from the [m]-th on, or by another
    writer. *)
Definition written (m : nat) (db : Db) (s : Slot) : Prop :=
  exists o, (other o \/ exists k b, (m <= k <= n)%nat /\ o ∈ block_obs k b) /\
    writes o s /\ slot_cells db s = obs_cells o s.

Definition good_transfers (m : nat) (block : outcome (Error Hash) Hash) (h : Z) (db : Db) : Prop :=
  forall k o s, hash_at (nodes k) h = block -> o ∈ block_obs k h -> writes o s -> written m db s.

Definition part_transfers (m k : nat) (b : Z) (ran : list Statement) (db : Db) : Prop :=
  forall o s, o ∈ take (length ran) (block_obs k b) -> writes o s -> written m db s.

(** ** It keeps to the interface *)

Lemma written_statement m k b o db s :
  (m <= k <= n)%nat -> o ∈ block_obs k b -> written m db s -> written m (store_observation o db).1 s.
Proof.
  intros Hk Ho (o' & Ho' & Hs & Hcells).
  destruct (block_obs_own k b o Ho) as [Hwf _].
  destruct (store_observation_cells o db s Hwf) as [Hsame | [Hw Hnew]].
  - exists o'. by rewrite Hsame.
  - exists o. split; [by right; exists k, b | done].
Qed.

Lemma written_keeps m db db' s :
  same_cells db db' -> written m db s -> written m db' s.
Proof.
  intros Hk (o & Ho & Hs & Hcells). destruct (Hk s) as [Hsame | (o' & Ho' & Hs' & Hnew)].
  - exists o. by rewrite Hsame.
  - exists o'. auto.
Qed.

Lemma task_statement k b l r st :
  block_task (XdmProcessor (nodes k) client chain) b l r -> st ∈ l ->
  exists o, o ∈ block_obs k b /\ st = store_observation o.
Proof. intros [-> _] Hst. apply list_elem_of_fmap in Hst as (o & -> & Ho). by exists o. Qed.

Lemma take_statement k b ran st rest r :
  block_task (XdmProcessor (nodes k) client chain) b (ran ++ st :: rest) r ->
  exists o, o ∈ block_obs k b /\ st = store_observation o /\
    take (length (ran ++ [st])) (block_obs k b) = take (length ran) (block_obs k b) ++ [o].
Proof.
  intros [Hl _]. change (job_obs _) with (block_obs k b) in Hl.
  apply (f_equal (fun l => l !! length ran)) in Hl as Ho.
  rewrite list_lookup_middle, list_lookup_fmap in Ho by done.
  destruct (block_obs k b !! length ran) as [o|] eqn:Hlook; [|done]. injection Ho as ->.
  exists o. split; [by eapply list_elem_of_lookup_2|]. split; [done|].
  rewrite length_app. cbn [length]. rewrite Nat.add_1_r. by apply take_S_r.
Qed.

#[export] Instance xdm_indexing :
  Indexing (fun k => XdmProcessor (nodes k) client chain) (fun k => hash_at (nodes k)) n
    same_cells good_transfers part_transfers.
Proof.
  split.
  - intros k. apply xdm_tasks.
  - done.
  - intros db db'. apply same_cells_read.
  - intros c db. apply same_cells_checkpoint.
  - intros m a h db db' _ Hk Hg k o s Ha Ho Hs. eapply written_keeps; [done|]. by eapply Hg.
  - intros m k b l db db' _ Hk Hp o s Ho Hs. eapply written_keeps; [done|]. by eapply Hp.
  - intros m a h k b l r st db Hk _ _ _ Htask Hst Hg k' o s Ha Ho Hs.
    destruct (task_statement k b l r st Htask Hst) as (o' & Ho' & ->).
    apply (written_statement m k b); [done..|]. by eapply Hg.
  - intros m i h ran k b l r st db Hk _ _ _ Htask Hst Hp o s Ho Hs.
    destruct (task_statement k b l r st Htask Hst) as (o' & Ho' & ->).
    apply (written_statement m k b); [done..|]. by eapply Hp.
  - intros m k b db o s Ho. by apply not_elem_of_nil in Ho.
  - intros m k b ran st rest db db' Hk _ Htask Hp Hst o s Ho Hs.
    destruct (take_statement k b ran st rest (Ok tt) Htask) as (o' & Ho' & -> & Htake).
    assert (Hdb' : db' = (store_observation o' db).1) by (by rewrite Hst).
    rewrite Htake in Ho. apply elem_of_app in Ho as [Ho | Ho].
    + rewrite Hdb'. apply (written_statement m k b); [done..|]. by eapply Hp.
    + apply list_elem_of_singleton in Ho as ->. exists o'. split; [by right; exists k, b|].
      split; [done|]. eapply store_observation_stored; [|done|done]. by apply (block_obs_own k b).
  - intros m k b l db Hk _ [Hl _] Hp k' o s Hh Ho Hs. apply (Hp o); [|done].
    rewrite Hl, length_fmap. change (job_obs _) with (block_obs k b). rewrite take_ge by done.
    by apply (block_obs_same k' k).
Qed.
End Chain.

(** ** At rest *)

Section Canonical.
Context `{HeaderHashing, !CollisionFree, !TreeRouteAlgo, !TreeRouteLaws}.
Context `{ScaleCodec, !ScaleLaws, EventCodec, Twox, TextCodecs, !HashBytes, DecimalLib, Chrono,
  TransferCodec}.
Context (valid : Header -> Prop).

(** The rows of the events of a canonical block, among writers that agree with its chain on the
    parts both write. *)
Lemma canonical_transfers client nodes chain other parallel sub s start msgs best db v w :
  ChainOk valid -> Rooted valid -> listened valid sub s start msgs best ->
  (forall k, (k <= length msgs)%nat ->
     serves_chain valid (nodes k) (hn_hash (best_after (start_block start) msgs k))) ->
  transfer_chain valid nodes client chain (length msgs) ->
  (forall b o o' p, o ∈ block_obs nodes client chain (length msgs) b -> other o' ->
     writes o p -> writes o' p -> obs_cells o p = obs_cells o' p) ->
  let P k := XdmProcessor (nodes k) client chain in
  (v <= length msgs)%nat -> saved (P 0%nat) db <= number start ->
  (forall h o, 1 <= h <= saved (P 0%nat) db -> o ∈ block_obs nodes client chain 0 h -> recorded o db) ->
  rtc (world_step P parallel msgs (same_cells other))
    {| w_view := v; w_state := start_state db (Received <$> msgs) |} w ->
  ps_phase (w_state w) = Waiting -> ps_queue (w_state w) = [] ->
  exists hdr, valid hdr /\ header_hash hdr = best /\
    saved (P 0%nat) (ps_db (w_state w)) = number hdr /\
    forall x, on_chain valid best x -> 1 <= number x ->
    forall o, o ∈ block_obs nodes client chain (length msgs) (number x) ->
      ob_block o = {| hn_number := number x; hn_hash := header_hash x |} /\
      recorded o (ps_db (w_state w)).
Proof.
  intros Hchain Hroot [Hsub Hc [Hstart Hhash] (s' & res & Hrun & Hsent & <-) Hne Htyped Hbranch]
    Hserves Htc Hother P Hv Hsaved Hgood Hsteps Hph Hqueue.
  pose proof (listen_for_blocks_post valid Hchain sub s Hsub Hc) as Hpost. rewrite Hrun in Hpost.
  destruct Hpost as ((_ & (msgs' & Hsent' & Hann) & _) & _).
  assert (msgs' = msgs) as -> by (apply (app_inv_head (sent s)); congruence).
  rewrite <- Hhash in Hann. change (header_hash start) with (hn_hash (start_block start)) in Hann.
  assert (Hho : header_of valid (start_block start) start) by done.
  pose proof (announced_extends valid Hchain nodes _ start msgs _ Hroot Hho Hann Htyped Hbranch
    Hserves) as Hext.
  pose proof (xdm_indexing valid nodes client chain (length msgs) Htc other) as Hix.
  destruct (world_at_rest P _ msgs _ _ _ parallel _ Hext db v w Hv Hsaved) as [Hcheck Hrows];
    [|exact Hsteps | exact Hph | exact Hqueue | exact Hne|].
  { intros h Hh k o p Hk Ho Hp. assert (Ho0 : o ∈ block_obs nodes client chain 0 h).
    { by eapply (block_obs_same valid nodes client chain (length msgs) Htc k 0). }
    exists o. split; [right; exists 0%nat, h; split; [lia | done]|]. split; [done|].
    by apply recorded_cells; [apply (Hgood h)|]. }
  destruct (best_after_header valid _ _ _ _ (length msgs) Hho Hann) as (hdr & Hhdr & Hbest & Hn).
  rewrite (best_after_all valid _ _ _ Hann) in Hbest.
  exists hdr. split; [done|]. split; [done|]. split; [congruence|].
  intros x Hx Hx1 o Ho.
  assert (Hxn : number x <= number hdr).
  { destruct Hx as [Hx (l & Hl)].
    destruct (path_numbers valid Hchain _ _ _ hdr x Hl Hhdr Hbest Hx eq_refl). lia. }
  assert (Hhx : hash_at (nodes (length msgs)) (number x) = Ok (header_hash x)).
  { apply Hserves; [lia|]. by rewrite (best_after_all valid _ _ _ Hann). }
  split.
  - destruct (job_obs_block _ o Ho) as (_ & blk & Hblk & ->). cbn in Hblk.
    unfold hash_at in Hhx. rewrite Hblk in Hhx. injection Hhx as Hbh.
    destruct (honest_block valid _ _ _ (tc_honest _ _ _ _ _ Htc _) Hblk) as (y & _ & Hy & Hyn).
    assert (y = x) as -> by (apply header_hash_inj; congruence). by rewrite Hyn, Hbh.
  - apply recorded_cells. intros p Hp. destruct (Hrows (number x) ltac:(lia)) as (m & Hm & Hg & Hsame).
    destruct (Hg (length msgs) o p eq_refl Ho Hp) as (o' & [Hoth | (k & b & Hk & Ho')] & Hp' & ->).
    + symmetry. by eapply Hother.
    + assert (Hok : o ∈ block_obs nodes client chain k (number x)).
      { eapply (block_obs_same valid nodes client chain (length msgs) Htc (length msgs) k); [|done].
        symmetry. apply Hsame. lia. }
      eapply (one_chain_agrees valid nodes client chain (length msgs) Htc k); [lia|done..].
Qed.
End Canonical.
