(* ===== verification/System.v ===== *)
(** * The whole indexer

    The processors of the indexer run in one program and share one database: every
    statement of one of them runs in between statements of the others, and the
    HTTP handlers read in between. Each processor is a [World] of its own, with its own
    channel and node; [System] runs them over one database. Seen from one processor the
    others are writers that keep its checkpoint and its data, so that what [Follow] shows
    of a world holds in the system. *)

From S2P Require Import Prelude HeadersCache TreeRoute BlockListener BlockListenerFacts.
From S2P Require Import Scale RpcTypes Types Events Chain Db IndexerError DbXdm DbXdmProps.
From S2P Require Import Staking StakingFacts StakingProps Xdm Processor Processors ProcessorProps Follow NodeChains.
From S2P Require Import Canonical ToyChain ListenerProps ScaleLE ToyIndexer.

Section System.
Context `{ChainTypes} (parallel : nat).

(** A processor for each chain its node may have, and the messages it is sent. *)
Record Member : Type := { mb_proc : nat -> BlockProcessor; mb_msgs : list BlocksExt }.

Definition mb_key (m : Member) : string := checkpoint_key (mb_proc m 0%nat).

Context (members : list Member).

Record System : Type := { sy_db : Db; sy_worlds : list World }.

(** The [i]-th processor on the shared database. *)
Definition shared (db : Db) (w : World) : World :=
  {| w_view := w_view w; w_state := with_db (w_state w) db |}.

Inductive system_step : System -> System -> Prop :=
  (** The node of a processor moves on. *)
  | system_moves i m w v sy :
      members !! i = Some m -> sy_worlds sy !! i = Some w ->
      (w_view w <= v <= length (mb_msgs m))%nat ->
      system_step sy {| sy_db := sy_db sy;
        sy_worlds := <[i := {| w_view := v; w_state := w_state w |}]> (sy_worlds sy) |}
  (** A processor takes a step, on the shared database. *)
  | system_runs i m w s' sy :
      members !! i = Some m -> sy_worlds sy !! i = Some w ->
      step (mb_proc m (w_view w)) parallel (with_db (w_state w) (sy_db sy)) s' ->
      (received (mb_msgs m) s' <= w_view w)%nat ->
      system_step sy {| sy_db := ps_db s';
        sy_worlds := <[i := {| w_view := w_view w; w_state := s' |}]> (sy_worlds sy) |}
  (** A request is served, the connection comes and goes, time passes. *)
  | system_reads sy db' :
      tables db' = tables (sy_db sy) ->
      system_step sy {| sy_db := db'; sy_worlds := sy_worlds sy |}.

(** ** One processor among the others *)

Section Frame.
Context (keeps : relation Db) (i : nat) (mi : Member).
Hypothesis Hi : members !! i = Some mi.

(** A statement that leaves the checkpoints and what matters to the processor alone. *)
Definition harmless (st : Statement) : Prop := forall db,
  metadata (tables (st db).1) = metadata (tables db) /\ keeps db (st db).1.

(** What the other processors must satisfy: statements that are harmless, and a checkpoint of
    their own. *)
Record stays_out (m : Member) : Prop := {
  so_key : mb_key m <> mb_key mi;
  so_same v : checkpoint_key (mb_proc m v) = mb_key m;
  so_tasks v b l r : block_task (mb_proc m v) b l r -> Forall harmless l;
}.

Hypothesis Hothers : forall j m, j <> i -> members !! j = Some m -> stays_out m.
Hypothesis Hread : forall db db', tables db' = tables db -> keeps db db'.
Hypothesis Hwrite : forall key n db, keeps db (set_last_processed_block key n db).1.

Definition in_flight_harmless (s : PState) : Prop :=
  match ps_phase s with
  | Working r => Forall (fun t => Forall harmless (t_todo t)) (r_inflight r)
  | _ => True
  end.

Lemma set_checkpoint_other key key' n db :
  key <> key' ->
  metadata (tables (set_last_processed_block key n db).1) !! key' = metadata (tables db) !! key'.
Proof.
  intros Hne. unfold set_last_processed_block.
  match goal with |- context [run ?stmt db] =>
    destruct (run_tables stmt db) as [-> | (t & u & Hstmt & ->)]; [done|] end.
  injection Hstmt as <-. cbn. unfold upsert. destruct (metadata (tables db) !! key);
    by rewrite lookup_insert_ne.
Qed.

Lemma checkpoint_apart m db n next v :
  stays_out m -> apart (mb_proc mi) keeps db (checkpoint (mb_proc m v) db n next).1.
Proof.
  intros [Hne Hsame _]. unfold checkpoint, Ix.db. rewrite Hsame.
  assert (Hap : apart (mb_proc mi) keeps db (set_last_processed_block (mb_key m) n db).1).
  { split; [by apply set_checkpoint_other | apply Hwrite]. }
  destruct (set_last_processed_block _ n db) as [db' [[]| | |]]; exact Hap.
Qed.

Lemma apart_refl db : apart (mb_proc mi) keeps db db.
Proof. split; [done | by apply Hread]. Qed.

Lemma apart_read db db' : tables db' = tables db -> apart (mb_proc mi) keeps db db'.
Proof. intros Htab. split; [by rewrite Htab | by apply Hread]. Qed.

(** A step of another processor is a write that keeps the checkpoint and the data. *)
Lemma step_apart m v s s' :
  stays_out m -> in_flight_harmless s -> step (mb_proc m v) parallel s s' ->
  apart (mb_proc mi) keeps (ps_db s) (ps_db s') /\ in_flight_harmless s'.
Proof.
  intros Hout Hfl Hstep. pose proof (so_tasks _ Hout v) as Htasks.
  destruct Hstep as [s m' queue Hph Hqueue | s n queue Hph Hqueue | s queue Hph Hqueue
    | s r l result Hph _ _ Htask | s r before t after st rest db' res Hph Hin Htodo Hst
    | s r t rest Hph Hin _ _ | s r t rest Hph _ _ _ | s r Hph _ _].
  - unfold on_message. pose proof (last_processed_spec (mb_proc m v) (ps_db s)) as [Htab _].
    destruct (last_processed _ _) as [db' last]. cbn in Htab |- *.
    split; [by apply apart_read|]. unfold in_flight_harmless. cbn.
    destruct (block_range last m') as [[from to]| | |]; [|done..]. by destruct (to <? from).
  - split; [apply apart_refl | done].
  - split; [apply apart_refl | done].
  - split; [apply apart_refl|]. unfold in_flight_harmless in *. rewrite Hph in Hfl. cbn.
    apply Forall_app. split; [done|]. constructor; [|done]. cbn. by eapply Htasks.
  - unfold in_flight_harmless in *. rewrite Hph, Hin in Hfl. cbn [ps_phase set_phase ps_db r_inflight].
    apply Forall_app in Hfl as [Hb Hfl]. apply Forall_cons in Hfl as [Ht Ha].
    rewrite Htodo in Ht. apply Forall_cons in Ht as [Hs Hrest].
    destruct (Hs (ps_db s)) as [Hm Hd]. rewrite Hst in Hm, Hd. cbn in Hm, Hd. split.
    + split; [by rewrite Hm | done].
    + apply Forall_app. split; [done|]. constructor; [|done].
      unfold advance. by destruct res as [[]| | |].
  - assert (Hr : Forall (fun t => Forall harmless (t_todo t)) rest).
    { unfold in_flight_harmless in Hfl. rewrite Hph, Hin in Hfl. by apply Forall_cons in Hfl as [_ ?]. }
    unfold take_block. destruct (_ =? 0); [|by split; [apply apart_refl|]].
    match goal with |- context [checkpoint _ ?db ?b ?next] =>
      pose proof (checkpoint_apart m db b next v Hout) as Hap;
      pose proof (checkpoint_phase (mb_proc m v) db b next) as Hp;
      destruct (checkpoint (mb_proc m v) db b next) as [db' phase] end.
    split; [done|]. unfold in_flight_harmless. cbn in Hp |- *. by destruct Hp as [-> | [x ->]].
  - split; [apply apart_refl | done].
  - unfold finish_range. pose proof (checkpoint_apart m (ps_db s) (r_to r) Waiting v Hout) as Hap.
    pose proof (checkpoint_phase (mb_proc m v) (ps_db s) (r_to r) Waiting) as Hp.
    destruct (checkpoint _ _ _ _) as [db' phase]. split; [done|].
    unfold in_flight_harmless. cbn in Hp |- *. by destruct Hp as [-> | [x ->]].
Qed.

(** The other processors have harmless statements in flight. *)
Definition others_harmless (sy : System) : Prop := forall j w,
  j <> i -> sy_worlds sy !! j = Some w -> in_flight_harmless (w_state w).

Lemma with_db_id s : with_db s (ps_db s) = s.
Proof. by destruct s. Qed.

Lemma others_insert sy db j w' :
  others_harmless sy -> (j <> i -> in_flight_harmless (w_state w')) ->
  others_harmless {| sy_db := db; sy_worlds := <[j := w']> (sy_worlds sy) |}.
Proof.
  intros Hsy Hw' k w Hk Hl. cbn in Hl. destruct (decide (k = j)) as [->|].
  - apply list_lookup_insert_Some in Hl as [(_ & <- & _) | (? & _)]; [by apply Hw' | done].
  - rewrite list_lookup_insert_ne in Hl by done. by apply (Hsy k).
Qed.

(** A step of the system is at most a step of the world of the [i]-th processor. *)
Lemma system_step_world sy sy' w :
  system_step sy sy' -> others_harmless sy -> sy_worlds sy !! i = Some w ->
  others_harmless sy' /\ exists w', sy_worlds sy' !! i = Some w' /\
    rtc (world_step (mb_proc mi) parallel (mb_msgs mi) keeps)
      (shared (sy_db sy) w) (shared (sy_db sy') w').
Proof.
  intros Hstep Hsy Hw.
  destruct Hstep as [j m wj v sy Hm Hwj Hv | j m wj s' sy Hm Hwj Hs Hrecv | sy db' Htab].
  - split; [apply others_insert; [done|]; intros Hj; exact (Hsy j wj Hj Hwj)|]. cbn.
    destruct (decide (j = i)) as [->|Hj].
    + rewrite Hw in Hwj. injection Hwj as <-. rewrite Hi in Hm. injection Hm as <-.
      eexists. split; [apply list_lookup_insert_eq; by eapply lookup_lt_Some|].
      apply rtc_once. by apply world_moves.
    + exists w. split; [by rewrite list_lookup_insert_ne | apply rtc_refl].
  - destruct (decide (j = i)) as [->|Hj].
    + rewrite Hw in Hwj. injection Hwj as <-. rewrite Hi in Hm. injection Hm as <-.
      split; [by apply others_insert|]. cbn.
      eexists. split; [apply list_lookup_insert_eq; by eapply lookup_lt_Some|].
      apply rtc_once. unfold shared. cbn. rewrite with_db_id. by apply world_runs.
    + destruct (step_apart m (w_view wj) (with_db (w_state wj) (sy_db sy)) s'
        (Hothers j m Hj Hm) (Hsy j wj Hj Hwj) Hs)
        as [Hap Hfl].
      split; [by apply others_insert|]. exists w. cbn.
      split; [by rewrite list_lookup_insert_ne|].
      apply rtc_once. exact (world_writes (mb_proc mi) parallel (mb_msgs mi) keeps (w_view w)
        (with_db (w_state w) (sy_db sy)) (ps_db s') Hap).
  - split; [exact Hsy|]. exists w. split; [done|].
    apply rtc_once. exact (world_writes (mb_proc mi) parallel (mb_msgs mi) keeps (w_view w)
      (with_db (w_state w) (sy_db sy)) db' (apart_read _ _ Htab)).
Qed.

Lemma system_world sy sy' w :
  rtc system_step sy sy' -> others_harmless sy -> sy_worlds sy !! i = Some w ->
  exists w', sy_worlds sy' !! i = Some w' /\
    rtc (world_step (mb_proc mi) parallel (mb_msgs mi) keeps)
      (shared (sy_db sy) w) (shared (sy_db sy') w').
Proof.
  intros Hsteps. revert w. induction Hsteps as [sy | sy1 sy2 sy3 H12 _ IH]; intros w Hsy Hw.
  - by exists w.
  - destruct (system_step_world _ _ _ H12 Hsy Hw) as (Hsy2 & w2 & Hw2 & Hstep).
    destruct (IH w2 Hsy2 Hw2) as (w3 & Hw3 & Hrest). exists w3. split; [done|]. by etrans.
Qed.
End Frame.

(** The system at its start: all processors wait, with their messages to come. *)
Definition system_start (db : Db) (views : list nat) : System := {|
  sy_db := db;
  sy_worlds := zip_with (fun m v =>
    {| w_view := v; w_state := start_state db (Received <$> mb_msgs m) |}) members views |}.

Lemma system_start_lookup db views i m :
  length views = length members -> members !! i = Some m -> exists v, views !! i = Some v /\
    sy_worlds (system_start db views) !! i =
      Some {| w_view := v; w_state := start_state db (Received <$> mb_msgs m) |}.
Proof.
  intros Hlen Hm. destruct (lookup_lt_is_Some_2 views i) as [v Hv].
  { rewrite Hlen. by eapply lookup_lt_Some. }
  exists v. split; [done|]. cbn. rewrite lookup_zip_with, Hm. cbn. by rewrite Hv.
Qed.

Lemma system_start_harmless keeps i db views :
  others_harmless keeps i (system_start db views).
Proof.
  intros j w _ Hw. cbn in Hw. rewrite lookup_zip_with in Hw.
  destruct (members !! j); cbn in Hw; [|done]. destruct (views !! j); cbn in Hw; [|done].
  by injection Hw as <-.
Qed.

(** A processor whose node has its last chain may run alone. *)
Lemma system_runs_on i m s s' :
  members !! i = Some m -> rtc (step (mb_proc m (length (mb_msgs m))) parallel) s s' ->
  forall sy w, sy_worlds sy !! i = Some w -> w_view w = length (mb_msgs m) ->
    with_db (w_state w) (sy_db sy) = s ->
    exists sy' w', rtc system_step sy sy' /\ sy_worlds sy' !! i = Some w' /\
      with_db (w_state w') (sy_db sy') = s' /\
      forall j, j <> i -> sy_worlds sy' !! j = sy_worlds sy !! j.
Proof.
  intros Hm Hsteps. induction Hsteps as [s | s1 s2 s3 H12 _ IH]; intros sy w Hw Hview Hs.
  - exists sy, w. by split_and!.
  - subst s1.
    set (sy2 := {| sy_db := ps_db s2; sy_worlds :=
      <[i := {| w_view := w_view w; w_state := s2 |}]> (sy_worlds sy) |}).
    assert (Hstep : system_step sy sy2).
    { apply (system_runs i m w); [done | done | by rewrite Hview|].
      rewrite Hview. unfold received. lia. }
    destruct (IH sy2 {| w_view := w_view w; w_state := s2 |}) as (sy' & w' & Hrun & Hw' & Hs3 & Hj).
    + apply list_lookup_insert_eq. by eapply lookup_lt_Some.
    + done.
    + apply with_db_id.
    + exists sy', w'. split; [by eapply rtc_l|]. split; [done|]. split; [done|].
      intros j Hne. rewrite (Hj j Hne). by apply list_lookup_insert_ne.
Qed.
End System.

(** ** The indexer's processors *)

Section Indexer.
Context `{HeaderHashing, !CollisionFree, !TreeRouteAlgo, !TreeRouteLaws}.
Context `{ScaleCodec, !ScaleLaws, EventCodec, Twox, TextCodecs, !HashBytes, DecimalLib, Chrono,
  TransferCodec}.

(** A chain as the indexer sees it: the node at each of its chains, its storage, and the
    messages of its listener. *)
Record Source : Type := {
  src_nodes : nat -> RpcNode;
  src_client : Client;
  src_msgs : list BlocksExt;
}.

Definition staking_member (src : Source) : Member :=
  {| mb_proc k := StakingProcessor (src_nodes src k) (src_client src); mb_msgs := src_msgs src |}.

Definition xdm_member (chain : ChainId) (src : Source) : Member :=
  {| mb_proc k := XdmProcessor (src_nodes src k) (src_client src) chain;
     mb_msgs := src_msgs src |}.

(** What [start_tasks] spawns for the consensus chain and for the Auto-EVM domain. *)
Definition indexer_members (consensus domain : Source) : list Member :=
  [staking_member consensus; xdm_member Consensus consensus;
   xdm_member (Domain {| domain_id := 0 |}) domain].

Lemma keys_differ consensus domain i j mi mj :
  indexer_members consensus domain !! i = Some mi ->
  indexer_members consensus domain !! j = Some mj -> i <> j -> mb_key mi <> mb_key mj.
Proof.
  intros Hi Hj Hne.
  destruct i as [|[|[|i]]], j as [|[|[|j]]]; cbn in Hi, Hj; try done;
    injection Hi as <-; injection Hj as <-; vm_compute; discriminate.
Qed.

(** Of all members: statements that keep the checkpoints. *)
Lemma member_tasks consensus domain i m k :
  indexer_members consensus domain !! i = Some m ->
  TaskLaws (mb_proc m k) /\ checkpoint_key (mb_proc m k) = mb_key m.
Proof.
  intros Hm. destruct i as [|[|[|i]]]; cbn in Hm; [injection Hm as <- ..|done].
  - split; [apply staking_tasks | done].
  - split; [apply xdm_tasks | done].
  - split; [apply xdm_tasks | done].
Qed.

(** Another member stays out of the way when its statements do. *)
Lemma others_stay_out consensus domain keeps i mi j m :
  indexer_members consensus domain !! i = Some mi -> j <> i ->
  indexer_members consensus domain !! j = Some m ->
  (forall v b l r st db, block_task (mb_proc m v) b l r -> st ∈ l -> keeps db (st db).1) ->
  stays_out keeps mi m.
Proof.
  intros Hi Hj Hm Hkeep. split.
  - by apply (keys_differ consensus domain j i).
  - intros v. by apply (member_tasks consensus domain j m v).
  - intros v b l r Htask. destruct (member_tasks consensus domain j m v Hm) as [Hlaws _].
    pose proof (task_keeps b l r Htask) as Hmeta. rewrite Forall_forall in Hmeta.
    apply Forall_forall. intros st Hst db. split; [by apply Hmeta | by eapply Hkeep].
Qed.

(** Seen from the staking processor the others only write to the transfers. *)
Lemma staking_undisturbed consensus domain j m :
  j <> 0%nat -> indexer_members consensus domain !! j = Some m ->
  stays_out (same_data height_rows) (staking_member consensus) m.
Proof.
  intros Hj Hm. apply (others_stay_out consensus domain _ 0 _ j); [done..|].
  intros v b l r st db Htask Hst h _.
  assert (Hobs : exists o, st = store_observation o).
  { destruct j as [|[|[|j]]]; cbn in Hm; [done | injection Hm as <- .. | done];
      destruct Htask as [-> _]; apply list_elem_of_fmap in Hst as (o & -> & _); by exists o. }
  destruct Hobs as [o ->]. unfold height_rows.
  by rewrite (store_observation_keeps nominator_deposits),
    (store_observation_keeps nominator_withdrawals).
Qed.

Context (valid : Header -> Prop).

(** What is asked of the consensus chain, its node, the messages the staking processor receives
    and the database it starts with. *)
Record staking_setting (consensus : Source) (sub : list (RpcNode * SubItem)) (s : Listener)
    (start : Header) (best : Hash) (db : Db) : Prop := {
  sg_chain : ChainOk valid;
  sg_rooted : Rooted valid;
  sg_listened : listened valid sub s start (src_msgs consensus) best;
  sg_typed : client_typed (src_client consensus);
  sg_serves k : (k <= length (src_msgs consensus))%nat ->
    serves_chain valid (src_nodes consensus k)
      (hn_hash (best_after (start_block start) (src_msgs consensus) k));
  sg_saved :
    saved (StakingProcessor (src_nodes consensus 0) (src_client consensus)) db <= number start;
  sg_right h :
    1 <= h <= saved (StakingProcessor (src_nodes consensus 0) (src_client consensus)) db ->
    right_rows (src_client consensus) (hash_at (src_nodes consensus 0) h) h (height_rows db h);
}.

(** The rows the indexer has once its staking processor is at rest. *)
Lemma staking_at_rest consensus domain parallel sub s start best db views sy w :
  staking_setting consensus sub s start best db ->
  let members := indexer_members consensus domain in
  length views = 3%nat -> (forall v, v ∈ views -> (v <= length (src_msgs consensus))%nat) ->
  rtc (system_step parallel members) (system_start members db views) sy ->
  sy_worlds sy !! 0%nat = Some w -> ps_phase (w_state w) = Waiting -> ps_queue (w_state w) = [] ->
  exists hdr, valid hdr /\ header_hash hdr = best /\
    saved (StakingProcessor (src_nodes consensus 0) (src_client consensus)) (sy_db sy) =
      number hdr /\
    forall x, on_chain valid best x -> 1 <= number x ->
      rows_of_block (src_client consensus) (header_hash x) (number x)
        (height_rows (sy_db sy) (number x)).
Proof.
  intros [] members Hlen Hviews Hsteps Hw Hph Hq.
  destruct (system_start_lookup members db views 0 _ Hlen eq_refl) as (v & Hv & Hstart).
  destruct (system_world parallel members (same_data height_rows) 0 _ eq_refl
    (staking_undisturbed consensus domain)
    (fun db db' Ht h _ => height_rows_read db db' h Ht)
    (fun key n db h _ => height_rows_checkpoint key n db h) _ _ _ Hsteps
    (system_start_harmless members _ 0 db views) Hstart) as (w' & Hw' & Hworld).
  rewrite Hw in Hw'. injection Hw' as <-.
  apply (canonical_rows valid (src_client consensus) (src_nodes consensus) parallel sub s start
    (src_msgs consensus) best db v (shared (sy_db sy) w)); try done.
  apply Hviews. by eapply list_elem_of_lookup_2.
Qed.

(** C1: the indexed deposits and withdrawals are those of the canonical chain. The whole
    indexer runs: its three processors on one database, with any number of blocks in flight and
    their statements interleaved in any way, requests served in between, and the
    listener following a node that moves on meanwhile, so that a block may be
    read from a newer chain than the one announced. Take one subscription of the listener, of
    which the staking processor receives every message and which never switches to a branch with a
    single new block, and start with a checkpoint at or below the listener's best block and right
    rows up to it. Then, at any time, every block between the first and the current checkpoint of
    any of the processors has run all its statements; and once the staking
    processor is at rest with everything received, its checkpoint is the height of the listener's
    best block, and for every block of the canonical chain, the reorganized ones
    included, the rows stored at its height are exactly those the block calls for. *)
Theorem indexer_canonical consensus domain parallel sub s start best db views sy :
  ChainOk valid -> Rooted valid -> listened valid sub s start (src_msgs consensus) best ->
  Forall recv_typed (Received <$> src_msgs domain) -> client_typed (src_client consensus) ->
  (forall k, (k <= length (src_msgs consensus))%nat ->
     serves_chain valid (src_nodes consensus k)
       (hn_hash (best_after (start_block start) (src_msgs consensus) k))) ->
  let members := indexer_members consensus domain in
  let staking := StakingProcessor (src_nodes consensus 0) (src_client consensus) in
  length views = 3%nat -> (forall v, v ∈ views -> (v <= length (src_msgs consensus))%nat) ->
  saved staking db <= number start ->
  (forall h, 1 <= h <= saved staking db ->
     right_rows (src_client consensus) (hash_at (src_nodes consensus 0) h) h (height_rows db h)) ->
  rtc (system_step parallel members) (system_start members db views) sy ->
  (forall i m w, members !! i = Some m -> sy_worlds sy !! i = Some w ->
     forall b, saved (mb_proc m 0) db < b <= saved (mb_proc m 0) (sy_db sy) ->
     exists k sts, (b, sts) ∈ log (w_state w) /\ block_task (mb_proc m k) b sts (Ok tt)) /\
  (forall w, sy_worlds sy !! 0%nat = Some w ->
     ps_phase (w_state w) = Waiting -> ps_queue (w_state w) = [] ->
     exists hdr, valid hdr /\ header_hash hdr = best /\ saved staking (sy_db sy) = number hdr /\
       forall x, on_chain valid best x -> 1 <= number x ->
         rows_of_block (src_client consensus) (header_hash x) (number x)
           (height_rows (sy_db sy) (number x))).
Proof.
  intros Hchain Hroot Hl Htyped Hclient Hserves members staking Hlen Hviews Hsaved Hright Hsteps.
  split.
  - intros i m w Hm Hw b Hb.
    destruct (system_start_lookup members db views i m Hlen Hm) as (v & _ & Hstart).
    destruct (system_world parallel members (fun _ _ => True) i m Hm
      (fun j mj Hj Hmj => others_stay_out consensus domain _ i m j mj Hm Hj Hmj
        (fun _ _ _ _ _ _ _ _ => I))
      (fun _ _ _ => I) (fun _ _ _ => I) _ _ _ Hsteps
      (system_start_harmless members _ i db views) Hstart) as (w' & Hw' & Hworld).
    rewrite Hw in Hw'. injection Hw' as <-.
    refine (world_covered (mb_proc m) parallel (mb_msgs m) _ _ _ db (Received <$> mb_msgs m) v
      (shared (sy_db sy) w) _ Hworld b Hb).
    + intros k. by apply (member_tasks consensus domain i m k).
    + intros k. by apply (member_tasks consensus domain i m k).
    + destruct i as [|[|[|i]]]; cbn in Hm; [injection Hm as <- ..|done]; [apply Hl | apply Hl | done].
  - intros w Hw Hph Hq. by eapply (staking_at_rest consensus domain parallel sub s start best db views).
Qed.
End Indexer.

(** ** Witness: the node leaves one branch for another, and the rows follow *)

Section Witness.
#[local] Instance still_transfers : TransferCodec := { decode_transfer := throw (CodecMessage "none") }.

Definition branch_source : Source :=
  {| src_nodes := branch_nodes; src_client := branch_client; src_msgs := branch_msgs |}.
Definition silent_source : Source :=
  {| src_nodes := fun _ => on_a; src_client := branch_client; src_msgs := [] |}.

Definition branch_members : list Member := indexer_members branch_source silent_source.

(** The transfers and the staking of the chain are indexed, in this order. *)
Definition transfers_end : Db * outcome Ix.Error unit :=
  run_processor (XdmProcessor on_b branch_client Consensus) (Received <$> branch_msgs) branch_db.
Definition both_end : Db * outcome Ix.Error unit :=
  run_processor (StakingProcessor on_b branch_client) (Received <$> branch_msgs) transfers_end.1.

Lemma both_end_ok : transfers_end.2 = Ok tt /\ both_end.2 = Ok tt.
Proof. split; vm_compute; reflexivity. Qed.

Lemma branch_run : exists sy w,
  rtc (system_step 4 branch_members) (system_start branch_members branch_db [1; 1; 0]%nat) sy /\
  sy_worlds sy !! 0%nat = Some w /\ ps_phase (w_state w) = Waiting /\
  ps_queue (w_state w) = [] /\ sy_db sy = both_end.1.
Proof.
  assert (Hlen : length branch_msgs = 1%nat) by (vm_compute; reflexivity).
  destruct (run_processor_steps (XdmProcessor on_b branch_client Consensus) 4 branch_db
    (Received <$> branch_msgs) transfers_end.1 (Ok tt) ltac:(lia) (run_eq _ _ (proj1 both_end_ok)))
    as (s1 & Hs1 & Hdb1 & _ & _).
  destruct (run_processor_steps (StakingProcessor on_b branch_client) 4 transfers_end.1
    (Received <$> branch_msgs) both_end.1 (Ok tt) ltac:(lia) (run_eq _ _ (proj2 both_end_ok)))
    as (s2 & Hs2 & Hend & Hph2 & Hq2).
  destruct (system_runs_on 4 branch_members 1 (xdm_member Consensus branch_source)
    (start_state branch_db (Received <$> branch_msgs)) s1 eq_refl) with
    (sy := system_start branch_members branch_db [1; 1; 0]%nat)
    (w := {| w_view := 1; w_state := start_state branch_db (Received <$> branch_msgs) |})
    as (sy1 & w1 & Hrun1 & Hw1 & Hdb & Hj).
  - cbn [mb_msgs xdm_member src_msgs branch_source]. rewrite Hlen. exact Hs1.
  - reflexivity.
  - cbn [mb_msgs xdm_member src_msgs branch_source]. by rewrite Hlen.
  - reflexivity.
  - assert (Hsy1 : sy_db sy1 = transfers_end.1) by (rewrite <- Hdb1, <- Hdb; reflexivity).
    destruct (system_runs_on 4 branch_members 0 (staking_member branch_source)
      (start_state transfers_end.1 (Received <$> branch_msgs)) s2 eq_refl) with (sy := sy1)
      (w := {| w_view := 1; w_state := start_state branch_db (Received <$> branch_msgs) |})
      as (sy2 & w2 & Hrun2 & Hw2 & Hdb2 & _).
    + cbn [mb_msgs staking_member src_msgs branch_source]. rewrite Hlen. exact Hs2.
    + rewrite (Hj 0%nat) by done. reflexivity.
    + cbn [mb_msgs staking_member src_msgs branch_source]. by rewrite Hlen.
    + rewrite Hsy1. reflexivity.
    + exists sy2, w2. split; [by etrans|]. split; [done|].
      rewrite <- Hdb2 in Hph2, Hq2, Hend.
      split; [exact Hph2 | split; [exact (Hq2 eq_refl) | exact Hend]].
Qed.

Lemma branch_setting :
  staking_setting toy_valid branch_source toy_sub toy_listener (toy_header a2) (toy_id b3) branch_db.
Proof.
  assert (Hsaved : saved (StakingProcessor on_a branch_client) branch_db = 2)
    by (vm_compute; reflexivity).
  split; [exact toy_chain_ok | exact toy_rooted | exact branch_listened | exact branch_client_typed
    | exact branch_nodes_serve | |].
  - cbn [src_nodes src_client branch_source branch_nodes]. rewrite Hsaved. vm_compute. discriminate.
  - cbn [src_nodes src_client branch_source branch_nodes]. rewrite Hsaved. exact branch_db_right.
Qed.

Lemma branch_views v : v ∈ [1; 1; 0]%nat -> (v <= length branch_msgs)%nat.
Proof.
  assert (Hlen : length branch_msgs = 1%nat) by (vm_compute; reflexivity). rewrite Hlen. revert v.
  apply Forall_forall. repeat constructor.
Qed.

Lemma b1_canonical : on_chain toy_valid (toy_id b3) (toy_header b1).
Proof.
  split; [do 3 right; left|]. exists [toy_id b3; toy_id b2].
  eapply (path_cons toy_valid); [apply (toy_parent b3); do 5 right; left|].
  eapply (path_cons toy_valid); [apply (toy_parent b2); do 4 right; left|].
  exact (path_nil toy_valid (toy_id b1)).
Qed.

(** The rows of block [b1] replace those of [a1]. *)
Lemma indexer_canonical_witness :
  map d_amount (height_rows branch_db 1).1 = [100] /\
  exists sy, rtc (system_step 4 branch_members)
      (system_start branch_members branch_db [1; 1; 0]%nat) sy /\
    rows_of_block branch_client (toy_id b1) 1 (height_rows (sy_db sy) 1).
Proof.
  split; [vm_compute; reflexivity|].
  destruct branch_run as (sy & w & Hrun & Hw & Hph & Hq & _). exists sy. split; [exact Hrun|].
  destruct branch_setting.
  destruct (indexer_canonical toy_valid branch_source silent_source 4 toy_sub toy_listener
    (toy_header a2) (toy_id b3) branch_db [1; 1; 0]%nat sy sg_chain0 sg_rooted0 sg_listened0
    (Forall_nil_2 _) sg_typed0 sg_serves0 eq_refl branch_views sg_saved0 sg_right0 Hrun)
    as [_ Hcanon].
  destruct (Hcanon w Hw Hph Hq) as (hdr & _ & _ & _ & Hrows).
  apply (Hrows (toy_header b1)); [exact b1_canonical | cbn; lia].
Defined.
End Witness.
