(* ===== verification/SystemTransfers.v ===== *)
(** * The transfers the indexer ends with

    [XdmCanonical] in the whole indexer of [System]: the processors of the two chains write to
    the same rows, each the columns of the steps that happen on its chain and both the amount and
    the outcome, and the staking processor to other tables. *)

From Stdlib Require Import Strings.Byte.
From S2P Require Import Prelude HeadersCache TreeRoute BlockListener BlockListenerFacts.
From S2P Require Import Scale RpcTypes Types Events Chain Db IndexerError DbXdm DbXdmProps.
From S2P Require Import Staking StakingFacts StakingProps Xdm XdmFacts Processor Processors.
From S2P Require Import ProcessorProps Follow NodeChains Canonical XdmCanonical System.
From S2P Require Import ToyChain ListenerProps ScaleLE ToyIndexer.

Section Transfers.
Context `{HeaderHashing, !CollisionFree, !TreeRouteAlgo, !TreeRouteLaws}.
Context `{ScaleCodec, !ScaleLaws, EventCodec, Twox, TextCodecs, !HashBytes, DecimalLib, Chrono,
  TransferCodec}.

Definition auto_evm : ChainId := Domain {| domain_id := 0 |}.

(** The chain of the transfer processors, by their place in [indexer_members]. *)
Definition transfer_place (consensus domain : Source) (i : nat) : option (ChainId * Source) :=
  match i with
  | 1%nat => Some (Consensus, consensus)
  | 2%nat => Some (auto_evm, domain)
  | _ => None
  end.

Lemma transfer_place_member consensus domain i chain src :
  transfer_place consensus domain i = Some (chain, src) ->
  indexer_members consensus domain !! i = Some (xdm_member chain src).
Proof. destruct i as [|[|[|i]]]; cbn; intros [= <- <-]; reflexivity. Qed.

(** A member is the staking processor or another transfer processor. *)
Lemma other_members consensus domain i j chain src m :
  transfer_place consensus domain i = Some (chain, src) -> j <> i ->
  indexer_members consensus domain !! j = Some m ->
  m = staking_member consensus \/
  exists chain' src', transfer_place consensus domain j = Some (chain', src') /\
    m = xdm_member chain' src' /\ chain' <> chain.
Proof.
  destruct j as [|[|[|j]]]; cbn; intros Hi Hj Hm; try done; injection Hm as <-; [by left | right..];
    (do 2 eexists; split; [done|]; split; [done|]);
    destruct i as [|[|[|i]]]; cbn in Hi; try done; by injection Hi as <- <-.
Qed.

(** A step happens on one chain. *)
Lemma happens_once c c' s : happens_on c s -> happens_on c' s -> c = c'.
Proof.
  unfold happens_on. destruct s as [[[[src dst] ch] nonce] step]. cbn. intros Hc Hc'.
  apply (inj chain_to_string). congruence.
Qed.

Context (valid : ChainId -> Header -> Prop).

(** The nodes and the transfers of both chains are as expected. *)
Definition transfer_chains (consensus domain : Source) : Prop :=
  forall i chain src, transfer_place consensus domain i = Some (chain, src) ->
    transfer_chain (valid chain) (src_nodes src) (src_client src) chain (length (src_msgs src)).

(** What the other transfer processor may come to see, on any branch of its chain. *)
Definition seen_elsewhere (consensus domain : Source) (i : nat) (o : Observation) : Prop :=
  exists j chain src k b, j <> i /\ transfer_place consensus domain j = Some (chain, src) /\
    o ∈ block_obs (src_nodes src) (src_client src) chain k b.

(** The other chain tells the amount and the outcome of a message as the last chain of this node
    does. *)
Definition chains_agree (consensus domain : Source) (i : nat) (chain : ChainId) (src : Source)
    : Prop :=
  forall b o o', o ∈ block_obs (src_nodes src) (src_client src) chain (length (src_msgs src)) b ->
    seen_elsewhere consensus domain i o' -> obs_key o = obs_key o' ->
    agree (x_amount (obs_row o)) (x_amount (obs_row o')) /\
    agree (x_successful (obs_row o)) (x_successful (obs_row o')).

(** The others write what they see. *)
Lemma transfers_undisturbed consensus domain i chain src j m :
  transfer_chains consensus domain ->
  transfer_place consensus domain i = Some (chain, src) -> j <> i ->
  indexer_members consensus domain !! j = Some m ->
  stays_out (same_cells (seen_elsewhere consensus domain i)) (xdm_member chain src) m.
Proof.
  intros Htc Hi Hj Hm. apply (others_stay_out consensus domain _ i _ j); [|done..|].
  { by apply transfer_place_member. }
  intros v b l r st db Htask Hst.
  destruct (other_members _ _ _ _ _ _ _ Hi Hj Hm) as [-> | (chain' & src' & Hj' & -> & Hne)].
  - destruct Htask as (acts & -> & _). apply list_elem_of_fmap in Hst as (a & -> & _).
    apply same_cells_xdm. by rewrite (proj2 (exec_keeps a db)).
  - destruct (task_statement (src_nodes src') (src_client src') chain' v b l r st Htask Hst)
      as (o & Ho & ->). intros s.
    destruct (block_obs_own (valid chain') _ _ _ _ (Htc j _ _ Hj') v b o Ho) as [Hwf _].
    destruct (store_observation_cells o db s Hwf) as [Hsame | Hnew]; [by left|].
    right. exists o. split; [by exists j, chain', src', v, b | done].
Qed.

(** The parts of a row that both chains write are the amount and the outcome. *)
Lemma elsewhere_agrees consensus domain i chain src b o o' s :
  transfer_chains consensus domain ->
  transfer_place consensus domain i = Some (chain, src) ->
  chains_agree consensus domain i chain src ->
  o ∈ block_obs (src_nodes src) (src_client src) chain (length (src_msgs src)) b ->
  seen_elsewhere consensus domain i o' -> writes o s -> writes o' s -> obs_cells o s = obs_cells o' s.
Proof.
  intros Htc Hi Hag Ho Hels Hs Hs'. assert (Hkey : obs_key o = obs_key o').
  { by destruct Hs as [<- _], Hs' as [<- _]. }
  destruct (Hag b o o' Ho Hels Hkey) as [Ha Hb].
  destruct (parts_agree o o' s Hs Hs' Ha Hb) as [Heq | [Hstep Hstep']]; [done|].
  destruct Hels as (j & chain' & src' & k & b' & Hj & Hj' & Ho').
  destruct (block_obs_own (valid chain) _ _ _ _ (Htc i _ _ Hi) _ _ o Ho) as (_ & _ & Hon).
  destruct (block_obs_own (valid chain') _ _ _ _ (Htc j _ _ Hj') _ _ o' Ho') as (_ & _ & Hon').
  rewrite <- Hkey, <- Hstep', Hstep in Hon'.
  pose proof (happens_once _ _ _ Hon Hon') as ->.
  destruct i as [|[|[|i]]], j as [|[|[|j]]]; cbn in Hi, Hj'; unfold auto_evm in *; congruence.
Qed.

(** What is asked of the chain at place [i], its node, the messages its transfer processor
    receives, the other chain, and the database it starts with. *)
Record transfer_setting (consensus domain : Source) (i : nat) (chain : ChainId) (src : Source)
    (sub : list (RpcNode * SubItem)) (s : Listener) (start : Header) (best : Hash) (db : Db)
    : Prop := {
  ts_chains : transfer_chains consensus domain;
  ts_place : transfer_place consensus domain i = Some (chain, src);
  ts_agree : chains_agree consensus domain i chain src;
  ts_chain : ChainOk (valid chain);
  ts_rooted : Rooted (valid chain);
  ts_listened : listened (valid chain) sub s start (src_msgs src) best;
  ts_serves k : (k <= length (src_msgs src))%nat ->
    serves_chain (valid chain) (src_nodes src k)
      (hn_hash (best_after (start_block start) (src_msgs src) k));
  ts_saved : saved (XdmProcessor (src_nodes src 0) (src_client src) chain) db <= number start;
  ts_recorded h o :
    1 <= h <= saved (XdmProcessor (src_nodes src 0) (src_client src) chain) db ->
    o ∈ block_obs (src_nodes src) (src_client src) chain 0 h -> recorded o db;
}.

(** The rows of the canonical events once the processor is at rest. *)
Lemma transfers_at_rest consensus domain parallel i chain src sub s start best db views sy w :
  transfer_setting consensus domain i chain src sub s start best db ->
  let members := indexer_members consensus domain in
  let processor := XdmProcessor (src_nodes src 0) (src_client src) chain in
  let block_events k h := block_obs (src_nodes src) (src_client src) chain k h in
  length views = 3%nat -> (forall v, views !! i = Some v -> (v <= length (src_msgs src))%nat) ->
  rtc (system_step parallel members) (system_start members db views) sy ->
  sy_worlds sy !! i = Some w -> ps_phase (w_state w) = Waiting -> ps_queue (w_state w) = [] ->
  exists hdr, valid chain hdr /\ header_hash hdr = best /\ saved processor (sy_db sy) = number hdr /\
    forall x, on_chain (valid chain) best x -> 1 <= number x ->
    forall o, o ∈ block_events (length (src_msgs src)) (number x) ->
      ob_block o = {| hn_number := number x; hn_hash := header_hash x |} /\ recorded o (sy_db sy).
Proof.
  intros [Htc Hi Hag Hchain Hroot Hl Hserves Hsaved Hright] members processor block_events Hlen
    Hviews Hsteps Hw Hph Hq.
  pose proof (transfer_place_member _ _ _ _ _ Hi) as Hm.
  pose (other := seen_elsewhere consensus domain i).
  destruct (system_start_lookup members db views i _ Hlen Hm) as (v & Hv & Hstart).
  destruct (system_world parallel members (same_cells other) i _ Hm
    (fun j m Hj Hmj => transfers_undisturbed consensus domain i chain src j m Htc Hi Hj Hmj)
    (same_cells_read other)
    (same_cells_checkpoint other) _ _ _ Hsteps
    (system_start_harmless members _ i db views) Hstart) as (w' & Hw' & Hworld).
  rewrite Hw in Hw'. injection Hw' as <-.
  apply (canonical_transfers (valid chain) (src_client src) (src_nodes src) chain other parallel sub
    s start (src_msgs src) best db v (shared (sy_db sy) w)); try done.
  - by apply (Htc i).
  - intros b o o' p Ho Ho'. by apply (elsewhere_agrees consensus domain i chain src b).
  - by apply Hviews.
Qed.

(** C2: the indexed transfers are those of the canonical chains. The whole indexer
    runs as in [System.indexer_canonical]. Take one of the two chains, followed in one
    subscription of the listener of which its transfer processor receives every message and which
    never switches to a branch with a single new block; no step of a message happens twice on it,
    and the other chain tells the amount and the outcome of a message as it does. Start with a
    checkpoint at or below the listener's best block and with the events of the indexed blocks
    stored. Once the processor is at rest with everything received, its
    checkpoint is the height of the listener's best block, and for every transfer event of every
    canonical block, the row of its message shows every column of the event: the height, the hash
    and the time of this block for its step, the accounts of an initiation, the
    amount of an initiation or execution, and the outcome of an execution or acknowledgement.
    This holds whatever blocks of abandoned branches have been indexed before, in whatever order, at
    whichever heights and with whichever amounts and outcomes they had the same event, and
    whatever the processor of the other chain writes to the row meanwhile. *)
Theorem transfers_canonical consensus domain parallel i chain src sub s start best db views sy w :
  transfer_chains consensus domain ->
  transfer_place consensus domain i = Some (chain, src) ->
  chains_agree consensus domain i chain src ->
  ChainOk (valid chain) -> Rooted (valid chain) ->
  listened (valid chain) sub s start (src_msgs src) best ->
  (forall k, (k <= length (src_msgs src))%nat ->
     serves_chain (valid chain) (src_nodes src k)
       (hn_hash (best_after (start_block start) (src_msgs src) k))) ->
  let members := indexer_members consensus domain in
  let processor := XdmProcessor (src_nodes src 0) (src_client src) chain in
  let block_events k h := block_obs (src_nodes src) (src_client src) chain k h in
  length views = 3%nat -> (forall v, views !! i = Some v -> (v <= length (src_msgs src))%nat) ->
  saved processor db <= number start ->
  (forall h o, 1 <= h <= saved processor db -> o ∈ block_events 0%nat h -> recorded o db) ->
  rtc (system_step parallel members) (system_start members db views) sy ->
  sy_worlds sy !! i = Some w -> ps_phase (w_state w) = Waiting -> ps_queue (w_state w) = [] ->
  exists hdr, valid chain hdr /\ header_hash hdr = best /\ saved processor (sy_db sy) = number hdr /\
    forall x, on_chain (valid chain) best x -> 1 <= number x ->
    forall o, o ∈ block_events (length (src_msgs src)) (number x) ->
      ob_block o = {| hn_number := number x; hn_hash := header_hash x |} /\ recorded o (sy_db sy).
Proof.
  intros Htc Hi Hag Hchain Hroot Hl Hserves members processor block_events Hlen Hviews Hsaved Hright
    Hsteps Hw Hph Hq.
  by eapply (transfers_at_rest consensus domain parallel i chain src sub s start best db views).
Qed.
End Transfers.

(** ** Witness: the initiation of a message moves to another height *)

Section Witness.

(** The stored transfers are their amounts. *)
Definition moved_transfer (amount : Z) : Transfer := {|
  tr_amount := amount;
  tr_sender := {| chain_id := Consensus; account_id := AccountId32 [x01; x02] |};
  tr_receiver := {| chain_id := auto_evm; account_id := AccountId20 [x6f] |} |}.

#[local] Instance amount_codec : TransferCodec :=
  { decode_transfer := amount ← decode_u64; mret (moved_transfer amount) }.

Definition moved_message : XdmMessageId := (u256 0, u256 1).
Definition moved_fields (amount : Z) : OutgoingTransferInitiated :=
  {| oti_chain_id := auto_evm; oti_message_id := moved_message; oti_amount := amount |}.

(** The consensus chain initiates a transfer to the domain in [a1], and on the other branch in
    [b2] with another amount. *)
Definition moved_amount (h : Hash) : Z := if bool_decide (h = toy_id b2) then 10 ^ 18 else 5.

Definition moving_client : Client :=
  let c h := toy_client
    [(q "Timestamp" "Now" [], encode_u64 1700000000000);
     (q "Transporter" "OutgoingTransfers" [ArgChain auto_evm; ArgMessage moved_message],
      encode_u64 (moved_amount h))]
    (if bool_decide (h ∈ [toy_id a1; toy_id b2])
     then [Ok (event KOutgoingTransferInitiated (moved_fields (moved_amount h)))] else []) 100 [] in {|
  cl_fetch h := cl_fetch (c h) h;
  cl_iter h := cl_iter (c h) h;
  cl_events h := cl_events (c h) h;
  cl_segment_size := cl_segment_size (c []);
  cl_fetch_value := cl_fetch_value (c []);
  cl_decode_events := cl_decode_events (c []) |}.

(** The domain executes the transfer in its block 1. *)
Definition executed_transfer : IncomingTransferSuccessful :=
  {| its_chain_id := Consensus; its_message_id := moved_message; its_amount := 10 ^ 18 |}.
Definition executing_client : Client :=
  let c h := toy_client
    [(q "Timestamp" "Now" [], encode_u64 1700000000000);
     (q "System" "EventCount" [], encode_u32 (if bool_decide (h = toy_id a1) then 1 else 0))]
    [] 100 [[event KIncomingTransferSuccessful executed_transfer]] in {|
  cl_fetch h := cl_fetch (c h) h;
  cl_iter h := cl_iter (c h) h;
  cl_events h := cl_events (c h) h;
  cl_segment_size := cl_segment_size (c []);
  cl_fetch_value := cl_fetch_value (c []);
  cl_decode_events := cl_decode_events (c []) |}.

Definition moving_source : Source :=
  {| src_nodes := branch_nodes; src_client := moving_client; src_msgs := branch_msgs |}.
Definition executing_domain : Source :=
  {| src_nodes := fun _ => on_a; src_client := executing_client; src_msgs := [] |}.

Definition seen_in (chain : ChainId) (sh : SubstrateHeader) (ev : Event) : Observation := {|
  ob_chain := chain; ob_block := {| hn_number := s_number sh; hn_hash := toy_id sh |};
  ob_time := 1700000000000; ob_event := ev |}.

Definition moved_at (sh : SubstrateHeader) (amount : Z) : Observation :=
  seen_in Consensus sh (EvOutgoingTransferInitiated
    {| otw_message_id := moved_message; otw_transfer := moved_transfer amount |}).
Definition executed : Observation :=
  seen_in auto_evm a1 (EvIncomingTransferSuccessful executed_transfer).

Example moved_and_executed :
  block_obs branch_nodes moving_client Consensus 0 1 = [moved_at a1 5] /\
  block_obs branch_nodes moving_client Consensus 1 2 = [moved_at b2 (10 ^ 18)] /\
  block_obs (fun _ => on_a) executing_client auto_evm 0 1 = [executed].
Proof. vm_compute. done. Qed.

(** Each branch initiates it once, and the domain executes it once. *)
Lemma moving_obs k b o :
  o ∈ block_obs branch_nodes moving_client Consensus k b ->
  o = match k with O => moved_at a1 5 | S _ => moved_at b2 (10 ^ 18) end.
Proof.
  revert o. apply Forall_forall.
  destruct k as [|k]; unfold block_obs, job_obs, job_observations, block_ext_at_number,
    chain_get_block_hash; cbn [xdm_job j_node j_block rpc_block_hash branch_nodes on_a on_b toy_node];
    (destruct (Z.to_nat b) as [|[|[|[|n]]]]; [vm_compute; repeat constructor ..|cbn; constructor]).
Qed.

Lemma domain_obs k b o :
  o ∈ block_obs (fun _ => on_a) executing_client auto_evm k b -> o = executed.
Proof.
  revert o. apply Forall_forall.
  unfold block_obs, job_obs, job_observations, block_ext_at_number, chain_get_block_hash;
    cbn [xdm_job j_node j_block rpc_block_hash on_a toy_node].
  destruct (Z.to_nat b) as [|[|[|[|n]]]]; [vm_compute; repeat constructor ..|cbn; constructor].
Qed.

Lemma moving_chains : transfer_chains (fun _ => toy_valid) moving_source executing_domain.
Proof.
  intros [|[|[|i]]] chain src Hi; cbn in Hi; try done; injection Hi as <- <-; split.
  - intros k. destruct k; apply toy_node_honest.
  - intros k b o Ho. apply moving_obs in Ho as ->.
    destruct k; (split; [repeat constructor; cbn; lia|]); by split.
  - intros k b b' o o' _ Ho Ho' _ _. apply moving_obs in Ho as ->. by apply moving_obs in Ho' as ->.
  - intros k. apply toy_node_honest.
  - intros k b o Ho. apply domain_obs in Ho as ->.
    split; [repeat constructor; cbn; lia|]. by split.
  - intros k b b' o o' _ Ho Ho' _ _. apply domain_obs in Ho as ->. by apply domain_obs in Ho' as ->.
Qed.

Lemma branch_msgs_length : length branch_msgs = 1%nat.
Proof. vm_compute. reflexivity. Qed.

Lemma moving_agree : chains_agree moving_source executing_domain 1 Consensus moving_source.
Proof.
  intros b o o' Ho (j & chain & src & k & b' & Hj & Hsrc & Ho') _.
  destruct j as [|[|[|j]]]; cbn in Hsrc; try done. injection Hsrc as <- <-.
  apply domain_obs in Ho' as ->. apply moving_obs in Ho as ->.
  cbn [src_msgs moving_source]. by rewrite branch_msgs_length.
Qed.

(** The first branch has been indexed. *)
Definition moving_db : Db :=
  (run_processor (XdmProcessor on_a moving_client Consensus)
     [Received (message [a1; a2])] (clean_db no_tables)).1.
Definition moving_end : Db * outcome Ix.Error unit :=
  run_processor (XdmProcessor on_b moving_client Consensus) (Received <$> branch_msgs) moving_db.

Definition moving_members : list Member := indexer_members moving_source executing_domain.

Lemma moving_run : exists sy w,
  rtc (system_step 4 moving_members) (system_start moving_members moving_db [1; 1; 0]%nat) sy /\
  sy_worlds sy !! 1%nat = Some w /\ ps_phase (w_state w) = Waiting /\
  ps_queue (w_state w) = [] /\ sy_db sy = moving_end.1.
Proof.
  pose proof branch_msgs_length as Hlen.
  assert (Hok : moving_end.2 = Ok tt) by (vm_compute; reflexivity).
  destruct (run_processor_steps (XdmProcessor on_b moving_client Consensus) 4 moving_db
    (Received <$> branch_msgs) moving_end.1 (Ok tt) ltac:(lia) (run_eq _ _ Hok))
    as (s1 & Hs1 & Hend & Hph1 & Hq1).
  destruct (system_runs_on 4 moving_members 1 (xdm_member Consensus moving_source)
    (start_state moving_db (Received <$> branch_msgs)) s1 eq_refl) with
    (sy := system_start moving_members moving_db [1; 1; 0]%nat)
    (w := {| w_view := 1; w_state := start_state moving_db (Received <$> branch_msgs) |})
    as (sy1 & w1 & Hrun1 & Hw1 & Hdb & _).
  - cbn [mb_msgs xdm_member src_msgs moving_source]. rewrite Hlen. exact Hs1.
  - reflexivity.
  - cbn [mb_msgs xdm_member src_msgs moving_source]. by rewrite Hlen.
  - reflexivity.
  - exists sy1, w1. split; [done|]. split; [done|]. rewrite <- Hdb in Hph1, Hq1, Hend.
    split; [exact Hph1 | split; [exact (Hq1 eq_refl) | exact Hend]].
Qed.

Lemma moving_setting :
  transfer_setting (fun _ => toy_valid) moving_source executing_domain 1 Consensus moving_source
    toy_sub toy_listener (toy_header a2) (toy_id b3) moving_db.
Proof.
  assert (Hsaved : saved (XdmProcessor on_a moving_client Consensus) moving_db = 2)
    by (vm_compute; reflexivity).
  split; [exact moving_chains | reflexivity | exact moving_agree | exact toy_chain_ok
    | exact toy_rooted | exact branch_listened | exact branch_nodes_serve | |].
  - cbn [src_nodes src_client moving_source branch_nodes]. rewrite Hsaved. vm_compute. discriminate.
  - intros h o _ Ho. apply moving_obs in Ho as ->. vm_compute. reflexivity.
Qed.

Lemma moving_views v : [1; 1; 0]%nat !! 1%nat = Some v -> (v <= length branch_msgs)%nat.
Proof. intros [= <-]. by rewrite branch_msgs_length. Qed.

Lemma b2_canonical : on_chain toy_valid (toy_id b3) (toy_header b2).
Proof.
  split; [do 4 right; left|]. exists [toy_id b3].
  eapply (path_cons toy_valid); [apply (toy_parent b3); do 5 right; left|].
  exact (path_nil toy_valid (toy_id b2)).
Qed.

Lemma moved_seen :
  moved_at b2 (10 ^ 18) ∈ block_obs branch_nodes moving_client Consensus (length branch_msgs) 2.
Proof. rewrite branch_msgs_length, (proj1 (proj2 moved_and_executed)). left. Qed.

(** The initiation that was stored with block 1 is that of block 2, with its amount. *)
Lemma transfers_canonical_witness :
  let key := obs_key (moved_at b2 (10 ^ 18)) in
  (bc_number (x_initiated (row_of moving_db key)) = Some 1 /\
   x_amount (row_of moving_db key) = Some 5) /\
  exists sy, rtc (system_step 4 moving_members)
      (system_start moving_members moving_db [1; 1; 0]%nat) sy /\
    bc_number (x_initiated (row_of (sy_db sy) key)) = Some 2 /\
    x_amount (row_of (sy_db sy) key) = Some (10 ^ 18).
Proof.
  intros key. split; [vm_compute; done|].
  destruct moving_run as (sy & w & Hrun & Hw & Hph & Hq & _). exists sy. split; [exact Hrun|].
  destruct moving_setting.
  destruct (transfers_canonical (fun _ => toy_valid) moving_source executing_domain 4 1 Consensus
    moving_source toy_sub toy_listener (toy_header a2) (toy_id b3) moving_db [1; 1; 0]%nat sy w
    ts_chains0 ts_place0 ts_agree0 ts_chain0 ts_rooted0 ts_listened0 ts_serves0 eq_refl moving_views
    ts_saved0 ts_recorded0 Hrun Hw Hph Hq) as (hdr & _ & _ & _ & Hrec).
  destruct (Hrec (toy_header b2) b2_canonical ltac:(cbn; lia) _ moved_seen) as [_ Hb].
  unfold recorded in Hb. fold key in Hb. rewrite <- Hb. split; vm_compute; reflexivity.
Defined.
End Witness.
