(* ===== verification/LostReorgs.v ===== *)
(** * Reorganisations the indexer does not see

    Runs of the code in which the rows of a retracted block stay. The first three show why
    [System.indexer_canonical] speaks of one subscription, of a channel that loses nothing and
    of processors that are not stopped, the last why [SystemTransfers.transfers_canonical]
    only speaks of the events the canonical chain has. In each of the first the node leaves the branch of
    [a1] for that of [b3] ([ToyChain]); every block nominates, with 100 on the branch left and with
    200 on the new one. *)

From S2P Require Import Prelude HeadersCache TreeRoute BlockListener BlockListenerFacts ToyChain.
From S2P Require Import ListenerProps Scale ScaleLE RpcTypes Types Events Chain Db IndexerError DbXdmProps.
From S2P Require Import ToyIndexer DbXdm Xdm Staking StakingProps Processor Processors ProcessorProps Canonical.

Definition on_a1 := toy_node [genesis; a1].
Definition on_b2 := toy_node [genesis; b1; b2].

(** What the listener sends when it is on [a1], hears of [b2] and then of [b3]. *)
Definition switch_msgs : list BlocksExt :=
  sent (listen_for_blocks [toy_item on_b2 b2; toy_item on_b b3]
    {| cache := toy_cache; current_best_block := {| hn_number := 1; hn_hash := toy_id a1 |};
       sent := [] |}).1.

(** The processor has indexed [a1]. *)
Definition switch_db : Db :=
  (run_processor (StakingProcessor on_a1 branch_client) [Received (message [a1])]
     (clean_db no_tables)).1.

Definition on_new_branch (stream : list Recv) (db : Db) : Db * outcome Ix.Error unit :=
  run_processor (StakingProcessor on_b branch_client) stream db.

Definition amounts (db : Db) : list Z := map d_amount (nominator_deposits (tables db)).

Definition checkpoint_of (db : Db) : Z := saved (StakingProcessor on_b branch_client) db.

(** With all messages received the rows are those of the new branch. *)
Example all_received :
  let '(db, res) := on_new_branch (Received <$> switch_msgs) switch_db in
  length switch_msgs = 2%nat /\ amounts switch_db = [100] /\
  amounts db = [200; 200; 200] /\ checkpoint_of db = 3 /\ res = Ok tt.
Proof. vm_compute. done. Qed.

(** The receiver lags and the message of the reorganisation is dropped: block 1 keeps the row
    of [a1], and the checkpoint passes it. *)
Lemma lagging_loses_reorg :
  let '(db, res) :=
    on_new_branch (RecvFailed (Lagged 1) :: (Received <$> drop 1 switch_msgs)) switch_db in
  amounts db = [100; 200; 200] /\ checkpoint_of db = 3 /\ res = Ok tt.
Proof. vm_compute. done. Qed.

(** The connection is lost when the reorganisation is to be indexed, and the program ends with
    the error. Restarted, it goes on with what the listener sends then. *)
Lemma restart_loses_reorg :
  let '(db, res) := on_new_branch (Received <$> take 1 switch_msgs)
    {| tables := tables switch_db; faults := [Runs; FailsBefore]; now := now switch_db |} in
  res = Err (Ix.DB Connection) /\ checkpoint_of db = 1 /\
  let '(db, res) := on_new_branch (Received <$> drop 1 switch_msgs) db in
  amounts db = [100; 200; 200] /\ checkpoint_of db = 3 /\ res = Ok tt.
Proof. vm_compute. done. Qed.

(** The subscription ends before the node switches: the next one starts from the block
    it hears of first, so no message speaks of the reorganisation. *)
Definition reconnections : list Session :=
  [{| subscribe_all := Ok tt; load_node := on_a; items := [toy_item on_a a1; toy_item on_a a2] |};
   {| subscribe_all := Ok tt; load_node := on_b; items := [toy_item on_b b2; toy_item on_b b3] |}].

Lemma reconnection_loses_reorg :
  let '(_, msgs, res) := listen_for_all_blocks reconnections default_cache [] in
  res = None /\ map be_hash ∘ blocks <$> msgs = [[toy_id a2]; [toy_id b3]] /\
  Forall (fun m => maybe_reorg_data m = None) msgs /\
  let db := (run_processor (StakingProcessor on_a branch_client) (Received <$> take 1 msgs)
    (clean_db no_tables)).1 in
  let '(db, res) := on_new_branch (Received <$> drop 1 msgs) db in
  amounts db = [100; 100; 200] /\ checkpoint_of db = 3 /\ res = Ok tt.
Proof. vm_compute. split_and!; try done. by repeat constructor. Qed.

(** A transfer that failed in [a2] and has no event on the other branch. *)
Section Transfers.
#[local] Instance no_transfers : TransferCodec := { decode_transfer := throw (CodecMessage "none") }.

Definition failed_client : Client :=
  let c := toy_client [(q "Timestamp" "Now" [], encode_u64 1700000000000)] [] 100 [] in {|
  cl_fetch := cl_fetch c;
  cl_iter := cl_iter c;
  cl_events h := Ok (if bool_decide (h = toy_id a2)
    then [Ok (event KOutgoingTransferFailed
            {| otf_chain_id := evm; otf_message_id := (u256 0, u256 1) |})]
    else []);
  cl_segment_size := cl_segment_size c;
  cl_fetch_value := cl_fetch_value c;
  cl_decode_events := cl_decode_events c |}.

(** The whole new branch is indexed, and the failure is still there. *)
Lemma abandoned_transfer_stays :
  let db := (run_processor (XdmProcessor on_a failed_client Consensus)
    [Received (message [a1; a2])] (clean_db no_tables)).1 in
  let '(db, res) := run_processor (XdmProcessor on_b failed_client Consensus)
    (Received <$> branch_msgs) db in
  res = Ok tt /\ x_successful ∘ snd <$> map_to_list (xdm_transfers (tables db)) = [Some false].
Proof. vm_compute. done. Qed.
End Transfers.
