(* ===== verification/EndToEnd.v ===== *)
(** * From the node to the checkpoint

    The listener of [shared] and the processing loop of [indexer], composed over the
    broadcast channel: once a processor has come to rest on the messages the listener
    sent, its checkpoint has reached the listener's best block. *)

From S2P Require Import Prelude HeadersCache TreeRoute BlockListener BlockListenerFacts.
From S2P Require Import ToyChain ListenerProps Scale ScaleLE RpcTypes Types Events Chain Db.
From S2P Require Import IndexerError ToyIndexer DbXdm DbXdmProps Staking StakingFacts StakingProps.
From S2P Require Import Xdm Processor Processors ProcessorProps.

(** ** The processor reaches the last message *)

Section Queue.
Context `{ChainTypes} (p : BlockProcessor) `{!TaskLaws p} (parallel : nat).

(** No block of [m] is above [n]. *)
Definition reaches (m : BlocksExt) (n : Z) : Prop := forall b, b ∈ blocks m -> be_number b <= n.

(** The last message waits in the queue, or is being worked on, or is behind the
    checkpoint. *)
Definition reaching (m : BlocksExt) (s : PState) : Prop :=
  Forall recv_typed (ps_queue s) /\
  match ps_phase s with
  | Working r => in_u 32 (r_to r) /\
      (last (ps_queue s) = Some (Received m) \/ ps_queue s = [] /\ reaches m (r_to r))
  | Waiting => last (ps_queue s) = Some (Received m) \/
      ps_queue s = [] /\ reaches m (saved p (ps_db s))
  | Halted _ => True
  end.

Lemma last_tail {A} (x y : A) l : last (x :: l) = Some y -> l = [] /\ x = y \/ last l = Some y.
Proof. destruct l as [|z l]; cbn; intros Hl; [left; by injection Hl | by right]. Qed.

Lemma on_message_reaching m s m' queue :
  reaching m s -> ps_phase s = Waiting -> ps_queue s = Received m' :: queue ->
  reaching m (on_message p s m' queue).
Proof.
  intros [Hq Hs] Hph Hqueue. rewrite Hph, Hqueue in Hs. rewrite Hqueue in Hq.
  apply Forall_cons in Hq as [Hm' Hq]. cbn [recv_typed] in Hm'.
  assert (Hlast : queue = [] /\ m' = m \/ last queue = Some (Received m)).
  { destruct Hs as [Hs | [Hs _]]; [|done]. apply last_tail in Hs as [[-> [= ->]] | Hs]; auto. }
  unfold on_message. destruct (last_processed_spec p (ps_db s)) as [Htab Hv].
  destruct (last_processed p (ps_db s)) as [db' n]. cbn in Htab, Hv.
  pose proof (saved_range p (ps_db s)) as [Hs0 Hs1].
  assert (Hn : in_u 32 n /\ n <= saved p db').
  { unfold saved. rewrite Htab. fold (saved p (ps_db s)). unfold in_u. destruct Hv as [-> | ->]; lia. }
  split; [done|]. cbn [ps_phase ps_queue ps_db].
  destruct (block_range n m') as [[from to]| | |] eqn:Hr; try done.
  apply block_range_Ok in Hr as (Hfrom & Hto & Hmax & _); [|apply Hn | done].
  destruct (Z.ltb_spec to from) as [Hlt|Hle].
  - destruct Hlast as [[-> ->] | Hlast]; [right | by left]. split; [done|].
    intros b Hb. specialize (Hmax b Hb). lia.
  - split; [done|]. destruct Hlast as [[-> ->] | Hlast]; [right | by left]. by split.
Qed.

Lemma step_reaching m s s' : reaching m s -> step p parallel s s' -> reaching m s'.
Proof.
  intros Hs Hstep.
  destruct Hstep as [s m' queue Hph Hqueue | s n queue Hph Hqueue | s queue Hph Hqueue
    | s r l result Hph _ _ _ | s r before t after st rest db' res Hph _ _ _
    | s r t rest Hph _ _ _ | s r t rest Hph _ _ _ | s r Hph Hfl Hto].
  - by apply on_message_reaching.
  - destruct Hs as [Hq Hs]. rewrite Hph, Hqueue in Hs. rewrite Hqueue in Hq.
    apply Forall_cons in Hq as [_ Hq]. split; [done|]. cbn. left.
    destruct Hs as [Hs | [? _]]; [|done]. by apply last_tail in Hs as [[_ [=]] | Hs].
  - destruct Hs as [Hq _]. by split.
  - destruct Hs as [Hq Hs]. rewrite Hph in Hs. by split.
  - destruct Hs as [Hq Hs]. rewrite Hph in Hs. by split.
  - destruct Hs as [Hq Hs]. rewrite Hph in Hs. unfold take_block.
    destruct (_ =? 0); [|by split].
    match goal with |- context [checkpoint p ?db ?b ?next] =>
      unfold checkpoint; destruct (Ix.db _ db) as [db' [[]| | |]] end; by split.
  - destruct Hs as [Hq _]. by split.
  - destruct Hs as [Hq Hs]. rewrite Hph in Hs. destruct Hs as [Hto32 Hs]. unfold finish_range.
    pose proof (checkpoint_reached p (ps_db s) (r_to r) Waiting Hto32) as Hck.
    destruct (checkpoint p (ps_db s) (r_to r) Waiting) as [db' phase].
    destruct Hck as [[-> Hsaved] | [res ->]]; [|by split]. split; [done|]. cbn [ps_phase ps_queue ps_db].
    rewrite Hsaved. done.
Qed.

Lemma queue_reached db queue m s :
  Forall recv_typed queue -> last queue = Some (Received m) ->
  rtc (step p parallel) (start_state db queue) s -> ps_phase s = Waiting -> ps_queue s = [] ->
  reaches m (saved p (ps_db s)).
Proof.
  intros Hq Hlast Hsteps Hph Hqueue.
  assert (Hs : reaching m s).
  { assert (H0 : reaching m (start_state db queue)) by (split; [done | by left]).
    revert H0. clear Hph Hqueue. induction Hsteps as [|s1 s2 s3 H12 _ IH]; [done|].
    intros H1. apply IH. by eapply step_reaching. }
  destruct Hs as [_ Hs]. rewrite Hph, Hqueue in Hs. by destruct Hs as [[=] | [_ Hs]].
Qed.
End Queue.

(** ** The whole way *)

Section Whole.
Context `{HeaderHashing, !CollisionFree, !TreeRouteAlgo, !TreeRouteLaws}.
Context (valid : Header -> Prop).

(** The last block of the last message is the best block. *)
Lemma announced_best best msgs m best' :
  announced valid best (msgs ++ [m]) best' ->
  exists b, b ∈ blocks m /\ be_hash b = best' /\ described valid b.
Proof.
  revert best. induction msgs as [|m0 msgs IH]; intros best Ha; [|destruct Ha as (mid & _ & Ha); eauto].
  destruct Ha as (mid & (ret & common & _ & Hpath & Hne & Hdesc & _) & Hmid). cbn in Hmid. subst mid.
  destruct (blocks m) as [|b l] using rev_ind; [done|].
  rewrite fmap_app, rev_app_distr in Hpath. cbn in Hpath. inversion Hpath; subst.
  apply Forall_app in Hdesc as [_ Hb]. rewrite Forall_singleton in Hb.
  exists b. split; [apply elem_of_app; right; by left | by split].
Qed.

(** What a receiver of the broadcast channel gets of the messages sent: all of them in order;
    one that has fallen behind is told how many it has lost and goes on with the oldest the channel
    still holds, so the newest is never lost. *)
Inductive delivers : list BlocksExt -> list Recv -> Prop :=
  | delivers_nil : delivers [] []
  | delivers_next m ms queue : delivers ms queue -> delivers (m :: ms) (Received m :: queue)
  | delivers_lagged lost ms queue :
      lost <> [] -> ms <> [] -> delivers ms queue ->
      delivers (lost ++ ms) (RecvFailed (Lagged (Z.of_nat (length lost))) :: queue).

Lemma delivers_last msgs m queue : delivers (msgs ++ [m]) queue -> last queue = Some (Received m).
Proof.
  intros Hd. remember (msgs ++ [m]) as l eqn:Hl. revert msgs Hl.
  induction Hd as [|m0 ms queue Hd IH | lost ms queue _ Hms Hd IH]; intros msgs Hl.
  - by destruct msgs.
  - destruct msgs as [|m1 msgs]; cbn in Hl; injection Hl as -> Hl.
    + subst ms. by inversion Hd as [| |[] ? ? ? ? ? Happ].
    + specialize (IH _ Hl). cbn. by destruct queue.
  - destruct ms as [|m1 ms _] using rev_ind; [done|].
    rewrite app_assoc in Hl. apply app_inj_tail in Hl as [<- <-].
    specialize (IH _ eq_refl). cbn. by destruct queue.
Qed.

Lemma delivers_typed msgs queue :
  delivers msgs queue -> Forall recv_typed (Received <$> msgs) -> Forall recv_typed queue.
Proof.
  induction 1 as [|m ms queue _ IH | lost ms queue _ _ _ IH]; cbn; [done|..].
  - intros [Hm Hms]%Forall_cons. constructor; auto.
  - rewrite fmap_app. intros [_ Hms]%Forall_app. constructor; [done | auto].
Qed.

(** C33: the indexer follows the node. Take any run of the listener over honest notifications
    that broadcast something, and a processor that receives what it broadcast, losing messages
    wherever it falls behind, in any interleaving of its blocks, from any database: if it comes
    to rest with all it was given received, its checkpoint is at or above the listener's best
    block, and every block from the first checkpoint to the best one has run all its
    statements. *)
Theorem best_block_indexed p parallel sub s s' res msgs queue db q hdr :
  ChainOk valid -> Forall (item_honest valid) sub -> cache_inv valid (cache s) ->
  listen_for_blocks sub s = (s', res) -> sent s' = sent s ++ msgs -> msgs <> [] ->
  TaskLaws p -> Forall recv_typed (Received <$> msgs) -> delivers msgs queue ->
  rtc (step p parallel) (start_state db queue) q ->
  ps_phase q = Waiting -> ps_queue q = [] ->
  valid hdr -> header_hash hdr = best_hash s' ->
  number hdr <= saved p (ps_db q) /\
  forall b, saved p db < b <= number hdr ->
    exists sts, (b, sts) ∈ log q /\ block_task p b sts (Ok tt).
Proof.
  intros Hchain Hsub Hc Hrun Hsent Hne Hlaws Htyped Hdel Hsteps Hph Hqueue Hvalid Hhash.
  pose proof (listen_for_blocks_post valid Hchain sub s Hsub Hc) as Hpost. rewrite Hrun in Hpost.
  destruct Hpost as ((_ & (msgs' & Hsent' & Hann) & _) & _).
  assert (msgs' = msgs) as -> by (apply (app_inv_head (sent s)); congruence).
  apply (delivers_typed _ _ Hdel) in Htyped.
  destruct msgs as [|m msgs _] using rev_ind; [done|].
  destruct (announced_best _ _ _ _ Hann) as (b & Hb & Hbest & (hdr' & _ & Hh' & Hn)).
  assert (hdr' = hdr) as -> by (apply header_hash_inj; congruence).
  assert (Hreach : number hdr <= saved p (ps_db q)).
  { rewrite Hn. by apply (queue_reached p parallel db _ m q Htyped (delivers_last _ _ _ Hdel)). }
  split; [done|]. intros n Hn'. apply (blocks_covered p parallel db _ q Htyped Hsteps). lia.
Qed.
End Whole.

(** ** Witness *)

(** The node switches from [a2] to the branch of [b3]. *)
Definition node_run : Listener * outcome (Error Hash) unit := listen_for_blocks toy_sub toy_listener.

Definition indexer_run : Db * outcome Ix.Error unit :=
  run_processor quiet (Received <$> sent node_run.1) (clean_db no_tables).

Lemma indexer_run_ok : indexer_run.2 = Ok tt.
Proof. vm_compute. reflexivity. Qed.

Lemma messages_typed : Forall recv_typed (Received <$> sent node_run.1).
Proof. apply (bool_decide_unpack _). vm_compute. exact I. Qed.

Lemma best_block_indexed_witness :
  exists q, rtc (step quiet 4) (start_state (clean_db no_tables) (Received <$> sent node_run.1)) q /\
    best_hash node_run.1 = toy_id b3 /\ 3 <= saved quiet (ps_db q).
Proof.
  destruct (run_processor_steps quiet 4 (clean_db no_tables) (Received <$> sent node_run.1)
    indexer_run.1 (Ok tt) ltac:(lia)) as (q & Hsteps & _ & Hph & Hq).
  { rewrite <- indexer_run_ok. exact (surjective_pairing indexer_run). }
  exists q. split; [exact Hsteps|]. split; [vm_compute; reflexivity|].
  apply (best_block_indexed toy_valid quiet 4 toy_sub toy_listener node_run.1 node_run.2
    (sent node_run.1) (Received <$> sent node_run.1) (clean_db no_tables) q (toy_header b3)).
  - apply toy_chain_ok.
  - apply toy_sub_honest.
  - apply toy_cache_inv.
  - exact (surjective_pairing node_run).
  - reflexivity.
  - vm_compute. discriminate.
  - apply _.
  - exact messages_typed.
  - assert (Hl : exists m, sent node_run.1 = [m]) by (eexists; vm_compute; reflexivity).
    destruct Hl as [m ->]. apply delivers_next, delivers_nil.
  - exact Hsteps.
  - exact Hph.
  - exact (Hq eq_refl).
  - do 5 right. left.
  - vm_compute. reflexivity.
Defined.
