(* ===== verification/XdmProps.v ===== *)
(** * Correctness of the XDM indexer

    What the handler of a block stores is a function of the chain: the
    observations of the block. From this, a block whose reads fail writes
    nothing, and blocks of both chains may be indexed in any order and again. *)

From S2P Require Import Prelude HeadersCache TreeRoute BlockListener Scale ScaleLE RpcTypes.
From S2P Require Import Types Events Chain Db IndexerError DbXdm DbXdmProps Xdm XdmFacts ToyChain.
From S2P Require Import ToyIndexer.

Section Observations.
Context `{ChainTypes, ScaleCodec, EventCodec, Twox, TextCodecs, !HashBytes, Chrono, TransferCodec}.

(** The events of a block as the indexer orders them. *)
Lemma extract_Ok client chain hash evs :
  extract_xdm_events_for_block client chain hash = Ok evs ->
  exists block_events inits,
    xdm_block_events client chain hash = Ok block_events /\
    Forall2 (fun i ev => read_transfer client hash i = Ok ev)
      (omap (as_event_ok KOutgoingTransferInitiated) block_events) inits /\
    evs = as_events KOutgoingTransferFailed EvOutgoingTransferFailed block_events ++
          as_events KOutgoingTransferSuccessful EvOutgoingTransferSuccessful block_events ++
          as_events KIncomingTransferSuccessful EvIncomingTransferSuccessful block_events ++ inits.
Proof.
  intros Hx. unfold extract_xdm_events_for_block in Hx.
  apply bind_Ok in Hx as (bes & Hbes & Hx). apply bind_Ok in Hx as (inits & Hi & Hx).
  injection Hx as <-. apply mapM_Ok in Hi. exists bes, inits. rewrite <- !app_assoc. done.
Qed.

Lemma elem_of_as_events k into bes ev :
  ev ∈ as_events k into bes <-> exists d e, d ∈ bes /\ as_event_ok k d = Some e /\ ev = into e.
Proof.
  unfold as_events. rewrite list_elem_of_fmap. split.
  - intros (e & -> & He). apply list_elem_of_omap in He as (d & Hd & He). eauto.
  - intros (d & e & Hd & He & ->). exists e. split; [done|]. apply list_elem_of_omap. eauto.
Qed.

Lemma read_transfer_initiated client hash i ev :
  read_transfer client hash i = Ok ev -> exists e, ev = EvOutgoingTransferInitiated e.
Proof. intros Hr. apply bind_Ok in Hr as (t & _ & Hr). injection Hr as <-. eauto. Qed.

Lemma elem_of_xdm_events client hash bes inits ev :
  Forall2 (fun i ev => read_transfer client hash i = Ok ev)
    (omap (as_event_ok KOutgoingTransferInitiated) bes) inits ->
  ev ∈ as_events KOutgoingTransferFailed EvOutgoingTransferFailed bes ++
       as_events KOutgoingTransferSuccessful EvOutgoingTransferSuccessful bes ++
       as_events KIncomingTransferSuccessful EvIncomingTransferSuccessful bes ++ inits <->
  match ev with
  | EvOutgoingTransferFailed e =>
      exists d, d ∈ bes /\ as_event_ok KOutgoingTransferFailed d = Some e
  | EvOutgoingTransferSuccessful e =>
      exists d, d ∈ bes /\ as_event_ok KOutgoingTransferSuccessful d = Some e
  | EvIncomingTransferSuccessful e =>
      exists d, d ∈ bes /\ as_event_ok KIncomingTransferSuccessful d = Some e
  | EvOutgoingTransferInitiated _ =>
      exists d i, d ∈ bes /\ as_event_ok KOutgoingTransferInitiated d = Some i /\
        read_transfer client hash i = Ok ev
  end.
Proof.
  intros Hinits. rewrite !elem_of_app, !elem_of_as_events.
  assert (Hi : ev ∈ inits <-> exists d i, d ∈ bes /\
    as_event_ok KOutgoingTransferInitiated d = Some i /\ read_transfer client hash i = Ok ev).
  { split.
    - intros Hev. destruct (Forall2_elem_r _ _ _ _ Hinits Hev) as (i & Hi & Hr).
      apply list_elem_of_omap in Hi as (d & Hd & Hi). eauto.
    - intros (d & i & Hd & Hi & Hr).
      assert (Hin : i ∈ omap (as_event_ok KOutgoingTransferInitiated) bes)
        by (apply list_elem_of_omap; eauto).
      destruct (Forall2_elem_l _ _ _ _ Hinits Hin) as (ev' & Hev' & Hr'). congruence. }
  rewrite Hi.
  assert (Hno : forall e, (exists d i, d ∈ bes /\ as_event_ok KOutgoingTransferInitiated d = Some i /\
    read_transfer client hash i = Ok e) -> exists x, e = EvOutgoingTransferInitiated x).
  { intros e (d & i & _ & _ & Hr). by eapply read_transfer_initiated. }
  destruct ev as [e|e|e|e]; split.
  - intros [(d & x & _ & _ & [=])|[(d & x & _ & _ & [=])|[(d & x & _ & _ & [=])|Hx]]]. exact Hx.
  - auto.
  - intros [(d & x & Hd & Hx & [= ->])|[(d & x & _ & _ & [=])|[(d & x & _ & _ & [=])|Hx]]]; [eauto|].
    by destruct (Hno _ Hx) as [y [=]].
  - intros (d & Hd & He). left. eauto.
  - intros [(d & x & _ & _ & [=])|[(d & x & Hd & Hx & [= ->])|[(d & x & _ & _ & [=])|Hx]]]; [eauto|].
    by destruct (Hno _ Hx) as [y [=]].
  - intros (d & Hd & He). right. left. eauto.
  - intros [(d & x & _ & _ & [=])|[(d & x & _ & _ & [=])|[(d & x & Hd & Hx & [= ->])|Hx]]]; [eauto|].
    by destruct (Hno _ Hx) as [y [=]].
  - intros (d & Hd & He). right. right. left. eauto.
Qed.

(** C15: the handler of a block stores every transfer event of the block and
    nothing else: each decoded failure, success and incoming transfer, and for each
    initiation the transfer the storage holds under its chain and message; and
    when a read fails (a missing transfer of an initiation, an unsupported
    chain, a missing block) it fails without writing anything. *)
Theorem xdm_block_exact j db :
  Forall obs_wf (match job_observations j with Ok obs => obs | _ => [] end) -> faults db = [] ->
  (forall obs, job_observations j = Ok obs ->
     index_job j db = (with_tables (with_xdm (fun m => foldr apply_obs m (rev obs)) (tables db)) db,
                       Ok tt)) /\
  (forall obs blk bes, job_observations j = Ok obs ->
     block_ext_at_number (j_node j) (j_block j) = Ok blk ->
     xdm_block_events (j_client j) (j_chain j) (be_hash blk) = Ok bes ->
     forall ev, (exists o, o ∈ obs /\ ob_event o = ev) <->
       match ev with
       | EvOutgoingTransferFailed e =>
           exists d, d ∈ bes /\ as_event_ok KOutgoingTransferFailed d = Some e
       | EvOutgoingTransferSuccessful e =>
           exists d, d ∈ bes /\ as_event_ok KOutgoingTransferSuccessful d = Some e
       | EvIncomingTransferSuccessful e =>
           exists d, d ∈ bes /\ as_event_ok KIncomingTransferSuccessful d = Some e
       | EvOutgoingTransferInitiated _ =>
           exists d i, d ∈ bes /\ as_event_ok KOutgoingTransferInitiated d = Some i /\
             read_transfer (j_client j) (be_hash blk) i = Ok ev
       end) /\
  (forall e, job_observations j = Err e -> index_job j db = (db, Err e)).
Proof.
  intros Hwf Hf. rewrite index_job_spec. split; [|split].
  - intros obs Hobs. rewrite Hobs in Hwf |- *. unfold Ix.db. by rewrite store_all_clean.
  - intros obs blk bes Hobs Hblk Hbes ev. unfold job_observations in Hobs.
    rewrite Hblk in Hobs. cbn [map_err mbind outcome_bind] in Hobs.
    apply bind_Ok in Hobs as (evs & Hevs & Hobs).
    assert (Hin : (exists o, o ∈ obs /\ ob_event o = ev) <-> ev ∈ evs).
    { destruct evs as [|ev0 evs'].
      - injection Hobs as <-. split; [intros (o & Ho & _) | intros Ho]; by apply not_elem_of_nil in Ho.
      - apply bind_Ok in Hobs as (millis & _ & Hobs). apply bind_Ok in Hobs as (time & _ & Hobs).
        assert (obs = observation (j_chain j) blk time <$> (ev0 :: evs')) as ->
          by (unfold mret, outcome_ret in Hobs; congruence).
        split.
        + intros (o & Ho & <-). apply list_elem_of_fmap in Ho as (ev' & -> & Hev'). done.
        + intros Hev. eexists. split; [by apply list_elem_of_fmap_2 | done]. }
    rewrite Hin. apply extract_Ok in Hevs as (bes' & inits & Hbes' & Hinits & ->).
    rewrite Hbes in Hbes'. injection Hbes' as <-. by apply elem_of_xdm_events.
  - intros e He. by rewrite He.
Qed.

Definition readable (j : Job) : Prop := exists obs, job_observations j = Ok obs.

Lemma for_each_jobs jobs db :
  Forall readable jobs -> Forall obs_wf (concat (job_obs <$> jobs)) -> faults db = [] ->
  for_each jobs index_job db = (with_tables (with_xdm (fun m =>
    foldr apply_obs m (rev (concat (job_obs <$> jobs)))) (tables db)) db, Ok tt).
Proof.
  intros Hjobs. revert db. induction Hjobs as [|j jobs [obs Hobs] _ IH]; intros db Hwf Hf.
  - cbn. by destruct db as [[] ? ?].
  - cbn [for_each fmap list_fmap concat] in *. apply Forall_app in Hwf as [Hj Hwf].
    rewrite SE_bind_unfold, index_job_spec, Hobs. unfold Ix.db.
    assert (Hjo : job_obs j = obs) by (unfold job_obs; by rewrite Hobs).
    rewrite Hjo in Hj. rewrite store_all_clean by done. cbn [map_err].
    rewrite IH by done. unfold with_tables, with_xdm. cbn. rewrite Hjo, rev_app_distr, foldr_app. done.
Qed.

(** C12: the blocks of the consensus chain and of the domain may be indexed in any
    order, interleaved, and any of them again: when their observations do not
    contradict each other, the whole database after any two such runs is the
    same, and no block fails. *)
Theorem xdm_blocks_any_order jobs jobs' db :
  Forall readable jobs -> Forall readable jobs' ->
  (forall o, o ∈ concat (job_obs <$> jobs) <-> o ∈ concat (job_obs <$> jobs')) ->
  Forall obs_wf (concat (job_obs <$> jobs)) -> all_agree (concat (job_obs <$> jobs)) ->
  faults db = [] ->
  for_each jobs index_job db = for_each jobs' index_job db /\
  (for_each jobs index_job db).2 = Ok tt.
Proof.
  intros Hj Hj' Hset Hwf Hag Hf.
  assert (Hwf' : Forall obs_wf (concat (job_obs <$> jobs'))).
  { rewrite Forall_forall in Hwf |- *. intros o Ho. by apply Hwf, Hset. }
  rewrite !for_each_jobs by done. split; [|done]. do 2 f_equal. unfold with_xdm. f_equal.
  by apply foldr_apply_obs_set.
Qed.
End Observations.

(** ** Witnesses *)

(** The storage of the consensus chain decodes to the sample transfer. *)
#[local] Instance sample_codec : TransferCodec := { decode_transfer := mret sample_transfer }.

Definition q (pallet storage : string) (args : list StorageArg) : StorageQuery :=
  {| q_pallet := pallet; q_storage := storage; q_args := args |}.

Definition msg : XdmMessageId := (u256 0, u256 1).

Definition consensus_client : Client :=
  toy_client
    [ (q "Timestamp" "Now" [], encode_u64 1000);
      (q "Transporter" "OutgoingTransfers" [ArgChain evm; ArgMessage msg], []) ]
    [ Ok (event KOutgoingTransferInitiated
        {| oti_chain_id := evm; oti_message_id := msg; oti_amount := 10 ^ 18 |}) ] 100 [].

Definition evm_client : Client :=
  toy_client
    [ (q "Timestamp" "Now" [], encode_u64 2000);
      (q "System" "EventCount" [], encode_u32 1) ] [] 100
    [ [ event KIncomingTransferSuccessful
        {| its_chain_id := Consensus; its_message_id := msg; its_amount := 10 ^ 18 |} ] ].

Definition job_consensus : Job :=
  {| j_chain := Consensus; j_node := on_a; j_client := consensus_client; j_block := 1 |}.
Definition job_evm : Job :=
  {| j_chain := evm; j_node := on_b; j_client := evm_client; j_block := 3 |}.

Definition obs_consensus : Observation :=
  observation Consensus {| be_number := 1; be_hash := toy_id a1; be_parent_hash := toy_id genesis;
    be_state_root := [7]; be_extrinsics_root := [] |} 1000
    (EvOutgoingTransferInitiated {| otw_message_id := msg; otw_transfer := sample_transfer |}).
Definition obs_evm : Observation :=
  observation evm {| be_number := 3; be_hash := toy_id b3; be_parent_hash := toy_id b2;
    be_state_root := [8]; be_extrinsics_root := [] |} 2000
    (EvIncomingTransferSuccessful
       {| its_chain_id := Consensus; its_message_id := msg; its_amount := 10 ^ 18 |}).

Lemma job_consensus_obs : job_observations job_consensus = Ok [obs_consensus].
Proof. vm_compute. reflexivity. Qed.
Lemma job_evm_obs : job_observations job_evm = Ok [obs_evm].
Proof. vm_compute. reflexivity. Qed.

Lemma job_obs_wf : Forall obs_wf [obs_consensus; obs_evm].
Proof. repeat constructor; cbn; lia. Qed.

Lemma xdm_block_exact_witness :
  index_job job_consensus (clean_db no_tables) =
    (with_tables (with_xdm (apply_obs obs_consensus) no_tables) (clean_db no_tables), Ok tt).
Proof.
  refine (proj1 (xdm_block_exact job_consensus (clean_db no_tables) _ eq_refl)
    [obs_consensus] job_consensus_obs).
  rewrite job_consensus_obs. constructor; [|constructor].
  exact (proj1 (proj1 (Forall_cons _ _ _) job_obs_wf)).
Defined.

Lemma xdm_blocks_any_order_witness :
  for_each [job_evm; job_consensus; job_evm] index_job (clean_db no_tables) =
    for_each [job_consensus; job_evm] index_job (clean_db no_tables).
Proof.
  assert (Hc : readable job_consensus) by (eexists; exact job_consensus_obs).
  assert (He : readable job_evm) by (eexists; exact job_evm_obs).
  assert (Hjc : job_obs job_consensus = [obs_consensus])
    by (unfold job_obs; rewrite job_consensus_obs; reflexivity).
  assert (Hje : job_obs job_evm = [obs_evm])
    by (unfold job_obs; rewrite job_evm_obs; reflexivity).
  refine (proj1 (xdm_blocks_any_order [job_evm; job_consensus; job_evm] [job_consensus; job_evm]
    (clean_db no_tables) _ _ _ _ _ eq_refl)).
  - repeat constructor; assumption.
  - repeat constructor; assumption.
  - intros o. cbn [fmap list_fmap concat]. rewrite Hjc, Hje. cbn [app]. rewrite !elem_of_cons. tauto.
  - cbn [fmap list_fmap concat]. rewrite Hjc, Hje. repeat constructor; cbn; lia.
  - cbn [fmap list_fmap concat]. rewrite Hjc, Hje. cbn [app].
    intros o o' Ho Ho' _. rewrite !elem_of_cons in Ho, Ho'.
    destruct Ho as [->|[->|[->|[]%not_elem_of_nil]]];
      destruct Ho' as [->|[->|[->|[]%not_elem_of_nil]]]; repeat split; try exact I; reflexivity.
Defined.
