(* ===== verification/Api.v ===== *)
(** * The HTTP interface of the indexer

    Models [indexer/src/api.rs] and the conversion of a transfer row to its
    response ([indexer/src/storage.rs]): one definition per handler, from the
    query parameters as serde gives them ([None] for a missing one) to the
    response or the error. Routing and JSON are actix's and serde's. *)

From S2P Require Import Prelude HeadersCache Types Events Chain Db IndexerError.

Definition MAX_RECENT_TRANSFERS : Z := 10.
Definition MAX_SHARE_PRICE_LIMIT : Z := 50.
Definition MAX_TX_HISTORY_LIMIT : Z := 50.

Record Health : Type := {
  consensus_processed_block_number : Z;
  auto_evm_processed_block_number : Z;
  staking_processed_block_number : Z;
}.

Record BlockDetails : Type := { bd_block_number : Z; bd_block_hash : string; bd_block_time : Z }.

(** [MaybeBlockDetails::from]. *)
Definition maybe_block_details (value : BlockCols) : option BlockDetails :=
  match bc_number value, bc_hash value, bc_at value with
  | Some block_number, Some block_hash, Some block_time =>
      Some {| bd_block_number := as_u 32 block_number; bd_block_hash := block_hash;
              bd_block_time := block_time |}
  | _, _, _ => None
  end.

Record OperatorResponse : Type := {
  ors_id : string;
  ors_domain_id : string;
  ors_owner_account : string;
  ors_signing_key : string;
  ors_minimum_nominator_stake : string;
  ors_nomination_tax : Z;
  ors_total_stake : string;
  ors_total_shares : string;
  ors_total_storage_fee_deposit : string;
  ors_status : string;
  ors_nominator_count : Z;
}.

Definition map_operator_row (row : OperatorRow) : OperatorResponse := {|
  ors_id := or_operator_id row;
  ors_domain_id := or_domain_id row;
  ors_owner_account := or_owner_account row;
  ors_signing_key := or_signing_key row;
  ors_minimum_nominator_stake := or_minimum_nominator_stake row;
  ors_nomination_tax := as_u 8 (or_nomination_tax row);
  ors_total_stake := or_total_stake row;
  ors_total_shares := or_total_shares row;
  ors_total_storage_fee_deposit := or_total_storage_fee_deposit row;
  ors_status := or_status row;
  ors_nominator_count := or_nominator_count row |}.

Record SharePricesQuery : Type := {
  spq_limit : option Z;
  spq_since : option Z;
  spq_until : option Z;
}.

Record SharePriceResponse : Type := {
  sps_operator_id : string;
  sps_domain_id : string;
  sps_epoch_index : Z;
  sps_share_price : string;
  sps_total_stake : string;
  sps_total_shares : string;
  sps_block_height : string;
  sps_timestamp : Z;
}.

Definition share_price_response (r : SharePriceRow) : SharePriceResponse := {|
  sps_operator_id := spr_operator_id r;
  sps_domain_id := spr_domain_id r;
  sps_epoch_index := spr_epoch_index r;
  sps_share_price := spr_share_price r;
  sps_total_stake := spr_total_stake r;
  sps_total_shares := spr_total_shares r;
  sps_block_height := spr_block_height r;
  sps_timestamp := spr_block_time r |}.

Record NominatorCountResponse : Type := { ncr_operator_id : Z; ncr_active_count : Z }.

Record TxHistoryQuery : Type := {
  thq_address : string;
  thq_limit : option Z;
  thq_offset : option Z;
}.

Record DepositResponse : Type := {
  drs_operator_id : string;
  drs_address : string;
  drs_amount : string;
  drs_storage_fee : string;
  drs_block_height : Z;
  drs_timestamp : Z;
}.

Definition deposit_response (r : DepositRow) : DepositResponse := {|
  drs_operator_id := dr_operator_id r;
  drs_address := dr_address r;
  drs_amount := dr_amount r;
  drs_storage_fee := dr_storage_fee r;
  drs_block_height := dr_block_height r;
  drs_timestamp := dr_block_time r |}.

Record WithdrawalResponse : Type := {
  wrs_operator_id : string;
  wrs_address : string;
  wrs_shares : string;
  wrs_amount : string;
  wrs_storage_fee_refund : string;
  wrs_block_height : Z;
  wrs_timestamp : Z;
}.

Definition withdrawal_response (r : WithdrawalRow) : WithdrawalResponse := {|
  wrs_operator_id := wr_operator_id r;
  wrs_address := wr_address r;
  wrs_shares := wr_shares r;
  wrs_amount := wr_amount r;
  wrs_storage_fee_refund := wr_storage_fee_refund r;
  wrs_block_height := wr_block_height r;
  wrs_timestamp := wr_block_time r |}.

Module Api.
Section Handlers.
Context `{ChainTypes, DecimalLib}.

(** The API's own transfer, with the amount in whole tokens. *)
Record XdmTransfer : Type := {
  src_chain : string;
  dst_chain : string;
  channel_id : string;
  nonce : string;
  sender : option string;
  receiver : option string;
  amount : option Decimal;
  initiated_src_block : option BlockDetails;
  executed_dst_block : option BlockDetails;
  acknowledged_src_block : option BlockDetails;
  transfer_successful : option bool;
}.

(** The share of [WebState] that is not the database. *)
Record WebState : Type := { decimal_scale : Decimal }.

(** [Decimal::from(10u128.pow(token_decimals))], as the server is built. *)
Definition web_state (token_decimals : Z) : outcome Ix.Error WebState :=
  p ← pow10_u 128 token_decimals;
  d ← expect (decimal_from_u128 p);
  mret {| decimal_scale := d |}.

(** [Decimal::from(amount).div(decimal_scale)]. *)
Definition scaled_amount (scale : Decimal) (amount : option Z) : outcome Ix.Error (option Decimal) :=
  match amount with
  | None => Ok None
  | Some amount =>
      d ← expect (decimal_from_u128 amount);
      q ← expect (decimal_div d scale);
      mret (Some q)
  end.

(** [api::XdmTransfer::from((decimal_scale, transfer))]. *)
Definition transfer_response (scale : Decimal) (transfer : Db.XdmTransfer)
    : outcome Ix.Error XdmTransfer :=
  amount ← scaled_amount scale (xt_amount transfer);
  mret {| src_chain := xt_src_chain transfer;
          dst_chain := xt_dst_chain transfer;
          channel_id := xt_channel_id transfer;
          nonce := xt_nonce transfer;
          sender := xt_sender transfer;
          receiver := xt_receiver transfer;
          amount := amount;
          initiated_src_block := maybe_block_details (xt_initiated transfer);
          executed_dst_block := maybe_block_details (xt_executed transfer);
          acknowledged_src_block := maybe_block_details (xt_acknowledged transfer);
          transfer_successful := xt_successful transfer |}.

(** [try_join!] of three reads: no read changes the tables, and the first
    error is the result. *)
Definition health_check : SE Db Ix.Error Health :=
  let cn_key := get_xdm_processor_key Consensus in
  let aen_key := get_xdm_processor_key (Domain {| domain_id := 0 |}) in
  cn ← Ix.db (get_last_processed_block cn_key);
  aen ← Ix.db (get_last_processed_block aen_key);
  staking ← Ix.db (get_last_processed_block CHECKPOINT_KEY);
  mret {| consensus_processed_block_number := cn;
          auto_evm_processed_block_number := aen;
          staking_processed_block_number := staking |}.

Definition xdm_address_transfers (data : WebState) (address : string)
    : SE Db Ix.Error (list XdmTransfer) :=
  transfers ← Ix.db (get_xdm_transfer_for_address address);
  lift (mapM (transfer_response (decimal_scale data)) transfers).

Definition recent_xdm_transfers (data : WebState) (limit : option Z)
    : SE Db Ix.Error (list XdmTransfer) :=
  let limit := default MAX_RECENT_TRANSFERS limit in
  let limit := if MAX_RECENT_TRANSFERS <? limit then MAX_RECENT_TRANSFERS else limit in
  transfers ← Ix.db (get_recent_xdm_transfers limit);
  lift (mapM (transfer_response (decimal_scale data)) transfers).

Definition get_all_operators : SE Db Ix.Error (list OperatorResponse) :=
  rows ← Ix.db Db.get_all_operators;
  mret (map map_operator_row rows).

Definition get_operator (operator_id : Z) : SE Db Ix.Error OperatorResponse :=
  row ← Ix.db (Db.get_operator operator_id);
  match row with
  | Some row => mret (map_operator_row row)
  | None => throw (Ix.NotFound ("Operator " +:+ pretty operator_id +:+ " not found"))
  end.

Definition operator_share_prices (operator_id : Z) (info : SharePricesQuery)
    : SE Db Ix.Error (list SharePriceResponse) :=
  let limit := clamp 1 MAX_SHARE_PRICE_LIMIT (default MAX_SHARE_PRICE_LIMIT (spq_limit info)) in
  rows ← match spq_since info, spq_until info with
         | Some since, _ => Ix.db (get_share_prices_since operator_id since limit)
         | _, Some until => Ix.db (get_share_prices_until operator_id until limit)
         | _, _ => Ix.db (get_share_prices_latest operator_id limit)
         end;
  mret (map share_price_response rows).

Definition operator_nominator_count (operator_id : Z) : SE Db Ix.Error NominatorCountResponse :=
  active_count ← Ix.db (get_active_nominator_count operator_id);
  mret {| ncr_operator_id := operator_id; ncr_active_count := active_count |}.

(** The limit and the offset of a history query. *)
Definition history_limit (info : TxHistoryQuery) : Z :=
  clamp 1 MAX_TX_HISTORY_LIMIT (default MAX_TX_HISTORY_LIMIT (thq_limit info)).
Definition history_offset (info : TxHistoryQuery) : Z := Z.max (default 0 (thq_offset info)) 0.

Definition operator_deposits (operator_id : Z) (info : TxHistoryQuery)
    : SE Db Ix.Error (list DepositResponse) :=
  rows ← Ix.db (get_deposits (thq_address info) operator_id (history_limit info)
                 (history_offset info));
  mret (map deposit_response rows).

Definition operator_withdrawals (operator_id : Z) (info : TxHistoryQuery)
    : SE Db Ix.Error (list WithdrawalResponse) :=
  rows ← Ix.db (get_withdrawals (thq_address info) operator_id (history_limit info)
                 (history_offset info));
  mret (map withdrawal_response rows).

Definition nominator_operator_ids (address : string) : SE Db Ix.Error (list string) :=
  Ix.db (get_nominator_operator_ids address).
End Handlers.
End Api.
