(* ===== verification/ApiProps.v ===== *)
(** * Correctness of the HTTP interface

    What a request gets from a running database: the right rows, in order, cut
    to a legal page, whatever numbers the caller sends; the errors with their
    status; and no request changes a table. *)

From Stdlib Require Import Strings.Byte.
From S2P Require Import Prelude HeadersCache ToyChain Types Events Chain Db DbXdm DbXdmProps.
From S2P Require Import DbStakingProps IndexerError ToyIndexer Api.

#[export] Instance desc_nullable_trans {A} (key : A -> option Z) : Transitive (desc_nullable key).
Proof.
  intros a b c. unfold desc_nullable, nulls_first.
  destruct (key a), (key b), (key c); cbn; rewrite ?Is_true_true, ?Z.leb_le; try done. lia.
Qed.
#[export] Instance desc_nullable_total {A} (key : A -> option Z) : Total (desc_nullable key).
Proof.
  intros a b. unfold desc_nullable, nulls_first.
  destruct (key a), (key b); cbn; rewrite ?Is_true_true, ?Z.leb_le; auto. lia.
Qed.

Lemma mapM_related {E A B} (f : A -> outcome E B) (R : A -> B -> Prop) l :
  Forall (fun a => exists b, f a = Ok b /\ R a b) l -> exists bs, mapM f l = Ok bs /\ Forall2 R l bs.
Proof.
  induction 1 as [|a l (b & Hb & Hab) _ (bs & Hbs & Hall)]; [by exists []|].
  exists (b :: bs). split; [|by constructor].
  change (mapM f (a :: l)) with (y ← f a; k ← mapM f l; (mret (y :: k) : outcome E (list B))).
  rewrite Hb. cbn. by rewrite Hbs.
Qed.

Lemma db_select {A} `{ChainTypes} (f : Tables -> outcome SqlxError A) db :
  faults db = [] -> Ix.db (select f) db = (db, map_err Ix.DB (f (tables db))).
Proof. intros Hf. unfold Ix.db. by rewrite select_clean. Qed.

(** ** Transfers *)

Section Transfers.
Context `{ChainTypes, DecimalLib}.

(** An amount in whole tokens. *)
Definition in_tokens (scale : Decimal) (a : Z) : option Decimal :=
  decimal_from_u128 a ≫= fun d => decimal_div d scale.

(** The rows a page shows have amounts, and a scale, that decimals represent. *)
Definition shows_amounts (scale : Decimal) (t : Tables) : Prop :=
  forall k r a, xdm_transfers t !! k = Some r -> x_amount r = Some a -> in_u 128 a /\
    exists d q, decimal_from_u128 a = Some d /\ decimal_div d scale = Some q.

(** The response for a row: its key as text, its amount in whole tokens, and
    the block of each step that has been stored. *)
Definition response_of (scale : Decimal) (kv : XdmKey * XdmRow) (x : Api.XdmTransfer) : Prop :=
  let '((src, dst, channel, nonce), row) := kv in
  Api.src_chain x = src /\ Api.dst_chain x = dst /\
  Api.channel_id x = pretty channel /\ Api.nonce x = pretty nonce /\
  Api.sender x = x_sender row /\ Api.receiver x = x_receiver row /\
  Api.transfer_successful x = x_successful row /\
  Api.amount x = (x_amount row ≫= in_tokens scale) /\
  (is_Some (Api.amount x) <-> is_Some (x_amount row)) /\
  Forall2 (fun shown cols =>
      cols_whole cols ->
      (shown = None <-> cols = no_cols) /\
      (forall b, shown = Some b -> bc_hash cols = Some (bd_block_hash b) /\
         bc_at cols = Some (bd_block_time b) /\
         exists n, bc_number cols = Some n /\ bd_block_number b = as_u 32 n))
    [Api.initiated_src_block x; Api.executed_dst_block x; Api.acknowledged_src_block x]
    [x_initiated row; x_executed row; x_acknowledged row].

Lemma maybe_block_details_spec cols :
  cols_whole cols ->
  (maybe_block_details cols = None <-> cols = no_cols) /\
  (forall b, maybe_block_details cols = Some b -> bc_hash cols = Some (bd_block_hash b) /\
     bc_at cols = Some (bd_block_time b) /\
     exists n, bc_number cols = Some n /\ bd_block_number b = as_u 32 n).
Proof.
  intros Hwhole. destruct cols as [n h a]. unfold maybe_block_details, no_cols in *. cbn.
  destruct Hwhole as [[= -> -> ->] | ([? Hn] & [? Hh] & [? Ha])]; [done|].
  cbn in Hn, Hh, Ha. subst. split; [done|]. intros b [= <-]. cbn. eauto.
Qed.

Lemma transfer_served scale t k r :
  shows_amounts scale t -> xdm_transfers t !! k = Some r ->
  exists x y, xdm_transfer (k, r) = Ok x /\ Api.transfer_response scale x = Ok y /\
    response_of scale (k, r) y.
Proof.
  intros Ht Hr. destruct k as [[[src dst] channel] nonce].
  unfold xdm_transfer, read_amount, Api.transfer_response.
  destruct (x_amount r) as [a|] eqn:Ha.
  - destruct (Ht _ _ _ Hr Ha) as (Hb & d & q & Hd & Hq).
    unfold decode_u128_compat. rewrite parse_pretty by (done || lia). cbn.
    eexists _, _. split; [reflexivity|]. cbn. rewrite Hd. cbn. rewrite Hq. cbn.
    split; [reflexivity|]. unfold response_of. rewrite Ha. unfold in_tokens. cbn. rewrite Hd. cbn. rewrite Hq.
    do 8 (split; [done|]). split; [by split; eauto|].
    repeat (constructor; [apply maybe_block_details_spec|]). constructor.
  - cbn. eexists _, _. split; [reflexivity|]. cbn. split; [reflexivity|].
    unfold response_of. rewrite Ha. cbn. do 9 (split; [done|]).
    repeat (constructor; [apply maybe_block_details_spec|]). constructor.
Qed.

Lemma rows_served scale t rows :
  shows_amounts scale t -> Forall (fun kv => kv ∈ map_to_list (xdm_transfers t)) rows ->
  exists xs ys, mapM xdm_transfer rows = Ok xs /\
    mapM (Api.transfer_response scale) xs = Ok ys /\ Forall2 (response_of scale) rows ys.
Proof.
  intros Ht. induction 1 as [|[k r] rows Hin _ (xs & ys & Hxs & Hys & Hall)].
  - by exists [], [].
  - apply elem_of_map_to_list in Hin.
    destruct (transfer_served scale t k r Ht Hin) as (x & y & Hx & Hy & Hxy).
    exists (x :: xs), (y :: ys). cbn [mapM] in *. rewrite Hx, Hxs. cbn. split; [done|].
    rewrite Hy. cbn. rewrite Hys. cbn. split; [done|]. by constructor.
Qed.
End Transfers.

Section Requests.
Context `{ChainTypes, DecimalLib}.

Lemma page_subset {A} (R : relation A) n l r : page_of R n l r -> Forall (fun a => a ∈ l) r.
Proof.
  intros (rest & Hp & _). apply Forall_forall. intros a Ha. rewrite <- Hp. apply elem_of_app. by left.
Qed.

Lemma serve_rows data db rows (m : SE Db SqlxError (list XdmTransfer)) xs ys :
  m db = (db, mapM xdm_transfer rows) -> mapM xdm_transfer rows = Ok xs ->
  mapM (Api.transfer_response (Api.decimal_scale data)) xs = Ok ys ->
  (Ix.db m ≫= fun transfers =>
     lift (mapM (Api.transfer_response (Api.decimal_scale data)) transfers)) db = (db, Ok ys).
Proof.
  intros Hm Hxs Hys. rewrite SE_bind_unfold. rewrite Hxs in Hm. rewrite (db_clean _ _ _ _ Hm).
  unfold lift. by rewrite Hys.
Qed.

(** What a request for the transfers of an address answers. *)
Lemma address_request data address db :
  faults db = [] -> shows_amounts (Api.decimal_scale data) (tables db) ->
  exists rows l, Api.xdm_address_transfers data address db = (db, Ok l) /\
    Forall2 (response_of (Api.decimal_scale data)) rows l /\
    StronglySorted (desc_nullable initiated_at) rows /\ NoDup rows /\
    (forall k r, (k, r) ∈ rows <-> xdm_transfers (tables db) !! k = Some r /\
       (x_sender r = Some address \/ x_receiver r = Some address)).
Proof.
  intros Hf Ht.
  set (rows := order_by (desc_nullable initiated_at) (address_rows address (tables db))).
  assert (Hp : rows ≡ₚ address_rows address (tables db)) by apply merge_sort_Permutation.
  destruct (rows_served (Api.decimal_scale data) (tables db) rows Ht) as (xs & ys & Hxs & Hys & Hall).
  { apply Forall_forall. intros kv. rewrite Hp. unfold address_rows.
    rewrite list_elem_of_filter. by intros [_ Hin]. }
  exists rows, ys. split; [|split; [done|split; [|split]]].
  - eapply serve_rows; [|done..]. unfold get_xdm_transfer_for_address. by apply select_clean.
  - apply (StronglySorted_merge_sort _ _).
  - rewrite Hp. apply NoDup_filter, NoDup_map_to_list.
  - intros k r. rewrite Hp. unfold address_rows.
    rewrite list_elem_of_filter, elem_of_map_to_list. cbn. tauto.
Qed.

(** C21: the two transfer endpoints on a running database. For an address: every
    transfer it sent or receives, each once, latest first (those not seen
    at their source chain before all others). The recent ones: transfers seen
    at their source only, latest first, never more than ten, whatever limit is
    asked for, and no transfer left out is later than one that is given. Each
    response has the row's key and parties, its amount in whole tokens, and
    the block of exactly the steps that have been stored. No request changes
    the tables or fails, as long as decimals represent the amounts. *)
Theorem transfers_served data address lim db :
  faults db = [] -> shows_amounts (Api.decimal_scale data) (tables db) ->
  (forall l, lim = Some l -> in_u 64 l) ->
  (exists rows l, Api.xdm_address_transfers data address db = (db, Ok l) /\
     Forall2 (response_of (Api.decimal_scale data)) rows l /\
     StronglySorted (desc_nullable initiated_at) rows /\ NoDup rows /\
     (forall k r, (k, r) ∈ rows <-> xdm_transfers (tables db) !! k = Some r /\
        (x_sender r = Some address \/ x_receiver r = Some address))) /\
  (exists rows l, Api.recent_xdm_transfers data lim db = (db, Ok l) /\
     Forall2 (response_of (Api.decimal_scale data)) rows l /\
     page_of (desc_nullable initiated_at) (Z.min 10 (default 10 lim)) (initiated_rows (tables db))
       rows).
Proof.
  intros Hf Ht Hlim. split.
  - by apply address_request.
  - set (n := Z.min 10 (default 10 lim)).
    assert (Hn : 0 <= n <= 10).
    { unfold n. destruct lim as [l|]; cbn; [|lia]. specialize (Hlim l eq_refl). unfold in_u in Hlim. lia. }
    destruct (order_limit_page (desc_nullable initiated_at) n (initiated_rows (tables db)))
      as (rows & Hrows & Hpage); [apply Hn|].
    destruct (rows_served (Api.decimal_scale data) (tables db) rows Ht) as (xs & ys & Hxs & Hys & Hall).
    { eapply Forall_impl; [eapply page_subset; exact Hpage|]. intros kv. unfold initiated_rows.
      rewrite list_elem_of_filter. by intros [_ Hin]. }
    exists rows, ys. split; [|by split]. unfold Api.recent_xdm_transfers.
    eapply serve_rows; [|done..]. unfold get_recent_xdm_transfers. rewrite select_clean by done.
    f_equal. replace (as_i 64 _) with n; [by rewrite Hrows|].
    unfold MAX_RECENT_TRANSFERS. destruct (Z.ltb_spec 10 (default 10 lim)).
    + unfold n. by rewrite Z.min_l by lia.
    + unfold n. rewrite Z.min_r by lia. unfold n in Hn. rewrite Z.min_r in Hn by lia. by rewrite as_i_small by lia.
Qed.

(** ** Histories *)

(** [history_page R off lim l r]: [r] is a page of the rows [l] in the order
    [R], behind the first [off] rows. *)
Definition history_page {A} (R : relation A) (off lim : Z) (l r : list A) : Prop :=
  exists before after, before ++ r ++ after ≡ₚ l /\ StronglySorted R (before ++ r ++ after) /\
    length before = Nat.min (Z.to_nat off) (length l) /\
    length r = Nat.min (Z.to_nat lim) (length l - length before).

Lemma page_spec {A} (R : relation A) `{!RelDecision R, !Transitive R, !Total R} lim off l :
  0 <= lim -> 0 <= off ->
  exists r, page lim off (order_by R l) = Ok r /\ history_page R off lim l r.
Proof.
  intros Hlim Hoff. unfold page, offset, limit.
  rewrite !(proj2 (Z.ltb_ge _ _)) by done. cbn.
  eexists. split; [reflexivity|].
  set (s := order_by R l). assert (Hp : s ≡ₚ l) by apply merge_sort_Permutation.
  exists (take (Z.to_nat off) s), (drop (Z.to_nat lim) (drop (Z.to_nat off) s)).
  rewrite !take_drop. split; [done|]. split; [apply (StronglySorted_merge_sort R l)|].
  rewrite !length_take, length_drop, Hp. split; [done|]. lia.
Qed.

(** What a query for a page answers, on a connection that runs. *)
Lemma page_request {A B C} (sel : Tables -> list A) (row : A -> B) (response : B -> C) R
    `{!RelDecision R} lim off db rows :
  faults db = [] -> page lim off (order_by R (sel (tables db))) = Ok rows ->
  (rs ← Ix.db (select (fun t => rows ← page lim off (order_by R (sel t)); as_rows row rows));
   mret (map response rs) : SE Db Ix.Error (list C)) db =
    (db, Ok ((fun a => response (row a)) <$> rows)).
Proof.
  intros Hf Hpage. rewrite SE_bind_unfold.
  erewrite db_clean; [|rewrite select_clean by done; rewrite Hpage; reflexivity].
  unfold mret, SE_ret. by rewrite <- (map_map row).
Qed.

Lemma history_bounds info :
  1 <= Api.history_limit info <= 50 /\ 0 <= Api.history_offset info.
Proof.
  unfold Api.history_limit, Api.history_offset, clamp, MAX_TX_HISTORY_LIMIT. lia.
Qed.

(** C30: the history endpoints on a running database: whatever limit and
    offset the caller sends (negative ones, too), the query is legal and the
    response is a page of the deposits, or the withdrawals, of that
    address at that operator, newest first, of at least one row and at most fifty as far
    as there are rows behind the offset. Nothing in the database changes. *)
Theorem history_served operator_id info db :
  faults db = [] ->
  let lim := clamp 1 50 (default 50 (thq_limit info)) in
  let off := Z.max 0 (default 0 (thq_offset info)) in
  (exists rows, Api.operator_deposits operator_id info db =
       (db, Ok (map (fun d => deposit_response (deposit_row d)) rows)) /\
     history_page (desc d_block_time) off lim
       (filter (fun d => d_address d = thq_address info /\ d_operator_id d = operator_id)
          (nominator_deposits (tables db))) rows) /\
  (exists rows, Api.operator_withdrawals operator_id info db =
       (db, Ok (map (fun w => withdrawal_response (withdrawal_row w)) rows)) /\
     history_page (desc w_block_time) off lim
       (filter (fun w => w_address w = thq_address info /\ w_operator_id w = operator_id)
          (nominator_withdrawals (tables db))) rows).
Proof.
  intros Hf lim off. destruct (history_bounds info) as [Hlim Hoff].
  change lim with (Api.history_limit info). replace off with (Api.history_offset info)
    by (unfold Api.history_offset, off; lia).
  unfold Api.operator_deposits, Api.operator_withdrawals, get_deposits, get_withdrawals.
  split.
  - destruct (page_spec (desc d_block_time) (Api.history_limit info) (Api.history_offset info)
      (filter (fun d => d_address d = thq_address info /\ d_operator_id d = operator_id)
        (nominator_deposits (tables db)))) as (rows & Hrows & Hpage); [lia..|].
    exists rows. split; [by apply page_request | done].
  - destruct (page_spec (desc w_block_time) (Api.history_limit info) (Api.history_offset info)
      (filter (fun w => w_address w = thq_address info /\ w_operator_id w = operator_id)
        (nominator_withdrawals (tables db)))) as (rows & Hrows & Hpage); [lia..|].
    exists rows. split; [by apply page_request | done].
Qed.

(** ** Lookups *)

(** The times a share-price request asks for. *)
Definition wanted (info : SharePricesQuery) (time : Z) : Prop :=
  match spq_since info, spq_until info with
  | Some since, _ => since <= time
  | None, Some until => time <= until
  | None, None => True
  end.

#[local] Instance wanted_dec info time : Decision (wanted info time).
Proof. unfold wanted. destruct (spq_since info), (spq_until info); apply _. Defined.

Lemma prices_served operator_id info db :
  faults db = [] ->
  exists rows, Api.operator_share_prices operator_id info db =
     (db, Ok (map (fun kv => share_price_response (share_price_row kv)) rows)) /\
     page_of (if spq_since info is Some _ then asc price_time else desc price_time)
       (clamp 1 50 (default 50 (spq_limit info)))
       (operator_prices operator_id (wanted info) (tables db)) rows.
Proof.
  intros Hf. set (lim := clamp 1 50 (default 50 (spq_limit info))).
  assert (Hlim : 0 <= lim) by (unfold lim, clamp; lia).
  assert (Hserve : forall R `{!RelDecision R, !Transitive R, !Total R} m P
      `{!forall z, Decision (P z)},
    (forall z, P z <-> wanted info z) ->
    m db = (db, rows ← limit lim (order_by R (operator_prices operator_id P (tables db)));
                as_rows share_price_row rows) ->
    exists rows, (rows ← Ix.db m; mret (map share_price_response rows)) db =
      (db, Ok (map (fun kv => share_price_response (share_price_row kv)) rows)) /\
      page_of R lim (operator_prices operator_id (wanted info) (tables db)) rows).
  { intros R ? ? ? m P ? HP Hm.
    destruct (order_limit_page R lim (operator_prices operator_id P (tables db)) Hlim)
      as (rows & Hrows & Hpage).
    rewrite Hrows in Hm. exists rows. split.
    - rewrite SE_bind_unfold. erewrite db_clean by exact Hm. unfold mret, SE_ret.
      by rewrite <- (map_map share_price_row).
    - unfold operator_prices in *.
      erewrite (list_filter_iff _ _) in Hpage; [exact Hpage|]. intros kv. cbn. by rewrite HP. }
  unfold Api.operator_share_prices. fold MAX_SHARE_PRICE_LIMIT in lim.
  change (clamp 1 MAX_SHARE_PRICE_LIMIT _) with lim.
  destruct info as [l [since|] until]; [|destruct until as [until|]].
  - refine (Hserve (asc price_time) _ _ _ _ (fun time => since <= time) _ _ _); [done|].
    by apply select_clean.
  - refine (Hserve (desc price_time) _ _ _ _ (fun time => time <= until) _ _ _); [done|].
    by apply select_clean.
  - refine (Hserve (desc price_time) _ _ _ _ (fun _ => True) _ _ _); [done|].
    by apply select_clean.
Qed.

(** C31: the other endpoints on a running database. Health: the three
    checkpoints, or a 500 with a fixed text when one of them was never set. An
    operator: its row with the stored tax, or a 404 that names it; the list:
    every operator once, by its number. The share prices: [since] wins over
    [until], and the limit is between one and fifty. The nominator count: that
    of the nominators table, not the materialized one. None of them changes
    the database. *)
Theorem lookups_served operator_id info db :
  faults db = [] ->
  let checkpoint key := as_u 32 <$> metadata (tables db) !! key in
  let limit := clamp 1 50 (default 50 (spq_limit info)) in
  (exists r, Api.health_check db = (db, r) /\
     match checkpoint "xdm_processor_Consensus", checkpoint "xdm_processor_Domain(0)",
       checkpoint "staking_processor_Consensus" with
     | Some cn, Some aen, Some staking =>
         r = Ok {| consensus_processed_block_number := cn; auto_evm_processed_block_number := aen;
                   staking_processed_block_number := staking |}
     | _, _, _ => exists e, r = Err e /\ Ix.error_response e = (500, "internal server error")
     end) /\
  (exists r, Api.get_operator operator_id db = (db, r) /\
     match operators (tables db) !! operator_id with
     | Some o => exists w, r = Ok w /\ ors_id w = pretty operator_id /\
         ors_status w = op_status o /\ ors_nominator_count w = op_nominator_count o /\
         (in_u 8 (op_nomination_tax o) -> ors_nomination_tax w = op_nomination_tax o)
     | None => exists e, r = Err e /\ Ix.error_response e =
         (404, "not found: Operator " +:+ pretty operator_id +:+ " not found")
     end) /\
  (exists l, Api.get_all_operators db =
       (db, Ok (map (fun kv => map_operator_row (operator_row kv)) l)) /\
     l ≡ₚ map_to_list (operators (tables db)) /\ StronglySorted (asc fst) l) /\
  (exists rows, Api.operator_share_prices operator_id info db =
       (db, Ok (map (fun kv => share_price_response (share_price_row kv)) rows)) /\
     page_of (if spq_since info is Some _ then asc price_time else desc price_time) limit
       (operator_prices operator_id (wanted info) (tables db)) rows) /\
  Api.operator_nominator_count operator_id db = (db, Ok {| ncr_operator_id := operator_id;
    ncr_active_count := active_nominators operator_id (tables db) |}).
Proof.
  intros Hf checkpoint limit. split; [|split; [|split; [|split]]].
  - assert (Hget : forall key, get_last_processed_block key db =
      (db, match checkpoint key with Some n => Ok n | None => Err RowNotFound end)).
    { intros key. unfold get_last_processed_block. rewrite SE_bind_unfold, select_clean by done.
      unfold checkpoint. by destruct (metadata (tables db) !! key). }
    unfold Api.health_check, Ix.db.
    change (get_xdm_processor_key Consensus) with "xdm_processor_Consensus".
    change (get_xdm_processor_key _) with "xdm_processor_Domain(0)".
    change CHECKPOINT_KEY with "staking_processor_Consensus".
    rewrite !SE_bind_unfold, Hget. destruct (checkpoint "xdm_processor_Consensus"); [|eauto 6].
    cbn. rewrite !SE_bind_unfold, Hget. destruct (checkpoint "xdm_processor_Domain(0)"); [|eauto 6].
    cbn. rewrite !SE_bind_unfold, Hget.
    destruct (checkpoint "staking_processor_Consensus"); eauto 6.
  - unfold Api.get_operator, get_operator. rewrite SE_bind_unfold, db_select by done.
    destruct (operators (tables db) !! operator_id) as [o|]; cbn; eexists; (split; [reflexivity|]).
    + eexists. repeat (split; [reflexivity|]). cbn. unfold as_u. intros Hb. by apply Z.mod_small.
    + eauto.
  - unfold Api.get_all_operators, get_all_operators. rewrite SE_bind_unfold, db_select by done.
    exists (order_by (asc fst) (map_to_list (operators (tables db)))). split.
    + unfold mret, SE_ret. by rewrite <- (map_map operator_row).
    + split; [apply merge_sort_Permutation | apply (StronglySorted_merge_sort _ _)].
  - by apply prices_served.
  - unfold Api.operator_nominator_count, get_active_nominator_count.
    by rewrite SE_bind_unfold, db_select by done.
Qed.
End Requests.

(** ** Witnesses *)

Definition sample_state : Api.WebState := {| Api.decimal_scale := 10 ^ 18 * 10 ^ 18 |}.

Definition transfer_tables : Tables :=
  with_xdm (fun _ => {[ obs_key obs_init := obs_row obs_init ]}) no_tables.

Lemma transfer_tables_amounts :
  shows_amounts (Api.decimal_scale sample_state) transfer_tables.
Proof.
  intros k r a Hr Ha. cbn in Hr. apply lookup_singleton_Some in Hr as [_ <-].
  injection Ha as <-. split; [split; lia|]. eexists _, _. split; reflexivity.
Qed.

Lemma transfers_served_witness :
  exists l, Api.recent_xdm_transfers sample_state (Some 1000) (clean_db transfer_tables) =
    (clean_db transfer_tables, Ok l) /\ length l = 1%nat.
Proof.
  destruct (transfers_served sample_state "5" (Some 1000) (clean_db transfer_tables) eq_refl
    transfer_tables_amounts) as [_ (rows & l & Hl & Hall & rest & Hp & _ & Hn & _)].
  { intros l [= <-]. split; lia. }
  exists l. split; [exact Hl|]. rewrite <- (Forall2_length _ _ _ Hall), Hn. reflexivity.
Defined.

Lemma history_served_witness :
  exists rows, Api.operator_deposits 3
      {| thq_address := "alice"; thq_limit := Some (-5); thq_offset := Some (-1) |}
      (clean_db no_tables) =
    (clean_db no_tables, Ok (map (fun d => deposit_response (deposit_row d)) rows)).
Proof.
  destruct (history_served 3
      {| thq_address := "alice"; thq_limit := Some (-5); thq_offset := Some (-1) |}
      (clean_db no_tables) eq_refl) as [(rows & Hrows & _) _].
  exists rows. exact Hrows.
Defined.

Lemma lookups_served_witness :
  exists e, (Api.get_operator 7 operator_db).2 = Err e /\
    Ix.error_response e = (404, "not found: Operator 7 not found").
Proof.
  destruct (lookups_served 7 {| spq_limit := None; spq_since := None; spq_until := None |}
    operator_db eq_refl) as (_ & (r & Hr & e & -> & He) & _).
  exists e. rewrite Hr. split; [reflexivity | exact He].
Defined.

(** A request behind the writes of the two processors. *)
Definition shown (r : outcome (Ix.Error (H := _)) (list Api.XdmTransfer)) :=
  match r with
  | Ok l => (fun x => (Api.sender x, Api.receiver x, decimal_to_string <$> Api.amount x,
      bd_block_number <$> Api.initiated_src_block x, bd_block_number <$> Api.executed_dst_block x,
      bd_block_number <$> Api.acknowledged_src_block x, Api.transfer_successful x)) <$> l
  | _ => []
  end.

Example transfer_shown :
  shown (Api.xdm_address_transfers sample_state "0x6f"
     (store_all sample_steps (clean_db no_tables)).1).2 =
  [(Some "50102", Some "0x6f", Some "1.000000000000000000", Some 10, Some 70, Some 30, Some true)].
Proof. vm_compute. reflexivity. Qed.
