(* ===== verification/Served.v ===== *)
(** * From the chain to the response

    The indexer of [System] and the handlers of [Api] composed: what a request for the deposits or
    the withdrawals of a nominator is answered with, by the blocks of the canonical
    chain. *)

From S2P Require Import Prelude HeadersCache TreeRoute BlockListener BlockListenerFacts.
From S2P Require Import Scale ScaleLE RpcTypes Types Events Chain Db IndexerError DbXdm DbXdmProps.
From S2P Require Import Staking StakingFacts StakingProps Processor Processors ProcessorProps.
From S2P Require Import Follow NodeChains Canonical System Xdm Api ApiProps.
From S2P Require Import DbStakingProps.
From S2P Require Import ToyChain ListenerProps ToyIndexer.

(** ** Pages *)

(** The rows of a page are rows of the table, and every row of the table is alone on some
    page. *)
Lemma history_page_elem {A} (R : relation A) off lim (l r : list A) a :
  history_page R off lim l r -> a ∈ r -> a ∈ l.
Proof. intros (before & after & Hl & _) Ha. rewrite <- Hl, !elem_of_app. auto. Qed.

Lemma page_reaches {A} (R : relation A) `{!RelDecision R, !Transitive R, !Total R} (l : list A) a :
  a ∈ l -> exists off, 0 <= off /\ page 1 off (order_by R l) = Ok [a].
Proof.
  intros Ha. assert (Hs : a ∈ order_by R l) by (unfold order_by; by rewrite merge_sort_Permutation).
  apply list_elem_of_lookup in Hs as [i Hi]. exists (Z.of_nat i). split; [lia|].
  unfold page, offset, limit.
  by rewrite (proj2 (Z.ltb_ge (Z.of_nat i) 0)), Nat2Z.id, (drop_S _ _ _ Hi) by lia.
Qed.

Section Served.
Context `{HeaderHashing, !CollisionFree, !TreeRouteAlgo, !TreeRouteLaws}.
Context `{ScaleCodec, !ScaleLaws, EventCodec, Twox, TextCodecs, !HashBytes, DecimalLib, Chrono,
  TransferCodec}.
Context (valid : Header -> Prop).

Definition shown_deposit (d : Deposit) : DepositResponse := deposit_response (deposit_row d).
Definition shown_withdrawal (w : Withdrawal) : WithdrawalResponse :=
  withdrawal_response (withdrawal_row w).

(** A request for one row. *)
Definition single (address : string) (offset : Z) : TxHistoryQuery :=
  {| thq_address := address; thq_limit := Some 1; thq_offset := Some offset |}.

Lemma single_bounds address off :
  0 <= off -> Api.history_limit (single address off) = 1 /\
    Api.history_offset (single address off) = off.
Proof.
  intros Hoff. split; [reflexivity|]. exact (Z.max_l off 0 Hoff).
Qed.

Definition nominator_deposits_at (operator_id : Z) (address : string) (t : Tables) : list Deposit :=
  filter (fun d => d_address d = address /\ d_operator_id d = operator_id) (nominator_deposits t).
Definition nominator_withdrawals_at (operator_id : Z) (address : string) (t : Tables) : list Withdrawal :=
  filter (fun w => w_address w = address /\ w_operator_id w = operator_id)
    (nominator_withdrawals t).

Lemma deposits_request operator_id info db :
  faults db = [] -> exists rows,
    Api.operator_deposits operator_id info db = (db, Ok (shown_deposit <$> rows)) /\
    forall d, d ∈ rows -> d ∈ nominator_deposits_at operator_id (thq_address info) (tables db).
Proof.
  intros Hf. destruct (history_bounds info) as [Hlim Hoff].
  destruct (page_spec (desc d_block_time) (Api.history_limit info) (Api.history_offset info)
    (nominator_deposits_at operator_id (thq_address info) (tables db))) as (rows & Hrows & Hpage); [lia..|].
  exists rows. split; [|intros x; exact (history_page_elem _ _ _ _ _ x Hpage)].
  exact (page_request (nominator_deposits_at operator_id (thq_address info)) deposit_row deposit_response _ _ _ _ _ Hf Hrows).
Qed.

Lemma withdrawals_request operator_id info db :
  faults db = [] -> exists rows,
    Api.operator_withdrawals operator_id info db = (db, Ok (shown_withdrawal <$> rows)) /\
    forall w, w ∈ rows -> w ∈ nominator_withdrawals_at operator_id (thq_address info) (tables db).
Proof.
  intros Hf. destruct (history_bounds info) as [Hlim Hoff].
  destruct (page_spec (desc w_block_time) (Api.history_limit info) (Api.history_offset info)
    (nominator_withdrawals_at operator_id (thq_address info) (tables db))) as (rows & Hrows & Hpage); [lia..|].
  exists rows. split; [|intros x; exact (history_page_elem _ _ _ _ _ x Hpage)].
  exact (page_request (nominator_withdrawals_at operator_id (thq_address info)) withdrawal_row withdrawal_response _ _ _ _ _ Hf Hrows).
Qed.

Lemma deposit_reached operator_id address d db :
  faults db = [] -> d ∈ nominator_deposits_at operator_id address (tables db) -> exists off,
    Api.operator_deposits operator_id (single address off) db = (db, Ok [shown_deposit d]).
Proof.
  intros Hf Hd. destruct (page_reaches (desc d_block_time) _ d Hd) as (off & Hoff & Hpage).
  exists off. apply (page_request (nominator_deposits_at operator_id address) deposit_row deposit_response _ _ _ _ [d]); [done|].
  destruct (single_bounds address off Hoff) as [-> ->]. exact Hpage.
Qed.

Lemma withdrawal_reached operator_id address w db :
  faults db = [] -> w ∈ nominator_withdrawals_at operator_id address (tables db) -> exists off,
    Api.operator_withdrawals operator_id (single address off) db = (db, Ok [shown_withdrawal w]).
Proof.
  intros Hf Hw. destruct (page_reaches (desc w_block_time) _ w Hw) as (off & Hoff & Hpage).
  exists off. apply (page_request (nominator_withdrawals_at operator_id address) withdrawal_row withdrawal_response _ _ _ _ [w]); [done|].
  destruct (single_bounds address off Hoff) as [-> ->]. exact Hpage.
Qed.

(** ** The canonical chain as it is served *)

(** C3: what the API serves is the canonical chain. The indexer runs as in
    [System.indexer_canonical]: one subscription of the listener, of which the staking processor
    receives every message and which never switches to a branch with a single new block, a
    checkpoint at or below the listener's best block at the start, and right rows up to it. Once
    the staking processor is at rest, and the database answers, every request for
    the deposits or the withdrawals of a nominator at an operator is answered, whatever its limit
    and offset, with rows of this nominator and operator only. Each of these rows up to the
    height of the listener's best block is one the canonical block of its height calls for; and
    each row a canonical block calls for, for this nominator and operator, is the whole answer to
    some request. *)
Theorem history_canonical consensus domain parallel sub s start best db views sy w operator_id
    address :
  staking_setting valid consensus sub s start best db ->
  let members := indexer_members consensus domain in
  length views = 3%nat -> (forall v, v ∈ views -> (v <= length (src_msgs consensus))%nat) ->
  rtc (system_step parallel members) (system_start members db views) sy ->
  sy_worlds sy !! 0%nat = Some w -> ps_phase (w_state w) = Waiting -> ps_queue (w_state w) = [] ->
  faults (sy_db sy) = [] ->
  let calls_for x := rows_of_block (src_client consensus) (header_hash x) (number x) in
  exists hdr, valid hdr /\ header_hash hdr = best /\
  (forall info, thq_address info = address -> exists deposits withdrawals,
     Api.operator_deposits operator_id info (sy_db sy) =
       (sy_db sy, Ok (shown_deposit <$> deposits)) /\
     Api.operator_withdrawals operator_id info (sy_db sy) =
       (sy_db sy, Ok (shown_withdrawal <$> withdrawals)) /\
     (forall d, d ∈ deposits -> d_address d = address /\ d_operator_id d = operator_id /\
        (1 <= d_block_height d <= number hdr ->
         exists x rows, on_chain valid best x /\ number x = d_block_height d /\
          calls_for x rows /\ d ∈ rows.1)) /\
     (forall wd, wd ∈ withdrawals -> w_address wd = address /\ w_operator_id wd = operator_id /\
        (1 <= w_block_height wd <= number hdr ->
         exists x rows, on_chain valid best x /\ number x = w_block_height wd /\
          calls_for x rows /\ wd ∈ rows.2))) /\
  (forall x rows, on_chain valid best x -> 1 <= number x -> calls_for x rows ->
     (forall d, d ∈ rows.1 -> d_address d = address -> d_operator_id d = operator_id ->
        exists off, Api.operator_deposits operator_id (single address off) (sy_db sy) =
          (sy_db sy, Ok [shown_deposit d])) /\
     (forall wd, wd ∈ rows.2 -> w_address wd = address -> w_operator_id wd = operator_id ->
        exists off, Api.operator_withdrawals operator_id (single address off) (sy_db sy) =
          (sy_db sy, Ok [shown_withdrawal wd]))).
Proof.
  intros Hset members Hlen Hviews Hsteps Hw Hph Hq Hf calls_for.
  destruct (staking_at_rest valid consensus domain parallel sub s start best db views sy w Hset Hlen
    Hviews Hsteps Hw Hph Hq) as (hdr & Hhdr & Hbest & _ & Hrows).
  exists hdr. split; [done|]. split; [done|].
  assert (Hat : forall h, 1 <= h <= number hdr -> exists x, on_chain valid best x /\ number x = h /\
    calls_for x (height_rows (sy_db sy) h)).
  { intros h Hh. rewrite <- Hbest.
    destruct (on_chain_at valid (sg_chain _ _ _ _ _ _ _ Hset) hdr h (sg_rooted _ _ _ _ _ _ _ Hset)
      Hhdr Hh) as (x & Hx & Hxh). exists x. split; [done|]. split; [done|].
    rewrite <- Hxh. apply Hrows; [by rewrite <- Hbest | lia]. }
  split.
  - intros info <-. destruct (deposits_request operator_id info (sy_db sy) Hf) as (ds & Hds & Hin).
    destruct (withdrawals_request operator_id info (sy_db sy) Hf) as (ws & Hws & Hinw).
    exists ds, ws. split; [done|]. split; [done|]. split.
    + intros d Hd. specialize (Hin d Hd). apply list_elem_of_filter in Hin as [[Ha Ho] Hin].
      split; [done|]. split; [done|]. intros Hh. destruct (Hat _ Hh) as (x & Hx & Hxh & Hc).
      exists x, (height_rows (sy_db sy) (d_block_height d)). split_and!; [done..|].
      by apply list_elem_of_filter.
    + intros wd Hwd. specialize (Hinw wd Hwd). apply list_elem_of_filter in Hinw as [[Ha Ho] Hinw].
      split; [done|]. split; [done|]. intros Hh. destruct (Hat _ Hh) as (x & Hx & Hxh & Hc).
      exists x, (height_rows (sy_db sy) (w_block_height wd)). split_and!; [done..|].
      by apply list_elem_of_filter.
  - intros x rows Hx Hx1 Hc.
    rewrite (rows_of_block_unique _ _ _ _ _ Hc (Hrows x Hx Hx1)). split.
    + intros d Hd Ha Ho. apply deposit_reached; [done|]. apply list_elem_of_filter.
      split; [done|]. by apply list_elem_of_filter in Hd as [_ Hd].
    + intros wd Hwd Ha Ho. apply withdrawal_reached; [done|]. apply list_elem_of_filter.
      split; [done|]. by apply list_elem_of_filter in Hwd as [_ Hwd].
Qed.
End Served.

(** ** Witness: after a change of branch the deposit of the new branch is served *)

Section Witness.
#[local] Existing Instance still_transfers.

(** The deposit that block [b1] calls for. *)
Definition b1_deposit : Deposit := {|
  d_operator_id := 3; d_address := ss58 alice; d_amount := 200; d_storage_fee := 0;
  d_block_height := 1; d_block_time := 1700000000000 |}.

Lemma b1_calls : rows_of_block branch_client (toy_id b1) 1 ([b1_deposit], []).
Proof.
  exists 1700000000000, 1700000000000, [nomination 3 200], [],
    [{| on_operator_id := 3; on_nominator_id := alice; on_amount := 200 |}], [].
  repeat (split; [vm_compute; reflexivity|]); vm_compute; reflexivity.
Qed.

Lemma history_canonical_witness : exists sy off,
  rtc (system_step 4 branch_members) (system_start branch_members branch_db [1; 1; 0]%nat) sy /\
  Api.operator_deposits 3 (single (ss58 alice) off) (sy_db sy) =
    (sy_db sy, Ok [shown_deposit b1_deposit]).
Proof.
  destruct branch_run as (sy & w & Hrun & Hw & Hph & Hq & Hend).
  assert (Hf : faults (sy_db sy) = []) by (rewrite Hend; vm_compute; reflexivity).
  destruct (history_canonical toy_valid branch_source silent_source 4 toy_sub toy_listener
    (toy_header a2) (toy_id b3) branch_db [1; 1; 0]%nat sy w 3 (ss58 alice) branch_setting eq_refl
    branch_views Hrun Hw Hph Hq Hf) as (hdr & _ & _ & _ & Hserved).
  assert (H1 : 1 <= number (toy_header b1)) by (cbn; lia).
  destruct (proj1 (Hserved (toy_header b1) _ b1_canonical H1 b1_calls) b1_deposit
    (list_elem_of_here _ _) eq_refl eq_refl) as [off Hoff].
  exists sy, off. split; [exact Hrun | exact Hoff].
Defined.
End Witness.
