(* ===== verification/ServedTransfers.v ===== *)
(** * Transfers from the chains to the response

    The transfer processors of [SystemTransfers] and the handler of [Api] composed: what a request
    for the transfers of an address tells of the events of the canonical chain. *)

From Stdlib Require Import Strings.Byte.
From S2P Require Import Prelude HeadersCache TreeRoute BlockListener BlockListenerFacts.
From S2P Require Import Scale RpcTypes Types Events Chain Db IndexerError DbXdm DbXdmProps.
From S2P Require Import Staking StakingFacts StakingProps Xdm XdmFacts Processor Processors.
From S2P Require Import ProcessorProps Follow NodeChains Canonical XdmCanonical System.
From S2P Require Import SystemTransfers Api ApiProps.
From S2P Require Import ToyChain ListenerProps ScaleLE ToyIndexer.

(** ** What a response tells *)

Section Telling.
Context `{ChainTypes, TextCodecs, !HashBytes, DecimalLib}.

(** The response is for this message. *)
Definition of_message (key : XdmKey) (y : Api.XdmTransfer) : Prop :=
  let '((src, dst), channel, nonce) := key in
  Api.src_chain y = src /\ Api.dst_chain y = dst /\
  Api.channel_id y = pretty channel /\ Api.nonce y = pretty nonce.

(** The block of an event as a response has it. *)
Definition block_told (o : Observation) : option BlockDetails := Some {|
  bd_block_number := hn_number (ob_block o);
  bd_block_hash := to_hex (hash_bytes (hn_hash (ob_block o)));
  bd_block_time := ob_time o |}.

(** The response tells the event: the block of its step, with the accounts, the amount in whole
    tokens and the outcome, as far as events of its kind have them. *)
Definition tells (scale : Decimal) (o : Observation) (y : Api.XdmTransfer) : Prop :=
  match ob_event o with
  | EvOutgoingTransferInitiated e =>
      let t := otw_transfer e in
      Api.initiated_src_block y = block_told o /\
      Api.sender y = Some (account_to_string (account_id (tr_sender t))) /\
      Api.receiver y = Some (account_to_string (account_id (tr_receiver t))) /\
      Api.amount y = in_tokens scale (tr_amount t)
  | EvIncomingTransferSuccessful e =>
      Api.executed_dst_block y = block_told o /\ Api.amount y = in_tokens scale (its_amount e) /\
      Api.transfer_successful y = Some true
  | EvOutgoingTransferSuccessful _ =>
      Api.acknowledged_src_block y = block_told o /\ Api.transfer_successful y = Some true
  | EvOutgoingTransferFailed _ =>
      Api.acknowledged_src_block y = block_told o /\ Api.transfer_successful y = Some false
  end.

(** Sent or received by an address, as far as the event says so. *)
Definition by_or_to (address : string) (o : Observation) : Prop :=
  x_sender (obs_row o) = Some address \/ x_receiver (obs_row o) = Some address.

(** The block of a step that has been stored with the columns of an event. *)
Lemma told_block (o : Observation) (shown : option BlockDetails) :
  in_u 32 (hn_number (ob_block o)) ->
  (cols_whole (obs_cols o) ->
   (shown = None <-> obs_cols o = no_cols) /\
   (forall b, shown = Some b -> bc_hash (obs_cols o) = Some (bd_block_hash b) /\
      bc_at (obs_cols o) = Some (bd_block_time b) /\
      exists n, bc_number (obs_cols o) = Some n /\ bd_block_number b = as_u 32 n)) ->
  shown = block_told o.
Proof.
  intros Hn Hcols. destruct (Hcols (block_cols_whole _ _)) as [Hnone Hsome].
  destruct shown as [[n h t]|]; [|discriminate (proj1 Hnone eq_refl)].
  destruct (Hsome _ eq_refl) as ([= Hh] & [= Ht] & n' & [= <-] & Hn'). cbn in *.
  unfold block_told. subst. unfold in_u in Hn.
  rewrite as_i_small by lia. unfold as_u. by rewrite Z.mod_small by lia.
Qed.

(** A row that records an event is served as the event. *)
Lemma recorded_told scale o row y :
  in_u 32 (hn_number (ob_block o)) -> overlay (obs_row o) row = row ->
  response_of scale (obs_key o, row) y -> tells scale o y.
Proof.
  intros Hn Hrow. destruct (obs_key o) as [[[src dst] channel] nonce].
  intros (_ & _ & _ & _ & Hs & Hr & Hok & Ha & _ & Hblocks).
  apply Forall2_cons in Hblocks as [Hi Hblocks]. apply Forall2_cons in Hblocks as [He Hblocks].
  apply Forall2_cons in Hblocks as [Hack _].
  apply overlay_parts in Hrow. unfold tells, obs_parts, obs_row in *.
  destruct (ob_event o); rewrite !Forall_cons in Hrow; cbn in Hrow; destruct_and!;
    repeat match goal with E : @eq XdmRow _ _ |- _ => injection E; clear E; intros end;
    rewrite ?Hs, ?Hr, ?Hok, ?Ha; repeat match goal with E : _ row = _ |- _ => rewrite E in * end;
    split_and?; try reflexivity; by apply told_block.
Qed.
End Telling.

(** ** The canonical chains as they are served *)

Section Served.
Context `{HeaderHashing, !CollisionFree, !TreeRouteAlgo, !TreeRouteLaws}.
Context `{ScaleCodec, !ScaleLaws, EventCodec, Twox, TextCodecs, !HashBytes, DecimalLib, Chrono,
  TransferCodec}.
Context (valid : ChainId -> Header -> Prop).

(** The message of a response is that of its row. *)
Lemma message_of_response scale key row (key' : XdmKey) y :
  response_of scale (key, row) y -> of_message key' y -> key = key'.
Proof.
  destruct key as [[[src dst] channel] nonce], key' as [[[src' dst'] channel'] nonce'].
  intros (Hs & Hd & Hc & Hn & _) (Hs' & Hd' & Hc' & Hn'). repeat f_equal; try congruence;
    apply (inj pretty); congruence.
Qed.

Lemma response_message scale key row y : response_of scale (key, row) y -> of_message key y.
Proof. destruct key as [[[src dst] channel] nonce]. by intros (? & ? & ? & ? & _). Qed.

(** A recorded event by or to an address has its message in the rows of the address. *)
Lemma recorded_address address (o : Observation) db :
  recorded o db -> by_or_to address o -> exists r, xdm_transfers (tables db) !! obs_key o = Some r /\
    (x_sender r = Some address \/ x_receiver r = Some address).
Proof.
  unfold recorded, row_of. intros Hrow Hby.
  destruct (xdm_transfers (tables db) !! obs_key o) as [r|]; cbn in Hrow.
  - exists r. split; [done|].
    apply (f_equal x_sender) in Hrow as Hs. apply (f_equal x_receiver) in Hrow as Hr. cbn in Hs, Hr.
    destruct Hby as [Hby | Hby]; [rewrite Hby in Hs | rewrite Hby in Hr]; cbn in *; auto.
  - apply (f_equal x_sender) in Hrow as Hs. apply (f_equal x_receiver) in Hrow as Hr. cbn in Hs, Hr.
    destruct Hby as [Hby | Hby]; [rewrite Hby in Hs | rewrite Hby in Hr]; done.
Qed.

(** C4: what the API tells of transfers is what the canonical chains tell. Take the
    indexer and one of its chains as in [SystemTransfers.transfers_canonical], with the
    transfer processor of this chain at rest, a database that answers and amounts that decimals
    represent. Then the request for the transfers of any address is answered, and for every
    transfer event of every canonical block of the chain: each transfer of the answer that is for
    the message of the event tells the block of the event, and the accounts, the amount in whole
    tokens and the outcome that the event has; and when the event initiates a transfer by or
    to the address, its message is in the answer. *)
Theorem transfers_told consensus domain parallel i chain src sub s start best db views sy w data
    address :
  transfer_setting valid consensus domain i chain src sub s start best db ->
  let members := indexer_members consensus domain in
  let scale := Api.decimal_scale data in
  length views = 3%nat -> (forall v, views !! i = Some v -> (v <= length (src_msgs src))%nat) ->
  rtc (system_step parallel members) (system_start members db views) sy ->
  sy_worlds sy !! i = Some w -> ps_phase (w_state w) = Waiting -> ps_queue (w_state w) = [] ->
  faults (sy_db sy) = [] -> shows_amounts scale (tables (sy_db sy)) ->
  exists l, Api.xdm_address_transfers data address (sy_db sy) = (sy_db sy, Ok l) /\
    forall x, on_chain (valid chain) best x -> 1 <= number x < 2 ^ 32 ->
    forall o, o ∈ block_obs (src_nodes src) (src_client src) chain (length (src_msgs src)) (number x) ->
      ob_block o = {| hn_number := number x; hn_hash := header_hash x |} /\
      (forall y, y ∈ l -> of_message (obs_key o) y -> tells scale o y) /\
      (by_or_to address o -> exists y, y ∈ l /\ of_message (obs_key o) y).
Proof.
  intros Hset members scale Hlen Hviews Hsteps Hw Hph Hq Hf Ham.
  destruct (transfers_at_rest valid consensus domain parallel i chain src sub s start best db views sy
    w Hset Hlen Hviews Hsteps Hw Hph Hq) as (hdr & _ & _ & _ & Hrec).
  destruct (address_request data address (sy_db sy) Hf Ham) as (rows & l & Hl & Hall & _ & _ & Hrows).
  exists l. split; [exact Hl|]. intros x Hx Hn o Ho.
  destruct (Hrec x Hx (proj1 Hn) o Ho) as [Hblock Hro]. split; [exact Hblock|]. split.
  - intros y Hy Hmsg. apply list_elem_of_lookup in Hy as [n Hy].
    destruct (Forall2_lookup_r _ _ _ _ _ Hall Hy) as ([key row] & Hrow & Hresp).
    pose proof (message_of_response _ _ _ _ _ Hresp Hmsg) as ->.
    apply list_elem_of_lookup_2, Hrows in Hrow as [Hrow _].
    apply (recorded_told scale o row); [|by unfold recorded, row_of in Hro; rewrite Hrow in Hro|done].
    rewrite Hblock. cbn. unfold in_u. lia.
  - intros Hby. destruct (recorded_address address o _ Hro Hby) as (r & Hr & Ha).
    assert (Hin : (obs_key o, r) ∈ rows) by (by apply Hrows).
    apply list_elem_of_lookup in Hin as [n Hin].
    destruct (Forall2_lookup_l _ _ _ _ _ Hall Hin) as (y & Hy & Hresp).
    exists y. split; [by eapply list_elem_of_lookup_2|]. by eapply response_message.
Qed.
End Served.

(** ** Witness: the initiation of the new branch is served *)

Section Witness.
#[local] Existing Instance amount_codec.

Definition tokens : Api.WebState := {| Api.decimal_scale := 10 ^ 18 * 10 ^ 18 |}.

Lemma moved_amounts : shows_amounts (Api.decimal_scale tokens) (tables moving_end.1).
Proof.
  assert (Hone : map_to_list (xdm_transfers (tables moving_end.1)) =
    [(obs_key (moved_at b2 (10 ^ 18)), obs_row (moved_at b2 (10 ^ 18)))]) by (vm_compute; reflexivity).
  intros k r a Hr Ha. apply elem_of_map_to_list in Hr. rewrite Hone in Hr.
  apply list_elem_of_singleton in Hr. injection Hr as -> ->. injection Ha as <-.
  split; [split; lia|]. eexists _, _. split; reflexivity.
Qed.

(** The sender is told of the initiation in block 2, where [a1] had it in block 1. *)
Lemma transfers_told_witness : exists sy l y,
  rtc (system_step 4 moving_members) (system_start moving_members moving_db [1; 1; 0]%nat) sy /\
  Api.xdm_address_transfers tokens (account_to_string (AccountId32 [x01; x02])) (sy_db sy) =
    (sy_db sy, Ok l) /\ y ∈ l /\
  bd_block_number <$> Api.initiated_src_block y = Some 2 /\
  Api.amount y = Some (10 ^ 18).
Proof.
  destruct moving_run as (sy & w & Hrun & Hw & Hph & Hq & Hend).
  assert (Hf : faults (sy_db sy) = []) by (rewrite Hend; vm_compute; reflexivity).
  assert (Ham : shows_amounts (Api.decimal_scale tokens) (tables (sy_db sy)))
    by (rewrite Hend; exact moved_amounts).
  destruct (transfers_told (fun _ => toy_valid) moving_source executing_domain 4 1 Consensus
    moving_source toy_sub toy_listener (toy_header a2) (toy_id b3) moving_db [1; 1; 0]%nat sy w
    tokens (account_to_string (AccountId32 [x01; x02])) moving_setting eq_refl moving_views Hrun Hw
    Hph Hq Hf Ham) as (l & Hl & Htold).
  destruct (Htold (toy_header b2) b2_canonical ltac:(cbn; lia) _ moved_seen) as (_ & Htells & Hin).
  destruct (Hin (or_introl eq_refl)) as (y & Hy & Hmsg).
  destruct (Htells y Hy Hmsg) as (Hblock & _ & _ & Hamount).
  exists sy, l, y. split; [exact Hrun|]. split; [exact Hl|]. split; [exact Hy|].
  rewrite Hblock, Hamount. split; reflexivity.
Defined.
End Witness.
