(* ===== verification/Alerts.v ===== *)
(** * The alerter's alerts and events

    Models the alert types of [alerter/src/slack.rs], [alerter/src/slots.rs] and
    [alerter/src/stall_and_reorg.rs], the errors of [alerter/src/error.rs], and
    the runtime events of [alerter/src/event_types.rs] with their static names
    and the [TransferEvent] trait.

    A [Duration] and an [Instant] are nanoseconds. *)

From Stdlib Require Import Strings.Byte.
From S2P Require Import Prelude HeadersCache BlockListener Types Events IndexerError.

(** [Duration::MAX]: [u64::MAX] seconds and 999,999,999 nanoseconds. *)
Definition DURATION_MAX : Z := 2 ^ 64 * 10 ^ 9 - 1.

(** [Duration]'s [saturating_add] and its checked [+]. *)
Definition duration_saturating_add (a b : Z) : Z := saturating_add DURATION_MAX a b.
Definition duration_add {E} (a b : Z) : outcome E Z :=
  if a + b <=? DURATION_MAX then Ok (a + b) else Panic.

(** [Instant::duration_since], which saturates to zero. *)
Definition duration_since (now earlier : Z) : Z := saturating_sub now earlier.

(** ** Slots *)

Record TimekeeperStall : Type := { ts_last_slot : Z; ts_duration : Z }.
Record TimekeeperRecovery : Type := { tr_slot : Z; tr_duration : Z }.
Record SlowSlot : Type := {
  ss_slot : Z;
  ss_previous_slot : Z;
  ss_slot_time : Z;
  ss_threshold : Z;
}.
Record AvgSlowSlot : Type := {
  as_slot : Z;
  as_slot_count : Z;
  as_avg_slot_time : Z;
  as_threshold : Z;
}.

(** ** Runtime events *)

Module Al.
Record DomainRuntimeUpgraded : Type := { runtime_id : Z }.
Record DomainInstantiated : Type := { di_domain_id : DomainId }.
Record FraudProofProcessed : Type := {
  fp_domain_id : DomainId;
  new_head_receipt_number : option Z;
}.

Inductive SlashedReason : Type :=
  | InvalidBundle (block : Z)
  | BadExecutionReceipt (hash : list byte).

Record OperatorSlashed : Type := { os_operator_id : Z; reason : SlashedReason }.

Record OperatorEpochExpectations : Type := {
  expected_bundles : Z;
  min_required_bundles : Z;
}.

Record OperatorOffline : Type := {
  oo_operator_id : Z;
  oo_domain_id : DomainId;
  submitted_bundles : Z;
  expectations : OperatorEpochExpectations;
}.

Record BalanceWithdraw : Type := { bw_who : list byte; bw_amount : Z }.
Record BalanceDeposit : Type := { bd_who : list byte; bd_amount : Z }.
Record BalanceTransfer : Type := { bt_from : list byte; bt_to : list byte; bt_amount : Z }.

(** The result of the call a [Sudo] event has is not looked at. *)
Inductive Sudo : Type := Sudid.
Inductive CodeUpdated : Type := CodeWasUpdated.

Inductive TransferDirection : Type := Sender | Receiver.
Inductive TransferType : Type := Transfer | Withdraw | Deposit.

Record TransferKnownAccountEvent : Type := {
  direction : TransferDirection;
  transfer_type : TransferType;
  tk_name : string;
  tk_address : string;
  tk_amount : Z;
}.

Record LowBalanceEvent : Type := {
  lb_name : string;
  lb_address : string;
  lb_balance : Z;
  lb_threshold : Z;
}.

(** Overarching event type. *)
Inductive Event : Type :=
  | EvTransfer (e : TransferKnownAccountEvent)
  | EvLowBalance (e : LowBalanceEvent)
  | EvDomainRuntimeUpgraded (e : DomainRuntimeUpgraded)
  | EvDomainInstantiated (e : DomainInstantiated)
  | EvFraudProofProcessed (e : FraudProofProcessed)
  | EvOperatorSlashed (e : OperatorSlashed)
  | EvOperatorOffline (e : OperatorOffline)
  | EvSudo
  | EvCodeUpdated (e : CodeUpdated).

(** The types with a [StaticEvent] implementation. *)
Inductive EventKind : Type :=
  | KDomainRuntimeUpgraded
  | KDomainInstantiated
  | KFraudProofProcessed
  | KOperatorSlashed
  | KOperatorOffline
  | KBalanceWithdraw
  | KBalanceDeposit
  | KSudo
  | KCodeUpdated
  | KBalanceTransfer.

#[global] Instance EventKind_eq : EqDecision EventKind.
Proof. solve_decision. Defined.

Definition event_of (k : EventKind) : Type :=
  match k with
  | KDomainRuntimeUpgraded => DomainRuntimeUpgraded
  | KDomainInstantiated => DomainInstantiated
  | KFraudProofProcessed => FraudProofProcessed
  | KOperatorSlashed => OperatorSlashed
  | KOperatorOffline => OperatorOffline
  | KBalanceWithdraw => BalanceWithdraw
  | KBalanceDeposit => BalanceDeposit
  | KSudo => Sudo
  | KCodeUpdated => CodeUpdated
  | KBalanceTransfer => BalanceTransfer
  end.

Definition PALLET (k : EventKind) : string :=
  match k with
  | KDomainRuntimeUpgraded | KDomainInstantiated | KFraudProofProcessed
  | KOperatorSlashed | KOperatorOffline => "Domains"
  | KBalanceWithdraw | KBalanceDeposit | KBalanceTransfer => "Balances"
  | KSudo => "Sudo"
  | KCodeUpdated => "System"
  end.

Definition EVENT (k : EventKind) : string :=
  match k with
  | KDomainRuntimeUpgraded => "DomainRuntimeUpgraded"
  | KDomainInstantiated => "DomainInstantiated"
  | KFraudProofProcessed => "FraudProofProcessed"
  | KOperatorSlashed => "OperatorSlashed"
  | KOperatorOffline => "OperatorOffline"
  | KBalanceWithdraw => "Withdraw"
  | KBalanceDeposit => "Deposit"
  | KSudo => "Sudid"
  | KCodeUpdated => "CodeUpdated"
  | KBalanceTransfer => "Transfer"
  end.

Class EventCodec `{Events.EventCodec} : Type := {
  decode_as_type : forall k, Fields -> outcome string (event_of k);
}.

Definition find `{EventCodec} (k : EventKind) (events : list (outcome string EventDetails))
    : list (outcome string (event_of k)) :=
  find_static (PALLET k) (EVENT k) (decode_as_type k) events.

(** The trait of the events that move a balance. *)
Class TransferEvent (T : Type) : Type := {
  te_transfer_type : T -> TransferType;
  te_amount : T -> Z;
  te_from : T -> option (list byte);
  te_to : T -> option (list byte);
}.

#[global] Instance BalanceWithdraw_event : TransferEvent BalanceWithdraw := {
  te_transfer_type _ := Withdraw;
  te_amount := bw_amount;
  te_from e := Some (bw_who e);
  te_to _ := None;
}.

#[global] Instance BalanceDeposit_event : TransferEvent BalanceDeposit := {
  te_transfer_type _ := Deposit;
  te_amount := bd_amount;
  te_from _ := None;
  te_to e := Some (bd_who e);
}.

#[global] Instance BalanceTransfer_event : TransferEvent BalanceTransfer := {
  te_transfer_type _ := Transfer;
  te_amount := bt_amount;
  te_from e := Some (bt_from e);
  te_to e := Some (bt_to e);
}.

(** ** Errors and alerts *)

Section Alerts.
Context `{ChainTypes}.

Inductive Error : Type :=
  | Join (msg : string)
  | Reqwest (msg : string)
  | Rpc (msg : string)
  | Scale (msg : string)
  | BroadRecvErr (e : RecvError)
  | Io (msg : string)
  | Toml (msg : string)
  | Config (msg : string)
  | Slack (msg : string)
  | App (msg : string)
  | Subspace (e : HeadersCache.Error Hash).

Record ChainStall : Type := { cs_last_block : HashAndNumber; cs_duration : Z }.
Record ChainRecovery : Type := { cr_best_block : HashAndNumber; cr_duration : Z }.
Record ChainReorg : Type := {
  cg_best_block : HashAndNumber;
  cg_common_block : HashAndNumber;
  cg_enacted : list HashAndNumber;
  cg_retracted : list HashAndNumber;
}.

(** [slack::Alert]. *)
Inductive Alert : Type :=
  | AEvent (e : Event)
  | AChainStall (a : ChainStall)
  | AChainRecovery (a : ChainRecovery)
  | AReorg (a : ChainReorg)
  | ATimekeeperStall (a : TimekeeperStall)
  | ATimekeeperRecovery (a : TimekeeperRecovery)
  | ASlowSlot (a : SlowSlot)
  | AAvgSlowSlots (a : AvgSlowSlot).

(** [alert_sink.send(alert)]. The state of code that sends alerts is what has
    been sent. The channel is unbounded, and an error is only logged. *)
Definition send (a : Alert) : SE (list Alert) Error unit := modify (fun sent => sent ++ [a]).
End Alerts.
Arguments ChainStall {_}.
Arguments ChainRecovery {_}.
Arguments ChainReorg {_}.
End Al.
