(* ===== verification/Slots.v ===== *)
(** * The slot monitor

    Models [monitor_slots] of [alerter/src/slots.rs]: one step per item of the
    slot stream or per timeout of waiting for one, and the loop over them.

    [BoundedVec::force_push] of [sp_runtime] is a parameter: it appends while
    there is room, and keeps a full vector full, with the new element last; which
    of the old elements goes is not used. *)

From Stdlib Require Import Strings.Byte.
From S2P Require Import Prelude HeadersCache BlockListener Types Events IndexerError Alerts.

(** [ConstU32<600>] *)
Definition SLOTS_BOUND : nat := 600.

Class BoundedVec : Type := { force_push : forall {A}, list A -> A -> list A }.

Class BoundedVecLaws `{BoundedVec} : Prop := {
  force_push_room : forall {A} (l : list A) x,
    (length l < SLOTS_BOUND)%nat -> force_push l x = l ++ [x];
  force_push_full : forall {A} (l : list A) x,
    length l = SLOTS_BOUND ->
    length (force_push l x) = SLOTS_BOUND /\ last (force_push l x) = Some x;
  force_push_elem : forall {A} (l : list A) x y, y ∈ force_push l x -> y ∈ l \/ y = x;
}.

Record GossipProof : Type := {
  slot : Z;
  seed : list byte;
  slot_iterations : Z;
  checkpoints : list (list byte);
}.

Record PoTInfo : Type := { at_ : Z; proof : GossipProof }.

Record SlotDetails : Type := { sd_proof : GossipProof; sd_duration : Z }.

Record SlotsConfig : Type := { per_slot_threshold : Z; avg_slot_threshold : Z }.

(** The local variables of [monitor_slots]. *)
Record SlotMonitor : Type := {
  timeout_fired : option Z;
  last_instant : Z;
  slots : list SlotDetails;
}.

(** What [time::timeout(slot_timeout, slot_stream.recv())] gives. *)
Inductive SlotEvent : Type :=
  | SlotReceived (slot : PoTInfo)
  | SlotRecvFailed (e : RecvError)
  | SlotTimeout.

Definition slot_timeout : Z := from_secs 30.

Definition slots_start (now : Z) : SlotMonitor :=
  {| timeout_fired := None; last_instant := now; slots := [] |}.

Section Monitor.
Context `{ChainTypes, BoundedVec}.

(** [slots.iter().fold(Duration::default(), ..)] *)
Definition total_duration (l : list SlotDetails) : outcome Al.Error Z :=
  foldl (fun acc x => acc ← acc; duration_add acc (sd_duration x)) (Ok 0) l.

(** The average alert behind an extension. *)
Definition check_average (config : SlotsConfig) (slot : Z) (slots : list SlotDetails)
    : SE (list Al.Alert) Al.Error unit :=
  let length := Z.of_nat (length slots) in
  total ← lift (total_duration slots);
  avg_slot_time ← (if length =? 0 then panic else mret (total / length));
  if (length =? Z.of_nat SLOTS_BOUND) && (avg_slot_threshold config <? avg_slot_time) then
    Al.send (Al.AAvgSlowSlots {| as_slot := slot; as_slot_count := length;
      as_avg_slot_time := avg_slot_time; as_threshold := avg_slot_threshold config |})
  else mret tt.

Definition on_slot (config : SlotsConfig) (m : SlotMonitor) (info : PoTInfo)
    : SE (list Al.Alert) Al.Error SlotMonitor :=
  let now := at_ info in
  let proof := proof info in
  let duration := duration_since now (last_instant m) in
  let details := {| sd_proof := proof; sd_duration := duration |} in
  match last (slots m) with
  | None =>
      mret {| timeout_fired := timeout_fired m; last_instant := now;
              slots := force_push (slots m) details |}
  | Some last_slot =>
      next ← lift (add_u 64 (slot (sd_proof last_slot)) 1);
      if negb (slot proof =? next) then mret m
      else
        _ ← match timeout_fired m with
            | Some timeout =>
                Al.send (Al.ATimekeeperRecovery
                  {| tr_slot := slot proof; tr_duration := timeout |})
            | None => mret tt
            end;
        _ ← (if per_slot_threshold config <? duration then
               Al.send (Al.ASlowSlot {| ss_slot := slot proof;
                 ss_previous_slot := slot (sd_proof last_slot); ss_slot_time := duration;
                 ss_threshold := per_slot_threshold config |})
             else mret tt);
        let slots := force_push (slots m) details in
        _ ← check_average config (slot proof) slots;
        mret {| timeout_fired := None; last_instant := now; slots := slots |}
  end.

Definition on_timeout (m : SlotMonitor) : SE (list Al.Alert) Al.Error SlotMonitor :=
  let non_import_duration :=
    match timeout_fired m with
    | Some timeout => duration_saturating_add timeout slot_timeout
    | None => slot_timeout
    end in
  _ ← match last (slots m) with
      | Some last_slot =>
          Al.send (Al.ATimekeeperStall {| ts_last_slot := slot (sd_proof last_slot);
                                          ts_duration := non_import_duration |})
      | None => mret tt
      end;
  mret {| timeout_fired := Some non_import_duration; last_instant := last_instant m;
          slots := slots m |}.

Definition slots_step (config : SlotsConfig) (m : SlotMonitor) (ev : SlotEvent)
    : SE (list Al.Alert) Al.Error SlotMonitor :=
  match ev with
  | SlotReceived info => on_slot config m info
  | SlotRecvFailed e => throw (Al.BroadRecvErr e)
  | SlotTimeout => on_timeout m
  end.

(** The loop, over what the stream gives: the state in which the monitor waits
    for more, unless it ended. *)
Fixpoint monitor_slots (config : SlotsConfig) (m : SlotMonitor) (evs : list SlotEvent)
    : SE (list Al.Alert) Al.Error SlotMonitor :=
  match evs with
  | [] => mret m
  | ev :: evs' => m' ← slots_step config m ev; monitor_slots config m' evs'
  end.
End Monitor.
