(* ===== verification/SlotsProps.v ===== *)
(** * Correctness of the slot monitor

    The alerts as a function of the history of the stream (which slots extended
    the chain, how many timeouts since), the average over the first full
    window, and the one way to get stuck: a missed slot. *)

From Stdlib Require Import Strings.Byte.
From S2P Require Import Prelude HeadersCache BlockListener ToyChain Types Events.
From S2P Require Import IndexerError Alerts Slots.

Section Specification.
Context `{ChainTypes}.

(** The slots that extended the chain, the first one included, and the
    timeouts since the last extension (the first slot is none). *)
Record SlotHistory : Type := { accepted : list PoTInfo; silent : nat }.

Definition no_slots : SlotHistory := {| accepted := []; silent := 0 |}.

Definition number (p : PoTInfo) : Z := slot (proof p).

Definition hist_step (h : SlotHistory) (ev : SlotEvent) : SlotHistory :=
  match ev, last (accepted h) with
  | SlotTimeout, _ => {| accepted := accepted h; silent := S (silent h) |}
  | SlotReceived p, None => {| accepted := [p]; silent := silent h |}
  | SlotReceived p, Some q =>
      if number p =? number q + 1 then {| accepted := accepted h ++ [p]; silent := 0 |} else h
  | SlotRecvFailed _, _ => h
  end.

Definition history (evs : list SlotEvent) : SlotHistory := foldl hist_step no_slots evs.

(** How long the chain is known to stand still after [n] timeouts. *)
Definition stalled (n : nat) : Z := Z.min DURATION_MAX (Z.of_nat n * slot_timeout).

(** The slots with the time each took, the first one since the start of the monitor. *)
Fixpoint timed (since : Z) (l : list PoTInfo) : list SlotDetails :=
  match l with
  | [] => []
  | p :: l' => {| sd_proof := proof p; sd_duration := at_ p - since |} :: timed (at_ p) l'
  end.

Definition sumZ (l : list Z) : Z := foldr Z.add 0 l.

Context `{BoundedVec}.

(** The bounded vector that was given these slots one by one. *)
Definition window (start : Z) (l : list PoTInfo) : list SlotDetails :=
  foldl force_push [] (timed start l).

Definition mean (l : list SlotDetails) : Z := sumZ (sd_duration <$> l) / Z.of_nat (length l).

(** The average alert when [l] are the slots that extended the chain: there are 600 of them at
    least, and the mean of the window is above the threshold. *)
Definition average (config : SlotsConfig) (start : Z) (l : list PoTInfo) (s : Z) : list Al.Alert :=
  if (600 <=? length l)%nat then
    let avg := mean (window start l) in
    if avg_slot_threshold config <? avg then
      [Al.AAvgSlowSlots {| as_slot := s; as_slot_count := 600; as_avg_slot_time := avg;
         as_threshold := avg_slot_threshold config |}]
    else []
  else [].

(** The alerts an event calls for. *)
Definition expected (config : SlotsConfig) (start : Z) (h : SlotHistory) (ev : SlotEvent)
    : list Al.Alert :=
  match ev, last (accepted h) with
  | SlotTimeout, Some q =>
      [Al.ATimekeeperStall {| ts_last_slot := number q; ts_duration := stalled (S (silent h)) |}]
  | SlotReceived p, Some q =>
      if number p =? number q + 1 then
        (if (silent h =? 0)%nat then [] else
           [Al.ATimekeeperRecovery {| tr_slot := number p; tr_duration := stalled (silent h) |}]) ++
        (if per_slot_threshold config <? at_ p - at_ q then
           [Al.ASlowSlot {| ss_slot := number p; ss_previous_slot := number q;
              ss_slot_time := at_ p - at_ q; ss_threshold := per_slot_threshold config |}]
         else []) ++
        average config start (accepted h ++ [p]) (number p)
      else []
  | _, _ => []
  end.

Fixpoint expected_all (config : SlotsConfig) (start : Z) (h : SlotHistory) (evs : list SlotEvent)
    : list Al.Alert :=
  match evs with
  | [] => []
  | ev :: evs' => expected config start h ev ++ expected_all config start (hist_step h ev) evs'
  end.

(** What the proofs of time give: slots below the last number of their type,
    and instants that never decrease, within 2^63 nanoseconds of the start. *)
Fixpoint stream_ok (start now : Z) (evs : list SlotEvent) : Prop :=
  match evs with
  | [] => True
  | SlotReceived p :: evs' =>
      0 <= number p < 2 ^ 64 - 1 /\ now <= at_ p <= start + 2 ^ 63 /\ stream_ok start (at_ p) evs'
  | SlotRecvFailed _ :: _ => False
  | SlotTimeout :: evs' => stream_ok start now evs'
  end.

Fixpoint clock (now : Z) (evs : list SlotEvent) : Z :=
  match evs with
  | [] => now
  | SlotReceived p :: evs' => clock (at_ p) evs'
  | _ :: evs' => clock now evs'
  end.

Lemma stream_ok_app start now evs evs' :
  stream_ok start now (evs ++ evs') <->
  stream_ok start now evs /\ stream_ok start (clock now evs) evs'.
Proof.
  revert now. induction evs as [|[p| |] evs IH]; intros now; cbn; [tauto| |tauto|apply IH].
  rewrite IH. tauto.
Qed.
End Specification.

Lemma stalled_S n : duration_saturating_add (stalled n) slot_timeout = stalled (S n).
Proof.
  unfold duration_saturating_add, saturating_add, stalled, slot_timeout, from_secs. lia.
Qed.

Lemma sumZ_bounds b l : Forall (fun d => 0 <= d <= b) l -> 0 <= sumZ l <= b * Z.of_nat (length l).
Proof. induction 1 as [|d l [Hd Hb] _ IH]; cbn; [lia|]. fold (sumZ l). nia. Qed.

Lemma sumZ_snoc l d : sumZ (l ++ [d]) = sumZ l + d.
Proof. induction l as [|x l IH]; cbn; [lia|]. fold (sumZ (l ++ [d])) (sumZ l). lia. Qed.

(** ** One step *)

Section Steps.
Context `{ChainTypes, BoundedVec, !BoundedVecLaws}.

Lemma total_duration_ok l :
  Forall (fun x => 0 <= sd_duration x <= 2 ^ 63) l -> (length l <= SLOTS_BOUND)%nat ->
  total_duration l = Ok (sumZ (sd_duration <$> l)).
Proof.
  intros Hl Hn. unfold total_duration.
  assert (Hgen : forall l acc, Forall (fun x => 0 <= sd_duration x <= 2 ^ 63) l ->
    0 <= acc -> acc + 2 ^ 63 * Z.of_nat (length l) <= DURATION_MAX ->
    foldl (fun acc x => acc ← acc; duration_add acc (sd_duration x)) (Ok acc) l =
    (Ok (acc + sumZ (sd_duration <$> l)) : outcome Al.Error Z)).
  { clear. induction l as [|x l IH]; intros acc Hl Hacc Hb; cbn; [f_equal; lia|].
    apply Forall_cons in Hl as [Hx Hl]. cbn [length] in Hb. unfold duration_add at 2.
    rewrite (proj2 (Z.leb_le _ _)) by lia. rewrite IH; [|done|lia|lia].
    fold (sumZ (sd_duration <$> l)). f_equal. lia. }
  rewrite Hgen; [f_equal; lia|done|lia|].
  unfold DURATION_MAX. unfold SLOTS_BOUND in Hn. lia.
Qed.

Definition average_alerts (config : SlotsConfig) (s : Z) (l : list SlotDetails) : list Al.Alert :=
  if (Z.of_nat (length l) =? 600) && (avg_slot_threshold config <? mean l) then
    [Al.AAvgSlowSlots {| as_slot := s; as_slot_count := Z.of_nat (length l);
       as_avg_slot_time := mean l; as_threshold := avg_slot_threshold config |}]
  else [].

Lemma check_average_ok config s l sent :
  Forall (fun x => 0 <= sd_duration x <= 2 ^ 63) l -> (0 < length l <= SLOTS_BOUND)%nat ->
  check_average config s l sent = (sent ++ average_alerts config s l, Ok tt).
Proof.
  intros Hl Hn. unfold check_average. cbv zeta. rewrite SE_bind_unfold. unfold lift at 1.
  rewrite total_duration_ok by (done || lia). cbn beta iota. rewrite SE_bind_unfold.
  rewrite (proj2 (Z.eqb_neq _ _)) by lia. unfold mret, SE_ret.
  unfold average_alerts. change (Z.of_nat SLOTS_BOUND) with 600.
  destruct (_ && _); [done|]. by rewrite app_nil_r.
Qed.

Lemma timed_snoc since l p :
  timed since (l ++ [p]) =
    timed since l ++ [{| sd_proof := proof p; sd_duration := at_ p - default since (at_ <$> last l) |}].
Proof.
  revert since. induction l as [|q l IH]; intros since; [done|]. cbn [timed app]. rewrite IH.
  cbn [app]. do 3 f_equal. destruct l as [|q' l]; [done|].
  by rewrite (last_cons_cons q q' l), !last_cons; destruct (last l).
Qed.

Lemma window_snoc start l p :
  window start (l ++ [p]) = force_push (window start l)
    {| sd_proof := proof p; sd_duration := at_ p - default start (at_ <$> last l) |}.
Proof. unfold window. by rewrite timed_snoc, foldl_app. Qed.

(** The monitor in a state that fits the history. *)
Record fits (start : Z) (m : SlotMonitor) (h : SlotHistory) : Prop := {
  f_timeout : timeout_fired m = if (silent h =? 0)%nat then None else Some (stalled (silent h));
  f_instant : last_instant m = default start (at_ <$> last (accepted h));
  f_last : sd_proof <$> last (slots m) = proof <$> last (accepted h);
  f_slots : slots m = window start (accepted h);
  f_length : length (slots m) = Nat.min SLOTS_BOUND (length (accepted h));
  f_durations : Forall (fun x => 0 <= sd_duration x <= 2 ^ 63) (slots m);
  f_sum : (length (accepted h) <= SLOTS_BOUND)%nat ->
    sumZ (sd_duration <$> slots m) = last_instant m - start;
  f_now : start <= last_instant m;
}.

Lemma fits_start start : fits start (slots_start start) no_slots.
Proof. split; cbn; try done; intros; lia. Qed.

(** A slot that is pushed. *)
Lemma fits_push start m h p t n :
  fits start m h -> last_instant m <= at_ p <= start + 2 ^ 63 ->
  t = (if (n =? 0)%nat then None else Some (stalled n)) ->
  fits start {| timeout_fired := t; last_instant := at_ p;
      slots := force_push (slots m)
        {| sd_proof := proof p; sd_duration := duration_since (at_ p) (last_instant m) |} |}
    {| accepted := accepted h ++ [p]; silent := n |}.
Proof.
  intros [Ht Hi Hl Hw Hn Hd Hs Hnow] Hp ->.
  set (x := {| sd_proof := _; sd_duration := _ |}).
  assert (Hx : sd_duration x = at_ p - last_instant m).
  { cbn. unfold duration_since, saturating_sub. lia. }
  assert (Hlast : last (force_push (slots m) x) = Some x).
  { destruct (decide (length (slots m) < SLOTS_BOUND)%nat) as [Hr|Hr].
    - rewrite force_push_room by done. apply last_snoc.
    - apply force_push_full. lia. }
  split; cbn [timeout_fired last_instant slots accepted silent].
  - done.
  - by rewrite last_snoc.
  - by rewrite last_snoc, Hlast.
  - rewrite window_snoc, <- Hw, <- Hi. unfold x. do 2 f_equal.
    unfold duration_since, saturating_sub. lia.
  - rewrite length_app. cbn [length].
    destruct (decide (length (slots m) < SLOTS_BOUND)%nat) as [Hr|Hr].
    + rewrite force_push_room, length_app by done. cbn [length]. lia.
    + rewrite (proj1 (force_push_full (slots m) x ltac:(lia))). lia.
  - apply Forall_forall. intros y Hy. apply force_push_elem in Hy as [Hy| ->].
    + by eapply Forall_forall in Hd.
    + lia.
  - rewrite length_app. cbn [length]. intros Hb. rewrite force_push_room by lia.
    rewrite fmap_app. change (sd_duration <$> [x]) with [sd_duration x].
    rewrite sumZ_snoc, Hx, Hs by lia. lia.
  - lia.
Qed.

(** The code looks at the length of the vector instead of the history. *)
Lemma average_fits config start m h s :
  fits start m h -> average_alerts config s (slots m) = average config start (accepted h) s.
Proof.
  intros [_ _ _ Hw Hn _ _ _]. unfold average_alerts, average. rewrite <- Hw, Hn.
  change (Z.of_nat SLOTS_BOUND) with 600. unfold SLOTS_BOUND.
  destruct (Nat.leb_spec 600 (length (accepted h))) as [Hle|Hlt].
  - rewrite Nat.min_l by lia. reflexivity.
  - rewrite (proj2 (Z.eqb_neq _ _)) by lia. reflexivity.
Qed.

Lemma send_run a sent : Al.send a sent = (sent ++ [a], Ok tt).
Proof. done. Qed.

Lemma timeout_step config start m h sent :
  fits start m h ->
  exists m', slots_step config m SlotTimeout sent =
      (sent ++ expected config start h SlotTimeout, Ok m') /\
    fits start m' (hist_step h SlotTimeout) /\ last_instant m' = last_instant m.
Proof.
  intros [Ht Hi Hl Hw Hn Hd Hs Hnow]. cbn [slots_step]. unfold on_timeout. cbv zeta.
  assert (Hdur : match timeout_fired m with
      | Some timeout => duration_saturating_add timeout slot_timeout
      | None => slot_timeout
      end = stalled (S (silent h))).
  { rewrite Ht. destruct (silent h) as [|n]; cbn [Nat.eqb]; [done|]. apply stalled_S. }
  rewrite Hdur. eexists. split; [|split].
  - rewrite SE_bind_unfold. unfold expected, number.
    destruct (last (slots m)) as [x|], (last (accepted h)) as [q|]; try done.
    + cbn in Hl. injection Hl as ->. by rewrite send_run.
    + unfold mret, SE_ret. by rewrite app_nil_r.
  - by split.
  - done.
Qed.

Lemma slot_step config start now m h p sent :
  fits start m h -> last_instant m <= now ->
  0 <= number p < 2 ^ 64 - 1 -> now <= at_ p <= start + 2 ^ 63 ->
  (forall q, last (accepted h) = Some q -> 0 <= number q < 2 ^ 64 - 1) ->
  exists m', slots_step config m (SlotReceived p) sent =
      (sent ++ expected config start h (SlotReceived p), Ok m') /\
    fits start m' (hist_step h (SlotReceived p)) /\ last_instant m' <= at_ p.
Proof.
  intros Hfit Hle Hp Hnow Hq. pose proof Hfit as [Ht Hi Hl Hw Hn Hd Hs Hstart].
  cbn [slots_step]. unfold on_slot, expected. cbv zeta. cbn [hist_step].
  destruct (last (slots m)) as [x|], (last (accepted h)) as [q|] eqn:Hlast; try done; cbn in Hl.
  - injection Hl as Hx. rewrite SE_bind_unfold. unfold lift at 1, add_u.
    rewrite Hx. fold (number q) (number p). specialize (Hq q eq_refl).
    rewrite (proj2 (Z.ltb_lt _ _)) by lia. cbn beta iota.
    destruct (Z.eqb_spec (number p) (number q + 1)) as [Heq|Hneq]; cbn [negb].
    2: { exists m. unfold mret, SE_ret. rewrite app_nil_r. split_and!; [done|done|lia]. }
    pose proof (fits_push start m h p None 0 Hfit ltac:(lia) eq_refl) as Hfit'.
    pose proof (average_fits config _ _ _ (number p) Hfit') as Havg.
    eexists. split; [|split; [exact Hfit' | done]].
    destruct Hfit' as [_ _ _ _ Hn' Hd' _ _].
    cbn [slots accepted silent] in Hn', Hd'. rewrite length_app in Hn'. cbn [length] in Hn'.
    assert (Hdur : duration_since (at_ p) (last_instant m) = at_ p - at_ q).
    { rewrite Hi in *. unfold duration_since, saturating_sub. cbn in *. lia. }
    cbn [slots].
    assert (Hslow : forall sent, (if per_slot_threshold config <? duration_since (at_ p) (last_instant m)
         then Al.send (Al.ASlowSlot {| ss_slot := number p; ss_previous_slot := number q;
                ss_slot_time := duration_since (at_ p) (last_instant m);
                ss_threshold := per_slot_threshold config |}) else mret tt) sent =
       (sent ++ (if per_slot_threshold config <? at_ p - at_ q then
           [Al.ASlowSlot {| ss_slot := number p; ss_previous_slot := number q;
              ss_slot_time := at_ p - at_ q; ss_threshold := per_slot_threshold config |}]
         else []), Ok tt)).
    { intros s. rewrite Hdur. destruct (_ <? _); [done|]. unfold mret, SE_ret. by rewrite app_nil_r. }
    rewrite SE_bind_unfold, Ht. destruct (silent h) as [|n] eqn:Hsil; cbn [Nat.eqb];
      unfold mret at 1, SE_ret at 1; rewrite ?send_run; cbn beta iota;
      rewrite SE_bind_unfold, Hslow; cbn beta iota;
      rewrite SE_bind_unfold, check_average_ok by (done || lia || (split; [|rewrite Hn']; unfold SLOTS_BOUND in *; lia));
      cbn beta iota; cbn [slots accepted] in Havg; rewrite Havg, <- !app_assoc; reflexivity.
  - rewrite app_nil_r. eexists. split; [reflexivity|]. split; [|done].
    destruct (accepted h) as [|? ?] eqn:Hacc; [|by apply last_None in Hlast].
    pose proof (fits_push start m h p (timeout_fired m) (silent h) Hfit ltac:(lia) Ht) as Hf.
    by rewrite Hacc in Hf.
Qed.
End Steps.

(** ** The whole stream *)

Section Stream.
Context `{ChainTypes, BoundedVec, !BoundedVecLaws}.

Definition numbers_ok (h : SlotHistory) : Prop :=
  Forall (fun p => 0 <= number p < 2 ^ 64 - 1) (accepted h).

Lemma numbers_ok_last h q : numbers_ok h -> last (accepted h) = Some q -> 0 <= number q < 2 ^ 64 - 1.
Proof.
  intros Hh Hq. apply last_Some_elem_of in Hq. unfold numbers_ok in Hh.
  by eapply Forall_forall in Hh.
Qed.

Lemma numbers_ok_step h p :
  numbers_ok h -> 0 <= number p < 2 ^ 64 - 1 -> numbers_ok (hist_step h (SlotReceived p)).
Proof.
  intros Hh Hp. unfold numbers_ok, hist_step in *.
  destruct (last (accepted h)) as [q|]; cbn; [|by apply Forall_singleton].
  destruct (_ =? _); [|done]. apply Forall_app. split; [done | by apply Forall_singleton].
Qed.

Lemma one_step config start now m h ev sent :
  fits start m h -> numbers_ok h -> last_instant m <= now -> stream_ok start now [ev] ->
  exists m', slots_step config m ev sent =
      (sent ++ expected config start h ev, Ok m') /\
    fits start m' (hist_step h ev) /\ numbers_ok (hist_step h ev) /\
    last_instant m' <= clock now [ev].
Proof.
  intros Hfit Hnum Hle Hev. destruct ev as [p|e|]; cbn [stream_ok] in Hev; [|done|].
  - destruct Hev as (Hp & Hnow & _).
    destruct (slot_step config start now m h p sent Hfit Hle Hp Hnow) as (m' & Hm' & Hfit' & Hle').
    { intros q. by apply numbers_ok_last. }
    exists m'. split_and!; [exact Hm' | exact Hfit' | by apply numbers_ok_step | done].
  - destruct (timeout_step config start m h sent Hfit) as (m' & Hm' & Hfit' & Hle').
    exists m'. split_and!; [exact Hm' | exact Hfit' | done |].
    cbn. lia.
Qed.

Lemma run_stream config start evs : forall now m h sent,
  fits start m h -> numbers_ok h -> last_instant m <= now -> stream_ok start now evs ->
  exists m', monitor_slots config m evs sent = (sent ++ expected_all config start h evs, Ok m') /\
    fits start m' (foldl hist_step h evs) /\ numbers_ok (foldl hist_step h evs) /\
    last_instant m' <= clock now evs.
Proof.
  induction evs as [|ev evs IH]; intros now m h sent Hfit Hnum Hle Hok.
  - exists m. cbn. unfold mret, SE_ret. rewrite app_nil_r. split_and!; auto.
  - apply (stream_ok_app start now [ev] evs) in Hok as [Hev Hok].
    destruct (one_step config start now m h ev sent Hfit Hnum Hle Hev)
      as (m1 & Hm1 & Hfit1 & Hnum1 & Hle1).
    destruct (IH _ m1 _ (sent ++ expected config start h ev) Hfit1 Hnum1 Hle1 Hok)
      as (m' & Hrun & Hfit' & Hnum' & Hle').
    exists m'. cbn [monitor_slots foldl expected_all]. rewrite SE_bind_unfold, Hm1.
    split_and!; [by rewrite Hrun, <- app_assoc | done | done |]. by destruct ev.
Qed.

(** The first 600 slots are all in the window, and their mean is the time since the start. *)
Lemma window_first start l :
  (length l <= 600)%nat -> window start l = timed start l /\
    (l <> [] -> mean (window start l) =
       (default start (at_ <$> last l) - start) / Z.of_nat (length l)).
Proof.
  intros Hl. assert (Hw : window start l = timed start l /\ length (timed start l) = length l /\
      sumZ (sd_duration <$> timed start l) = default start (at_ <$> last l) - start).
  { induction l as [|p l IH] using rev_ind; [split_and!; cbn; try done; lia|].
    rewrite length_app in Hl. cbn [length] in Hl. destruct IH as (Hw & Hn & Hs); [lia|].
    rewrite window_snoc, timed_snoc, Hw, force_push_room by (rewrite Hn; unfold SLOTS_BOUND; lia).
    rewrite !length_app, fmap_app. cbn [fmap list_fmap]. rewrite sumZ_snoc, Hs, last_snoc. cbn.
    split_and!; [done|lia|lia]. }
  destruct Hw as (Hw & Hn & Hs). split; [done|]. intros _. unfold mean. by rewrite Hw, Hs, Hn.
Qed.

(** C16: on a stream that delivers, with instants in order, the monitor never
    panics or stops, and its alerts are exactly those the history calls for, in order. A
    timeout reports a stall at the last slot that extended the chain, for thirty
    seconds per timeout since; none before the first slot. A slot that
    extends the chain by one reports the recovery when there was a timeout
    since the last extension, then itself as slow when more than the
    threshold has passed since the slot before, then, from the 600th slot that extended the chain
    on, the average when the mean of the bounded vector of slots is above the threshold; any other
    slot reports nothing. When the first 600 slots have extended the chain, this mean is the time
    since the monitor started divided by 600, so the wait for the first slot counts. *)
Theorem slots_alerts config start evs :
  stream_ok start start evs ->
  (exists m, monitor_slots config (slots_start start) evs [] =
     (expected_all config start no_slots evs, Ok m)) /\
  (forall l p, length l = 599%nat -> average config start (l ++ [p]) (number p) =
     let avg := (at_ p - start) / 600 in
     if avg_slot_threshold config <? avg then
       [Al.AAvgSlowSlots {| as_slot := number p; as_slot_count := 600; as_avg_slot_time := avg;
          as_threshold := avg_slot_threshold config |}]
     else []).
Proof.
  intros Hok. split.
  - destruct (run_stream config start evs start (slots_start start) no_slots [])
      as (m & Hrun & _); [apply fits_start|constructor|cbn; lia|done|]. by exists m.
  - intros l p Hl. assert (Hlen : length (l ++ [p]) = 600%nat) by (rewrite length_app; cbn; lia).
    unfold average. rewrite Hlen. cbn [Nat.leb].
    destruct (window_first start (l ++ [p])) as [_ ->];
      [lia | by rewrite last_snoc, Hlen | intros E; by rewrite E in Hlen].
Qed.

Lemma monitor_slots_app config m evs evs' sent :
  monitor_slots config m (evs ++ evs') sent =
  (m' ← monitor_slots config m evs; monitor_slots config m' evs') sent.
Proof.
  revert m sent. induction evs as [|ev evs IH]; intros m sent; [done|].
  cbn [app monitor_slots]. rewrite !SE_bind_unfold.
  by destruct (slots_step config m ev sent) as [s [m1| | |]].
Qed.

(** C32: a slot that is missed once blinds the monitor: when the stream goes on
    with later slots but never with the one after the last accepted slot,
    the monitor ignores them all, whatever their times, sends nothing and stays as
    it was. *)
Theorem slots_stuck config start evs q later :
  stream_ok start start evs -> last (accepted (history evs)) = Some q ->
  Forall (fun p => number q + 1 < number p) later ->
  exists m sent, monitor_slots config (slots_start start) evs [] = (sent, Ok m) /\
    monitor_slots config (slots_start start) (evs ++ map SlotReceived later) [] = (sent, Ok m).
Proof.
  intros Hok Hq Hlater.
  destruct (run_stream config start evs start (slots_start start) no_slots [])
    as (m & Hrun & Hfit & Hnum & _); [apply fits_start|constructor|cbn; lia|done|].
  cbn [app] in Hrun. exists m, (expected_all config start no_slots evs). split; [done|]. rewrite monitor_slots_app, SE_bind_unfold, Hrun. cbn [app].
  change (foldl hist_step no_slots evs) with (history evs) in *.
  pose proof (numbers_ok_last _ _ Hnum Hq) as Hb. apply f_last in Hfit. rewrite Hq in Hfit.
  destruct (last (slots m)) as [x|] eqn:Hx; [|done]. cbn in Hfit. injection Hfit as Hpx.
  clear Hrun. induction Hlater as [|p later Hp _ IH]; [done|].
  cbn [map monitor_slots slots_step]. rewrite SE_bind_unfold. unfold on_slot. cbv zeta.
  rewrite Hx, SE_bind_unfold. unfold lift at 1, add_u. rewrite Hpx. fold (number q) (number p).
  rewrite (proj2 (Z.ltb_lt _ _)) by lia. cbn beta iota.
  rewrite (proj2 (Z.eqb_neq _ _)) by lia. exact IH.
Qed.
End Stream.

(** ** Witnesses *)

(** A vector that replaces its last element when it is full. *)
#[export] Instance toy_bounded_vec : BoundedVec := { force_push A l x := take 599 l ++ [x] }.

#[export] Instance toy_bounded_vec_laws : BoundedVecLaws.
Proof.
  split; intros A l x; unfold force_push, toy_bounded_vec, SLOTS_BOUND.
  - intros Hl. by rewrite take_ge by lia.
  - intros Hl. rewrite length_app, length_take, Hl, last_snoc. done.
  - intros y. rewrite elem_of_app, list_elem_of_singleton. intros [Hy|Hy]; [left|by right].
    by eapply elem_of_take in Hy as [i [Hi _]]; apply list_elem_of_lookup_2 in Hi.
Qed.

(** A slot every [d] nanoseconds. *)
Definition tick (d n : Z) : PoTInfo := {|
  at_ := n * d;
  proof := {| slot := n; seed := []; slot_iterations := 1; checkpoints := [] |} |}.

Definition ticks (d from : Z) (n : nat) : list SlotEvent :=
  SlotReceived <$> (tick d <$> seqZ from (Z.of_nat n)).

Lemma ticks_ok d from n now :
  0 <= d -> 0 <= from -> now <= from * d -> (from + Z.of_nat n) * d <= 2 ^ 63 ->
  from + Z.of_nat n < 2 ^ 64 - 1 -> stream_ok 0 now (ticks d from n).
Proof.
  revert from now. induction n as [|n IH]; intros from now Hd Hf Hnow Hb Hm; [done|].
  unfold ticks. rewrite seqZ_cons by lia. cbn [fmap list_fmap stream_ok].
  replace (Z.pred (Z.of_nat (S n))) with (Z.of_nat n) by lia.
  unfold number. cbn [tick proof slot at_]. split_and!; [lia|lia|done|nia|].
  apply IH; nia.
Qed.

Definition ms (n : Z) : Z := n * 10 ^ 6.

Definition default_slots_config : SlotsConfig :=
  {| per_slot_threshold := ms 1200; avg_slot_threshold := ms 1100 |}.

(** Slots 1 and 2, silence, and slot 3 after 70 seconds. *)
Definition stall_stream : list SlotEvent :=
  ticks (from_secs 1) 1 2 ++ [SlotTimeout; SlotTimeout;
    SlotReceived {| at_ := from_secs 72; proof := proof (tick 1 3) |}].

Lemma stall_stream_ok : stream_ok 0 0 stall_stream.
Proof. repeat split; vm_compute; congruence. Qed.

(** A stall with its recovery, and an average that is too slow at the 600th slot. *)
Lemma slots_alerts_witness :
  (monitor_slots default_slots_config (slots_start 0) stall_stream []).1 = [
    Al.ATimekeeperStall {| ts_last_slot := 2; ts_duration := from_secs 30 |};
    Al.ATimekeeperStall {| ts_last_slot := 2; ts_duration := from_secs 60 |};
    Al.ATimekeeperRecovery {| tr_slot := 3; tr_duration := from_secs 60 |};
    Al.ASlowSlot {| ss_slot := 3; ss_previous_slot := 2; ss_slot_time := from_secs 70;
                    ss_threshold := ms 1200 |}] /\
  (monitor_slots default_slots_config (slots_start 0) (ticks (ms 1150) 1 600) []).1 =
    [Al.AAvgSlowSlots {| as_slot := 600; as_slot_count := 600; as_avg_slot_time := ms 1150;
                         as_threshold := ms 1100 |}].
Proof.
  assert (Hticks : stream_ok 0 0 (ticks (ms 1150) 1 600)) by (apply ticks_ok; unfold ms; lia).
  destruct (slots_alerts default_slots_config 0 stall_stream stall_stream_ok) as [[m Hm] _].
  destruct (slots_alerts default_slots_config 0 _ Hticks) as [[m' Hm'] _].
  rewrite Hm, Hm'. cbn [fst]. split; vm_compute; reflexivity.
Defined.

Lemma slots_stuck_witness :
  exists m sent,
    monitor_slots default_slots_config (slots_start 0) (ticks (from_secs 1) 1 5) [] = (sent, Ok m) /\
    monitor_slots default_slots_config (slots_start 0)
      (ticks (from_secs 1) 1 5 ++ map SlotReceived (tick (from_secs 1) <$> [7; 8; 9; 10])) [] =
    (sent, Ok m).
Proof.
  refine (slots_stuck default_slots_config 0 (ticks (from_secs 1) 1 5) (tick (from_secs 1) 5)
    (tick (from_secs 1) <$> [7; 8; 9; 10]) _ _ _).
  - apply ticks_ok; unfold from_secs; lia.
  - vm_compute. reflexivity.
  - repeat (constructor; [unfold number; cbn; lia|]). constructor.
Defined.
