(* ===== verification/StallReorg.v ===== *)
(** * Chain stalls and reorgs

    Models [watch_chain_stall_and_reorg] of [alerter/src/stall_and_reorg.rs]:
    one step per message of the block stream or per timeout of waiting for one,
    and the loop over them. *)

From S2P Require Import Prelude HeadersCache BlockListener IndexerError Alerts.

Record StallAndReorgConfig : Type := {
  non_block_import_threshold : Z;
  reorg_depth_threshold : Z;
}.

Section Watch.
Context `{ChainTypes}.

(** The local variables of [watch_chain_stall_and_reorg]. *)
Record Watch : Type := {
  w_timeout_fired : option Z;
  maybe_last_best_block : option HashAndNumber;
}.

(** What [time::timeout(stall_threshold, stream.recv())] gives. *)
Inductive BlockEvent : Type :=
  | BlocksReceived (blocks_ext : BlocksExt)
  | BlocksRecvFailed (e : RecvError)
  | BlocksTimeout.

Definition watch_start : Watch :=
  {| w_timeout_fired := None; maybe_last_best_block := None |}.

Definition on_blocks (config : StallAndReorgConfig) (w : Watch) (blocks_ext : BlocksExt)
    : SE (list Al.Alert) Al.Error Watch :=
  let last_timeout := w_timeout_fired w in
  latest_block ← lift (expect (last (blocks blocks_ext)));
  let best := {| hn_number := be_number latest_block; hn_hash := be_hash latest_block |} in
  _ ← match last_timeout with
      | Some timeout =>
          Al.send (Al.AChainRecovery {| Al.cr_best_block := best; Al.cr_duration := timeout |})
      | None => mret tt
      end;
  _ ← match maybe_reorg_data blocks_ext with
      | Some reorg_data =>
          if reorg_depth_threshold config <=? Z.of_nat (length (rd_retracted reorg_data)) then
            Al.send (Al.AReorg {| Al.cg_best_block := best;
              Al.cg_common_block := rd_common_block reorg_data;
              Al.cg_enacted := rd_enacted reorg_data;
              Al.cg_retracted := rd_retracted reorg_data |})
          else mret tt
      | None => mret tt
      end;
  mret {| w_timeout_fired := None; maybe_last_best_block := Some best |}.

Definition on_silence (config : StallAndReorgConfig) (w : Watch)
    : SE (list Al.Alert) Al.Error Watch :=
  let stall_threshold := non_block_import_threshold config in
  let non_import_duration :=
    match w_timeout_fired w with
    | Some timeout => duration_saturating_add timeout stall_threshold
    | None => stall_threshold
    end in
  _ ← match maybe_last_best_block w with
      | Some last_best_block =>
          Al.send (Al.AChainStall {| Al.cs_last_block := last_best_block;
                                     Al.cs_duration := non_import_duration |})
      | None => mret tt
      end;
  mret {| w_timeout_fired := Some non_import_duration;
          maybe_last_best_block := maybe_last_best_block w |}.

Definition watch_step (config : StallAndReorgConfig) (w : Watch) (ev : BlockEvent)
    : SE (list Al.Alert) Al.Error Watch :=
  match ev with
  | BlocksReceived blocks_ext => on_blocks config w blocks_ext
  | BlocksRecvFailed e => throw (Al.BroadRecvErr e)
  | BlocksTimeout => on_silence config w
  end.

Fixpoint watch_chain_stall_and_reorg (config : StallAndReorgConfig) (w : Watch)
    (evs : list BlockEvent) : SE (list Al.Alert) Al.Error Watch :=
  match evs with
  | [] => mret w
  | ev :: evs' => w' ← watch_step config w ev; watch_chain_stall_and_reorg config w' evs'
  end.
End Watch.
