(* ===== verification/StallReorgProps.v ===== *)
(** * Correctness of the stall and reorg monitor *)

From S2P Require Import Prelude HeadersCache TreeRoute BlockListener ToyChain IndexerError.
From S2P Require Import Alerts StallReorg.

Section Properties.
Context `{ChainTypes}.

Definition delivers (ev : BlockEvent) : Prop :=
  match ev with
  | BlocksReceived m => blocks m <> []
  | BlocksRecvFailed _ => False
  | BlocksTimeout => True
  end.

Definition best_of (m : BlocksExt) : option HashAndNumber :=
  (fun b => {| hn_number := be_number b; hn_hash := be_hash b |}) <$> last (blocks m).

(** The best block a prefix of the stream told of. *)
Fixpoint best_after (evs : list BlockEvent) : option HashAndNumber :=
  match evs with
  | [] => None
  | BlocksReceived m :: evs' => match best_after evs' with Some b => Some b | None => best_of m end
  | _ :: evs' => best_after evs'
  end.

(** The timeouts at the end of a prefix of the stream. *)
Fixpoint silence_of (rev_evs : list BlockEvent) : nat :=
  match rev_evs with BlocksTimeout :: evs' => S (silence_of evs') | _ => 0 end.
Definition silence (evs : list BlockEvent) : nat := silence_of (rev evs).

Definition silent_for (config : StallAndReorgConfig) (n : nat) : Z :=
  Z.min DURATION_MAX (Z.of_nat n * non_block_import_threshold config).

(** The alerts an event calls for behind the events [before]. *)
Definition called_for (config : StallAndReorgConfig) (before : list BlockEvent) (ev : BlockEvent)
    : list Al.Alert :=
  match ev with
  | BlocksTimeout =>
      match best_after before with
      | Some b => [Al.AChainStall {| Al.cs_last_block := b;
                     Al.cs_duration := silent_for config (S (silence before)) |}]
      | None => []
      end
  | BlocksReceived m =>
      match best_of m with
      | Some b =>
          (if (silence before =? 0)%nat then [] else
             [Al.AChainRecovery {| Al.cr_best_block := b;
                Al.cr_duration := silent_for config (silence before) |}]) ++
          match maybe_reorg_data m with
          | Some r =>
              if reorg_depth_threshold config <=? Z.of_nat (length (rd_retracted r)) then
                [Al.AReorg {| Al.cg_best_block := b; Al.cg_common_block := rd_common_block r;
                   Al.cg_enacted := rd_enacted r; Al.cg_retracted := rd_retracted r |}]
              else []
          | None => []
          end
      | None => []
      end
  | BlocksRecvFailed _ => []
  end.

Lemma best_after_snoc evs ev :
  delivers ev ->
  best_after (evs ++ [ev]) =
    match ev with BlocksReceived m => best_of m | _ => best_after evs end.
Proof.
  intros Hev. induction evs as [|[m| |] evs IH]; cbn; [by destruct ev| |exact IH|exact IH].
  rewrite IH. destruct ev as [m'| |]; try done. cbn in Hev. unfold best_of.
  destruct (last (blocks m')) eqn:Hl; [done|]. by apply last_None in Hl.
Qed.

Lemma silence_snoc evs ev :
  silence (evs ++ [ev]) = match ev with BlocksTimeout => S (silence evs) | _ => 0%nat end.
Proof. unfold silence. rewrite rev_app_distr. by destruct ev. Qed.

Lemma silent_for_S config n :
  0 <= non_block_import_threshold config ->
  duration_saturating_add (silent_for config n) (non_block_import_threshold config) =
  silent_for config (S n).
Proof.
  intros Hc. unfold duration_saturating_add, saturating_add, silent_for. lia.
Qed.

Definition watch_at (config : StallAndReorgConfig) (before : list BlockEvent) : Watch := {|
  w_timeout_fired :=
    if (silence before =? 0)%nat then None else Some (silent_for config (silence before));
  maybe_last_best_block := best_after before |}.

Definition config_ok (config : StallAndReorgConfig) : Prop :=
  0 <= non_block_import_threshold config <= DURATION_MAX.

Lemma watch_one config before ev sent :
  config_ok config -> delivers ev ->
  watch_step config (watch_at config before) ev sent =
    (sent ++ called_for config before ev, Ok (watch_at config (before ++ [ev]))).
Proof.
  intros Hc Hev. unfold watch_at at 2. rewrite silence_snoc, best_after_snoc by done.
  destruct ev as [m|e|]; cbn [watch_step]; [|done|].
  - cbn in Hev. unfold on_blocks, called_for, best_of. rewrite SE_bind_unfold.
    destruct (last (blocks m)) as [b|] eqn:Hl; [|by apply last_None in Hl].
    cbn [lift expect fmap option_fmap option_map]. cbn [watch_at w_timeout_fired].
    rewrite SE_bind_unfold. destruct (silence before =? 0)%nat;
      unfold mret at 1, SE_ret at 1, Al.send at 1, modify at 1; cbn beta iota;
      rewrite SE_bind_unfold; (destruct (maybe_reorg_data m) as [r|];
        [destruct (reorg_depth_threshold config <=? Z.of_nat (length (rd_retracted r)))|]);
      unfold mret, SE_ret, Al.send, modify; rewrite ?app_nil_r, <- ?app_assoc; reflexivity.
  - unfold on_silence, called_for. cbv zeta. rewrite SE_bind_unfold.
    assert (Hdur : match w_timeout_fired (watch_at config before) with
        | Some timeout => duration_saturating_add timeout (non_block_import_threshold config)
        | None => non_block_import_threshold config
        end = silent_for config (S (silence before))).
    { unfold watch_at, config_ok in *. cbn [w_timeout_fired].
      destruct (silence before) as [|n]; cbn [Nat.eqb]; [unfold silent_for; lia|].
      apply silent_for_S. lia. }
    rewrite Hdur. cbn [watch_at maybe_last_best_block].
    destruct (best_after before); unfold mret, SE_ret, Al.send, modify; rewrite ?app_nil_r;
      reflexivity.
Qed.

(** The alerts of a stream, event by event. *)
Fixpoint called_for_all (config : StallAndReorgConfig) (before evs : list BlockEvent)
    : list Al.Alert :=
  match evs with
  | [] => []
  | ev :: evs' => called_for config before ev ++ called_for_all config (before ++ [ev]) evs'
  end.

(** The monitor on a stream that delivers, and what may come behind. *)
Lemma watch_tail config evs tail :
  config_ok config -> Forall delivers evs ->
  watch_chain_stall_and_reorg config watch_start (evs ++ tail) [] =
  watch_chain_stall_and_reorg config (watch_at config evs) tail (called_for_all config [] evs).
Proof.
  intros Hc Hevs.
  assert (Hgen : forall before sent,
    watch_chain_stall_and_reorg config (watch_at config before) (evs ++ tail) sent =
    watch_chain_stall_and_reorg config (watch_at config (before ++ evs)) tail
      (sent ++ called_for_all config before evs)).
  { induction Hevs as [|ev evs Hev _ IH]; intros before sent; cbn.
    - by rewrite !app_nil_r.
    - rewrite SE_bind_unfold, watch_one by done. rewrite IH.
      by rewrite <- !app_assoc. }
  exact (Hgen [] []).
Qed.

Lemma watch_all config evs :
  config_ok config -> Forall delivers evs ->
  exists w, watch_chain_stall_and_reorg config watch_start evs [] =
    (called_for_all config [] evs, Ok w).
Proof.
  intros Hc Hevs. exists (watch_at config evs). rewrite <- (app_nil_r evs) at 1.
  by rewrite watch_tail.
Qed.

(** C17: as long as the stream delivers messages with blocks, the monitor runs
    on, and its alerts are, in order: for every timeout, once a best block is known, a
    stall at that block, for one threshold per timeout in a row; for every
    message behind timeouts, the recovery at its best block, even when no stall was
    reported because no block was known; and a reorg, with the blocks of the
    message, when at least the threshold of blocks was retracted. When the
    stream ends or lags the monitor stops with that error, all alerts
    before it sent. *)
Theorem stall_reorg_alerts config evs e rest :
  config_ok config -> Forall delivers evs ->
  (exists w, watch_chain_stall_and_reorg config watch_start evs [] =
     (called_for_all config [] evs, Ok w)) /\
  watch_chain_stall_and_reorg config watch_start (evs ++ BlocksRecvFailed e :: rest) [] =
    (called_for_all config [] evs, Err (Al.BroadRecvErr e)).
Proof.
  intros Hc Hevs. split; [by apply watch_all | by rewrite watch_tail].
Qed.
End Properties.

(** ** Witness *)

Definition ext (sh : SubstrateHeader) : BlockExt := {|
  be_number := s_number sh; be_hash := toy_id sh; be_parent_hash := s_parent_hash sh;
  be_state_root := s_state_root sh; be_extrinsics_root := s_extrinsics_root sh |}.

Definition id_of (sh : SubstrateHeader) : HashAndNumber :=
  {| hn_number := s_number sh; hn_hash := toy_id sh |}.

Definition reorg_stream : list BlockEvent := [
  BlocksTimeout;
  BlocksReceived {| blocks := [ext a1; ext a2]; maybe_reorg_data := None |};
  BlocksTimeout;
  BlocksReceived {| blocks := [ext b1; ext b2; ext b3]; maybe_reorg_data := Some {|
    rd_enacted := [id_of b1; id_of b2]; rd_retracted := [id_of a2; id_of a1];
    rd_common_block := id_of genesis |} |} ].

Lemma stall_reorg_alerts_witness :
  watch_chain_stall_and_reorg
    {| non_block_import_threshold := from_secs 60; reorg_depth_threshold := 2 |}
    watch_start (reorg_stream ++ [BlocksRecvFailed Closed]) [] =
  ([Al.AChainRecovery {| Al.cr_best_block := id_of a2; Al.cr_duration := from_secs 60 |};
    Al.AChainStall {| Al.cs_last_block := id_of a2; Al.cs_duration := from_secs 60 |};
    Al.AChainRecovery {| Al.cr_best_block := id_of b3; Al.cr_duration := from_secs 60 |};
    Al.AReorg {| Al.cg_best_block := id_of b3; Al.cg_common_block := id_of genesis;
      Al.cg_enacted := [id_of b1; id_of b2]; Al.cg_retracted := [id_of a2; id_of a1] |}],
   Err (Al.BroadRecvErr Closed)).
Proof.
  refine (proj2 (stall_reorg_alerts
    {| non_block_import_threshold := from_secs 60; reorg_depth_threshold := 2 |}
    reorg_stream Closed [] _ _)).
  - split; vm_compute; congruence.
  - repeat (constructor; [done|]). constructor.
Defined.
