(* ===== verification/AlertEvents.v ===== *)
(** * The event monitor

    Models [watch_events] of [alerter/src/events.rs]: the known accounts, the
    balance alerts, the events of a block that become alerts and their order,
    and the loop over the block stream. Parsing an SS58 address is [sp_core]'s. *)

From Stdlib Require Import Strings.Byte.
From S2P Require Import Prelude HeadersCache TreeRoute BlockListener Scale RpcTypes Types.
From S2P Require Import Events Chain Db IndexerError Processor Alerts.

#[export] Instance byte_countable : Countable byte.
Proof.
  refine (inj_countable' Byte.to_N (fun n => default x00 (Byte.of_N n)) _).
  intros b. by rewrite Byte.of_to_N.
Defined.

(** [AccountId::from_str] of subxt. *)
Class AccountText : Type := { account_from_str : string -> option (list byte) }.

(** The accounts of [networks.toml] ([alerter/src/main.rs]). *)
Record Account : Type := { acc_name : string; acc_address : string }.
Record BalanceAlert : Type := {
  ba_name : string;
  ba_address : string;
  ba_threshold_ai3 : Z;
}.

Record ResolvedBalanceAlert : Type := {
  rb_name : string;
  rb_address : string;
  rb_threshold : Z;
}.

(** [iter.collect::<BTreeMap<_, _>>()]: a later entry replaces an earlier one. *)
Definition collect {V} (l : list (list byte * V)) : gmap (list byte) V :=
  foldl (fun m kv => <[kv.1 := kv.2]> m) ∅ l.

Section Watch.
Context `{ChainTypes, ScaleCodec, Events.EventCodec, !Al.EventCodec, Twox, AccountText}.

(** [Balance] is a [u128], and so is the product. *)
Definition resolve_alert (scale : Z) (alert : BalanceAlert)
    : outcome Al.Error (list byte * ResolvedBalanceAlert) :=
  account_id ← expect (account_from_str (ba_address alert));
  threshold ← mul_u 128 (ba_threshold_ai3 alert) scale;
  mret (account_id, {| rb_name := ba_name alert; rb_address := ba_address alert;
                       rb_threshold := threshold |}).

Definition build_balance_alert_map (alerts : list BalanceAlert) (token_decimals : Z)
    : outcome Al.Error (gmap (list byte) ResolvedBalanceAlert) :=
  scale ← pow10_u 128 token_decimals;
  resolved ← mapM (resolve_alert scale) alerts;
  mret (collect resolved).

Definition account_mapped_name (accounts : list Account)
    : outcome Al.Error (gmap (list byte) Account) :=
  named ← mapM (fun account =>
    account_id ← expect (account_from_str (acc_address account));
    mret (account_id, account)) accounts;
  mret (collect named).

(** The loop over the withdrawals, with the accounts already checked. *)
Fixpoint check_loop (client : Client) (block : BlockExt)
    (balance_alerts : gmap (list byte) ResolvedBalanceAlert)
    (withdrawals : list Al.BalanceWithdraw) (checked : gset (list byte))
    : outcome Al.Error (list Al.LowBalanceEvent) :=
  match withdrawals with
  | [] => mret []
  | withdrawal :: rest =>
      match Al.te_from withdrawal with
      | None => check_loop client block balance_alerts rest checked
      | Some account_id =>
          match balance_alerts !! account_id with
          | None => check_loop client block balance_alerts rest checked
          | Some alert =>
              if bool_decide (account_id ∈ checked) then
                check_loop client block balance_alerts rest checked
              else
                read ← attempt (free_balance client (be_hash block) account_id);
                more ← check_loop client block balance_alerts rest ({[account_id]} ∪ checked);
                mret (match read with
                      | Some (Some balance) =>
                          if balance <? rb_threshold alert then
                            [{| Al.lb_name := rb_name alert; Al.lb_address := rb_address alert;
                                Al.lb_balance := balance; Al.lb_threshold := rb_threshold alert |}]
                          else []
                      | _ => []
                      end ++ more)
          end
      end
  end.

Definition check_low_balances (client : Client) (block : BlockExt)
    (withdrawals : list Al.BalanceWithdraw)
    (balance_alerts : gmap (list byte) ResolvedBalanceAlert)
    : outcome Al.Error (list Al.LowBalanceEvent) :=
  check_loop client block balance_alerts withdrawals ∅.

(** [events.try_collect::<Vec<_>>()?] *)
Definition try_collect {E} (found : list (outcome string E)) : outcome Al.Error (list E) :=
  map_err (fun msg => Al.Subspace (Subxt msg)) (mapM (fun e => e) found).

Definition as_events {E} (into : E -> Al.Event) (found : list (outcome string E))
    : outcome Al.Error (list Al.Event) :=
  l ← try_collect found; mret (map into l).

Definition known_account {T} `{Al.TransferEvent T} (accounts : gmap (list byte) Account)
    (event : T) : option Al.TransferKnownAccountEvent :=
  let transfer direction account := {|
    Al.direction := direction; Al.transfer_type := Al.te_transfer_type event;
    Al.tk_name := acc_name account; Al.tk_address := acc_address account;
    Al.tk_amount := Al.te_amount event |} in
  match Al.te_from event ≫= fun from => accounts !! from with
  | Some account => Some (transfer Al.Sender account)
  | None =>
      match Al.te_to event ≫= fun to => accounts !! to with
      | Some account => Some (transfer Al.Receiver account)
      | None => None
      end
  end.

Definition filter_known_account_transfers {T} `{Al.TransferEvent T} (events : list T)
    (accounts : gmap (list byte) Account) : list Al.TransferKnownAccountEvent :=
  omap (known_account accounts) events.

(** The events of a block that are reported. *)
Definition block_alerts (client : Client) (block : BlockExt)
    (transfer_account_map : gmap (list byte) Account)
    (balance_alert_map : gmap (list byte) ResolvedBalanceAlert)
    : outcome Al.Error (list Al.Event) :=
  block_events ← map_err Al.Subspace (events client (be_hash block));
  transfers ← try_collect (Al.find Al.KBalanceTransfer block_events);
  deposits ← try_collect (Al.find Al.KBalanceDeposit block_events);
  withdrawals ← try_collect (Al.find Al.KBalanceWithdraw block_events);
  low_balance_events ← check_low_balances client block withdrawals balance_alert_map;
  let transfers :=
    filter_known_account_transfers transfers transfer_account_map ++
    filter_known_account_transfers deposits transfer_account_map ++
    filter_known_account_transfers withdrawals transfer_account_map in
  upgraded ← as_events Al.EvDomainRuntimeUpgraded (Al.find Al.KDomainRuntimeUpgraded block_events);
  instantiated ← as_events Al.EvDomainInstantiated (Al.find Al.KDomainInstantiated block_events);
  fraud ← as_events Al.EvFraudProofProcessed (Al.find Al.KFraudProofProcessed block_events);
  slashed ← as_events Al.EvOperatorSlashed (Al.find Al.KOperatorSlashed block_events);
  offline ← as_events Al.EvOperatorOffline (Al.find Al.KOperatorOffline block_events);
  sudo ← as_events (fun _ => Al.EvSudo) (Al.find Al.KSudo block_events);
  code ← as_events Al.EvCodeUpdated (Al.find Al.KCodeUpdated block_events);
  mret (map Al.EvTransfer transfers ++ map Al.EvLowBalance low_balance_events ++
        upgraded ++ instantiated ++ fraud ++ slashed ++ offline ++ sudo ++ code).

Definition watch_block (client : Client) (accounts : gmap (list byte) Account)
    (alerts : gmap (list byte) ResolvedBalanceAlert) (block : BlockExt)
    : SE (list Al.Alert) Al.Error unit :=
  events ← lift (block_alerts client block accounts alerts);
  for_each events (fun event => Al.send (Al.AEvent event)).

(** One round of the loop: what [stream.recv()] gives. *)
Definition watch_message (client : Client) (accounts : gmap (list byte) Account)
    (alerts : gmap (list byte) ResolvedBalanceAlert) (received : Recv)
    : SE (list Al.Alert) Al.Error unit :=
  match received with
  | RecvFailed e => throw (Al.BroadRecvErr e)
  | Received blocks_ext => for_each (blocks blocks_ext) (watch_block client accounts alerts)
  end.

Definition watch_events (client : Client) (stream : list Recv) (accounts : list Account)
    (balance_alerts : list BalanceAlert) (token_decimals : Z)
    : SE (list Al.Alert) Al.Error unit :=
  transfer_account_map ← lift (account_mapped_name accounts);
  balance_alert_map ← lift (build_balance_alert_map balance_alerts token_decimals);
  for_each stream (watch_message client transfer_account_map balance_alert_map).
End Watch.
