(* ===== verification/AlertEventsProps.v ===== *)
(** * Correctness of the event monitor

    The thresholds of the balance alerts, the accounts that are checked and
    reported, and the alerts of a block: every movement of a known account once, in
    order, and all of a block's alerts or none. *)

From Stdlib Require Import Strings.Byte.
From S2P Require Import Prelude HeadersCache ToyChain TreeRoute BlockListener Scale ScaleLE.
From S2P Require Import RpcTypes Types Events Chain Db IndexerError Processor ToyIndexer.
From S2P Require Import Alerts AlertEvents.

(** ** Maps from configuration lists *)

Lemma collect_lookup {V} (l : list (list byte * V)) a :
  collect l !! a = snd <$> last (filter (fun kv => kv.1 = a) l).
Proof.
  unfold collect. induction l as [|[k v] l IH] using rev_ind; [done|].
  rewrite foldl_app, filter_app. cbn [foldl fst snd].
  destruct (decide (k = a)) as [->|Hne].
  - rewrite lookup_insert_eq, filter_cons_True by done. by rewrite filter_nil, last_snoc.
  - by rewrite lookup_insert_ne, IH, filter_cons_False, filter_nil, app_nil_r by done.
Qed.

Lemma mapM_cons {E A B} (f : A -> outcome E B) x l :
  mapM f (x :: l) = (y ← f x; k ← mapM f l; mret (y :: k)).
Proof. done. Qed.

Section Config.
Context `{ChainTypes, AccountText}.

Definition alert_ok (scale : Z) (alert : BalanceAlert) : Prop :=
  is_Some (account_from_str (ba_address alert)) /\ ba_threshold_ai3 alert * scale < 2 ^ 128.

Lemma resolve_alert_ok scale alert :
  alert_ok scale alert -> exists a, account_from_str (ba_address alert) = Some a /\
    resolve_alert scale alert = Ok (a, {| rb_name := ba_name alert; rb_address := ba_address alert;
      rb_threshold := ba_threshold_ai3 alert * scale |}).
Proof.
  intros [[a Ha] Hb]. exists a. split; [done|]. unfold resolve_alert. rewrite Ha. cbn.
  unfold mul_u. by rewrite (proj2 (Z.ltb_lt _ _)).
Qed.

Lemma resolve_alert_panic scale alert : ~ alert_ok scale alert -> resolve_alert scale alert = Panic.
Proof.
  intros Hbad. unfold resolve_alert. destruct (account_from_str (ba_address alert)) eqn:Ha; [|done].
  cbn. unfold mul_u. destruct (Z.ltb_spec (ba_threshold_ai3 alert * scale) (2 ^ 128)); [|done].
  exfalso. apply Hbad. split; [by eexists | done].
Qed.

Lemma resolve_all scale alerts a :
  Forall (alert_ok scale) alerts ->
  exists resolved, mapM (resolve_alert scale) alerts = Ok resolved /\
    filter (fun kv => kv.1 = a) resolved =
    (fun alert => (a, {| rb_name := ba_name alert; rb_address := ba_address alert;
        rb_threshold := ba_threshold_ai3 alert * scale |})) <$>
      filter (fun alert => account_from_str (ba_address alert) = Some a) alerts.
Proof.
  induction 1 as [|alert alerts Hok _ (resolved & Hres & Hfil)]; [by exists []|].
  destruct (resolve_alert_ok _ _ Hok) as (k & Hk & Hr).
  rewrite mapM_cons, Hr. cbn [mbind outcome_bind]. rewrite Hres.
  eexists. split; [reflexivity|]. destruct (decide (k = a)) as [->|Hne].
  - rewrite !filter_cons_True by done. by rewrite fmap_cons, Hfil.
  - rewrite !filter_cons_False; [done | congruence | done].
Qed.

Lemma resolve_some_panic scale alerts :
  Exists (fun alert => ~ alert_ok scale alert) alerts -> mapM (resolve_alert scale) alerts = Panic.
Proof.
  assert (Hcases : forall alert, is_ok (resolve_alert scale alert) = true \/
    resolve_alert scale alert = Panic).
  { intros alert. unfold resolve_alert, mul_u.
    destruct (account_from_str (ba_address alert)); cbn; [|by right].
    destruct (_ <? _); [by left | by right]. }
  induction 1 as [alert alerts Hbad|alert alerts _ IH]; rewrite mapM_cons.
  - by rewrite resolve_alert_panic.
  - destruct (Hcases alert) as [Hok|Hp]; [|by rewrite Hp].
    destruct (resolve_alert scale alert); try done. cbn. by rewrite IH.
Qed.
End Config.

(** ** Low balances *)

Section LowBalance.
Context `{ChainTypes, ScaleCodec, Events.EventCodec, !Al.EventCodec, Twox, AccountText}.

(** The report on one account: there when its balance can be read, and is below
    the threshold. *)
Definition report (client : Client) (block : BlockExt)
    (alerts : gmap (list byte) ResolvedBalanceAlert) (a : list byte) : option Al.LowBalanceEvent :=
  match alerts !! a, free_balance client (be_hash block) a with
  | Some alert, Ok (Some balance) =>
      if balance <? rb_threshold alert then
        Some {| Al.lb_name := rb_name alert; Al.lb_address := rb_address alert;
                Al.lb_balance := balance; Al.lb_threshold := rb_threshold alert |}
      else None
  | _, _ => None
  end.

Lemma check_loop_spec client block alerts ws checked :
  (forall a, is_Some (alerts !! a) ->
     exists r, attempt (E' := Al.Error) (free_balance client (be_hash block) a) = Ok r) ->
  exists accounts, check_loop client block alerts ws checked = Ok (omap (report client block alerts) accounts) /\
    NoDup accounts /\ accounts `sublist_of` (Al.bw_who <$> ws) /\
    (forall a, a ∈ accounts <-> a ∈ Al.bw_who <$> ws /\ is_Some (alerts !! a) /\ a ∉ checked).
Proof.
  intros Hreads. revert checked. induction ws as [|w ws IH]; intros checked.
  - exists []. split_and!; [done|constructor|done|]. intros a. rewrite elem_of_nil. cbn.
    rewrite elem_of_nil. tauto.
  - cbn [check_loop Al.te_from Al.BalanceWithdraw_event].
    assert (Hskip : forall accounts : list (list byte), (alerts !! Al.bw_who w = None \/ Al.bw_who w ∈ checked) ->
      (forall a, a ∈ accounts <-> a ∈ Al.bw_who <$> ws /\ is_Some (alerts !! a) /\ a ∉ checked) ->
      forall a, a ∈ accounts <->
        a ∈ Al.bw_who <$> w :: ws /\ is_Some (alerts !! a) /\ a ∉ checked).
    { intros accounts Hw Hacc a. rewrite Hacc, fmap_cons, elem_of_cons. split; [tauto|].
      intros ([-> | Hin] & Hs & Hc); [|done]. destruct Hw as [Hw|]; [|done].
      rewrite Hw in Hs. by apply is_Some_None in Hs. }
    destruct (alerts !! Al.bw_who w) as [alert|] eqn:Hal.
    2: { destruct (IH checked) as (accounts & -> & Hnd & Hsub & Hin). exists accounts.
         split_and!; [done|done|by apply sublist_cons|]. apply Hskip; auto. }
    case_bool_decide as Hch.
    + destruct (IH checked) as (accounts & -> & Hnd & Hsub & Hin). exists accounts.
      split_and!; [done|done|by apply sublist_cons|]. apply Hskip; auto.
    + destruct (Hreads (Al.bw_who w)) as [r Hr]; [by rewrite Hal|]. rewrite Hr. cbn [mbind outcome_bind].
      destruct (IH ({[Al.bw_who w]} ∪ checked)) as (accounts & -> & Hnd & Hsub & Hin).
      exists (Al.bw_who w :: accounts). split_and!.
      * unfold mret, outcome_ret. cbn [omap list_omap]. unfold report at 2. rewrite Hal.
        unfold attempt in Hr.
        destruct (free_balance client (be_hash block) (Al.bw_who w)) as [[b|]| | |];
          simplify_eq; try done. by destruct (b <? rb_threshold alert).
      * constructor; [|done]. rewrite Hin. set_solver.
      * by apply sublist_skip.
      * intros a. rewrite elem_of_cons, Hin, fmap_cons, elem_of_cons.
        rewrite not_elem_of_union, not_elem_of_singleton. split.
        -- intros [->|(Ha & Hs & _ & Hc)]; [|tauto]. split_and!; [by left|by rewrite Hal|done].
        -- intros ([->|Ha] & Hs & Hc); [by left|].
           destruct (decide (a = Al.bw_who w)); [by left|]. right. by split_and!.
Qed.

(** C19: the balance alerts. Configuration: every account is watched with the
    threshold of its last entry in whole tokens, scaled to the token's
    decimals; the monitor panics at start exactly when an address is not valid, a
    threshold does not fit 128 bits or there are more than 38 decimals. On a block: the
    accounts with a withdrawal in the block that are watched are each checked
    once, in the order of the withdrawals, and an account is reported exactly when its
    balance could be read and is below the threshold; a balance that cannot be
    read never stops the monitor. *)
Theorem low_balance_alerts alerts decimals client block watched ws :
  (forall a, is_Some (watched !! a) ->
     exists r, attempt (E' := Al.Error) (free_balance client (be_hash block) a) = Ok r) ->
  (10 ^ decimals < 2 ^ 128 -> Forall (alert_ok (10 ^ decimals)) alerts ->
     exists m, build_balance_alert_map alerts decimals = Ok m /\
       forall a, m !! a =
         (fun alert => {| rb_name := ba_name alert; rb_address := ba_address alert;
                          rb_threshold := ba_threshold_ai3 alert * 10 ^ decimals |}) <$>
         last (filter (fun alert => account_from_str (ba_address alert) = Some a) alerts)) /\
  (2 ^ 128 <= 10 ^ decimals \/ Exists (fun alert => ~ alert_ok (10 ^ decimals) alert) alerts ->
     build_balance_alert_map alerts decimals = Panic) /\
  (exists accounts, check_low_balances client block ws watched =
       Ok (omap (report client block watched) accounts) /\
     NoDup accounts /\ accounts `sublist_of` (Al.bw_who <$> ws) /\
     (forall a, a ∈ accounts <-> a ∈ Al.bw_who <$> ws /\ is_Some (watched !! a))).
Proof.
  intros Hreads. split; [|split].
  - intros Hd Hal. unfold build_balance_alert_map, pow10_u.
    rewrite (proj2 (Z.ltb_lt _ _)) by done. cbn.
    destruct (resolve_all (10 ^ decimals) alerts [] Hal) as (resolved & Hres & _). rewrite Hres.
    eexists. split; [reflexivity|]. intros a. rewrite collect_lookup.
    destruct (resolve_all (10 ^ decimals) alerts a Hal) as (resolved' & Hres' & Hfil).
    rewrite Hres in Hres'. injection Hres' as <-. rewrite Hfil, fmap_last.
    by destruct (last _).
  - intros Hbad. unfold build_balance_alert_map, pow10_u.
    destruct (Z.ltb_spec (10 ^ decimals) (2 ^ 128)); [|done]. cbn.
    destruct Hbad as [|Hbad]; [lia|]. by rewrite resolve_some_panic.
  - destruct (check_loop_spec client block watched ws ∅ Hreads) as (accounts & Hc & Hnd & Hsub & Hin).
    exists accounts. split_and!; [done..|]. intros a. rewrite Hin. set_solver.
Qed.
End LowBalance.

(** ** The alerts of a block *)

Section Block.
Context `{ChainTypes, ScaleCodec, Events.EventCodec, !Al.EventCodec, Twox, AccountText}.

(** A movement of balance, of any of the three kinds of events. *)
Definition movement : Type :=
  Al.TransferType * option (list byte) * option (list byte) * Z.

Definition movement_of {T} `{Al.TransferEvent T} (e : T) : movement :=
  (Al.te_transfer_type e, Al.te_from e, Al.te_to e, Al.te_amount e).

Definition known (accounts : gmap (list byte) Account) (party : option (list byte)) : Prop :=
  is_Some (party ≫= fun a => accounts !! a).

#[local] Instance known_dec accounts party : Decision (known accounts party).
Proof. unfold known. apply _. Defined.

Definition touches (accounts : gmap (list byte) Account) (mv : movement) : Prop :=
  known accounts mv.1.1.2 \/ known accounts mv.1.2.

#[local] Instance touches_dec accounts mv : Decision (touches accounts mv).
Proof. unfold touches. apply _. Defined.

(** The report of a movement: the sender's when the sender is known. *)
Definition reports (accounts : gmap (list byte) Account) (mv : movement)
    (e : Al.TransferKnownAccountEvent) : Prop :=
  let '(kind, from, to, amount) := mv in
  Al.transfer_type e = kind /\ Al.tk_amount e = amount /\
  exists account, Al.tk_name e = acc_name account /\ Al.tk_address e = acc_address account /\
    match Al.direction e with
    | Al.Sender => (from ≫= fun a => accounts !! a) = Some account
    | Al.Receiver => (to ≫= fun a => accounts !! a) = Some account /\ ~ known accounts from
    end.

Lemma filter_reports {T} `{Al.TransferEvent T} (l : list T) accounts :
  Forall2 (reports accounts) (filter (touches accounts) (movement_of <$> l))
    (filter_known_account_transfers l accounts).
Proof.
  induction l as [|e l IH]; [constructor|]. unfold filter_known_account_transfers in *.
  rewrite fmap_cons, filter_cons. cbn [omap list_omap]. unfold known_account at 1.
  destruct (decide (touches accounts (movement_of e))) as [Ht|Ht]; unfold touches, known in Ht; cbn in Ht.
  - destruct (Al.te_from e ≫= fun a => accounts !! a) as [account|] eqn:Hf.
    + constructor; [|exact IH]. cbn. split_and!; [done..|]. by exists account.
    + destruct (Al.te_to e ≫= fun a => accounts !! a) as [account|] eqn:Hto.
      * constructor; [|exact IH]. cbn. split_and!; [done..|]. exists account. split_and!; [done..|].
        unfold known. rewrite Hf. by intros [? ?].
      * destruct Ht as [[? ?]|[? ?]]; done.
  - destruct (Al.te_from e ≫= fun a => accounts !! a) as [account|] eqn:Hf; [by destruct Ht; eauto|].
    destruct (Al.te_to e ≫= fun a => accounts !! a) as [account|] eqn:Hto; [by destruct Ht; eauto|].
    exact IH.
Qed.

Lemma send_all events sent :
  for_each events (fun e => Al.send (Al.AEvent e)) sent = (sent ++ map Al.AEvent events, Ok tt).
Proof.
  revert sent. induction events as [|e events IH]; intros sent; cbn.
  - unfold mret, SE_ret. by rewrite app_nil_r.
  - rewrite SE_bind_unfold. cbn. rewrite IH. by rewrite <- app_assoc.
Qed.

Lemma try_collect_oks {E} (l : list E) : try_collect (map Ok l) = Ok l.
Proof.
  unfold try_collect. assert (mapM (fun e => e) (map Ok l) = (Ok l : outcome string (list E))) as ->.
  { induction l as [|e l IH]; [done|]. cbn [map]. by rewrite mapM_cons, IH. }
  done.
Qed.

(** C18: the alerts of a block. When all its events decode and no read of a
    balance crashes, they are sent behind what was sent before, in this order:
    one for every transfer, deposit and withdrawal that touches a known account, as the
    sender's if the sender is known; the low balances; and every
    domain, operator, sudo and code event. Whatever happens, a block's alerts are
    all sent, or none of them and the monitor stops. *)
Theorem block_alerts_exact client accounts watched block sent evs tr de wi low up di fp sl off su co :
  (let r := watch_block client accounts watched block sent in
   r.2 = Ok tt \/ (r.1 = sent /\ r.2 <> Ok tt)) /\
  (cl_events client (be_hash block) = Ok evs ->
   Al.find Al.KBalanceTransfer evs = map Ok tr -> Al.find Al.KBalanceDeposit evs = map Ok de ->
   Al.find Al.KBalanceWithdraw evs = map Ok wi ->
   check_low_balances client block wi watched = Ok low ->
   Al.find Al.KDomainRuntimeUpgraded evs = map Ok up -> Al.find Al.KDomainInstantiated evs = map Ok di ->
   Al.find Al.KFraudProofProcessed evs = map Ok fp -> Al.find Al.KOperatorSlashed evs = map Ok sl ->
   Al.find Al.KOperatorOffline evs = map Ok off -> Al.find Al.KSudo evs = map Ok su ->
   Al.find Al.KCodeUpdated evs = map Ok co ->
   exists transfers, watch_block client accounts watched block sent =
      (sent ++ map Al.AEvent (map Al.EvTransfer transfers ++ map Al.EvLowBalance low ++
         map Al.EvDomainRuntimeUpgraded up ++ map Al.EvDomainInstantiated di ++
         map Al.EvFraudProofProcessed fp ++ map Al.EvOperatorSlashed sl ++
         map Al.EvOperatorOffline off ++ map (fun _ => Al.EvSudo) su ++
         map Al.EvCodeUpdated co), Ok tt) /\
     Forall2 (reports accounts)
       (filter (touches accounts)
          ((movement_of <$> tr) ++ (movement_of <$> de) ++ (movement_of <$> wi)))
       transfers).
Proof.
  split.
  - cbv zeta. unfold watch_block. rewrite SE_bind_unfold. unfold lift.
    destruct (block_alerts client block accounts watched) as [l| | |]; cbn; auto.
    left. by rewrite send_all.
  - intros Hev Htr Hde Hwi Hlow Hup Hdi Hfp Hsl Hoff Hsu Hco.
    exists (filter_known_account_transfers tr accounts ++
      filter_known_account_transfers de accounts ++ filter_known_account_transfers wi accounts).
    split.
    + unfold watch_block. rewrite SE_bind_unfold. unfold lift, block_alerts, as_events, events.
      rewrite Hev. cbn [map_err mbind outcome_bind].
      rewrite Htr, Hde, Hwi, Hup, Hdi, Hfp, Hsl, Hoff, Hsu, Hco, !try_collect_oks.
      cbn [mbind outcome_bind]. rewrite Hlow. cbn [mbind outcome_bind mret outcome_ret].
      by rewrite send_all.
    + rewrite !filter_app. apply Forall2_app; [apply filter_reports|].
      apply Forall2_app; apply filter_reports.
Qed.
End Block.

(** ** Witnesses *)

(** Fields are decoded alerter events tagged with the type they have. *)
#[local] Instance toy_alert_fields : Events.EventCodec := {|
  Fields := sigT Al.event_of;
  Events.decode_as_type k f := Err "shape mismatch" |}.

Definition toy_alert_decode (k : Al.EventKind) (f : sigT Al.event_of)
    : outcome string (Al.event_of k) :=
  match decide (projT1 f = k) with
  | left E => Ok (eq_rect _ Al.event_of (projT2 f) _ E)
  | right _ => Err "shape mismatch"
  end.

#[local] Instance toy_alert_codec : @Al.EventCodec toy_alert_fields :=
  @Al.Build_EventCodec toy_alert_fields toy_alert_decode.

#[local] Instance toy_account_text : AccountText := {
  account_from_str s := match s with EmptyString => None | _ => Some (str_bytes s) end }.

Definition alert_event (k : Al.EventKind) (e : Al.event_of k)
    : EventDetails (H := toy_alert_fields) :=
  @Build_EventDetails toy_alert_fields (Al.PALLET k) (Al.EVENT k) (existT k e).

(** An account with 5 units, encoded. *)
Definition five_units : list byte := replicate 16 x00 ++ [x05] ++ replicate 63 x00.

Definition alert_client (evs : list (EventDetails (H := toy_alert_fields)))
    : Client (H1 := toy_alert_fields) := {|
  cl_fetch _ _ := Ok (Some five_units);
  cl_iter _ _ := Ok [];
  cl_events _ := Ok (map Ok evs);
  cl_segment_size := Ok 100;
  cl_fetch_value _ _ := Ok None;
  cl_decode_events _ := [] |}.

Definition alert_block : BlockExt := {|
  be_number := 1; be_hash := [1]; be_parent_hash := []; be_state_root := [];
  be_extrinsics_root := [] |}.

Definition alert_events : list (EventDetails (H := toy_alert_fields)) := [
  alert_event Al.KSudo Al.Sudid;
  alert_event Al.KBalanceWithdraw {| Al.bw_who := str_bytes "alice"; Al.bw_amount := 2 |};
  alert_event Al.KBalanceTransfer
    {| Al.bt_from := str_bytes "bob"; Al.bt_to := str_bytes "alice"; Al.bt_amount := 7 |};
  alert_event Al.KBalanceWithdraw {| Al.bw_who := str_bytes "alice"; Al.bw_amount := 1 |} ].

Definition watched_alice : gmap (list byte) ResolvedBalanceAlert :=
  {[ str_bytes "alice" := {| rb_name := "Alice"; rb_address := "alice"; rb_threshold := 10 |} ]}.

Definition low_alice : Al.LowBalanceEvent :=
  {| Al.lb_name := "Alice"; Al.lb_address := "alice"; Al.lb_balance := 5; Al.lb_threshold := 10 |}.

(** The last entry of an account counts; of two withdrawals of an account with a low balance one
    is reported. *)
Lemma low_balance_alerts_witness :
  let alice_entries :=
    [{| ba_name := "Alice"; ba_address := "alice"; ba_threshold_ai3 := 3 |};
     {| ba_name := "A"; ba_address := "alice"; ba_threshold_ai3 := 5 |}] in
  let alice := str_bytes "alice" in
  (exists m, build_balance_alert_map alice_entries 18 = Ok m /\
     rb_threshold <$> m !! alice = Some (5 * 10 ^ 18)) /\
  check_low_balances (alert_client alert_events) alert_block
    [{| Al.bw_who := alice; Al.bw_amount := 2 |}; {| Al.bw_who := str_bytes "bob"; Al.bw_amount := 1 |};
     {| Al.bw_who := alice; Al.bw_amount := 1 |}] watched_alice = Ok [low_alice].
Proof.
  intros entries alice.
  destruct (low_balance_alerts entries 18 (alert_client alert_events) alert_block watched_alice
    [{| Al.bw_who := alice; Al.bw_amount := 2 |}; {| Al.bw_who := str_bytes "bob"; Al.bw_amount := 1 |};
     {| Al.bw_who := alice; Al.bw_amount := 1 |}]) as (Hbuild & _ & accounts & Hcheck & Hnd & _ & Hin).
  { intros a _. exists (Some (Some 5)). vm_compute. reflexivity. }
  split.
  - destruct Hbuild as (m & Hm & Hlook); [lia | |].
    + repeat (constructor; [split; [by eexists | cbn; lia]|]). constructor.
    + exists m. split; [exact Hm|]. rewrite Hlook. reflexivity.
  - assert (Hone : accounts = [alice]).
    { assert (Hp : accounts ≡ₚ [alice]); [|by apply Permutation_singleton_r].
      apply NoDup_Permutation; [done | apply NoDup_singleton |]. intros a.
      rewrite Hin, list_elem_of_singleton. unfold watched_alice. rewrite lookup_singleton_is_Some.
      split; [by intros [_ <-]|]. intros ->. split; [left | done]. }
    rewrite Hcheck, Hone. vm_compute. reflexivity.
Defined.

Definition known_alice : gmap (list byte) Account :=
  {[ str_bytes "alice" := {| acc_name := "Alice"; acc_address := "alice" |} ]}.

Lemma block_alerts_exact_witness :
  exists transfers, watch_block (alert_client alert_events) known_alice watched_alice alert_block [] =
    (map Al.AEvent (map Al.EvTransfer transfers ++ [Al.EvLowBalance low_alice; Al.EvSudo]), Ok tt) /\
  length transfers = 3%nat.
Proof.
  edestruct (proj2 (block_alerts_exact (alert_client alert_events) known_alice watched_alice
    alert_block [] (map Ok alert_events)
    [{| Al.bt_from := str_bytes "bob"; Al.bt_to := str_bytes "alice"; Al.bt_amount := 7 |}] []
    [{| Al.bw_who := str_bytes "alice"; Al.bw_amount := 2 |};
     {| Al.bw_who := str_bytes "alice"; Al.bw_amount := 1 |}] [low_alice] [] [] [] [] []
    [Al.Sudid] [])) as (transfers & Hrun & Hall); try (vm_compute; reflexivity).
  exists transfers. split; [exact Hrun|]. rewrite <- (Forall2_length _ _ _ Hall).
  vm_compute. reflexivity.
Defined.
