(* ===== verification/MdFormat.v ===== *)
(** * The text of the alerts

    Models [alerter/src/md_format.rs]: the Markdown message of every alert. The
    text of a duration ([humantime::format_duration]), percent-encoding
    ([urlencoding::encode]) and the abbreviated [Display] of a hash are the class
    [MessageLib]; decimals are those of [rust_decimal] ([DecimalLib]), whose
    conversions and divisions panic where they give no result. *)

From Stdlib Require Import Strings.Byte Strings.Ascii.
From S2P Require Import Prelude HeadersCache BlockListener Types Chain Db Alerts.

Class MessageLib `{ChainTypes} : Type := {
  (** [humantime::format_duration], of nanoseconds *)
  format_duration : Z -> string;
  (** [urlencoding::encode] *)
  url_encode : string -> string;
  (** [Display] of [H256] *)
  hash_display : Hash -> string;
}.

(** Characters that cannot be written in a literal: the newline and the double
    quote. *)
Definition nl : string := String (ascii_of_nat 10) "".
Definition quote : string := String (ascii_of_nat 34) "".

(** [FormatConfig]. *)
Record FormatConfig : Type := {
  rpc_url : string;
  token_name : string;
  token_decimals : Z;
}.

Section Format.
Context `{ChainTypes, !HashBytes, TextCodecs, DecimalLib, !MessageLib}.
Context (config : FormatConfig).

(** [Debug] of the derived [DomainId(u32)]. *)
Definition debug_domain (d : DomainId) : string := "DomainId(" +:+ pretty (domain_id d) +:+ ")".

(** [Debug] of a [String] whose characters need no escape, as hexadecimal digits
    do not. *)
Definition debug_string (s : string) : string := quote +:+ s +:+ quote.

Definition debug_direction (d : Al.TransferDirection) : string :=
  match d with Al.Sender => "Sender" | Al.Receiver => "Receiver" end.

Definition debug_transfer_type (t : Al.TransferType) : string :=
  match t with
  | Al.Transfer => "Transfer"
  | Al.Withdraw => "Withdraw"
  | Al.Deposit => "Deposit"
  end.

(** [Decimal::from(balance) / Decimal::from(10u128.pow(decimals as u32))] *)
Definition format_balance (balance : Z) : outcome Al.Error string :=
  amount ← expect (decimal_from_u128 balance);
  p ← pow10_u 128 (token_decimals config);
  scale ← expect (decimal_from_u128 p);
  scaled_balance ← expect (decimal_div amount scale);
  mret (decimal_to_string scaled_balance +:+ " " +:+ token_name config).

Definition format_transfer (transfer : Al.TransferKnownAccountEvent) : outcome Al.Error string :=
  amount ← format_balance (Al.tk_amount transfer);
  mret ("**Balance transfer**" +:+ nl +:+
        "Direction: " +:+ debug_direction (Al.direction transfer) +:+ nl +:+
        "Type: " +:+ debug_transfer_type (Al.transfer_type transfer) +:+ nl +:+
        "Account: " +:+ Al.tk_name transfer +:+ "[" +:+ Al.tk_address transfer +:+ "]" +:+ nl +:+
        "Amount:" +:+ amount).

Definition format_low_balance (low_balance : Al.LowBalanceEvent) : outcome Al.Error string :=
  balance ← format_balance (Al.lb_balance low_balance);
  threshold ← format_balance (Al.lb_threshold low_balance);
  mret ("**Low balance warning**" +:+ nl +:+
        "Account: " +:+ Al.lb_name low_balance +:+ " [" +:+ Al.lb_address low_balance +:+ "]" +:+
        nl +:+ "Balance: " +:+ balance +:+ nl +:+ "Threshold: " +:+ threshold).

Definition slashed_reason (r : Al.SlashedReason) : string :=
  match r with
  | Al.InvalidBundle n => "Invalid bundle at block: " +:+ pretty n
  | Al.BadExecutionReceipt h => "Bad execution receipt: 0x" +:+ debug_string (hex_encode h)
  end.

Definition format_event (event : Al.Event) : outcome Al.Error string :=
  match event with
  | Al.EvTransfer transfer => format_transfer transfer
  | Al.EvLowBalance e => format_low_balance e
  | Al.EvDomainRuntimeUpgraded e =>
      mret ("**Domain runtime upgraded**" +:+ nl +:+ "Runtime ID: " +:+ pretty (Al.runtime_id e))
  | Al.EvDomainInstantiated e =>
      mret ("**Domain instantiated**" +:+ nl +:+
            "Domain ID: " +:+ debug_domain (Al.di_domain_id e))
  | Al.EvFraudProofProcessed e =>
      match Al.new_head_receipt_number e with
      | Some block_number =>
          mret ("**Fraud proof processed**" +:+ nl +:+
                "Domain ID: " +:+ debug_domain (Al.fp_domain_id e) +:+ nl +:+
                "New head receipt number: " +:+ pretty block_number)
      | None =>
          mret ("**Fraud proof processed**" +:+ nl +:+
                "Domain ID: " +:+ debug_domain (Al.fp_domain_id e))
      end
  | Al.EvOperatorSlashed e =>
      mret ("**Operator slashed**" +:+ nl +:+
            "Operator ID: " +:+ pretty (Al.os_operator_id e) +:+ nl +:+
            "Reason: " +:+ slashed_reason (Al.reason e))
  | Al.EvOperatorOffline e =>
      mret ("**Operator offline**" +:+ nl +:+
            "Operator ID: " +:+ pretty (Al.oo_operator_id e) +:+ nl +:+
            "Domain ID: " +:+ debug_domain (Al.oo_domain_id e) +:+ nl +:+
            "Submitted bundles: " +:+ pretty (Al.submitted_bundles e) +:+ nl +:+
            "Expected bundles: " +:+ pretty (Al.expected_bundles (Al.expectations e)) +:+ nl +:+
            "Min required bundles: " +:+
            pretty (Al.min_required_bundles (Al.expectations e)))
  | Al.EvSudo => mret "**Sudo event triggered**"
  | Al.EvCodeUpdated _ => mret "**Runtime code updated**"
  end.

(** ** Blocks *)

Definition format_hash_and_number (b : HashAndNumber) : string :=
  let link := "https://polkadot.js.org/apps/?rpc=" +:+ url_encode (rpc_url config) +:+
              "#/explorer/query/0x" +:+ hex_encode (hash_bytes (hn_hash b)) in
  "[" +:+ hash_display (hn_hash b) +:+ "](" +:+ link +:+ ") (" +:+ pretty (hn_number b) +:+ ")".

Definition format_hash_and_number_list (l : list HashAndNumber) : string :=
  String.concat nl (map (fun block => "- " +:+ format_hash_and_number block) l).

Definition format_chain_stall (a : Al.ChainStall) : string :=
  "**Block production stalled**" +:+ nl +:+
  "Last block: " +:+ format_hash_and_number (Al.cs_last_block a) +:+ nl +:+
  "Time since last block: " +:+ format_duration (Al.cs_duration a).

Definition format_chain_recovery (a : Al.ChainRecovery) : string :=
  "**Block production resumed**" +:+ nl +:+
  "Best block: " +:+ format_hash_and_number (Al.cr_best_block a) +:+ nl +:+
  "Resumed after: " +:+ format_duration (Al.cr_duration a).

Definition format_reorg (a : Al.ChainReorg) : string :=
  let reorg_depth := Z.of_nat (length (Al.cg_retracted a)) in
  "**Chain reorg**" +:+ nl +:+
  "Best block: " +:+ format_hash_and_number (Al.cg_best_block a) +:+ nl +:+
  "Common block: " +:+ format_hash_and_number (Al.cg_common_block a) +:+ nl +:+
  "Retracted blocks:" +:+ nl +:+
  format_hash_and_number_list (Al.cg_retracted a) +:+ nl +:+
  "Enacted blocks:" +:+ nl +:+
  format_hash_and_number_list (Al.cg_enacted a) +:+ nl +:+
  "Reorg Depth: " +:+ pretty reorg_depth.

(** ** Slots *)

Definition format_slow_slot (a : SlowSlot) : string :=
  "**Slow slot**" +:+ nl +:+
  "Slot: " +:+ pretty (ss_slot a) +:+ nl +:+
  "Previous slot: " +:+ pretty (ss_previous_slot a) +:+ nl +:+
  "Slot time: " +:+ format_duration (ss_slot_time a) +:+ nl +:+
  "Threshold: " +:+ format_duration (ss_threshold a).

Definition format_avg_slow_slot (a : AvgSlowSlot) : string :=
  "**Average Slow slots**" +:+ nl +:+
  "Slot: " +:+ pretty (as_slot a) +:+ nl +:+
  "Slot count: " +:+ pretty (as_slot_count a) +:+ nl +:+
  "Avg Slot time: " +:+ format_duration (as_avg_slot_time a) +:+ nl +:+
  "Threshold: " +:+ format_duration (as_threshold a).

Definition format_timekeeper_recovery (a : TimekeeperRecovery) : string :=
  "**Timekeeper resumed**" +:+ nl +:+
  "Slot: " +:+ pretty (tr_slot a) +:+ nl +:+
  "Resumed after: " +:+ format_duration (tr_duration a).

Definition format_timekeeper_stall (a : TimekeeperStall) : string :=
  "**Timekeeper stalled**" +:+ nl +:+
  "Last slot: " +:+ pretty (ts_last_slot a) +:+ nl +:+
  "Time since last block: " +:+ format_duration (ts_duration a).

Definition format_alert (alert : Al.Alert) : outcome Al.Error string :=
  match alert with
  | Al.AEvent event => format_event event
  | Al.AChainStall chain_stall => mret (format_chain_stall chain_stall)
  | Al.AChainRecovery recovery => mret (format_chain_recovery recovery)
  | Al.AReorg reorg => mret (format_reorg reorg)
  | Al.ATimekeeperStall stall => mret (format_timekeeper_stall stall)
  | Al.ATimekeeperRecovery recovery => mret (format_timekeeper_recovery recovery)
  | Al.ASlowSlot slow_slot => mret (format_slow_slot slow_slot)
  | Al.AAvgSlowSlots avg_slow_slot => mret (format_avg_slow_slot avg_slow_slot)
  end.
End Format.
