(* ===== verification/MdFormatProps.v ===== *)
(** * Theorems on the text of the alerts

    [format_alert_total]: for which alerts and configurations the formatter has a
    message at all; [message_first_line]: what its first line tells;
    [reorg_message]: the lines of the message of a reorg. *)

From Stdlib Require Import Strings.Byte Strings.Ascii.
From S2P Require Import Prelude HeadersCache BlockListener ToyChain Types Chain Db ToyIndexer.
From S2P Require Import SharePrice Alerts MdFormat.

(** ** Lines *)

Definition newline : ascii := ascii_of_nat 10.

(** A text split at its newlines. *)
Fixpoint lines (s : string) : list string :=
  match s with
  | EmptyString => [""]
  | String c s' =>
      if bool_decide (c = newline) then "" :: lines s'
      else match lines s' with
           | l :: ls => String c l :: ls
           | [] => [String c ""]
           end
  end.

Fixpoint one_line (s : string) : bool :=
  match s with
  | EmptyString => true
  | String c s' => negb (bool_decide (c = newline)) && one_line s'
  end.

Lemma one_line_app s t : one_line (s +:+ t) = one_line s && one_line t.
Proof.
  induction s as [|c s IH]; [done|].
  change (String c s +:+ t) with (String c (s +:+ t)). cbn [one_line]. by rewrite IH, andb_assoc.
Qed.

Lemma lines_cons s t : one_line s = true -> lines (s +:+ nl +:+ t) = s :: lines t.
Proof.
  induction s as [|c s IH]; intros Hs.
  - change ("" +:+ nl +:+ t) with (String newline t). cbn [lines]. by rewrite bool_decide_eq_true_2.
  - change (String c s +:+ nl +:+ t) with (String c (s +:+ nl +:+ t)). cbn [one_line lines] in *.
    apply andb_prop in Hs as [Hc Hs]. destruct (bool_decide (c = newline)); [done|].
    by rewrite IH.
Qed.

Lemma lines_one s : one_line s = true -> lines s = [s].
Proof.
  induction s as [|c s IH]; intros Hs; [done|]. cbn [one_line lines] in *.
  apply andb_prop in Hs as [Hc Hs]. destruct (bool_decide (c = newline)); [done|]. by rewrite IH.
Qed.

Lemma append_assoc s t u : (s +:+ t) +:+ u = s +:+ t +:+ u.
Proof.
  induction s as [|c s IH]; [done|].
  change ((String c s +:+ t) +:+ u) with (String c ((s +:+ t) +:+ u)). by rewrite IH.
Qed.

(** The lines of a list of lines that is joined with newlines: the empty list is an
    empty line. *)
Definition joined (l : list string) : list string := match l with [] => [""] | _ => l end.

Lemma lines_join l t :
  Forall (fun s => one_line s = true) l -> lines (String.concat nl l +:+ nl +:+ t) = joined l ++ lines t.
Proof.
  induction l as [|s l IH]; intros Hl; [by apply (lines_cons "")|].
  apply Forall_cons in Hl as [Hs Hl]. destruct l as [|s' l]; [by apply lines_cons|].
  change (String.concat nl (s :: s' :: l)) with (s +:+ nl +:+ String.concat nl (s' :: l)).
  rewrite !append_assoc, lines_cons by done. by rewrite IH.
Qed.

Lemma digits_one_line acc s n : digits acc s = Some n -> one_line s = true.
Proof.
  revert acc. induction s as [|c s IH]; intros acc Hd; [done|]. cbn [digits one_line] in *.
  destruct (digit c) as [x|] eqn:Hc; [|done].
  rewrite bool_decide_eq_false_2 by (intros ->; done). by eapply IH.
Qed.

Lemma pretty_one_line (z : Z) : one_line (pretty z) = true.
Proof.
  destruct z as [|p|p]; [done| |].
  - by eapply digits_one_line, digits_pretty.
  - change (pretty (Z.neg p)) with ("-" +:+ pretty (Z.pos p)). rewrite one_line_app.
    by eapply digits_one_line, digits_pretty.
Qed.

(** What the lines of a message rely on: third-party texts have no newline. *)
Class MessageLibLaws `{MessageLib, TextCodecs} : Prop := {
  duration_line : forall d, one_line (format_duration d) = true;
  url_line : forall s, one_line (url_encode s) = true;
  hash_line : forall h, one_line (hash_display h) = true;
  hex_line : forall bs, one_line (hex_encode bs) = true;
}.

(** What totality relies on of [rust_decimal]: an unsigned integer is a [Decimal]
    when it fits its 96 bits, and an integer over an integer of at least one has a
    quotient. *)
Class DecimalRange `{DecimalLib} : Prop := {
  from_u128_range : forall n, 0 <= n -> is_Some (decimal_from_u128 n) <-> n < 2 ^ 96;
  div_defined : forall n m a b, 0 <= n -> 1 <= m ->
    decimal_from_u128 n = Some a -> decimal_from_u128 m = Some b -> is_Some (decimal_div a b);
}.

Section Format.
Context `{ChainTypes, !HashBytes, TextCodecs, DecimalLib, !MessageLib}.

(** ** Totality *)

(** The balances a message shows. *)
Definition shown_balances (a : Al.Alert) : list Z :=
  match a with
  | Al.AEvent (Al.EvTransfer e) => [Al.tk_amount e]
  | Al.AEvent (Al.EvLowBalance e) => [Al.lb_balance e; Al.lb_threshold e]
  | _ => []
  end.

Section Total.
Context `{!DecimalRange}.

Lemma decimals_cases d :
  0 <= d ->
  (d <= 28 /\ 10 ^ d < 2 ^ 96 /\ 1 <= 10 ^ d < 2 ^ 128) \/
  (28 < d /\ (2 ^ 128 <= 10 ^ d \/ 2 ^ 96 <= 10 ^ d < 2 ^ 128)).
Proof.
  intros Hd. destruct (Z.le_gt_cases d 28) as [Hle|Hgt].
  - left. assert (10 ^ d <= 10 ^ 28) by (apply Z.pow_le_mono_r; lia).
    assert (0 < 10 ^ d) by (apply Z.pow_pos_nonneg; lia). lia.
  - right. assert (10 ^ 29 <= 10 ^ d) by (apply Z.pow_le_mono_r; lia). lia.
Qed.

Lemma decimal_some n : 0 <= n < 2 ^ 96 -> exists d, decimal_from_u128 n = Some d.
Proof. intros Hn. apply from_u128_range; lia. Qed.

Lemma decimal_none n : 2 ^ 96 <= n -> decimal_from_u128 n = None.
Proof.
  intros Hn. apply eq_None_not_Some. intros Hs. apply from_u128_range in Hs; lia.
Qed.

Lemma format_balance_cases config balance :
  0 <= token_decimals config -> 0 <= balance ->
  (token_decimals config <= 28 /\ balance < 2 ^ 96 /\
     exists s, format_balance config balance = Ok s) \/
  ((28 < token_decimals config \/ 2 ^ 96 <= balance) /\ format_balance config balance = Panic).
Proof.
  intros Hd Hb. unfold format_balance, pow10_u.
  destruct (Z.le_gt_cases (2 ^ 96) balance) as [Hbig|Hsmall].
  { right. split; [by right|]. by rewrite (decimal_none balance). }
  destruct (decimal_some balance) as (a & Ha); [lia|]. rewrite Ha. cbn [expect mbind outcome_bind].
  destruct (decimals_cases (token_decimals config) Hd) as [(Hle & Hp & Hp') | (Hgt & Hp)].
  - left. split; [done|]. split; [lia|]. rewrite (proj2 (Z.ltb_lt _ _)) by lia.
    destruct (decimal_some (10 ^ token_decimals config)) as (b & Hb'); [lia|].
    cbn [expect mbind outcome_bind]. rewrite Hb'. cbn [expect mbind outcome_bind].
    destruct (div_defined _ _ a b Hb (proj1 Hp') Ha Hb') as [q ->]. cbn. eauto.
  - right. split; [by left|]. destruct Hp as [Hp|Hp].
    + by rewrite (proj2 (Z.ltb_ge _ _)) by lia.
    + rewrite (proj2 (Z.ltb_lt _ _)) by lia. cbn [expect mbind outcome_bind].
      by rewrite decimal_none by lia.
Qed.

(** C37: the formatter gives every alert a message, except for one it cannot
    show: a message that shows a balance exists exactly when the token has at most
    28 decimals and every balance in it is below 2^96, the range of a [Decimal];
    otherwise the formatter panics (and ends the Slack task). It never returns an
    error. *)
Theorem format_alert_total config a :
  0 <= token_decimals config -> Forall (fun b => 0 <= b) (shown_balances a) ->
  (exists s, format_alert config a = Ok s) /\
    Forall (fun b => token_decimals config <= 28 /\ b < 2 ^ 96) (shown_balances a) \/
  format_alert config a = Panic /\
    Exists (fun b => 28 < token_decimals config \/ 2 ^ 96 <= b) (shown_balances a).
Proof.
  intros Hd Hb.
  destruct a as [e| | | | | | |];
    [|left; split; [by eexists | constructor]..].
  destruct e as [e|e| | | [d n]| | | |];
    [| |left; split; [first [by eexists | destruct n; by eexists] | constructor]..].
  - cbn [shown_balances] in Hb. rewrite Forall_singleton in Hb. cbn [format_alert format_event shown_balances].
    unfold format_transfer.
    destruct (format_balance_cases config _ Hd Hb) as [(? & ? & s & Hs) | [? Hs]];
      rewrite Hs; cbn; [left | right].
    + split; [by eexists|]. by apply Forall_singleton.
    + split; [done|]. by apply Exists_cons_hd.
  - cbn [shown_balances] in Hb. apply Forall_cons in Hb as [Hb1 Hb2].
    rewrite Forall_singleton in Hb2. cbn [format_alert format_event shown_balances].
    unfold format_low_balance.
    destruct (format_balance_cases config _ Hd Hb1) as [(? & ? & s & Hs) | [? Hs]]; rewrite Hs; cbn.
    + destruct (format_balance_cases config _ Hd Hb2) as [(? & ? & t & Ht) | [? Ht]];
        rewrite Ht; cbn; [left | right].
      * split; [by eexists|]. by repeat constructor.
      * split; [done|]. by apply Exists_cons_tl, Exists_cons_hd.
    + right. split; [done|]. by apply Exists_cons_hd.
Qed.
End Total.
(** ** What the first line tells *)

Definition kind (a : Al.Alert) : nat :=
  match a with
  | Al.AEvent (Al.EvTransfer _) => 0
  | Al.AEvent (Al.EvLowBalance _) => 1
  | Al.AEvent (Al.EvDomainRuntimeUpgraded _) => 2
  | Al.AEvent (Al.EvDomainInstantiated _) => 3
  | Al.AEvent (Al.EvFraudProofProcessed _) => 4
  | Al.AEvent (Al.EvOperatorSlashed _) => 5
  | Al.AEvent (Al.EvOperatorOffline _) => 6
  | Al.AEvent Al.EvSudo => 7
  | Al.AEvent (Al.EvCodeUpdated _) => 8
  | Al.AChainStall _ => 9
  | Al.AChainRecovery _ => 10
  | Al.AReorg _ => 11
  | Al.ATimekeeperStall _ => 12
  | Al.ATimekeeperRecovery _ => 13
  | Al.ASlowSlot _ => 14
  | Al.AAvgSlowSlots _ => 15
  end%nat.

Definition titles : list string :=
  [ "**Balance transfer**"; "**Low balance warning**"; "**Domain runtime upgraded**";
    "**Domain instantiated**"; "**Fraud proof processed**"; "**Operator slashed**";
    "**Operator offline**"; "**Sudo event triggered**"; "**Runtime code updated**";
    "**Block production stalled**"; "**Block production resumed**"; "**Chain reorg**";
    "**Timekeeper stalled**"; "**Timekeeper resumed**"; "**Slow slot**";
    "**Average Slow slots**" ].

Lemma first_line config a s :
  format_alert config a = Ok s -> head (lines s) = titles !! kind a.
Proof.
  intros Ha. destruct a as [[e|e|e|e|[d [n|]]|e|e| |e]|e|e|e|e|e|e|e]; cbn in Ha.
  1: apply bind_Ok in Ha as (amount & _ & Ha).
  2: apply bind_Ok in Ha as (balance & _ & Ha); apply bind_Ok in Ha as (threshold & _ & Ha).
  all: injection Ha as <-; by rewrite ?lines_cons by done.
Qed.

Lemma titles_NoDup : NoDup titles.
Proof. by apply (bool_decide_unpack _). Qed.

Lemma kind_bound a : (kind a < length titles)%nat.
Proof. destruct a as [[]| | | | | | |]; cbn; lia. Qed.

(** The first line of a message tells what happened: two alerts whose messages
    begin with the same line are of the same kind, whatever accounts, amounts or
    blocks they carry. *)
Theorem message_first_line config a b s t :
  format_alert config a = Ok s -> format_alert config b = Ok t ->
  head (lines s) = head (lines t) -> kind a = kind b.
Proof.
  intros Ha Hb Hst. rewrite (first_line _ _ _ Ha), (first_line _ _ _ Hb) in Hst.
  destruct (lookup_lt_is_Some_2 titles (kind a) (kind_bound a)) as [x Hx].
  rewrite Hx in Hst. by apply (NoDup_lookup titles _ _ x titles_NoDup Hx).
Qed.

(** A slashed operator's bad receipt is shown with the quotes of [Debug]. *)
Lemma receipt_is_quoted h :
  slashed_reason (Al.BadExecutionReceipt h) =
    "Bad execution receipt: 0x" +:+ quote +:+ hex_encode h +:+ quote.
Proof. reflexivity. Qed.

(** ** Reorgs *)

Section Reorg.
Context `{!MessageLibLaws}.

Lemma block_one_line config b : one_line (format_hash_and_number config b) = true.
Proof.
  unfold format_hash_and_number. cbv zeta.
  by rewrite !one_line_app, url_line, hex_line, hash_line, pretty_one_line.
Qed.

(** The lines of a list of blocks: one per block, or an empty line. *)
Definition block_lines config (l : list HashAndNumber) : list string :=
  joined (map (fun b => "- " +:+ format_hash_and_number config b) l).

Lemma lines_blocks config l t :
  lines (format_hash_and_number_list config l +:+ nl +:+ t) = block_lines config l ++ lines t.
Proof.
  apply lines_join, Forall_forall. intros x Hx. apply list_elem_of_fmap in Hx as (b & -> & _).
  by rewrite one_line_app, block_one_line.
Qed.

(** The message of a reorg names every block: the new best block, the common ancestor,
    the retracted blocks one per line in their order, the enacted blocks the same
    way, and the depth, which is the number of retracted lines. *)
Definition reorg_lines config (r : Al.ChainReorg) : list string :=
  [ "**Chain reorg**";
    "Best block: " +:+ format_hash_and_number config (Al.cg_best_block r);
    "Common block: " +:+ format_hash_and_number config (Al.cg_common_block r);
    "Retracted blocks:" ] ++ block_lines config (Al.cg_retracted r) ++
  [ "Enacted blocks:" ] ++ block_lines config (Al.cg_enacted r) ++
  [ "Reorg Depth: " +:+ pretty (Z.of_nat (length (Al.cg_retracted r))) ].

Lemma reorg_message config r s :
  format_alert config (Al.AReorg r) = Ok s -> lines s = reorg_lines config r.
Proof.
  intros [= <-]. unfold format_reorg, reorg_lines.
  assert (Hb : forall b, one_line (format_hash_and_number config b) = true)
    by apply block_one_line.
  repeat first [rewrite lines_cons by (by rewrite ?one_line_app, ?Hb)
    | rewrite <- (append_assoc "Best block: ") | rewrite <- (append_assoc "Common block: ")].
  rewrite lines_blocks, lines_cons, lines_blocks, lines_one; [done| |done].
  by rewrite one_line_app, pretty_one_line.
Qed.
End Reorg.
End Format.

(** ** Witnesses *)

Lemma toy_hex_line bs : one_line (toy_hex bs) = true.
Proof.
  induction bs as [|b bs IH]; [done|].
  change (toy_hex (b :: bs)) with (toy_hex [b] +:+ toy_hex bs). rewrite one_line_app, IH.
  by destruct b.
Qed.

#[export] Instance toy_messages : MessageLib := {
  format_duration d := pretty (d / 10 ^ 9) +:+ "s";
  url_encode s := toy_hex (String.list_byte_of_string s);
  hash_display h := "0x" +:+ toy_hex (hash_bytes h) }.

#[export] Instance toy_messages_laws : MessageLibLaws.
Proof.
  split.
  - intros d. cbn. by rewrite one_line_app, pretty_one_line.
  - intros s. apply toy_hex_line.
  - intros h. cbn. by rewrite ?one_line_app, toy_hex_line.
  - apply toy_hex_line.
Qed.

#[export] Instance toy_decimal_range : DecimalRange.
Proof.
  split.
  - intros n Hn. cbn [decimal_from_u128 toy_decimal].
    destruct (Z.ltb_spec n (2 ^ 96)); split; intros Hs; [done | by eexists | | lia].
    by apply is_Some_None in Hs.
  - intros n m a b _ Hm _. cbn [decimal_from_u128 decimal_div toy_decimal].
    destruct (m <? 2 ^ 96); [|done]. intros [= <-].
    rewrite (proj2 (Z.eqb_neq _ _)) by lia. by eexists.
Qed.

Definition toy_format : FormatConfig :=
  {| rpc_url := "ws://node"; token_name := "AI3"; token_decimals := 18 |}.

Definition low_balance (balance : Z) : Al.Alert := Al.AEvent (Al.EvLowBalance {|
  Al.lb_name := "faucet"; Al.lb_address := "5F"; Al.lb_balance := balance;
  Al.lb_threshold := 10 ^ 21 |}).

Lemma format_alert_total_witness :
  (exists s, format_alert toy_format (low_balance 1) = Ok s) /\
  format_alert toy_format (low_balance (2 ^ 100)) = Panic.
Proof.
  split.
  - destruct (format_alert_total toy_format (low_balance 1)) as [[Hs _] | [_ Hs]];
      [done | by repeat constructor | exact Hs |].
    apply Exists_cons in Hs as [[Hs|Hs] | Hs]; [by cbn in Hs | by cbn in Hs |].
    apply Exists_cons in Hs as [[Hs|Hs] | Hs]; [by cbn in Hs | by cbn in Hs |].
    by apply Exists_nil in Hs.
  - destruct (format_alert_total toy_format (low_balance (2 ^ 100))) as [[_ Hs] | [Hs _]];
      [done | by repeat constructor | | exact Hs].
    apply Forall_cons in Hs as [[_ Hs] _]. by cbn in Hs.
Defined.

Lemma message_first_line_witness :
  exists s t, format_alert toy_format (low_balance 1) = Ok s /\
    format_alert toy_format (low_balance 2) = Ok t /\
    kind (low_balance 1) = kind (low_balance 2).
Proof.
  eexists _, _. split; [vm_compute; reflexivity|]. split; [vm_compute; reflexivity|].
  eapply (message_first_line toy_format); vm_compute; reflexivity.
Defined.
