(* ===== verification/Slack.v ===== *)
(** * The Slack client

    Models [alerter/src/slack.rs] around the calls of [slack_morphism]: loading
    the secret, the channel's name, and the loop that posts every alert of the
    stream. The file system and what Slack answers are arguments. *)

From Stdlib Require Import Strings.Byte Strings.Ascii.
From S2P Require Import Prelude HeadersCache BlockListener Types Chain Db Alerts MdFormat.

(** ** [str::trim] *)

(** The UTF-8 encodings of the characters with the property White_Space. *)
Definition white_space : list (list N) :=
  ([[9]; [10]; [11]; [12]; [13]; [32]; [0xC2; 0x85]; [0xC2; 0xA0]; [0xE1; 0x9A; 0x80]] ++
   map (fun b => [0xE2; 0x80; b])
     [0x80; 0x81; 0x82; 0x83; 0x84; 0x85; 0x86; 0x87; 0x88; 0x89; 0x8A; 0xA8; 0xA9; 0xAF] ++
   [[0xE2; 0x81; 0x9F]; [0xE3; 0x80; 0x80]])%N.

(** [l] without a pattern at its front. *)
Fixpoint strip_pattern (p l : list N) : option (list N) :=
  match p, l with
  | [], _ => Some l
  | x :: p, y :: l => if bool_decide (x = y) then strip_pattern p l else None
  | _ :: _, [] => None
  end.

Fixpoint strip_any (ps : list (list N)) (l : list N) : option (list N) :=
  match ps with
  | [] => None
  | p :: ps => match strip_pattern p l with Some l' => Some l' | None => strip_any ps l end
  end.

(** Strips patterns off the front; no pattern is empty, so there are at most as many
    as characters. *)
Fixpoint trim_front (ps : list (list N)) (fuel : nat) (l : list N) : list N :=
  match fuel with
  | O => l
  | S fuel => match strip_any ps l with Some l' => trim_front ps fuel l' | None => l end
  end.

Definition codes (s : string) : list N := map N_of_ascii (String.list_ascii_of_string s).
Definition text (l : list N) : string := String.string_of_list_ascii (map ascii_of_N l).

Definition trim_codes (l : list N) : list N :=
  let front := trim_front white_space (length l) l in
  rev (trim_front (map (@rev N) white_space) (length front) (rev front)).

Definition trim (s : string) : string := text (trim_codes (codes s)).

(** ** The secret *)

(** The calls on the file system: the permission bits of a file, and its text. *)
Record Files : Type := {
  metadata_mode : string -> outcome string Z;
  read_to_string : string -> outcome string string;
}.

(** [SlackApiToken]. *)
Record SlackApiToken : Type := { token_value : string; token_team_id : string }.

Definition USER_READ_ONLY : Z := 256.    (* 0o400 *)
Definition USER_READ_WRITE : Z := 384.   (* 0o600 *)

Section Slack.
Context `{ChainTypes, !HashBytes, TextCodecs, DecimalLib, !MessageLib}.

(** [SlackSecret::new]; the [assert!] panics. *)
Definition SlackSecret_new (files : Files) (path team_id : string)
    : outcome Al.Error SlackApiToken :=
  secret_perms ← map_err Al.Io (metadata_mode files path);
  let mode := Z.land secret_perms 511 in   (* 0o777 *)
  if (mode =? USER_READ_ONLY) || (mode =? USER_READ_WRITE) then
    secret ← map_err Al.Io (read_to_string files path);
    let secret := trim secret in
    if bool_decide (secret = "") then Err (Al.Config "Slack Secret cannot be empty")
    else mret {| token_value := secret; token_team_id := team_id |}
  else Panic.

(** ** The alerter *)

Record SlackConfig : Type := {
  slack_team_id : string;
  slack_bot_name : string;
  slack_bot_icon : string;
  slack_channel_name : string;
  slack_secret_path : string;
}.

Record SlackAlerter : Type := {
  bot_name : string;
  bot_icon : string;
  channel_name : string;
  secret : SlackApiToken;
}.

(** [format!("#{}", name.strip_prefix("#").unwrap_or(&name))] *)
Definition channel_of (name : string) : string :=
  "#" +:+ match name with
          | String c rest => if bool_decide (c = "#"%char) then rest else name
          | EmptyString => name
          end.

Definition SlackAlerter_new (files : Files) (config : SlackConfig)
    : outcome Al.Error SlackAlerter :=
  secret ← SlackSecret_new files (slack_secret_path config) (slack_team_id config);
  mret {| bot_name := slack_bot_name config; bot_icon := slack_bot_icon config;
          channel_name := channel_of (slack_channel_name config); secret := secret |}.

(** [SlackApiChatPostMessageRequest], with the fields the code sets: the one
    Markdown block, and no unfurled links. *)
Record ChatPostMessage : Type := {
  cp_channel : string;
  cp_markdown : string;
  cp_icon_emoji : string;
  cp_username : string;
  cp_unfurl_links : bool;
}.

(** [env!("CARGO_PKG_VERSION")] *)
Definition CARGO_PKG_VERSION : string := "1.2.1".

Definition chat_post (slack : SlackAlerter) (markdown : string) : ChatPostMessage := {|
  cp_channel := channel_name slack;
  cp_markdown := markdown;
  cp_icon_emoji := bot_icon slack;
  cp_username := bot_name slack +:+ "(" +:+ CARGO_PKG_VERSION +:+ ")";
  cp_unfurl_links := false |}.

(** One round of the loop: an alert, and what Slack answers to the post, [None] for
    success. A failed post is only logged. The state is the requests sent. *)
Definition post_alert (slack : SlackAlerter) (format_config : FormatConfig)
    (round : Al.Alert * option string) : SE (list ChatPostMessage) Al.Error unit :=
  let '(alert, answer) := round in
  markdown ← lift (format_alert format_config alert);
  _ ← modify (fun posted => posted ++ [chat_post slack markdown]);
  match answer with
  | Some _err => mret tt
  | None => mret tt
  end.

(** What Slack answers while the client starts. *)
Record SlackApi : Type := {
  connector : outcome string unit;   (** [SlackClientHyperConnector::new()] *)
  auth_test : outcome string unit;   (** [session.auth_test()] *)
}.

(** [run]: the alerts of the stream until it is closed. *)
Definition run_slack (slack : SlackAlerter) (format_config : FormatConfig) (api : SlackApi)
    (stream : list (Al.Alert * option string)) : SE (list ChatPostMessage) Al.Error unit :=
  _ ← lift (map_err Al.Io (connector api));
  _ ← lift (map_err Al.Slack (auth_test api));
  _ ← for_each stream (post_alert slack format_config);
  throw (Al.App "Slack stream closed").
End Slack.
