(* ===== verification/SlackProps.v ===== *)
(** * Theorems on the Slack client

    [secret_loaded]: what a loaded secret is and when loading fails;
    [slack_posts]: the requests the loop sends for a stream of alerts. *)

From Stdlib Require Import Strings.Byte Strings.Ascii.
From S2P Require Import Prelude HeadersCache BlockListener ToyChain Types Chain Db ToyIndexer.
From S2P Require Import Alerts MdFormat MdFormatProps Slack.

(** ** Trimming *)

Lemma strip_pattern_Some p l l' : strip_pattern p l = Some l' <-> l = p ++ l'.
Proof.
  revert l. induction p as [|x p IH]; intros l; cbn [strip_pattern app]; [naive_solver|].
  destruct l as [|y l]; [done|]. case_bool_decide as Hxy; [subst|naive_solver].
  rewrite IH. naive_solver.
Qed.

Lemma strip_any_Some ps l l' :
  strip_any ps l = Some l' -> exists p, p ∈ ps /\ l = p ++ l'.
Proof.
  induction ps as [|p ps IH]; cbn [strip_any]; [done|].
  destruct (strip_pattern p l) as [m|] eqn:Hp.
  - intros [= <-]. exists p. split; [left | by apply strip_pattern_Some].
  - intros Hs. destruct (IH Hs) as (p' & ? & ?). exists p'. split; [by right | done].
Qed.

Lemma strip_any_None ps l : strip_any ps l = None -> forall p l', p ∈ ps -> l <> p ++ l'.
Proof.
  induction ps as [|q ps IH]; cbn [strip_any]; intros Hs p l' Hp; [by apply elem_of_nil in Hp|].
  destruct (strip_pattern q l) as [m|] eqn:Hq; [done|].
  apply elem_of_cons in Hp as [->|Hp]; [|by apply IH].
  intros Hl%strip_pattern_Some. congruence.
Qed.

Lemma trim_front_spec ps fuel l :
  [] ∉ ps -> (length l <= fuel)%nat ->
  exists pre, l = concat pre ++ trim_front ps fuel l /\ Forall (fun p => p ∈ ps) pre /\
    forall p l', p ∈ ps -> trim_front ps fuel l <> p ++ l'.
Proof.
  intros Hne. revert l. induction fuel as [|fuel IH]; intros l Hl; cbn [trim_front].
  - destruct l; [|cbn in Hl; lia]. exists []. split_and!; [done..|].
    intros [|x p] l' Hp; [done|discriminate].
  - destruct (strip_any ps l) as [m|] eqn:Hs.
    + destruct (strip_any_Some _ _ _ Hs) as (p & Hp & ->). rewrite length_app in Hl.
      destruct p as [|x p]; [done|]. cbn in Hl. destruct (IH m) as (pre & Hm & Hpre & Hno); [lia|].
      exists ((x :: p) :: pre). split_and!; [|by constructor | done].
      cbn [concat]. by rewrite <- app_assoc, <- Hm.
    + exists []. split_and!; [done..|]. by apply strip_any_None.
Qed.

Lemma rev_concat (l : list (list N)) : rev (concat l) = concat (rev (map (@rev N) l)).
Proof.
  induction l as [|x l IH]; [done|]. cbn [concat map rev].
  rewrite rev_app_distr, IH, concat_app. cbn [concat]. by rewrite app_nil_r.
Qed.

Lemma white_space_nonempty : [] ∉ white_space.
Proof. by apply (bool_decide_unpack _). Qed.

(** Characters that are all white space. *)
Definition blank_codes (l : list N) : Prop :=
  exists ps, l = concat ps /\ Forall (fun p => p ∈ white_space) ps.

Lemma trim_codes_spec l :
  exists a b, l = a ++ trim_codes l ++ b /\ blank_codes a /\ blank_codes b /\
    forall p m, p ∈ white_space -> trim_codes l <> p ++ m /\ trim_codes l <> m ++ p.
Proof.
  destruct (trim_front_spec white_space (length l) l white_space_nonempty)
    as (pre & Hl & Hpre & Hfront); [done|].
  unfold trim_codes. set (front := trim_front white_space (length l) l) in *.
  destruct (trim_front_spec (map (@rev N) white_space) (length front) (rev front))
    as (post & Hr & Hpost & Hback).
  { intros Hin. apply list_elem_of_fmap in Hin as (p & Hp & Hin).
    destruct p as [|x p]; [by apply white_space_nonempty|]. by apply app_cons_not_nil in Hp. }
  { by rewrite length_rev. }
  set (back := trim_front _ _ (rev front)) in *.
  assert (Hfr : front = rev back ++ concat (rev (map (@rev N) post))).
  { rewrite <- rev_concat, <- rev_app_distr, <- Hr. by rewrite rev_involutive. }
  exists (concat pre), (concat (rev (map (@rev N) post))). split_and!.
  - by rewrite <- Hfr.
  - by exists pre.
  - exists (rev (map (@rev N) post)). split; [done|]. rewrite Forall_forall in Hpost |- *.
    intros q Hq. apply list_elem_of_In, in_rev, list_elem_of_In in Hq.
    apply list_elem_of_fmap in Hq as (p & -> & Hp).
    apply Hpost, list_elem_of_fmap in Hp as (w & -> & Hw). by rewrite rev_involutive.
  - intros p m Hp. split; intros Hm.
    + apply (Hfront p (m ++ concat (rev (map (@rev N) post))) Hp).
      by rewrite Hfr, Hm, <- app_assoc.
    + apply (Hback (rev p) (rev m)); [by apply list_elem_of_fmap; exists p|].
      by rewrite <- rev_app_distr, <- Hm, rev_involutive.
Qed.

Definition blank (s : string) : Prop := blank_codes (codes s).

(** No white space at either end. *)
Definition trimmed (s : string) : Prop :=
  forall p m, p ∈ white_space -> codes s <> p ++ m /\ codes s <> m ++ p.

Lemma text_app l k : text (l ++ k) = text l +:+ text k.
Proof.
  unfold text. rewrite map_app. induction (map ascii_of_N l) as [|c l' IH]; [done|]. cbn.
  by rewrite IH.
Qed.

Lemma text_codes s : text (codes s) = s.
Proof.
  unfold text, codes. rewrite map_map, (map_ext _ id) by apply ascii_N_embedding.
  by rewrite map_id, String.string_of_list_ascii_of_string.
Qed.

(** Any piece of the characters of a text is the characters of a text. *)
Lemma codes_text s a t b : codes s = a ++ t ++ b -> codes (text t) = t.
Proof.
  intros Hs. apply map_eq_app in Hs as (la & l' & _ & _ & Hl').
  apply map_eq_app in Hl' as (lt & lb & _ & <- & _). unfold codes, text.
  rewrite map_map, (map_ext _ id) by apply ascii_N_embedding.
  by rewrite map_id, String.list_ascii_of_string_of_list_ascii.
Qed.

Lemma trim_spec s :
  exists a b, s = a +:+ trim s +:+ b /\ blank a /\ blank b /\ trimmed (trim s).
Proof.
  destruct (trim_codes_spec (codes s)) as (a & b & Hs & Ha & Hb & Ht).
  exists (text a), (text b). unfold trim, blank, trimmed.
  assert (Hc : codes (text a) = a) by by apply (codes_text s []  a (trim_codes (codes s) ++ b)).
  assert (Hd : codes (text b) = b).
  { apply (codes_text s (a ++ trim_codes (codes s)) b []). by rewrite app_nil_r, <- app_assoc. }
  rewrite Hc, Hd, (codes_text _ _ _ _ Hs). split_and!; [|done..].
  by rewrite <- !text_app, <- Hs, text_codes.
Qed.

Section Secret.
Context `{ChainTypes}.

(** Nobody but the owner may read the file. *)
Definition private (mode : Z) : Prop :=
  Z.land mode 511 = USER_READ_ONLY \/ Z.land mode 511 = USER_READ_WRITE.

Lemma private_owner_only mode : private mode -> Z.land mode 63 = 0 /\ Z.land mode 64 = 0.
Proof.
  intros Hp.
  assert (Hsub : forall k, Z.land 511 k = k -> Z.land mode k = Z.land (Z.land mode 511) k)
    by (intros k Hk; by rewrite <- Z.land_assoc, Hk).
  rewrite (Hsub 63), (Hsub 64) by done. by destruct Hp as [-> | ->].
Qed.

Lemma private_bool mode :
  (Z.land mode 511 =? USER_READ_ONLY) || (Z.land mode 511 =? USER_READ_WRITE) = true <->
  private mode.
Proof. by rewrite orb_true_iff, !Z.eqb_eq. Qed.

(** C38: the secret is only taken from a private file. When [SlackSecret::new]
    returns a token, the file's mode is 0400 or 0600, so that group and others have
    no access and it is not executable, and the token is the file's text without
    the white space (of Unicode) around it, and not empty. A file with any other mode
    makes it panic, before the content is read; a private file with nothing but
    white space is a configuration error; and a failed access is an I/O error. *)
Theorem secret_loaded files path team :
  (forall tok, SlackSecret_new files path team = Ok tok ->
     exists mode content a b,
       metadata_mode files path = Ok mode /\ private mode /\
       Z.land mode 63 = 0 /\ Z.land mode 64 = 0 /\
       read_to_string files path = Ok content /\ content = a +:+ token_value tok +:+ b /\
       blank a /\ blank b /\ trimmed (token_value tok) /\ token_value tok <> "" /\
       token_team_id tok = team) /\
  (forall mode, metadata_mode files path = Ok mode -> ~ private mode ->
     SlackSecret_new files path team = Panic) /\
  (forall mode content, metadata_mode files path = Ok mode -> private mode ->
     read_to_string files path = Ok content ->
     trim content = "" <-> SlackSecret_new files path team =
                             Err (Al.Config "Slack Secret cannot be empty")) /\
  (forall msg, metadata_mode files path = Err msg ->
     SlackSecret_new files path team = Err (Al.Io msg)) /\
  (forall mode msg, metadata_mode files path = Ok mode -> private mode ->
     read_to_string files path = Err msg -> SlackSecret_new files path team = Err (Al.Io msg)).
Proof.
  unfold SlackSecret_new. split_and!.
  - intros tok Hok. apply bind_Ok in Hok as (mode & Hmode & Hok). cbv zeta in Hok.
    destruct (_ || _) eqn:Hp in Hok; [|done]. apply private_bool in Hp.
    apply bind_Ok in Hok as (content & Hread & Hok).
    case_bool_decide as Hne; [done|]. injection Hok as <-.
    destruct (trim_spec content) as (a & b & Hc & Ha & Hb & Ht).
    destruct (private_owner_only mode Hp). exists mode, content, a, b. cbn.
    destruct (metadata_mode files path), (read_to_string files path); try done.
    injection Hmode as ->. injection Hread as ->. by split_and!.
  - intros mode -> Hp. cbn. destruct (_ || _) eqn:Hb; [|done]. by apply private_bool in Hb.
  - intros mode content -> Hp ->. cbn. rewrite (proj2 (private_bool mode) Hp).
    case_bool_decide; split; by intros.
  - by intros msg ->.
  - intros mode msg -> Hp ->. cbn. by rewrite (proj2 (private_bool mode) Hp).
Qed.
End Secret.

(** ** The loop *)

Section Loop.
Context `{ChainTypes, !HashBytes, TextCodecs, DecimalLib, !MessageLib}.
Context (slack : SlackAlerter) (config : FormatConfig).

Lemma post_texts stream texts posted :
  Forall2 (fun round t => format_alert config round.1 = Ok t) stream texts ->
  for_each stream (post_alert slack config) posted =
    (posted ++ map (chat_post slack) texts, Ok tt).
Proof.
  intros Hall. revert posted. induction Hall as [|[a answer] t stream texts Ha _ IH]; intros posted.
  { by rewrite app_nil_r. }
  cbn [for_each map]. rewrite SE_bind_unfold. cbn [fst] in Ha.
  assert (post_alert slack config (a, answer) posted = (posted ++ [chat_post slack t], Ok tt)) as ->.
  { cbn [post_alert]. rewrite Ha. by destruct answer. }
  by rewrite IH, <- app_assoc.
Qed.

Lemma Forall2_sublist {A B} (R : A -> B -> Prop) sent l texts :
  sublist sent l -> Forall2 R l texts -> exists ts, Forall2 R sent ts /\ sublist ts texts.
Proof.
  intros Hs. revert texts. induction Hs as [|x sent l _ IH|x sent l _ IH]; intros texts Hall.
  - exists []. split; [constructor | apply sublist_nil_l].
  - apply Forall2_cons_inv_l in Hall as (t & texts' & Hx & Hall & ->).
    destruct (IH _ Hall) as (ts & ? & ?). exists (t :: ts). split; by constructor.
  - apply Forall2_cons_inv_l in Hall as (t & texts' & Hx & Hall & ->).
    destruct (IH _ Hall) as (ts & ? & ?). exists ts. split; [done | by constructor].
Qed.

(** Behind an accepted session, the loop is the posts and the end of the stream. *)
Lemma run_slack_accepted api l :
  connector api = Ok tt -> auth_test api = Ok tt ->
  run_slack slack config api l [] =
    (for_each l (post_alert slack config) ≫= fun _ => throw (Al.App "Slack stream closed")) [].
Proof. intros Hc Ha. unfold run_slack. by rewrite Hc, Ha. Qed.

Lemma run_slack_posts api stream texts :
  connector api = Ok tt -> auth_test api = Ok tt ->
  Forall2 (fun round t => format_alert config round.1 = Ok t) stream texts ->
  run_slack slack config api stream [] =
    (map (chat_post slack) texts, Err (Al.App "Slack stream closed")).
Proof.
  intros Hc Ha Hall. rewrite run_slack_accepted, SE_bind_unfold by done.
  by rewrite (post_texts _ _ [] Hall).
Qed.

(** C39: every alert is posted, once and in its order. Once Slack has accepted the
    session, the loop sends one request per alert of the stream with its message,
    whichever posts fail, until the stream closes, which is an error; so a monitor
    that sent some of the alerts finds its messages posted in its order. An alert
    without a message ends the loop with the posts before it sent and none after
    it. When the session cannot be opened nothing is posted. *)
Theorem slack_posts api stream :
  (connector api = Ok tt -> auth_test api = Ok tt ->
   forall texts, Forall2 (fun round t => format_alert config round.1 = Ok t) stream texts ->
     run_slack slack config api stream [] =
       (map (chat_post slack) texts, Err (Al.App "Slack stream closed")) /\
     (forall sent, sublist sent (fst <$> stream) -> exists ts,
        Forall2 (fun a t => format_alert config a = Ok t) sent ts /\
        sublist (map (chat_post slack) ts) (run_slack slack config api stream []).1) /\
     (forall a answer rest, format_alert config a = Panic ->
        run_slack slack config api (stream ++ (a, answer) :: rest) [] =
          (map (chat_post slack) texts, Panic))) /\
  (forall msg, connector api = Err msg \/ connector api = Ok tt /\ auth_test api = Err msg ->
     exists e, run_slack slack config api stream [] = ([], Err e)).
Proof.
  split.
  - intros Hc Ha texts Hall.
    rewrite (run_slack_posts _ _ _ Hc Ha Hall). split_and!; [done|..].
    + intros sent Hsent. destruct (Forall2_sublist
        (fun a t => format_alert config a = Ok t) sent (fst <$> stream) texts Hsent)
        as (ts & Hts & Hsub); [by apply Forall2_fmap_l|].
      exists ts. split; [done|]. by apply (fmap_sublist (chat_post slack)).
    + intros a answer rest Hp. rewrite run_slack_accepted, SE_bind_unfold by done.
      rewrite for_each_app, SE_bind_unfold, (post_texts _ _ [] Hall). cbn [for_each].
      rewrite SE_bind_unfold. cbn [post_alert]. by rewrite Hp.
  - intros msg Hfail. unfold run_slack. destruct Hfail as [Hc | [Hc Ha]].
    + rewrite Hc. by eexists.
    + rewrite Hc, Ha. by eexists.
Qed.
End Loop.

(** ** Witnesses *)

Definition toy_files (mode : Z) (content : string) : Files := {|
  metadata_mode _ := Ok mode; read_to_string _ := Ok content |}.

Lemma secret_loaded_witness :
  (exists a b, " xoxb-1 " = a +:+ "xoxb-1" +:+ b) /\
  SlackSecret_new (toy_files 33188 "xoxb-1") "/slack-secret" "T" = Panic.
Proof.
  split.
  - destruct (proj1 (secret_loaded (toy_files 33152 " xoxb-1 ") "/slack-secret" "T")
      {| token_value := "xoxb-1"; token_team_id := "T" |})
      as (mode & content & a & b & _ & _ & _ & _ & Hc & Hab & _); [vm_compute; reflexivity|].
    exists a, b. injection Hc as ->. exact Hab.
  - apply (proj1 (proj2 (secret_loaded (toy_files 33188 "xoxb-1") "/slack-secret" "T")) 33188);
      [reflexivity | intros [Hp|Hp]; discriminate Hp].
Defined.

Definition toy_slack : SlackAlerter := {|
  bot_name := "bot"; bot_icon := "robot_face"; channel_name := channel_of "chain-alerts";
  secret := {| token_value := "xoxb-1"; token_team_id := "T" |} |}.

Definition message (a : Al.Alert) : string :=
  match format_alert toy_format a with Ok s => s | _ => "" end.

Lemma slack_posts_witness :
  run_slack toy_slack toy_format {| connector := Ok tt; auth_test := Ok tt |}
      [(low_balance 1, Some "rate limited"); (low_balance 2, None)] [] =
    (map (chat_post toy_slack) [message (low_balance 1); message (low_balance 2)],
     Err (Al.App "Slack stream closed")).
Proof.
  refine (proj1 (proj1 (slack_posts toy_slack toy_format
    {| connector := Ok tt; auth_test := Ok tt |}
    [(low_balance 1, Some "rate limited"); (low_balance 2, None)]) eq_refl eq_refl
    [message (low_balance 1); message (low_balance 2)] _)).
  constructor; [vm_compute; reflexivity|]. constructor; [vm_compute; reflexivity | constructor].
Defined.
