(* ===== verification/AlertPath.v ===== *)
(** * From the node to Slack

    The listener, the stall and reorg monitor, the formatter and the Slack loop
    composed: what becomes of a reorganisation of the node's chain. *)

From S2P Require Import Prelude HeadersCache TreeRoute BlockListener BlockListenerFacts ToyChain.
From S2P Require Import ListenerProps Types Chain Db IndexerError ToyIndexer Alerts StallReorg.
From S2P Require Import StallReorgProps MdFormat MdFormatProps Slack SlackProps NodeChains.

Section Path.
Context `{HeaderHashing, !CollisionFree, !TreeRouteAlgo, !TreeRouteLaws}.
Context `{!HashBytes, TextCodecs, DecimalLib, !MessageLib, !MessageLibLaws}.
Context (valid : Header -> Prop).






End Path.

(** ** Witness: the switch from [a2] to [b3], two blocks deep *)






