(* ===== verification/P2p.v ===== *)
(** * The peer-to-peer network

    Models [Network] of [alerter/src/p2p_network.rs]: the peers it knows by role,
    the proofs of time it broadcasts and the calls it makes to the libp2p swarm.
    One step handles one event of the swarm or one tick of the discovery interval;
    what dialing answers is only logged. Building the swarm is libp2p's. *)

From Stdlib Require Import Strings.Byte.
From S2P Require Import Prelude HeadersCache BlockListener Types Alerts Slots.

Class P2pTypes : Type := {
  PeerId : Type;
  #[global] PeerId_eq :: EqDecision PeerId;
  #[global] PeerId_countable :: Countable PeerId;
  Multiaddr : Type;
  (** [Multiaddr::iter]: for each protocol of the address, the peer it names when it
      is [P2p] *)
  addr_protocols : Multiaddr -> list (option PeerId);
  (** [BlockAnnouncesHandshake], which the code does not look at *)
  BlockAnnouncesHandshake : Type;
}.

Section P2p.
Context `{P2pTypes}.

Inductive ProtocolRole : Type := FullNode | LightNode | Authority.

(** [notifications::behavior::Event]. *)
Inductive NotificationsEvent (M : Type) : Type :=
  | ProtocolOpen (peer_id : PeerId) (role : ProtocolRole)
  | ProtocolClosed (peer_id : PeerId)
  | Notification (peer_id : PeerId) (message : M).
Arguments ProtocolOpen {M} _ _.
Arguments ProtocolClosed {M} _.
Arguments Notification {M} _ _.

Inductive KadEvent : Type :=
  | RoutablePeer (peer : PeerId) (address : Multiaddr)
  | OtherKadEvent.

(** The events of the derived [Behavior]; those of the connection limits carry
    nothing. *)
Inductive BehaviorEvent : Type :=
  | DiscoveryEvent (event : KadEvent)
  | PotNotifications (event : NotificationsEvent GossipProof)
  | BlockAnnounce (event : NotificationsEvent BlockAnnouncesHandshake)
  | ConnectionLimits.

Inductive SwarmEvent : Type :=
  | Behaviour (event : BehaviorEvent)
  | ConnectionClosed (peer_id : PeerId) (num_established : Z)
  | OtherSwarmEvent.

(** The calls to the swarm. *)
Inductive SwarmCall : Type :=
  | Dial (address : Multiaddr)
  | AddAddress (peer : PeerId) (address : Multiaddr)
  | GetClosestPeers (peer : PeerId).

(** [Network]: [swarm_calls] is what the swarm was asked, [pot_sent] what went into
    [pot_sink]. *)
Record Network : Type := {
  authorities : gset PeerId;
  fullnodes : gset PeerId;
  pot_sent : list PoTInfo;
  swarm_calls : list SwarmCall;
}.

(** [Network::new]. *)
Definition new_network : Network :=
  {| authorities := ∅; fullnodes := ∅; pot_sent := []; swarm_calls := [] |}.

Definition call (c : SwarmCall) (n : Network) : Network := {|
  authorities := authorities n; fullnodes := fullnodes n; pot_sent := pot_sent n;
  swarm_calls := swarm_calls n ++ [c] |}.

Definition add_peer_role (peer : PeerId) (role : ProtocolRole) (n : Network) : Network :=
  match role with
  | FullNode => {|
      authorities := authorities n ∖ {[peer]}; fullnodes := {[peer]} ∪ fullnodes n;
      pot_sent := pot_sent n; swarm_calls := swarm_calls n |}
  | LightNode => n
  | Authority => {|
      authorities := {[peer]} ∪ authorities n; fullnodes := fullnodes n ∖ {[peer]};
      pot_sent := pot_sent n; swarm_calls := swarm_calls n |}
  end.

(** [pot_sink.send(PoTInfo { at: Instant::now(), .. })]; the network holds a
    receiver itself, so that the channel is never closed. *)
Definition send_pot (now : Z) (message : GossipProof) (n : Network) : Network := {|
  authorities := authorities n; fullnodes := fullnodes n;
  pot_sent := pot_sent n ++ [{| at_ := now; proof := message |}];
  swarm_calls := swarm_calls n |}.

Definition remove_peer (peer : PeerId) (n : Network) : Network := {|
  authorities := authorities n ∖ {[peer]}; fullnodes := fullnodes n ∖ {[peer]};
  pot_sent := pot_sent n; swarm_calls := swarm_calls n |}.

Definition handle_event (now : Z) (event : SwarmEvent) (n : Network) : Network :=
  match event with
  | Behaviour (DiscoveryEvent (RoutablePeer _peer address)) => call (Dial address) n
  | Behaviour (DiscoveryEvent OtherKadEvent) => n
  | Behaviour (PotNotifications (ProtocolOpen peer_id role)) => add_peer_role peer_id role n
  | Behaviour (PotNotifications (ProtocolClosed _)) => n
  | Behaviour (PotNotifications (Notification _peer_id message)) => send_pot now message n
  | Behaviour (BlockAnnounce (ProtocolOpen peer_id role)) => add_peer_role peer_id role n
  | Behaviour (BlockAnnounce _) => n
  | Behaviour ConnectionLimits => n
  | ConnectionClosed peer_id num_established =>
      if num_established =? 0 then remove_peer peer_id n else n
  | OtherSwarmEvent => n
  end.

(** [addr.iter().find_map(..)] *)
Definition extract_peer_id (addr : Multiaddr) : option PeerId :=
  head (omap id (addr_protocols addr)).

Definition dial_bootnode (n : Network) (addr : Multiaddr) : Network :=
  let n := call (Dial addr) n in
  match extract_peer_id addr with
  | Some peer_id => call (AddAddress peer_id addr) n
  | None => n
  end.

(** One turn of the [select!]: a tick, which looks for a random peer, or an event at
    an instant. *)
Inductive Turn : Type :=
  | Tick (random : PeerId)
  | SwarmTurn (now : Z) (event : SwarmEvent).

Definition network_turn (n : Network) (turn : Turn) : Network :=
  match turn with
  | Tick random => call (GetClosestPeers random) n
  | SwarmTurn now event => handle_event now event n
  end.

(** [Network::run], which never returns: the state after the turns so far. *)
Definition run_network (bootnodes : list Multiaddr) (turns : list Turn) (n : Network) : Network :=
  foldl network_turn (foldl dial_bootnode n bootnodes) turns.
End P2p.
Arguments ProtocolOpen {_ M} _ _.
Arguments ProtocolClosed {_ M} _.
Arguments Notification {_ M} _ _.
