(* ===== verification/P2pProps.v ===== *)
(** * Theorems on the peer-to-peer network *)

From Stdlib Require Import Strings.Byte.
From S2P Require Import Prelude HeadersCache BlockListener Types Alerts Slots P2p.

Section Network.
Context `{P2pTypes}.

(** ** The peers by role *)

(** What an event says about a peer: its role, or that it is gone. Light nodes are
    not recorded, so an event about one says nothing. *)
Definition recorded (role : ProtocolRole) : option (option ProtocolRole) :=
  match role with LightNode => None | role => Some (Some role) end.

Definition says (peer : PeerId) (turn : Turn) : option (option ProtocolRole) :=
  match turn with
  | SwarmTurn _ (Behaviour (PotNotifications (ProtocolOpen p role)))
  | SwarmTurn _ (Behaviour (BlockAnnounce (ProtocolOpen p role))) =>
      if bool_decide (p = peer) then recorded role else None
  | SwarmTurn _ (ConnectionClosed p n) =>
      if bool_decide (p = peer /\ n = 0) then Some None else None
  | _ => None
  end.

(** The role of a peer is what was last said about it. *)
Definition role_of (peer : PeerId) (turns : list Turn) : option ProtocolRole :=
  mjoin (last (omap (says peer) turns)).

Definition roles_are (f : PeerId -> option ProtocolRole) (n : Network) : Prop :=
  forall peer, (peer ∈ authorities n <-> f peer = Some Authority) /\
               (peer ∈ fullnodes n <-> f peer = Some FullNode).

Lemma role_of_snoc peer turns turn :
  role_of peer (turns ++ [turn]) =
    match says peer turn with Some r => r | None => role_of peer turns end.
Proof.
  unfold role_of. rewrite omap_app. cbn. destruct (says peer turn) as [r|]; cbn.
  - by rewrite last_snoc.
  - by rewrite app_nil_r.
Qed.

Lemma add_peer_role_roles f peer role n :
  roles_are f n ->
  roles_are (fun p => if bool_decide (peer = p) then
                        match recorded role with Some r => r | None => f p end else f p)
    (add_peer_role peer role n).
Proof.
  intros Hn p. destruct (Hn p) as [Ha Hf].
  destruct role; cbn [add_peer_role recorded authorities fullnodes]; case_bool_decide; subst;
    set_solver.
Qed.

Lemma turn_roles f n turn :
  roles_are f n ->
  roles_are (fun p => match says p turn with Some r => r | None => f p end) (network_turn n turn).
Proof.
  intros Hn. destruct turn as [random | now ev]; [exact Hn|].
  destruct ev as [[[peer addr|] | [peer role|peer|peer m] | [peer role|peer|peer m] |] | peer num |];
    try exact Hn; cbn [network_turn handle_event says].
  1-2: intros p; destruct (add_peer_role_roles f peer role n Hn p) as [-> ->]; case_bool_decide; done.
  intros p. destruct (Hn p) as [Ha Hf]. destruct (Z.eqb_spec num 0) as [->|Hnum].
  - cbn [remove_peer authorities fullnodes]. case_bool_decide as Hp; set_solver.
  - rewrite bool_decide_eq_false_2 by tauto. done.
Qed.

Lemma bootnodes_roles f bootnodes n :
  roles_are f n -> roles_are f (foldl dial_bootnode n bootnodes).
Proof.
  revert n. induction bootnodes as [|addr bootnodes IH]; intros n Hn; [done|]. apply IH.
  unfold dial_bootnode. by destruct (extract_peer_id addr).
Qed.

(** C40: the network knows each peer by the last thing it heard of it. After any events
    and ticks the authorities are the peers that last opened a protocol as an authority,
    and the full nodes those that last did as a full node, each unless its last connection
    has closed since; so no peer is in both sets. A closed protocol, a connection of
    several, and a light node's protocol change nothing. *)
Theorem peers_follow_events bootnodes turns :
  let n := run_network bootnodes turns new_network in
  (forall peer, peer ∈ authorities n <-> role_of peer turns = Some Authority) /\
  (forall peer, peer ∈ fullnodes n <-> role_of peer turns = Some FullNode) /\
  authorities n ## fullnodes n.
Proof.
  cbv zeta. assert (Hroles : roles_are (fun p => role_of p turns)
    (run_network bootnodes turns new_network)).
  { unfold run_network. induction turns as [|turn turns IH] using rev_ind.
    - apply bootnodes_roles. intros p. cbn. set_solver.
    - rewrite foldl_snoc. intros p. rewrite role_of_snoc. exact (turn_roles _ _ turn IH p). }
  split_and!; intros p; [apply Hroles..|].
  rewrite (proj1 (Hroles p)), (proj2 (Hroles p)). congruence.
Qed.

(** ** What goes out *)

(** The proofs of time of a turn, and the calls to the swarm. *)
Definition turn_proofs (turn : Turn) : list PoTInfo :=
  match turn with
  | SwarmTurn now (Behaviour (PotNotifications (Notification _ message))) =>
      [{| at_ := now; proof := message |}]
  | _ => []
  end.

Definition turn_calls (turn : Turn) : list SwarmCall :=
  match turn with
  | Tick random => [GetClosestPeers random]
  | SwarmTurn _ (Behaviour (DiscoveryEvent (RoutablePeer _ address))) => [Dial address]
  | _ => []
  end.

Definition bootnode_calls (addr : Multiaddr) : list SwarmCall :=
  Dial addr :: match extract_peer_id addr with Some p => [AddAddress p addr] | None => [] end.

Lemma add_peer_role_out peer role n :
  pot_sent (add_peer_role peer role n) = pot_sent n /\
  swarm_calls (add_peer_role peer role n) = swarm_calls n.
Proof. by destruct role. Qed.

Lemma turn_out n turn :
  pot_sent (network_turn n turn) = pot_sent n ++ turn_proofs turn /\
  swarm_calls (network_turn n turn) = swarm_calls n ++ turn_calls turn.
Proof.
  destruct turn as [random | now ev];
    [|destruct ev as [[[peer addr|] | [peer role|peer|peer m] | [peer role|peer|peer m] |]
                     | peer num |]];
    cbn [network_turn handle_event turn_proofs turn_calls]; rewrite ?app_nil_r; try done.
  1-2: apply add_peer_role_out.
  by destruct (num =? 0).
Qed.

Lemma bootnodes_out bootnodes n :
  pot_sent (foldl dial_bootnode n bootnodes) = pot_sent n /\
  swarm_calls (foldl dial_bootnode n bootnodes) =
    swarm_calls n ++ concat (map bootnode_calls bootnodes).
Proof.
  revert n. induction bootnodes as [|addr bootnodes IH]; intros n; [by rewrite app_nil_r|].
  cbn [foldl map concat]. destruct (IH (dial_bootnode n addr)) as [-> ->].
  unfold dial_bootnode, bootnode_calls.
  destruct (extract_peer_id addr); cbn; rewrite <- ?app_assoc; done.
Qed.

(** The slot stream carries every proof of time, once, in the order it came and
    with the time it came, whichever peer sent it and whatever else happens; and the
    swarm is asked to dial every boot node first (and to remember its address when
    that names a peer), then every routable peer that is discovered, and for random
    peers at every tick, and nothing else. *)
Theorem network_output bootnodes turns :
  let n := run_network bootnodes turns new_network in
  pot_sent n = concat (map turn_proofs turns) /\
  swarm_calls n = concat (map bootnode_calls bootnodes) ++ concat (map turn_calls turns).
Proof.
  cbv zeta. unfold run_network. induction turns as [|turn turns IH] using rev_ind.
  - rewrite app_nil_r. apply (bootnodes_out bootnodes new_network).
  - rewrite foldl_snoc, !map_app, !concat_app. cbn [map concat]. rewrite !app_nil_r.
    destruct (turn_out (foldl network_turn (foldl dial_bootnode new_network bootnodes) turns) turn)
      as [-> ->].
    destruct IH as [-> ->]. by rewrite <- app_assoc.
Qed.
End Network.
