(* ===== verification/Network.v ===== *)
(** * Connecting to a node

    Models the construction of [Subspace] and [network_details] in
    [shared/src/subspace.rs], with the reads of blocks that nothing calls yet
    ([block_ext_latest], [slot], [extrinsics]).

    Futures are what they resolve to and after how long; [tokio]'s timeout and the
    connection of [subxt] are classes, JSON values are those of [serde_json]. *)

From Stdlib Require Import Strings.Byte.
From S2P Require Import Prelude HeadersCache TreeRoute BlockListener Scale RpcTypes Types.
From S2P Require Import Events Chain.

(** ** Futures *)

(** When a future resolves, in nanoseconds from its start, and to what; [None] if it
    never does. *)
Definition Future (A : Type) : Type := option (Z * A).

(** [first.await?] and then the rest. *)
Definition await {E A B} (first : Future (outcome E A)) (rest : A -> Future (outcome E B))
    : Future (outcome E B) :=
  match first with
  | None => None
  | Some (t, Ok a) =>
      match rest a with
      | None => None
      | Some (t', r) => Some (t + t', r)
      end
  | Some (t, Err e) => Some (t, Err e)
  | Some (t, Panic) => Some (t, Panic)
  | Some (t, Diverge) => Some (t, Diverge)
  end.

Class Timeout : Type := {
  (** [tokio::time::timeout]: [None] stands for [Elapsed] *)
  timeout : forall {A}, Z -> Future A -> Future (option A);
}.

(** A future that resolves before the duration has elapsed gives its value, one that does
    not gives [Elapsed] when it has; which it is at the very end is open. *)
Class TimeoutLaws `{Timeout} : Prop := {
  timeout_in_time : forall A d t (a : A), t < d -> timeout d (Some (t, a)) = Some (t, Some a);
  timeout_elapsed : forall A d (f : Future A),
    match f with Some (t, _) => d < t | None => True end -> timeout d f = Some (d, None);
  timeout_at_end : forall A d (a : A),
    timeout d (Some (d, a)) = Some (d, Some a) \/ timeout d (Some (d, a)) = Some (d, None);
}.

(** ** Connecting *)

Class SubxtClient : Type := {
  RpcClient : Type;
  OnlineClient : Type;
  (** [ReconnectingRpcClient::builder().build(url)] *)
  build : string -> Future (outcome string RpcClient);
  (** [SubspaceClient::from_rpc_client] *)
  from_rpc_client : RpcClient -> Future (outcome string OnlineClient);
}.

(** [from_secs(60)] *)
Definition STARTUP_CONNECT_TIMEOUT : Z := 60 * 10 ^ 9.

Section Connect.
Context `{ChainTypes, SubxtClient, Timeout}.

(** [Subspace]: its clients, and the capacity of its broadcast channel. *)
Record Subspace : Type := {
  sub_rpc : RpcClient;
  sub_client : OnlineClient;
  sub_capacity : Z;
}.

Definition future_map_err {E E' A} (f : E -> E') (m : Future (outcome E A))
    : Future (outcome E' A) :=
  match m with Some (t, r) => Some (t, map_err f r) | None => None end.

Definition connect (url : string) : Future (outcome (Error Hash) Subspace) :=
  await (future_map_err Rpc (build url)) (fun rpc_client =>
  await (future_map_err Subxt (from_rpc_client rpc_client)) (fun client =>
  Some (0, Ok {| sub_rpc := rpc_client; sub_client := client; sub_capacity := 100 |}))).

Definition new_from_url (url : string) : Future (outcome (Error Hash) Subspace) :=
  match timeout STARTUP_CONNECT_TIMEOUT (connect url) with
  | Some (t, Some r) => Some (t, r)
  | Some (t, None) => Some (t, Err ConnectTimeout)
  | None => None
  end.
End Connect.

(** ** Details of the network *)

Class Json : Type := {
  JsonValue : Type;
  (** [serde_json::Value::as_u64] and [as_str] *)
  as_u64 : JsonValue -> option Z;
  json_as_str : JsonValue -> option string;
}.

Section Details.
Context `{ChainTypes, Json}.

(** The [system_*] calls of the node. *)
Record SystemRpc : Type := {
  system_chain : outcome string string;
  system_properties : outcome string (gmap string JsonValue);
}.

(** [NetworkDetails]; an [Ss58AddressFormat] is its prefix. *)
Record NetworkDetails : Type := {
  nd_name : string;
  nd_ss58_format : Z;
  nd_token_symbol : string;
  nd_token_decimals : Z;
  nd_genesis_hash : Hash;
}.

Definition network_details (node : RpcNode) (sys : SystemRpc)
    : outcome (Error Hash) NetworkDetails :=
  name ← map_err Rpc (system_chain sys);
  properties ← map_err Rpc (system_properties sys);
  found ← map_err Rpc (rpc_block_hash node 0);
  genesis_hash ← expect found;
  ss58_format ← ok_or (val ← properties !! "ss58Format"; n ← as_u64 val; Some (as_u 16 n))
                  (Config "Failed to get Ss58Format");
  token_symbol ← ok_or (val ← properties !! "tokenSymbol"; json_as_str val)
                   (Config "Failed to get Token Symbol");
  token_decimals ← ok_or (val ← properties !! "tokenDecimals"; as_u64 val)
                     (Config "Failed to get Token Decimals");
  mret {| nd_name := name; nd_ss58_format := ss58_format; nd_token_symbol := token_symbol;
          nd_token_decimals := as_u 8 token_decimals; nd_genesis_hash := genesis_hash |}.
End Details.

(** ** Reads without a caller *)

Section Reads.
Context `{ChainTypes, ScaleCodec, EventCodec, Twox}.

(** [latest] is the answer to [chain_get_block_hash(None)]. *)
Definition block_ext_latest (node : RpcNode) (latest : outcome string (option Hash))
    : outcome (Error Hash) BlockExt :=
  found ← map_err Rpc latest;
  hash ← ok_or found (MissingBlockHeaderForNumber 0);
  block_ext_at_hash node hash.

(** The decoder of [BTreeMap<BlockNumber, Slot>] is [parity-scale-codec]'s. *)
Definition slot (decode_slots : Decoder (gmap Z Z)) (client : Client) (block : BlockExt)
    : outcome (Error Hash) Z :=
  slots ← read_storage decode_slots client (be_hash block) "Subspace" "BlockSlots" [];
  ok_or (slots !! be_number block)
    (Storage ("Missing slot for block: " +:+ pretty (be_number block))).

(** [block_body] is the call of the backend. *)
Definition extrinsics {Ext} (decode : Decoder Ext)
    (block_body : Hash -> outcome string (option (list (list byte)))) (block : BlockExt)
    : outcome (Error Hash) (list Ext) :=
  found ← map_err Subxt (block_body (be_hash block));
  exts ← ok_or found (MissingBlockBody (be_hash block));
  mapM (fun ext => map_err scale_error (decode ext).2) exts.
End Reads.
