(* ===== verification/Startup.v ===== *)
(** * Starting the programs

    Models [main] of [alerter/src/main.rs] with its configuration
    ([alerter/src/cli.rs]), [main] and [start_tasks] of [indexer/src/main.rs], and the
    loop of [alerter/src/uptime.rs]: what is connected and loaded, in which order, which
    tasks run then and how the program ends.

    A task is a value that names the function it runs and its arguments. What files, nodes,
    the database and the web server answer are arguments. *)

From Stdlib Require Import Strings.Byte.
From S2P Require Import Prelude HeadersCache TreeRoute BlockListener Scale RpcTypes Types.
From S2P Require Import Events Chain Db IndexerError DbPool Alerts Slots StallReorg AlertEvents.
From S2P Require Import MdFormat Slack P2p Network.

(** The state of a process: the version [set_default_ss58_version] set, which all texts
    of accounts use, and the tasks its [JoinSet] has spawned. *)
Record Process (T : Type) : Type := { ss58_version : Z; spawned : list T }.
Arguments ss58_version {T} _.
Arguments spawned {T} _.
Arguments Build_Process {T} _ _.

(** The version of a new process: that of generic Substrate accounts. *)
Definition new_process {T} : Process T := {| ss58_version := 42; spawned := [] |}.

Definition spawn {T E} (task : T) : SE (Process T) E unit :=
  modify (fun p => {| ss58_version := ss58_version p; spawned := spawned p ++ [task] |}).

Definition set_default_ss58_version {T E} (version : Z) : SE (Process T) E unit :=
  modify (fun p => {| ss58_version := version; spawned := spawned p |}).

(** [if let Some(update) = join_set.join_next().await { update??; } Ok(())]: the end of the
    first task to end. A task that panics gives a [JoinError]; [Diverge] stands for tasks
    that never end. *)
Definition join_next {E} (join : string -> E) (first : outcome E unit) : outcome E unit :=
  match first with
  | Ok _ => Ok tt
  | Err e => Err e
  | Panic => Err (join "task panicked")
  | Diverge => Diverge
  end.

Definition resolved {S E A} (f : Future (outcome E A)) : SE S E A :=
  match f with Some (_, r) => lift r | None => diverge end.

(** [Subspace::new_from_url] and [network_details] of the node at a URL. *)
Section Programs.
Context `{ChainTypes, SubxtClient, Sqlx, Timeout, Json, DecimalLib, !HashBytes, TextCodecs, !MessageLib,
  P2pTypes}.

(** What a node answers once it is connected. *)
Record NodeApi : Type := { na_node : RpcNode; na_system : SystemRpc }.

(** ** The alerter *)

Record UptimekumaConfig : Type := {
  uptimekuma_url : option string;
  uptimekuma_interval : Z;
}.

Record CliConfig : Type := {
  cli_rpc_url : string;
  network_config_path : string;
  uptimekuma : UptimekumaConfig;
  stall_and_reorg : StallAndReorgConfig;
  slack : SlackConfig;
  slots_config : SlotsConfig;
}.

Record NetworkConfig : Type := {
  accounts : list Account;
  account_balance_alerts : list BalanceAlert;
  bootnodes : list Multiaddr;
}.

Inductive AlerterTask : Type :=
  | PerformRuntimeUpdates
  | PushUptimeStatus (url : string) (every : Z)
  | WatchChainStallAndReorg (config : StallAndReorgConfig)
  | WatchEvents (accounts : list Account) (alerts : list BalanceAlert) (token_decimals : Z)
  | MonitorSlots (config : SlotsConfig)
  | RunSlack (alerter : SlackAlerter) (config : FormatConfig)
  | ListenForAllBlocks
  | RunNetwork (bootnodes : list Multiaddr) (genesis_hash : Hash).

Record AlerterEnv : Type := {
  ae_node : NodeApi;
  ae_files : Files;
  (** [toml::from_str] *)
  ae_toml : string -> outcome string (gmap string NetworkConfig);
  (** [build_swarm] *)
  ae_swarm : Hash -> outcome Al.Error unit;
}.

Definition load_networks_config (env : AlerterEnv) (path : string)
    : outcome Al.Error (gmap string NetworkConfig) :=
  config ← map_err Al.Io (read_to_string (ae_files env) path);
  map_err Al.Toml (ae_toml env config).

(** [main] up to the last [spawn]. *)
Definition start_alerter (env : AlerterEnv) (cli : CliConfig)
    : SE (Process AlerterTask) Al.Error unit :=
  _ ← resolved (future_map_err Al.Subspace (new_from_url (cli_rpc_url cli)));
  details ← lift (map_err Al.Subspace
    (network_details (na_node (ae_node env)) (na_system (ae_node env))));
  _ ← set_default_ss58_version (nd_ss58_format details);
  networks ← lift (load_networks_config env (network_config_path cli));
  network_config ← lift (ok_or (networks !! nd_name details)
    (Al.Config ("Missing network config: " +:+ nd_name details)));
  _ ← lift (ae_swarm env (nd_genesis_hash details));
  _ ← spawn PerformRuntimeUpdates;
  alerter ← lift (SlackAlerter_new (ae_files env) (slack cli));
  _ ← match uptimekuma_url (uptimekuma cli) with
      | Some url => spawn (PushUptimeStatus url (uptimekuma_interval (uptimekuma cli)))
      | None => mret tt
      end;
  _ ← spawn (WatchChainStallAndReorg (stall_and_reorg cli));
  _ ← spawn (WatchEvents (accounts network_config) (account_balance_alerts network_config)
               (nd_token_decimals details));
  _ ← spawn (MonitorSlots (slots_config cli));
  _ ← spawn (RunSlack alerter {|
               rpc_url := cli_rpc_url cli;
               token_name := nd_token_symbol details;
               token_decimals := nd_token_decimals details |});
  _ ← spawn ListenForAllBlocks;
  spawn (RunNetwork (bootnodes network_config) (nd_genesis_hash details)).

(** [main]; [first] is the end of the first of the tasks to end. *)
Definition alerter_main (env : AlerterEnv) (cli : CliConfig)
    (first : list AlerterTask -> outcome Al.Error unit) : SE (Process AlerterTask) Al.Error unit :=
  _ ← start_alerter env cli;
  tasks ← gets spawned;
  lift (join_next Al.Join (first tasks)).

(** [push_uptime_status]: the requests of its ticks. Whatever the server answers is only
    logged. *)
Definition push_uptime_status (url : string) (answers : list (outcome string Z)) : list string :=
  map (fun _answer => url +:+ "?status=up&msg=Ok") answers.

(** ** The indexer *)

Record Cli : Type := {
  migrations_path : string;
  consensus_rpc : string;
  auto_evm_rpc : string;
  db_uri : string;
  process_blocks_in_parallel : Z;
}.

Inductive IndexerTask : Type :=
  | LogDbPoolInfo (every : Z)
  | UpdateMetadata (chain : ChainId)
  | IndexXdm (chain : ChainId) (process_blocks_in_parallel : Z)
  | IndexStaking (process_blocks_in_parallel : Z)
  | ListenBlocks (chain : ChainId)
  | Server (token_decimals : Z).

Record IndexerEnv : Type := {
  ie_node : string -> NodeApi;
  (** [HttpServer::bind] *)
  ie_bind : outcome string unit;
}.

Definition start_tasks (env : IndexerEnv) (chain : ChainId) (rpc : string)
    (process_blocks_in_parallel : Z) : SE (Process IndexerTask) Ix.Error NetworkDetails :=
  _ ← match chain with
      | Consensus => mret tt
      | Domain d =>
          if domain_id d =? 0 then mret tt
          else throw (Ix.Config ("Unknown Chain: " +:+ "Domain(DomainId(" +:+ pretty (domain_id d)
                                 +:+ "))"))
      end;
  _ ← resolved (future_map_err Ix.Subspace (new_from_url rpc));
  details ← lift (map_err Ix.Subspace
    (network_details (na_node (ie_node env rpc)) (na_system (ie_node env rpc))));
  _ ← set_default_ss58_version (nd_ss58_format details);
  _ ← spawn (UpdateMetadata chain);
  _ ← spawn (IndexXdm chain process_blocks_in_parallel);
  _ ← match chain with
      | Consensus => spawn (IndexStaking process_blocks_in_parallel)
      | Domain _ => mret tt
      end;
  _ ← spawn (ListenBlocks chain);
  mret details.

(** [main] up to the last [spawn]. *)
Definition start_indexer (env : IndexerEnv) (cli : Cli) : SE (Process IndexerTask) Ix.Error unit :=
  _db ← lift (Db_new (db_uri cli) (migrations_path cli));
  _ ← spawn (LogDbPoolInfo (from_secs 20));
  details ← start_tasks env Consensus (consensus_rpc cli) (process_blocks_in_parallel cli);
  _ ← start_tasks env (Domain {| domain_id := 0 |}) (auto_evm_rpc cli)
        (process_blocks_in_parallel cli);
  _ ← lift (map_err Ix.Io (ie_bind env));
  spawn (Server (nd_token_decimals details)).

Definition indexer_main (env : IndexerEnv) (cli : Cli)
    (first : list IndexerTask -> outcome Ix.Error unit) : SE (Process IndexerTask) Ix.Error unit :=
  _ ← start_indexer env cli;
  tasks ← gets spawned;
  lift (join_next Ix.Join (first tasks)).
End Programs.
