(* ===== verification/StartupProps.v ===== *)
(** * Theorems on starting the programs

    [connecting_ends]: connecting never hangs; [network_details_total]: what is read of
    the network; [alerter_starts_whole] and [indexer_starts_whole]: which tasks run. *)

From Stdlib Require Import Strings.Byte.
From S2P Require Import Prelude HeadersCache TreeRoute BlockListener ToyChain Scale RpcTypes.
From S2P Require Import Types Events Chain Db DbXdm IndexerError ToyIndexer Alerts Slots.
From S2P Require Import StallReorg AlertEvents MdFormat MdFormatProps Slack SlackProps P2p.
From S2P Require Import Network DbPool Startup.

(** ** Connecting *)

Section Connecting.
Context `{ChainTypes, SubxtClient, Timeout, !TimeoutLaws}.

(** Connecting to a node always ends, within sixty seconds: [new_from_url] gives
    what connecting gives when that takes less, and [ConnectTimeout] after exactly
    sixty seconds when it takes more or, as the client retries without bound, forever. *)
Theorem connecting_ends url :
  (exists t r, new_from_url url = Some (t, r) /\ t <= STARTUP_CONNECT_TIMEOUT) /\
  (forall t r, connect url = Some (t, r) -> t < STARTUP_CONNECT_TIMEOUT ->
     new_from_url url = Some (t, r)) /\
  (match connect url with Some (t, _) => STARTUP_CONNECT_TIMEOUT < t | None => True end ->
     new_from_url url = Some (STARTUP_CONNECT_TIMEOUT, Err ConnectTimeout)).
Proof.
  assert (Hfast : forall t r, connect url = Some (t, r) -> t < STARTUP_CONNECT_TIMEOUT ->
    new_from_url url = Some (t, r)).
  { intros t r Hc Ht. unfold new_from_url. by rewrite Hc, timeout_in_time. }
  assert (Hslow :
    match connect url with Some (t, _) => STARTUP_CONNECT_TIMEOUT < t | None => True end ->
    new_from_url url = Some (STARTUP_CONNECT_TIMEOUT, Err ConnectTimeout)).
  { intros Hc. unfold new_from_url. by rewrite timeout_elapsed. }
  split_and!; [|done|done]. destruct (connect url) as [[t r]|] eqn:Hc.
  - destruct (Z.lt_trichotomy t STARTUP_CONNECT_TIMEOUT) as [Ht | [Ht | Ht]].
    + exists t, r. split; [by apply Hfast | lia].
    + subst t. unfold new_from_url. rewrite Hc.
      destruct (timeout_at_end _ STARTUP_CONNECT_TIMEOUT r) as [-> | ->];
        by eexists _, _.
    + rewrite Hslow by done. by eexists _, _.
  - rewrite Hslow by done. by eexists _, _.
Qed.
End Connecting.

(** ** Details of the network *)

Section Details.
Context `{ChainTypes, Json}.

(** The properties of a network that the code needs, as numbers and text. *)
Definition described (ps : gmap string JsonValue) (ss58 : Z) (symbol : string) (decimals : Z) : Prop :=
  (exists v, ps !! "ss58Format" = Some v /\ as_u64 v = Some ss58) /\
  (exists v, ps !! "tokenSymbol" = Some v /\ json_as_str v = Some symbol) /\
  (exists v, ps !! "tokenDecimals" = Some v /\ as_u64 v = Some decimals).

(** The details of a network are what its node says, with its two numbers cut to
    their low 16 and 8 bits: they are given exactly when the node describes itself and
    has a genesis block, so that 274 decimals pass as 18; a node that answers and misses a
    property gives a configuration error, never a panic. *)
Theorem network_details_total node sys :
  (forall d, network_details node sys = Ok d <->
     exists ps ss58 decimals,
       system_chain sys = Ok (nd_name d) /\ system_properties sys = Ok ps /\
       rpc_block_hash node 0 = Ok (Some (nd_genesis_hash d)) /\
       described ps ss58 (nd_token_symbol d) decimals /\
       nd_ss58_format d = ss58 mod 2 ^ 16 /\ nd_token_decimals d = decimals mod 2 ^ 8) /\
  (forall d, network_details node sys = Ok d ->
     in_u 16 (nd_ss58_format d) /\ in_u 8 (nd_token_decimals d)) /\
  (forall name ps genesis,
     system_chain sys = Ok name -> system_properties sys = Ok ps ->
     rpc_block_hash node 0 = Ok (Some genesis) ->
     (forall ss58 symbol decimals, ~ described ps ss58 symbol decimals) ->
     exists msg, network_details node sys = Err (Config msg)).
Proof.
  assert (Hiff : forall d, network_details node sys = Ok d <->
     exists ps ss58 decimals,
       system_chain sys = Ok (nd_name d) /\ system_properties sys = Ok ps /\
       rpc_block_hash node 0 = Ok (Some (nd_genesis_hash d)) /\
       described ps ss58 (nd_token_symbol d) decimals /\
       nd_ss58_format d = ss58 mod 2 ^ 16 /\ nd_token_decimals d = decimals mod 2 ^ 8).
  { intros d. unfold network_details, described. split.
    - destruct (system_chain sys) as [name| | |]; try done.
      destruct (system_properties sys) as [ps| | |]; try done.
      destruct (rpc_block_hash node 0) as [[genesis|]| | |]; try done. cbn.
      destruct (ps !! "ss58Format") as [v1|] eqn:E1; [|done]. cbn.
      destruct (as_u64 v1) as [ss58|] eqn:H1; [|done]. cbn.
      destruct (ps !! "tokenSymbol") as [v2|] eqn:E2; [|done]. cbn.
      destruct (json_as_str v2) as [symbol|] eqn:H2; [|done]. cbn.
      destruct (ps !! "tokenDecimals") as [v3|] eqn:E3; [|done]. cbn.
      destruct (as_u64 v3) as [decimals|] eqn:H3; [|done]. cbn.
      intros [= <-]. exists ps, ss58, decimals. split_and!; first [done | by eauto].
    - intros (ps & ss58 & decimals & -> & -> & -> & ((v1 & E1 & H1) & (v2 & E2 & H2) &
        (v3 & E3 & H3)) & Hss & Hdec).
      cbn. rewrite E1. cbn. rewrite H1. cbn. rewrite E2. cbn. rewrite H2. cbn. rewrite E3. cbn.
      rewrite H3. cbn.
      unfold as_u. rewrite <- Hss, <- Hdec. by destruct d. }
  split_and!; [done|..].
  - intros d Hd. apply Hiff in Hd as (ps & ss58 & decimals & _ & _ & _ & _ & -> & ->).
    split; apply Z.mod_pos_bound; lia.
  - intros name ps genesis Hn Hp Hg Hno. unfold network_details, described in *.
    rewrite Hn, Hp, Hg. cbn.
    destruct (ps !! "ss58Format") as [v1|] eqn:E1; [|by eexists]. cbn.
    destruct (as_u64 v1) as [ss58|] eqn:H1; [|by eexists]. cbn.
    destruct (ps !! "tokenSymbol") as [v2|] eqn:E2; [|by eexists]. cbn.
    destruct (json_as_str v2) as [symbol|] eqn:H2; [|by eexists]. cbn.
    destruct (ps !! "tokenDecimals") as [v3|] eqn:E3; [|by eexists]. cbn.
    destruct (as_u64 v3) as [decimals|] eqn:H3; [|by eexists].
    exfalso. apply (Hno ss58 symbol decimals). eauto 10.
Qed.
End Details.

(** ** The tasks *)

Section Programs.
Context `{ChainTypes, SubxtClient, Sqlx, Timeout, Json, DecimalLib, !HashBytes, TextCodecs, !MessageLib,
  P2pTypes}.

(** The tasks of an alerter that has everything it needs. *)
Definition alerter_tasks (cli : CliConfig) (d : NetworkDetails) (nc : NetworkConfig)
    (alerter : SlackAlerter) : list AlerterTask :=
  [PerformRuntimeUpdates] ++
  (if uptimekuma_url (uptimekuma cli) is Some url then
     [PushUptimeStatus url (uptimekuma_interval (uptimekuma cli))] else []) ++
  [ WatchChainStallAndReorg (stall_and_reorg cli);
    WatchEvents (accounts nc) (account_balance_alerts nc) (nd_token_decimals d);
    MonitorSlots (slots_config cli);
    RunSlack alerter {| rpc_url := cli_rpc_url cli; token_name := nd_token_symbol d;
                        token_decimals := nd_token_decimals d |};
    ListenForAllBlocks;
    RunNetwork (bootnodes nc) (nd_genesis_hash d) ].

Lemma start_alerter_cases env cli :
  let '(p, r) := start_alerter env cli new_process in
  match r with
  | Ok _ => exists t s d nets nc alerter,
      new_from_url (cli_rpc_url cli) = Some (t, Ok s) /\
      network_details (na_node (ae_node env)) (na_system (ae_node env)) = Ok d /\
      load_networks_config env (network_config_path cli) = Ok nets /\
      nets !! nd_name d = Some nc /\
      SlackAlerter_new (ae_files env) (slack cli) = Ok alerter /\
      p = {| ss58_version := nd_ss58_format d; spawned := alerter_tasks cli d nc alerter |}
  | _ => spawned p = [] \/ spawned p = [PerformRuntimeUpdates]
  end.
Proof.
  unfold start_alerter, resolved, future_map_err.
  destruct (new_from_url (cli_rpc_url cli)) as [[t r]|] eqn:Hurl; [|by left].
  rewrite SE_bind_unfold. destruct r as [s|e| |]; cbn [lift map_err]; [|by left..].
  rewrite SE_bind_unfold.
  destruct (network_details _ _) as [d|e| |] eqn:Hd; cbn [lift map_err]; [|by left..].
  rewrite SE_bind_unfold. cbn [set_default_ss58_version modify].
  rewrite SE_bind_unfold.
  destruct (load_networks_config _ _) as [nets|e| |] eqn:Hnets; cbn [lift]; [|by left..].
  rewrite SE_bind_unfold.
  destruct (nets !! nd_name d) as [nc|] eqn:Hnc; cbn [lift ok_or]; [|by left].
  rewrite SE_bind_unfold.
  destruct (ae_swarm env _) as [[]|e| |]; cbn [lift]; [|by left..].
  rewrite SE_bind_unfold. cbn [spawn modify]. rewrite SE_bind_unfold.
  destruct (SlackAlerter_new _ _) as [alerter|e| |] eqn:Ha; cbn [lift]; [|by right..].
  unfold alerter_tasks. destruct (uptimekuma_url (uptimekuma cli)) as [url|]; cbn.
  all: exists t, s, d, nets, nc, alerter; by split_and!.
Qed.

(** The alerter starts whole or not at all. If its start-up succeeds, the network
    the node names is in the configuration, and exactly one task runs of each: the stall
    and reorg monitor, the event monitor (with the accounts of that network), the slot
    monitor, the Slack loop, the block listener, the peer-to-peer network, and the pings if a
    URL is given; monitor and messages use the same decimals. If it fails, for whatever
    reason, no monitor runs, and the error ends the program. After that the program ends
    with success only if the first task to end does. *)
Theorem alerter_starts_whole env cli first :
  (forall p, start_alerter env cli new_process = (p, Ok tt) ->
     exists d nets nc alerter,
       network_details (na_node (ae_node env)) (na_system (ae_node env)) = Ok d /\
       load_networks_config env (network_config_path cli) = Ok nets /\
       nets !! nd_name d = Some nc /\
       SlackAlerter_new (ae_files env) (slack cli) = Ok alerter /\
       ss58_version p = nd_ss58_format d /\
       spawned p = alerter_tasks cli d nc alerter) /\
  (forall p r, start_alerter env cli new_process = (p, r) -> r <> Ok tt ->
     spawned p ⊆ [PerformRuntimeUpdates] /\ alerter_main env cli first new_process = (p, r)) /\
  (forall p, alerter_main env cli first new_process = (p, Ok tt) ->
     start_alerter env cli new_process = (p, Ok tt) /\ first (spawned p) = Ok tt).
Proof.
  pose proof (start_alerter_cases env cli) as Hcases. unfold alerter_main.
  rewrite SE_bind_unfold.
  destruct (start_alerter env cli new_process) as [p r]. split_and!.
  - intros p' [= -> ->]. destruct Hcases as (t & s & d & nets & nc & alerter & _ & ? & ? & ? & ? & ->).
    by exists d, nets, nc, alerter.
  - intros p' r' [= <- <-] Hr. destruct r as [[]| | |]; [done|..];
      (split; [by destruct Hcases as [-> | ->]; [apply list_subseteq_nil|] | done]).
  - intros p' Hok. destruct r as [[]| | |]; [|done..].
    rewrite SE_bind_unfold in Hok. cbn [gets lift] in Hok. injection Hok as <- Hj.
    split; [done|]. by destruct (first (spawned p)) as [[]| | |].
Qed.

(** ** The indexer *)

Definition chain_tasks (chain : ChainId) (par : Z) : list IndexerTask :=
  [UpdateMetadata chain; IndexXdm chain par] ++
  (if chain is Consensus then [IndexStaking par] else []) ++ [ListenBlocks chain].

Definition auto_evm : ChainId := Domain {| domain_id := 0 |}.

(** The checkpoint a task writes. *)
Definition task_key (t : IndexerTask) : option string :=
  match t with
  | IndexXdm chain _ => Some (get_xdm_processor_key chain)
  | IndexStaking _ => Some CHECKPOINT_KEY
  | _ => None
  end.

Definition known_chain (chain : ChainId) : Prop := chain = Consensus \/ chain = auto_evm.

Lemma start_tasks_cases env chain rpc par p :
  known_chain chain ->
  let '(p', r) := start_tasks env chain rpc par p in
  match r with
  | Ok d => network_details (na_node (ie_node env rpc)) (na_system (ie_node env rpc)) = Ok d /\
      p' = {| ss58_version := nd_ss58_format d; spawned := spawned p ++ chain_tasks chain par |}
  | _ => p' = p
  end.
Proof.
  intros Hchain. unfold start_tasks, resolved, future_map_err.
  rewrite SE_bind_unfold.
  assert ((match chain with
           | Consensus => mret tt
           | Domain d =>
               if domain_id d =? 0 then mret tt
               else throw (Ix.Config ("Unknown Chain: " +:+ "Domain(DomainId(" +:+
                                      pretty (domain_id d) +:+ "))"))
           end : SE (Process IndexerTask) Ix.Error unit) p = (p, Ok tt)) as ->
    by by destruct Hchain as [-> | ->].
  rewrite SE_bind_unfold. destruct (new_from_url rpc) as [[t r]|]; [|done].
  destruct r as [s|e| |]; cbn [lift map_err]; [|done..]. rewrite SE_bind_unfold.
  destruct (network_details _ _) as [d|e| |]; cbn [lift map_err]; [|done..].
  destruct Hchain as [-> | ->]; (split; [done|]); cbn; by rewrite <- !app_assoc.
Qed.

Lemma start_indexer_cases env cli :
  let '(p, r) := start_indexer env cli new_process in
  let par := process_blocks_in_parallel cli in
  match r with
  | Ok _ => exists dc da,
      network_details (na_node (ie_node env (consensus_rpc cli)))
        (na_system (ie_node env (consensus_rpc cli))) = Ok dc /\
      network_details (na_node (ie_node env (auto_evm_rpc cli)))
        (na_system (ie_node env (auto_evm_rpc cli))) = Ok da /\
      p = {| ss58_version := nd_ss58_format da;
             spawned := [LogDbPoolInfo (from_secs 20)] ++ chain_tasks Consensus par ++
                        chain_tasks auto_evm par ++ [Server (nd_token_decimals dc)] |}
  | _ => exists l, l `prefix_of` chain_tasks Consensus par ++ chain_tasks auto_evm par /\
      (spawned p = [] \/ spawned p = [LogDbPoolInfo (from_secs 20)] ++ l)
  end.
Proof.
  cbv zeta. unfold start_indexer. set (par := process_blocks_in_parallel cli).
  assert (Hnone : forall l : list IndexerTask, [] `prefix_of` l) by (intros l; apply prefix_nil).
  rewrite SE_bind_unfold.
  destruct (Db_new _ _) as [pool|e| |]; cbn [lift]; [|by exists []; auto..].
  rewrite SE_bind_unfold. cbn [spawn modify]. rewrite SE_bind_unfold.
  match goal with |- context [start_tasks env Consensus ?rpc _ ?q] =>
    pose proof (start_tasks_cases env Consensus rpc par q (or_introl eq_refl)) as Hc end.
  destruct (start_tasks env Consensus _ _ _) as [p1 r1].
  destruct r1 as [dc|e| |]; [destruct Hc as [Hdc ->] | subst p1; by exists []; auto..].
  rewrite SE_bind_unfold.
  match goal with |- context [start_tasks env (Domain ?d) ?rpc _ ?q] =>
    pose proof (start_tasks_cases env auto_evm rpc par q (or_intror eq_refl)) as Hd end.
  change (Domain {| domain_id := 0 |}) with auto_evm.
  destruct (start_tasks env auto_evm _ _ _) as [p2 r2].
  destruct r2 as [da|e| |]; [destruct Hd as [Hda ->] | subst p2..].
  2-4: exists (chain_tasks Consensus par); split; [by eexists | by right].
  rewrite SE_bind_unfold. destruct (ie_bind env) as [[]|e| |]; cbn [lift map_err].
  2-4: eexists; split; [by exists []; rewrite app_nil_r | right; cbn; by rewrite <- ?app_assoc].
  exists dc, da. cbn. split_and!; [done..|]. by rewrite <- ?app_assoc.
Qed.

Lemma keys_NoDup par l :
  l `prefix_of` chain_tasks Consensus par ++ chain_tasks auto_evm par -> NoDup (omap task_key l).
Proof.
  intros [k Hk].
  assert (Hall : NoDup (omap task_key (chain_tasks Consensus par ++ chain_tasks auto_evm par))).
  { apply (bool_decide_unpack _). vm_compute. exact I. }
  rewrite Hk, omap_app in Hall. by apply NoDup_app in Hall as [? _].
Qed.

(** The indexer starts whole, and no two of its processors share a checkpoint. If its
    start-up succeeds, it runs one transfer processor and one listener for each of the two
    chains, one staking processor, for the consensus chain, and the server, which scales amounts
    with the decimals of the consensus chain; the text of every account is then in the
    format of the Auto-EVM chain, which is set last. If the start-up fails, the server does not
    run and the error ends the program. A chain other than these two is refused before
    anything is connected. *)
Theorem indexer_starts_whole env cli first :
  let par := process_blocks_in_parallel cli in
  (forall p, start_indexer env cli new_process = (p, Ok tt) ->
     exists dc da,
       network_details (na_node (ie_node env (consensus_rpc cli)))
         (na_system (ie_node env (consensus_rpc cli))) = Ok dc /\
       network_details (na_node (ie_node env (auto_evm_rpc cli)))
         (na_system (ie_node env (auto_evm_rpc cli))) = Ok da /\
       spawned p = [LogDbPoolInfo (from_secs 20)] ++ chain_tasks Consensus par ++
                   chain_tasks auto_evm par ++ [Server (nd_token_decimals dc)] /\
       ss58_version p = nd_ss58_format da) /\
  (forall p r, start_indexer env cli new_process = (p, r) ->
     NoDup (omap task_key (spawned p)) /\
     (r <> Ok tt -> (forall decimals, Server decimals ∉ spawned p) /\
                    indexer_main env cli first new_process = (p, r))) /\
  (forall d rpc p, domain_id d <> 0 ->
     exists msg, start_tasks env (Domain d) rpc par p = (p, Err (Ix.Config msg))).
Proof.
  cbv zeta. set (par := process_blocks_in_parallel cli).
  pose proof (start_indexer_cases env cli) as Hcases. fold par in Hcases. split_and!.
  - intros p Hp. rewrite Hp in Hcases. destruct Hcases as (dc & da & ? & ? & ->).
    by exists dc, da.
  - intros p r Hp. rewrite Hp in Hcases. unfold indexer_main. rewrite SE_bind_unfold, Hp.
    destruct r as [[]|e| |].
    { split; [|done]. destruct Hcases as (dc & da & _ & _ & ->). cbn [spawned].
      rewrite !omap_app. cbn [omap list_omap task_key app]. rewrite app_nil_r, <- omap_app.
      by eapply (keys_NoDup par). }
    all: destruct Hcases as (l & Hl & Hs); cbv zeta in Hl; fold par in Hl.
    all: assert (Hserver : forall decimals, Server decimals ∉ l)
      by (intros decimals Hin; eapply elem_of_prefix in Hin; [|exact Hl]; set_solver).
    all: split; [destruct Hs as [-> | ->]; [by apply NoDup_nil | exact (keys_NoDup par l Hl)] |].
    all: intros _; split; [|done]; intros decimals; destruct Hs as [-> | ->]; set_solver.
  - intros d rpc p Hd. unfold start_tasks. rewrite SE_bind_unfold.
    rewrite (proj2 (Z.eqb_neq _ _) Hd). by eexists.
Qed.
End Programs.

(** ** Witnesses *)

#[export] Instance toy_timeout : Timeout := {
  timeout A d f :=
    match f with
    | Some (t, a) => if t <=? d then Some (t, Some a) else Some (d, None)
    | None => Some (d, None)
    end }.

#[export] Instance toy_timeout_laws : TimeoutLaws.
Proof.
  split; cbn.
  - intros A d t a Ht. by rewrite (proj2 (Z.leb_le _ _)) by lia.
  - intros A d [[t a]|] Ht; [|done]. by rewrite (proj2 (Z.leb_gt _ _)).
  - intros A d a. rewrite Z.leb_refl. by left.
Qed.

(** A client that needs two seconds, or waits for ever on the URL of a node that is
    down. *)
#[export] Instance toy_subxt : SubxtClient := {|
  RpcClient := unit;
  OnlineClient := unit;
  build url := if bool_decide (url = "ws://down") then None else Some (10 ^ 9, Ok tt);
  from_rpc_client _ := Some (10 ^ 9, Ok tt) |}.

(** A database whose migrations are in ["indexer/migrations"]. *)
#[export] Instance toy_sqlx : Sqlx := {|
  PgPool := unit;
  Migrator := unit;
  pool_connect _ _ := Ok tt;
  migrator_new path := if bool_decide (path = "./indexer/migrations") then Ok tt else Err "no such directory";
  set_ignore_missing _ m := m;
  run_migrations _ _ := Ok tt |}.

#[export] Instance toy_json : Json := {|
  JsonValue := Z + string;
  as_u64 v := match v with inl n => Some n | inr _ => None end;
  json_as_str v := match v with inl _ => None | inr s => Some s end |}.

#[export] Instance toy_p2p : P2pTypes := {|
  PeerId := Z; Multiaddr := string; addr_protocols _ := []; BlockAnnouncesHandshake := unit |}.

Definition properties (ss58 decimals : Z) : gmap string JsonValue :=
  <["ss58Format" := inl ss58]> (<["tokenSymbol" := inr "AI3"]>
    (<["tokenDecimals" := inl decimals]> ∅)).

Definition toy_api (ss58 : Z) : NodeApi := {|
  na_node := on_a;
  na_system := {| system_chain := Ok "Mainnet"; system_properties := Ok (properties ss58 18) |} |}.

Definition toy_details (ss58 : Z) : NetworkDetails := {|
  nd_name := "Mainnet"; nd_ss58_format := ss58; nd_token_symbol := "AI3"; nd_token_decimals := 18;
  nd_genesis_hash := match rpc_block_hash on_a 0 with Ok (Some h) => h | _ => [] end |}.

Lemma connecting_ends_witness :
  new_from_url "ws://node" =
    Some (2 * 10 ^ 9, Ok {| sub_rpc := tt; sub_client := tt; sub_capacity := 100 |}) /\
  new_from_url "ws://down" = Some (60 * 10 ^ 9, Err ConnectTimeout).
Proof.
  split.
  - apply (proj1 (proj2 (connecting_ends "ws://node"))); reflexivity.
  - apply (proj2 (proj2 (connecting_ends "ws://down"))). exact I.
Defined.

Lemma network_details_total_witness :
  network_details on_a {| system_chain := Ok "Mainnet";
                          system_properties := Ok (properties 6094 274) |} = Ok (toy_details 6094).
Proof.
  apply network_details_total. exists (properties 6094 274), 6094, 274.
  split; [reflexivity|]. split; [reflexivity|]. split; [reflexivity|].
  split; [|split; reflexivity].
  split; [exists (inl 6094); by split|]. split; [exists (inr "AI3"); by split|].
  exists (inl 274); by split.
Defined.

Definition toy_cli : CliConfig := {|
  cli_rpc_url := "ws://node"; network_config_path := "/networks.toml";
  uptimekuma := {| uptimekuma_url := None; uptimekuma_interval := from_secs 60 |};
  stall_and_reorg :=
    {| non_block_import_threshold := from_secs 60; reorg_depth_threshold := 6 |};
  slack := {| slack_team_id := "T"; slack_bot_name := "bot"; slack_bot_icon := "robot_face";
              slack_channel_name := "alerts"; slack_secret_path := "/slack-secret" |};
  slots_config := {| per_slot_threshold := 12 * 10 ^ 8; avg_slot_threshold := 11 * 10 ^ 8 |} |}.

Definition toy_alerter_env (network : string) : AlerterEnv := {|
  ae_node := toy_api 6094;
  ae_files := toy_files 33152 "xoxb-1";
  ae_toml _ := Ok {[network := {| accounts := []; account_balance_alerts := [];
                                  bootnodes := ["/ip4/1.2.3.4"] |}]};
  ae_swarm _ := Ok tt |}.

Lemma alerter_starts_whole_witness :
  length (spawned (start_alerter (toy_alerter_env "Mainnet") toy_cli new_process).1) = 7%nat /\
  spawned (alerter_main (toy_alerter_env "Chronos") toy_cli (fun _ => Diverge) new_process).1 = [].
Proof.
  split.
  - destruct (alerter_starts_whole (toy_alerter_env "Mainnet") toy_cli (fun _ => Diverge))
      as [Hok _].
    destruct (Hok _ ltac:(vm_compute; reflexivity)) as (d & nets & nc & alerter & _ & _ & _ & _ & _ & _).
    vm_compute. reflexivity.
  - destruct (alerter_starts_whole (toy_alerter_env "Chronos") toy_cli (fun _ => Diverge))
      as [_ [Hfail _]].
    destruct (start_alerter (toy_alerter_env "Chronos") toy_cli new_process) as [p r] eqn:Hs.
    assert (Hr : r = Err (Al.Config "Missing network config: Mainnet") /\ spawned p = [])
      by (vm_compute in Hs; injection Hs as <- <-; split; reflexivity).
    destruct (Hfail p r eq_refl) as [_ Hmain]; [destruct Hr as [-> _]; discriminate|].
    rewrite Hmain. exact (proj2 Hr).
Defined.

Definition toy_indexer_env : IndexerEnv := {|
  ie_node url := toy_api (if bool_decide (url = "ws://consensus") then 6094 else 2254);
  ie_bind := Ok tt |}.

Definition toy_indexer_cli : Cli := {|
  migrations_path := "./indexer/migrations"; consensus_rpc := "ws://consensus";
  auto_evm_rpc := "ws://auto-evm"; db_uri := "postgres://"; process_blocks_in_parallel := 1000 |}.

(** The nodes name different account formats: that of the domain stays. *)
Lemma indexer_starts_whole_witness :
  exists p, start_indexer toy_indexer_env toy_indexer_cli new_process = (p, Ok tt) /\
    ss58_version p = 2254 /\ NoDup (omap task_key (spawned p)).
Proof.
  destruct (start_indexer toy_indexer_env toy_indexer_cli new_process) as [p r] eqn:Hs.
  destruct (indexer_starts_whole toy_indexer_env toy_indexer_cli (fun _ => Diverge))
    as (Hok & Hall & _).
  assert (Hr : r = Ok tt) by (vm_compute in Hs; injection Hs as _ <-; reflexivity).
  subst r. exists p. split; [reflexivity|]. split; [|apply (Hall p _ Hs)].
  destruct (Hok p Hs) as (dc & da & _ & Hda & _ & ->).
  vm_compute in Hda. injection Hda as <-. reflexivity.
Defined.
