(* ===== verification/TestUtils.v ===== *)
(** * The indexer's tests, run on the model: fixtures

    [indexer/src/test_utils.rs]: an empty database and sample rows. A test is code over a
    database that returns nothing: what it asserts, unwraps or indexes panics when it does not
    hold, so that a test passes when it ends with [Ok tt]. [StorageTests] translates
    the tests of the database. *)

From S2P Require Import Prelude Types Db IndexerError.

(** ** Tests *)

Definition Test (A : Type) : Type := SE Db Empty_set A.

(** [Result::ok] of a call. *)
Definition result {E A} (m : SE Db E A) : Test (option A) := fun db =>
  match m db with
  | (db', Ok a) => (db', Ok (Some a))
  | (db', Err _) => (db', Ok None)
  | (db', Panic) => (db', Panic)
  | (db', Diverge) => (db', Diverge)
  end.

(** [Option::unwrap], and [Result::unwrap] of a call and of a value. *)
Definition some {A} (o : option A) : Test A := lift (expect o).
Definition unwrap {E A} (m : SE Db E A) : Test A := r ← result m; some r.
Definition unwrap_value {E A} (r : outcome E A) : Test A := unwrap (lift r).

(** [assert!], and [assert_eq!] with values that can be compared. *)
Definition assert (b : bool) : Test unit := if b then mret tt else panic.
Definition assert_eq {A} `{EqDecision A} (a b : A) : Test unit := assert (bool_decide (a = b)).

Definition is_some {A} (o : option A) : bool := match o with Some _ => true | None => false end.

(** Indexing panics out of range. *)
Definition nth_row {A} (rows : list A) (i : nat) : Test A := some (rows !! i).

Definition passes (test : Test unit) (db : Db) : bool :=
  match (test db).2 with Ok _ => true | _ => false end.

(** ** Fixtures *)

(** The new database, migrated, at some time. *)
Definition get_db (time : Z) : Db := {| tables := no_tables; faults := []; now := time |}.

(** [Decimal::new(mantissa, scale)]. *)
Class DecimalNew `{DecimalLib} : Type := { decimal_new : Z -> Z -> Decimal }.

Section Fixtures.
Context `{DecimalLib, !DecimalNew, Chrono}.

Definition sample_operator (operator_id : Z) : Test UpsertOperator :=
  block_time ← some (from_timestamp_millis 1700000000000);
  mret {| uo_operator_id := operator_id;
          uo_domain_id := 0;
          uo_owner_account := "owner_" +:+ pretty operator_id;
          uo_signing_key := "0xsigning_key_" +:+ pretty operator_id;
          uo_minimum_nominator_stake := 1000000000000000000;
          uo_nomination_tax := 5;
          uo_status := "registered";
          uo_total_stake := 50000000000000000000;
          uo_total_shares := 50000000000000000000;
          uo_total_storage_fee_deposit := 1000000000000000000;
          uo_block_time := block_time |}.

Definition sample_share_price (operator_id epoch_index block_height : Z) : Test UpsertSharePrice :=
  block_time ← some (from_timestamp_millis (1700000000000 + epoch_index * 60000));
  mret {| usp_operator_id := operator_id;
          usp_domain_id := 0;
          usp_epoch_index := epoch_index;
          usp_share_price := decimal_new 1000000000000000000 18;
          usp_total_stake := 50000000000000000000;
          usp_total_shares := 50000000000000000000;
          usp_block_height := block_height;
          usp_block_time := block_time |}.
End Fixtures.
