(* ===== verification/StorageTests.v ===== *)
(** * The indexer's tests of the database, run on the model

    The tests of [indexer/src/storage.rs] that need no node, one definition for each. All
    of them pass on the model of the database ([storage_tests_pass]): it behaves as the authors
    checked that Postgres does, the guards of concurrent writes and the order of rows included. *)

From S2P Require Import Prelude Types Db IndexerError ToyIndexer TestUtils.

(** ** Checkpoints *)

Definition test_store_last_processed_block : Test unit :=
  let process := "test-process" in
  last_processed_block ← result (get_last_processed_block process);
  _ ← assert (negb (is_some last_processed_block));
  let block := 100 in
  _ ← unwrap (set_last_processed_block process block);
  last_processed_block ← unwrap (get_last_processed_block process);
  _ ← assert_eq last_processed_block block;
  let block := 200 in
  _ ← unwrap (set_last_processed_block process block);
  last_processed_block ← unwrap (get_last_processed_block process);
  assert_eq last_processed_block block.

(** ** Operators *)

Section Operators.
Context `{Chrono}.

(** [db.get_operator(id).await.unwrap().unwrap()]. *)
Definition the_operator (operator_id : Z) : Test OperatorRow :=
  row ← unwrap (get_operator operator_id);
  some row.

(** [db.upsert_operator(sample_operator(id)).await.unwrap()]. *)
Definition insert_sample (operator_id : Z) : Test unit :=
  op ← sample_operator operator_id;
  unwrap (upsert_operator op).

Definition with_stake_and_status (total_stake : Z) (status : string) (op : UpsertOperator)
    : UpsertOperator := {|
  uo_operator_id := uo_operator_id op; uo_domain_id := uo_domain_id op;
  uo_owner_account := uo_owner_account op; uo_signing_key := uo_signing_key op;
  uo_minimum_nominator_stake := uo_minimum_nominator_stake op;
  uo_nomination_tax := uo_nomination_tax op; uo_status := status; uo_total_stake := total_stake;
  uo_total_shares := uo_total_shares op;
  uo_total_storage_fee_deposit := uo_total_storage_fee_deposit op;
  uo_block_time := uo_block_time op |}.

Definition test_upsert_operator_insert_and_update : Test unit :=
  op ← sample_operator 1;
  _ ← unwrap (upsert_operator op);
  row ← the_operator 1;
  _ ← assert_eq (or_operator_id row) "1";
  _ ← assert_eq (or_domain_id row) "0";
  _ ← assert_eq (or_signing_key row) "0xsigning_key_1";
  _ ← assert_eq (or_status row) "registered";
  _ ← assert_eq (or_nomination_tax row) 5;
  op2 ← sample_operator 1;
  let op2 := with_stake_and_status 100000000000000000000 "deregistered" op2 in
  _ ← unwrap (upsert_operator op2);
  row ← the_operator 1;
  _ ← assert_eq (or_status row) "deregistered";
  _ ← assert_eq (or_total_stake row) "100000000000000000000";
  assert_eq (or_signing_key row) "0xsigning_key_1".

Definition test_update_operator_status : Test unit :=
  _ ← insert_sample 2;
  _ ← unwrap (update_operator_status 2 "deregistered");
  row ← the_operator 2;
  _ ← assert_eq (or_status row) "deregistered";
  _ ← unwrap (update_operator_status 2 "registered");
  row ← the_operator 2;
  assert_eq (or_status row) "registered".

Definition test_update_operator_stats : Test unit :=
  _ ← insert_sample 3;
  new_time ← some (from_timestamp_millis 1700001000000);
  _ ← unwrap (update_operator_stats 3 "registered" 999 888 777 new_time);
  row ← the_operator 3;
  _ ← assert_eq (or_total_stake row) "999";
  _ ← assert_eq (or_total_shares row) "888";
  assert_eq (or_total_storage_fee_deposit row) "777".

Definition test_update_operator_stats_noop_for_missing_operator : Test unit :=
  time ← some (from_timestamp_millis 1700000000000);
  res ← result (update_operator_stats 99 "registered" 1 1 1 time);
  _ ← assert (is_some res);
  row ← unwrap (get_operator 99);
  assert (negb (is_some row)).

Definition test_get_all_operators_sorted : Test unit :=
  _ ← insert_sample 5;
  _ ← insert_sample 2;
  _ ← insert_sample 10;
  all ← unwrap get_all_operators;
  _ ← assert_eq (length all) 3%nat;
  first ← nth_row all 0;
  _ ← assert_eq (or_operator_id first) "2";
  second ← nth_row all 1;
  _ ← assert_eq (or_operator_id second) "5";
  third ← nth_row all 2;
  assert_eq (or_operator_id third) "10".

Definition test_get_operator_not_found : Test unit :=
  row ← unwrap (get_operator 999);
  assert (negb (is_some row)).
End Operators.

(** ** Nominators *)

Definition test_upsert_nominator_block_height_guard : Test unit :=
  let addr := "st1234567890abcdef" in
  _ ← unwrap (upsert_nominator 1 addr "active" 10);
  count ← unwrap (get_active_nominator_count 1);
  _ ← assert_eq count 1;
  _ ← unwrap (upsert_nominator 1 addr "withdrawn" 5);
  count ← unwrap (get_active_nominator_count 1);
  _ ← assert_eq count 1;
  _ ← unwrap (upsert_nominator 1 addr "withdrawn" 15);
  count ← unwrap (get_active_nominator_count 1);
  assert_eq count 0.

Definition test_upsert_nominator_same_block_overwrites : Test unit :=
  let addr := "st_same_block" in
  _ ← unwrap (upsert_nominator 1 addr "active" 10);
  _ ← unwrap (upsert_nominator 1 addr "withdrawn" 10);
  count ← unwrap (get_active_nominator_count 1);
  assert_eq count 0.

Definition test_get_active_nominator_count_multiple_operators : Test unit :=
  _ ← unwrap (upsert_nominator 1 "addr_a" "active" 10);
  _ ← unwrap (upsert_nominator 1 "addr_b" "active" 10);
  _ ← unwrap (upsert_nominator 1 "addr_c" "withdrawn" 10);
  _ ← unwrap (upsert_nominator 2 "addr_a" "active" 10);
  count ← unwrap (get_active_nominator_count 1);
  _ ← assert_eq count 2;
  count ← unwrap (get_active_nominator_count 2);
  _ ← assert_eq count 1;
  count ← unwrap (get_active_nominator_count 99);
  assert_eq count 0.

(** ** Share prices *)

Section Prices.
Context `{DecimalLib, !DecimalNew, Chrono}.

Definition with_stake_and_price (total_stake : Z) (share_price : Decimal) (sp : UpsertSharePrice)
    : UpsertSharePrice := {|
  usp_operator_id := usp_operator_id sp; usp_domain_id := usp_domain_id sp;
  usp_epoch_index := usp_epoch_index sp; usp_share_price := share_price;
  usp_total_stake := total_stake; usp_total_shares := usp_total_shares sp;
  usp_block_height := usp_block_height sp; usp_block_time := usp_block_time sp |}.

(** [db.upsert_epoch_share_price(sample_share_price(..)).await.unwrap()]. *)
Definition insert_sample_price (operator_id epoch_index block_height : Z) : Test unit :=
  sp ← sample_share_price operator_id epoch_index block_height;
  unwrap (upsert_epoch_share_price sp).

(** The epochs of the first rows. *)
Definition assert_epochs (rows : list SharePriceRow) (epochs : list Z) : Test unit :=
  _ ← assert_eq (length rows) (length epochs);
  for_each (imap pair epochs) (fun '(i, epoch) =>
    row ← nth_row rows i;
    assert_eq (spr_epoch_index row) epoch).

Definition test_upsert_epoch_share_price_overwrites_on_reorg : Test unit :=
  _ ← insert_sample_price 1 5 1000;
  rows ← unwrap (get_share_prices_latest 1 10);
  _ ← assert_eq (length rows) 1%nat;
  row ← nth_row rows 0;
  _ ← assert_eq (spr_total_stake row) "50000000000000000000";
  sp2 ← sample_share_price 1 5 1001;
  let sp2 := with_stake_and_price 99000000000000000000 (decimal_new 1050000000000000000 18) sp2 in
  _ ← unwrap (upsert_epoch_share_price sp2);
  rows ← unwrap (get_share_prices_latest 1 10);
  _ ← assert_eq (length rows) 1%nat;
  row ← nth_row rows 0;
  _ ← assert_eq (spr_total_stake row) "99000000000000000000";
  assert_eq (spr_block_height row) "1001".

Definition insert_five_epochs : Test unit :=
  for_each (range_incl 1 5) (fun epoch => insert_sample_price 1 epoch (epoch * 100)).

Definition test_get_share_prices_latest_with_limit : Test unit :=
  _ ← insert_five_epochs;
  rows ← unwrap (get_share_prices_latest 1 3);
  assert_epochs rows [5; 4; 3].

Definition test_get_share_prices_since : Test unit :=
  _ ← insert_five_epochs;
  since ← some (from_timestamp_millis (1700000000000 + 3 * 60000));
  rows ← unwrap (get_share_prices_since 1 since 50);
  assert_epochs rows [3; 4; 5].

Definition test_get_share_prices_until : Test unit :=
  _ ← insert_five_epochs;
  until ← some (from_timestamp_millis (1700000000000 + 3 * 60000));
  rows ← unwrap (get_share_prices_until 1 until 50);
  assert_epochs rows [3; 2; 1].

Definition test_share_prices_different_operators_isolated : Test unit :=
  _ ← insert_sample_price 1 1 100;
  _ ← insert_sample_price 1 2 200;
  _ ← insert_sample_price 2 1 100;
  rows ← unwrap (get_share_prices_latest 1 50);
  _ ← assert_eq (length rows) 2%nat;
  rows ← unwrap (get_share_prices_latest 2 50);
  _ ← assert_eq (length rows) 1%nat;
  rows ← unwrap (get_share_prices_latest 99 50);
  assert_eq (length rows) 0%nat.
End Prices.

(** ** They pass *)

(** Decimals with 18 fractional digits. *)
#[export] Instance toy_decimal_new : DecimalNew := {
  decimal_new mantissa scale := mantissa * 10 ^ (18 - scale) }.

Definition storage_tests : list (Test unit) := [
  test_store_last_processed_block;
  test_upsert_operator_insert_and_update; test_update_operator_status;
  test_update_operator_stats; test_update_operator_stats_noop_for_missing_operator;
  test_get_all_operators_sorted; test_get_operator_not_found;
  test_upsert_nominator_block_height_guard; test_upsert_nominator_same_block_overwrites;
  test_get_active_nominator_count_multiple_operators;
  test_upsert_epoch_share_price_overwrites_on_reorg; test_get_share_prices_latest_with_limit;
  test_get_share_prices_since; test_get_share_prices_until;
  test_share_prices_different_operators_isolated].

(** Every test passes, whenever it is run. *)
Lemma storage_tests_pass time : Forall (fun test => passes test (get_db time) = true) storage_tests.
Proof. repeat constructor; vm_compute; reflexivity. Qed.
