(* ===== verification/NodeTests.v ===== *)
(** * The indexer's tests against a node, run on the model

    The tests of [indexer/src/xdm.rs], [staking.rs], [rpc_types.rs] and [storage.rs] that
    read known blocks of the network. What a URL leads to, the hash and the account a text denotes
    are parameters; the tests pass on a network that has blocks like those
    ([node_tests_pass]). The SS58 format some tests set only changes the text of accounts, and
    none looks at it. *)

From Stdlib Require Import Strings.Byte.
From S2P Require Import Prelude HeadersCache BlockListener ToyChain Scale ScaleLE RpcTypes Types.
From S2P Require Import Events Chain Db IndexerError ToyIndexer Staking Xdm TestUtils.

Section Tests.
Context `{ChainTypes, ScaleCodec, EventCodec, Twox, TextCodecs, HashBytes, DecimalLib, Chrono,
  TransferCodec}.

(** [SubspaceBlockProvider]. *)
Record Provider : Type := { pv_node : RpcNode; pv_client : Client }.

(** [Subspace::new_from_url(url).await], [H256::from_str] and [AccountId32::from_str]. *)
Context (new_from_url : string -> option Provider) (hash_from_str : string -> option Hash)
  (account_from_str : string -> option (list byte)).

(** [U256::from(n).into()]. *)
Definition u256_from (n : Z) : U256Compat := {|
  limb0 := as_u 64 n; limb1 := as_u 64 (n / 2 ^ 64); limb2 := as_u 64 (n / 2 ^ 128);
  limb3 := as_u 64 (n / 2 ^ 192) |}.

Definition evm_domain : ChainId := Domain {| domain_id := 0 |}.

Definition MAINNET : string := "wss://rpc.mainnet.autonomys.xyz/ws".
Definition AUTO_EVM : string := "wss://auto-evm.mainnet.autonomys.xyz/ws".

(** The provider of a URL and a block of it. *)
Definition block_of (url block_hash : string) : Test (Provider * BlockExt) :=
  subspace ← some (new_from_url url);
  hash ← some (hash_from_str block_hash);
  block_ext ← unwrap_value (block_ext_at_hash (pv_node subspace) hash);
  mret (subspace, block_ext).

(** ** Transfers *)

(** The single event of a block, and its provider. *)
Definition xdm_events_of (chain : ChainId) (url block_hash : string)
    : Test (Provider * BlockExt * list Event) :=
  '(subspace, block_ext) ← block_of url block_hash;
  events ← unwrap_value (extract_xdm_events_for_block (pv_client subspace) chain
    (be_hash block_ext));
  _ ← assert_eq (length events) 1%nat;
  mret (subspace, block_ext, events).

Definition xdm_event_of (chain : ChainId) (url block_hash : string) : Test Event :=
  '(_, _, events) ← xdm_events_of chain url block_hash;
  some (last events).

Definition INITIATED_HASH : string :=
  "0x9e1d5eb5fddee84865824bb7b2c99c30573214f824a03a1a427843508bb6dad1".
Definition FAILED_HASH : string :=
  "0x950efc4f83b80076ba175723e206515c494ac9a3715209f2c6cc0b1111aca9c7".
Definition SUCCESSFUL_HASH : string :=
  "0x09fc01ebf1791bd1e6f69d771e9672932cd450fd072cbf8fe4faeef100048343".
Definition INCOMING_HASH : string :=
  "0xcfcdfe0ab17288e67240d3d9d95074139b24d917c6f0352e2055e62001d4e92d".
Definition EVM_INITIATED_HASH : string :=
  "0xa3224142b5bf1ae57ed7f757f830806a0a153af701adfe52a5a740f3ede3aeea".
Definition EVM_SUCCESSFUL_HASH : string :=
  "0x823a47e998c0d699e52f50592136bc7f9f3807935a97bfd93196cce6242812ea".

(** The transfers the chains have stored, by the account of the sender of the first. *)
Definition consensus_transfer (sender : list byte) : Transfer := {|
  tr_amount := 1000000000000000000;
  tr_sender := {| chain_id := Consensus; account_id := AccountId32 sender |};
  tr_receiver := {| chain_id := evm_domain; account_id := AccountId20
    [x6f; xeb; xb2; x0d; x01; xfc; x1b; x22; xdb; xf1; x5e; x67; xa5; x8f; xa8; x5f; xa5; xf6;
     x4c; x8d] |} |}.

Definition evm_transfer : Transfer := {|
  tr_amount := 66400000000000000000000;
  tr_sender := {| chain_id := evm_domain; account_id := AccountId20
    [xba; x36; x13; x0e; x55; xc8; xc7; x94; xc6; x82; x9f; x4b; x28; x43; xf7; x8b; x52; xf3;
     x4d; xfe] |};
  tr_receiver := {| chain_id := Consensus; account_id := AccountId32 (repeat x00 32) |} |}.

Definition test_consensus_outgoing_transfer_initiated : Test unit :=
  event ← xdm_event_of Consensus MAINNET INITIATED_HASH;
  sender ← some (account_from_str "sucPReEfVCRPV1cQB3o2N83yPqJBjnUpAfbS5eFWeu6amCJcE");
  assert_eq event (EvOutgoingTransferInitiated
    {| otw_message_id := (u256_from 0, u256_from 1);
       otw_transfer := consensus_transfer sender |}).

Definition test_consensus_outgoing_transfer_failed : Test unit :=
  event ← xdm_event_of Consensus MAINNET FAILED_HASH;
  assert_eq event (EvOutgoingTransferFailed
    {| otf_chain_id := evm_domain; otf_message_id := (u256_from 0, u256_from 34) |}).

Definition test_consensus_outgoing_transfer_successful : Test unit :=
  event ← xdm_event_of Consensus MAINNET SUCCESSFUL_HASH;
  assert_eq event (EvOutgoingTransferSuccessful
    {| ots_chain_id := evm_domain; ots_message_id := (u256_from 0, u256_from 1) |}).

Definition test_consensus_incoming_transfer_successful : Test unit :=
  event ← xdm_event_of Consensus MAINNET INCOMING_HASH;
  assert_eq event (EvIncomingTransferSuccessful
    {| its_chain_id := evm_domain; its_message_id := (u256_from 0, u256_from 0);
       its_amount := 1000000000000000000 |}).

Definition test_evm_domain_outgoing_transfer_initiated : Test unit :=
  event ← xdm_event_of evm_domain AUTO_EVM EVM_INITIATED_HASH;
  assert_eq event (EvOutgoingTransferInitiated
    {| otw_message_id := (u256_from 0, u256_from 102); otw_transfer := evm_transfer |}).

Definition test_evm_domain_outgoing_transfer_successful : Test unit :=
  event ← xdm_event_of evm_domain AUTO_EVM EVM_SUCCESSFUL_HASH;
  assert_eq event (EvOutgoingTransferSuccessful
    {| ots_chain_id := Consensus; ots_message_id := (u256_from 0, u256_from 102) |}).

(** ** Storing them *)

Definition store_events_of (chain : ChainId) (url block_hash : string) : Test unit :=
  '(subspace, block_ext, events) ← xdm_events_of chain url block_hash;
  let block := {| hn_number := be_number block_ext; hn_hash := be_hash block_ext |} in
  millis ← unwrap_value (timestamp (pv_client subspace) (be_hash block_ext));
  block_time ← some (from_timestamp_millis (as_i 64 millis));
  unwrap (store_events chain block block_time events).

Definition test_store_consensus_outgoing_transfer_initiated : Test unit :=
  store_events_of Consensus MAINNET INITIATED_HASH.
Definition test_store_consensus_outgoing_transfer_failed : Test unit :=
  store_events_of Consensus MAINNET FAILED_HASH.
Definition test_store_consensus_outgoing_transfer_successful : Test unit :=
  store_events_of Consensus MAINNET SUCCESSFUL_HASH.
Definition test_store_consensus_incoming_transfer_successful : Test unit :=
  store_events_of Consensus MAINNET INCOMING_HASH.
Definition test_store_evm_domain_outgoing_transfer_initiated : Test unit :=
  store_events_of evm_domain AUTO_EVM EVM_INITIATED_HASH.
Definition test_store_evm_domain_outgoing_transfer_successful : Test unit :=
  store_events_of evm_domain AUTO_EVM EVM_SUCCESSFUL_HASH.

(** ** Staking *)

Definition OPERATOR_REGISTERED_HASH : string :=
  "0x9749ce3959c6e613a85f1576331ebb138aa3f00492dcde3b37ae978bb399c364".
Definition DOMAIN_EPOCH_COMPLETED_HASH : string :=
  "0xb26dc651dd8317b593775da3202061dd0c1dea817e0e60c5f0f4b14c6f9efb39".
Definition OPERATOR_NOMINATED_HASH : string :=
  "0x5df7664c6e14422fdbbc68f5d78f4252e2151bce887b9659e4eea53df59e3f74".

(** [events.find::<E>().filter_map(|e| e.ok()).collect()] of a block. *)
Definition found (k : EventKind) (subspace : Provider) (block_ext : BlockExt)
    : Test (list (event_of k)) :=
  evs ← unwrap_value (events (pv_client subspace) (be_hash block_ext));
  mret (omap (fun r => match r with Ok e => Some e | _ => None end) (find k evs)).

(** The first of them; there must be one. *)
Definition first_found (k : EventKind) (subspace : Provider) (block_ext : BlockExt)
    : Test (event_of k) :=
  evs ← found k subspace block_ext;
  _ ← assert (negb (bool_decide (length evs = 0%nat)));
  nth_row evs 0.

Definition read_operator (subspace : Provider) (block_ext : BlockExt) (operator_id : Z)
    : Test FullOperator :=
  unwrap_value (read_storage decode_operator (pv_client subspace) (be_hash block_ext) "Domains"
    "Operators" [ArgU64 operator_id]).

Definition has_stake (op : FullOperator) : bool :=
  (0 <? fo_current_total_stake op) || (0 <? fo_current_total_shares op).

Definition test_decode_operator_registered : Test unit :=
  '(subspace, block_ext) ← block_of MAINNET OPERATOR_REGISTERED_HASH;
  e ← first_found KOperatorRegistered subspace block_ext;
  _ ← assert (0 <? oe_operator_id e);
  op ← read_operator subspace block_ext (oe_operator_id e);
  _ ← assert (has_stake op);
  _owner ← unwrap_value (read_storage decode_bytes32 (pv_client subspace) (be_hash block_ext)
    "Domains" "OperatorIdOwner" [ArgU64 (oe_operator_id e)]);
  mret tt.

Definition test_decode_operator_nominated : Test unit :=
  '(subspace, block_ext) ← block_of MAINNET OPERATOR_NOMINATED_HASH;
  e ← first_found KOperatorNominated subspace block_ext;
  _ ← assert (0 <? on_operator_id e);
  assert (negb (bool_decide (on_nominator_id e = repeat x00 32))).

Definition test_decode_domain_epoch_completed : Test unit :=
  '(subspace, block_ext) ← block_of MAINNET DOMAIN_EPOCH_COMPLETED_HASH;
  e ← first_found KDomainEpochCompleted subspace block_ext;
  assert (0 <? dec_completed_epoch_index e).

(** [index_staking_for_block(block_number, &test_db.db, &subspace).await.unwrap()]. *)
Definition index_block (subspace : Provider) (block_ext : BlockExt) : Test unit :=
  unwrap (index_staking_for_block (pv_node subspace) (pv_client subspace) (be_number block_ext)).

Definition test_index_staking_operator_registered : Test unit :=
  '(subspace, block_ext) ← block_of MAINNET OPERATOR_REGISTERED_HASH;
  _ ← index_block subspace block_ext;
  e ← first_found KOperatorRegistered subspace block_ext;
  let operator_id := oe_operator_id e in
  row ← unwrap (get_operator (as_i 64 operator_id));
  _ ← assert (is_some row);
  row ← some row;
  _ ← assert_eq (or_operator_id row) (pretty operator_id);
  _ ← assert_eq (or_status row) "registered";
  _ ← assert (negb (bool_decide (or_signing_key row = "")));
  assert (String.prefix "0x" (or_signing_key row)).

Definition test_index_staking_operator_nominated : Test unit :=
  '(subspace, block_ext) ← block_of MAINNET OPERATOR_NOMINATED_HASH;
  e ← first_found KOperatorNominated subspace block_ext;
  let operator_id := on_operator_id e in
  op ← sample_operator operator_id;
  _ ← unwrap (upsert_operator op);
  _ ← index_block subspace block_ext;
  count ← unwrap (get_active_nominator_count (as_i 64 operator_id));
  assert (0 <? count).

Definition test_index_staking_domain_epoch_completed : Test unit :=
  '(subspace, block_ext) ← block_of MAINNET DOMAIN_EPOCH_COMPLETED_HASH;
  e ← first_found KDomainEpochCompleted subspace block_ext;
  summary ← unwrap_value (read_storage decode_staking_summary (pv_client subspace)
    (be_hash block_ext) "Domains" "DomainStakingSummary" [ArgDomain (dec_domain_id e)]);
  let keys := btree_keys (current_operators summary) in
  _ ← assert (negb (bool_decide (length keys = 0%nat)));
  _ ← for_each keys (fun op_id =>
    op ← sample_operator op_id;
    unwrap (upsert_operator op));
  _ ← index_block subspace block_ext;
  first_op_id ← some (head keys);
  rows ← unwrap (get_share_prices_latest (as_i 64 first_op_id) 10);
  assert (negb (bool_decide (length rows = 0%nat))).

(** ** Storage entries *)

Definition WITHDREW_STAKE_BLOCK : Z := 6718423.

(** The provider, the block of a withdrawal, and its withdrawals; there must be one. *)
Definition withdrawals_of : Test (Provider * BlockExt * list NominatorEvent) :=
  subspace ← some (new_from_url MAINNET);
  block_ext ← unwrap_value (block_ext_at_number (pv_node subspace) WITHDREW_STAKE_BLOCK);
  withdrew ← found KWithdrewStake subspace block_ext;
  _ ← assert (negb (bool_decide (length withdrew = 0%nat)));
  mret (subspace, block_ext, withdrew).

Definition test_decode_nominator_withdrawal : Test unit :=
  '(subspace, block_ext, withdrew) ← withdrawals_of;
  for_each withdrew (fun e =>
    found ← unwrap_value (try_read_storage decode_withdrawal (pv_client subspace)
      (be_hash block_ext) "Domains" "Withdrawals"
      [ArgU64 (ne_operator_id e); ArgAccount (ne_nominator_id e)]);
    withdrawal ← some found;
    assert ((0 <? nw_shares withdrawal) || (0 <? nw_amount withdrawal))).

Definition test_decode_full_operator : Test unit :=
  '(subspace, block_ext) ← block_of MAINNET OPERATOR_REGISTERED_HASH;
  e ← first_found KOperatorRegistered subspace block_ext;
  op ← read_operator subspace block_ext (oe_operator_id e);
  _ ← assert (has_stake op);
  _ ← assert_eq (as_str (fo_status op)) "registered";
  assert (0 <? fo_minimum_nominator_stake op).

Definition test_decode_full_operator_at_recent_block : Test unit :=
  '(subspace, block_ext, withdrew) ← withdrawals_of;
  e ← nth_row withdrew 0;
  op ← read_operator subspace block_ext (ne_operator_id e);
  assert (negb (forallb (fun b => bool_decide (b = x00)) (fo_signing_key op))).

Definition node_tests : list (Test unit) := [
  test_consensus_outgoing_transfer_initiated; test_consensus_outgoing_transfer_failed;
  test_consensus_outgoing_transfer_successful; test_consensus_incoming_transfer_successful;
  test_evm_domain_outgoing_transfer_initiated; test_evm_domain_outgoing_transfer_successful;
  test_store_consensus_outgoing_transfer_initiated; test_store_consensus_outgoing_transfer_failed;
  test_store_consensus_outgoing_transfer_successful;
  test_store_consensus_incoming_transfer_successful;
  test_store_evm_domain_outgoing_transfer_initiated;
  test_store_evm_domain_outgoing_transfer_successful;
  test_decode_operator_registered; test_decode_operator_nominated;
  test_decode_domain_epoch_completed; test_index_staking_operator_registered;
  test_index_staking_operator_nominated; test_index_staking_domain_epoch_completed;
  test_decode_nominator_withdrawal; test_decode_full_operator;
  test_decode_full_operator_at_recent_block].
End Tests.

(** ** A network with such blocks *)

(** The hash of a block of [ToyChain]'s kind stands for each of the source's. *)
Definition net_block (n : Z) (branch : Z) : SubstrateHeader := toy_block root n [branch].

Definition net_hashes : list (string * SubstrateHeader) := [
  (INITIATED_HASH, net_block 1 1); (FAILED_HASH, net_block 2 1);
  (SUCCESSFUL_HASH, net_block 3 1); (INCOMING_HASH, net_block 4 1);
  (EVM_INITIATED_HASH, net_block 1 2); (EVM_SUCCESSFUL_HASH, net_block 2 2);
  (OPERATOR_REGISTERED_HASH, net_block 5 1); (OPERATOR_NOMINATED_HASH, net_block 6 1);
  (DOMAIN_EPOCH_COMPLETED_HASH, net_block 7 1);
  ("withdrawal", net_block WITHDREW_STAKE_BLOCK 1)].

Definition net_hash (text : string) : option Hash :=
  (fun kv => toy_id kv.2) <$> List.find (fun kv => bool_decide (kv.1 = text)) net_hashes.

(** The chain of a branch. *)
Definition net_node (branch : Z) : RpcNode := {|
  rpc_block_hash n := Ok (if existsb (fun kv => bool_decide (toy_id kv.2 = toy_id (net_block n branch))) net_hashes
    then Some (toy_id (net_block n branch)) else None);
  rpc_headers := list_to_map ((fun kv => (toy_id kv.2, kv.2)) <$> net_hashes);
  rpc_header_failure _ := None |}.

Definition account : list byte := repeat x0a 32.

(** One byte tells the two stored transfers apart. *)
#[local] Instance net_transfers : TransferCodec := {
  decode_transfer := n ← decode_u8;
    mret (if n =? 0 then consensus_transfer account else evm_transfer) }.

Definition fresh_operator : OnChainOperator := {|
  oo_signing_key := repeat x0b 32; oo_current_domain_id := 0; oo_next_domain_id := 0;
  oo_minimum_nominator_stake := 10 ^ 18; oo_nomination_tax := 5;
  oo_current_total_stake := 10 ^ 20; oo_current_total_shares := 10 ^ 20;
  oo_status := OcRegistered; oo_deposits_in_epoch := 0; oo_withdrawals_in_epoch := 0;
  oo_total_storage_fee_deposit := 10 ^ 18 |}.

Definition one_withdrawal : OnChainWithdrawals := {|
  ow_total_withdrawal_amount := 30; ow_total_storage_fee_withdrawal := 3;
  ow_withdrawals := [{| ow_unlock_at := 5; ow_amount_to_unlock := 10; ow_storage_fee_refund := 1 |}];
  ow_withdrawal_in_shares := None |}.

Definition net_message (nonce : Z) : XdmMessageId := (u256_from 0, u256_from nonce).

(** The events of each block. *)
Definition net_events (branch : Z) (hash : Hash) : list EventDetails :=
  let at_block n b (ev : EventDetails) :=
    if bool_decide (hash = toy_id (net_block n b)) then [ev] else [] in
  let transfer_of chain nonce := event KOutgoingTransferInitiated
    {| oti_chain_id := chain; oti_message_id := net_message nonce; oti_amount := 0 |} in
  if branch =? 1 then
    at_block 1 1 (transfer_of evm_domain 1) ++
    at_block 2 1 (event KOutgoingTransferFailed
      {| otf_chain_id := evm_domain; otf_message_id := net_message 34 |}) ++
    at_block 3 1 (event KOutgoingTransferSuccessful
      {| ots_chain_id := evm_domain; ots_message_id := net_message 1 |}) ++
    at_block 4 1 (event KIncomingTransferSuccessful
      {| its_chain_id := evm_domain; its_message_id := net_message 0; its_amount := 10 ^ 18 |}) ++
    at_block 5 1 (event KOperatorRegistered {| oe_operator_id := 3 |}) ++
    at_block 6 1 (event KOperatorNominated
      {| on_operator_id := 3; on_nominator_id := account; on_amount := 100 |}) ++
    at_block 7 1 (event KDomainEpochCompleted
      {| dec_domain_id := {| domain_id := 0 |}; dec_completed_epoch_index := 9 |}) ++
    at_block WITHDREW_STAKE_BLOCK 1 (event KWithdrewStake
      {| ne_operator_id := 3; ne_nominator_id := account |})
  else
    at_block 1 2 (transfer_of Consensus 102) ++
    at_block 2 2 (event KOutgoingTransferSuccessful
      {| ots_chain_id := Consensus; ots_message_id := net_message 102 |}).

(** The node of the domain has its events in one segment. *)
Definition net_client (branch : Z) : Client :=
  let q pallet storage args :=
    {| q_pallet := pallet; q_storage := storage; q_args := args |} in
  let domain := {| domain_id := 0 |} in
  let c hash := toy_client
    [ (q "Timestamp" "Now" [], encode_u64 1700000000000);
      (q "System" "EventCount" [], encode_u32 (Z.of_nat (length (net_events branch hash))));
      (q "Transporter" "OutgoingTransfers" [ArgChain evm_domain; ArgMessage (net_message 1)],
         encode_u8 0);
      (q "Transporter" "OutgoingTransfers" [ArgChain Consensus; ArgMessage (net_message 102)],
         encode_u8 1);
      (q "Domains" "Operators" [ArgU64 3], encode_operator fresh_operator);
      (q "Domains" "OperatorIdOwner" [ArgU64 3], account);
      (q "Domains" "Withdrawals" [ArgU64 3; ArgAccount account], encode_withdrawals one_withdrawal);
      (q "Domains" "DomainStakingSummary" [ArgDomain domain],
         encode_u32 9 ++ encode_u128 100 ++ encode_map_u64_u128 {[3 := 100]});
      (q "Domains" "OperatorEpochSharePrice"
         [ArgU64 3; ArgDomainEpoch {| de_domain := domain; de_epoch := 9 |}],
         encode_u64 (10 ^ 18)) ]
    (Ok <$> net_events branch hash) 100 [net_events branch hash] in {|
  cl_fetch hash := cl_fetch (c hash) hash;
  cl_iter hash := cl_iter (c hash) hash;
  cl_events hash := cl_events (c hash) hash;
  cl_segment_size := Ok 100;
  cl_fetch_value key hash :=
    if bool_decide (key = system_event_segment_key 0)
    then Ok (Some (hash_bytes hash)) else Ok None;
  cl_decode_events data :=
    Ok <$> concat ((fun kv => if bool_decide (hash_bytes (toy_id kv.2) = data)
                              then net_events branch (toy_id kv.2) else []) <$> net_hashes) |}.

Definition net_url (url : string) : option Provider :=
  if bool_decide (url = MAINNET) then Some {| pv_node := net_node 1; pv_client := net_client 1 |}
  else if bool_decide (url = AUTO_EVM)
  then Some {| pv_node := net_node 2; pv_client := net_client 2 |}
  else None.

(** Every test passes on this network, whenever it is run. *)
Lemma node_tests_pass time : Forall (fun test => passes test (get_db time) = true)
  (node_tests net_url net_hash (fun _ => Some account)).
Proof. repeat constructor; vm_compute; reflexivity. Qed.
